(* ===== verification/_CoqProject ===== *)
-Q . S2P
Prelude.v
GoStrings.v
Float.v
GoParse.v
Store.v
Request.v
Limiter.v
Engine.v
Guarantees.v
Redis.v
RedisStore.v
TokenBucket.v
Quota.v
TokenQuota.v
NetIP.v
Keyer.v
HttpApi.v
Mux.v
Observability.v
ConfigEnv.v
ConfigFile.v
ConfigBuild.v
Wiring.v
Service.v
Breaker.v
BlockCache.v
Blocks.v
Chain.v
Fake.v
Program.v
Process.v
Concurrent.v
Accounts.v
Ledgers.v
Fleet.v
Outage.v
