(* ===== verification/Prelude.v ===== *)
(** * forwardlimit: verification development

    forwardlimit answers a reverse proxy's ForwardAuth calls: for each request the
    proxy asks [/check], the service decides with a list of limiters whose counters
    live in Redis, and answers 200 or a rejection.  This library models the service
    from its Go sources and proves what the parts promise, alone and together.

    ** How the program is put together

    [cmd/forwardlimit] loads the environment ([internal/config/config.go]) and a
    file of limiters ([config/file.go], [build.go]), assembles a store - block cache
    over circuit breaker over Redis ([internal/store/...]) - and serves
    [internal/httpapi].  A check reads the forwarded request, lets the engine
    ([internal/limiter]) evaluate the limiters in order - scope, bucket (by a keyer,
    [limiter/keyer]), one store call each - and writes the decision's response.
    Every failure on the way lets the request through.

    ** How it is modelled

    A Go function is a Rocq function.  One with effects is a computation in
    [GoM S A] (below): a function of its state to an outcome - a value or a panic -
    and the state it leaves.  A decorator's state is paired with the state of what
    it wraps; the clock is a class of the state ([Clock], [LawfulClock]).  Where
    goroutines overlap, a call is a [process]: the same computation cut at every lock,
    clock reading and round trip, so that others run in between.  Errors are
    values beside a result, as in Go.  An [int64] is a [Z] with [wrap64] where the
    source adds; a [float64] is a rational under binary64 rounding ([Float]).
    Strings are byte strings.  Go maps are [gmap]s; where the order of ranging over
    one matters it is a parameter ([MapRange]).

    Code outside the repository is a parameter with the behaviour that is relied on
    as a law: Redis's commands ([Redis], [LawfulRedis], [RedisCommands], with the
    simulator [sim_redis] as an instance), the client that offers them ([GoRedis]),
    certificates ([Certificates]), HMAC-SHA256 ([HMAC256]), the JSON decoder
    ([JSONDecoder]), the YAML decoder, Unicode case mapping beyond ASCII
    ([Unicode]), the file system ([FileSystem]).  What the sources use of Go's own
    packages flag, strings, strconv, time, net, net/url and net/http is written out.

    ** The files, and the sources they model

    - [Prelude]: integers, time, outcomes and effects, layered state, clocks.
    - [GoStrings], [GoParse], [Float]: the standard library's strings, parsing of
      numbers and durations, and doubles.
    - [Store]: [store/store.go], [store/noop.go].  The classes [TotalStore],
      [StoreInv] and [Isolated] are what clients may rely on.
    - [Request]: [limiter/request.go], the lazily parsed request.
    - [Limiter]: [limiter/limiter.go], scopes, verdicts and decisions.
    - [Engine]: [limiter/engine.go]; [Guarantees] its promises over any store.
    - [Redis], [RedisStore], [TokenBucket]: the two Lua scripts and the Go around
      them, [store/redisstore/redisstore.go].  [Quota]: what the window admits over
      time, and the type of every answer under any traffic.  [TokenQuota]: what a token
      bucket can still grant, rounding included.
    - [NetIP], [Keyer]: [limiter/keyer/keyer.go] and the address functions it uses.
    - [HttpApi]: [httpapi/httpapi.go].  [Mux]: its routes, as [http.ServeMux] takes them.
    - [Observability]: [observability/observability.go], the logger that is chosen, the
      metrics' namespace, and the calls made on the collectors.
    - [ConfigEnv], [ConfigFile], [ConfigBuild]: [config/config.go], [file.go],
      [build.go].
    - [Wiring]: the Redis store as an [Isolated] store, and what its errors make the
      engine log.  [Service]: a loaded file's service as a whole
      ([cmd/forwardlimit/main.go]).
    - [Breaker], [BlockCache]: [store/breaker], [store/blockcache], each both as a
      sequential decorator and as interleaved critical sections.  [Blocks]: the class
      [BlockReporter] by which each layer promises that a block it reports is held by
      Redis, discharged by Redis and the breaker, used by the cache.
    - [Chain]: [redisstore.New] with its TLS material, and [main.buildStore]'s chain.
    - [Fake]: [storetest/fake.go], the store of the tests.
    - [Program]: [cmd/forwardlimit/main.go], the command line, [-healthcheck],
      [-validate], and [run]: from the environment to a service that answers the
      [event]s of a list until it is told to stop.
    - [Process]: processes, pools of them, and how to reason about one among others: the
      class [Ledger] of what the shared state grants, and the rules of [earns] and [keeps]
      by which a process accounts for what it was granted.
    - [Concurrent]: the goroutine of a check - [httpapi.handleCheck], [limiter.Engine],
      the store chain - as a process.  [Accounts]: what it accounts for, over any ledger;
      [accounts] is the interface each layer of the chain discharges for the next.
      [Ledgers]: the ledgers of a window and of a token bucket, discharged by the Redis
      store.  [Fleet]: such goroutines on any number of replicas over one Redis;
      [Outage]: the same while Redis cannot be reached.

    ** What is proved

    - Stores.  The window script is one step of a fixed window with a block
      ([Consume_refines_window]), from which the quota, the length of the block and
      the fresh start after it follow; the token bucket script is one step of a
      bucket in doubles ([Take_refines_bucket]), with the bound on what it admits
      ([admission_bound]) and the burst of a new bucket.  Over any history the window
      admits a bounded number of calls a period ([window_admission_bound]); no traffic
      makes a key ill-typed or leaves it without an expiry ([traffic_typed]).  Keys of
      different limiters or buckets differ; the cluster slot is shared except for one
      kind of bucket.
    - Decorators.  Sequential calls through the breaker follow the documented
      circuit; under interleaving one probe is out between records, and the circuit
      recovers unless a call dies of a panic.  The cache answers only blocks it was
      told of, is bounded and forgets in time, and its sweeper ends when it is closed.
    - The chain.  Start-up always gets a store and says which ([buildStore_outcomes]);
      a block served from memory is one Redis holds ([cached_block_is_held]); an outage
      costs a bounded number of dials ([outage_through_chain]).  On whole seconds the
      tests' store is the Redis store ([fake_mirrors_redis]).
    - Concurrency.  A check cut into its sections is the sequential check when it runs
      alone ([check_alone]).  Among others, on any number of replicas in any order, with
      replicas coming and going and calls failing or losing their replies, what is let
      through on a bucket is what one window or one token bucket grants
      ([fleet_admission_bound], [fleet_token_bound]); every check is answered, and counted,
      as it decided, after a bounded number of its own turns ([check_wait_free]); and while
      Redis cannot be reached every one of them is let through ([fleet_fails_open]).
    - Engine.  [Evaluate] is total, consults limiters in order up to the first
      enforced block, rejects only for one, makes one store call per evaluation,
      fails open, and logs each failure with the bucket cut short.
    - Requests, scopes, keyers.  Caches are invisible, scopes are what the
      documentation says and cannot be evaded by case, keyers are functions of the
      request, hashed buckets are hashes, subnets are networks.
    - Configuration.  Loading accepts exactly well-formed files and environments,
      a loaded file always builds, and a key to be hashed is never stored raw.
    - The service.  For every loaded file a check answers exactly the decision, a
      panic is an allow, and dry-run limiters are invisible to the client.  What a
      check counts is the decision's, under a namespace Prometheus accepts.
    - The program.  A service told to stop has answered what came before, in order, and
      ends ([run_stops]); [-validate] predicts a start ([validate_predicts_start]); the
      health probe asks the instance that listens and is answered whatever the store
      ([probe_asks_listener]); only a check reaches the store
      ([only_check_reaches_store]).
    - Defects are theorems too: each finding of the manifest that can be stated is
      proved of the model.

    ** Bounds and fuel

    [GoParse.components] loops with as much fuel as its text has bytes, and
    [components_fuel] shows that more changes nothing.  Every other recursion is
    structural; a check takes at most nine sections for each limiter and ten more
    ([check_within]).  The Redis laws are used for limits below 2^53, windows and blocks up
    to 2^62 nanoseconds, rates up to 2^53 and bursts up to 2^40 ([Rule_in_range],
    [Bucket_in_range]); a loaded file is far within them ([loaded_ready]).

    ** What is not modelled

    What the libraries do behind the calls: the listener, the signals and the shutdown
    are events with their outcomes, and [Program] takes the requests between them one
    after another ([Concurrent] and [Fleet] interleave them, and [Breaker] and
    [BlockCache] their own sections).  A section is indivisible: that the mutexes and
    atomics exclude each other is Go's, and so is that a goroutine that waits for one
    gets it.  What Prometheus's registry and exposition make of what is registered and
    recorded, and the text slog prints;
    dialling, TLS and pooling behind a Redis client; the bytes of a redirection and of the
    metrics page; [context.Context], which carries
    cancellation only, and the timeouts set with it. *)
From stdpp Require Import base list gmap strings.
From Stdlib Require Import ZArith Lia.

#[global] Open Scope Z_scope.

Create HintDb golim discriminated.
Create Rewrite HintDb golim.

(** ** Machine integers

    Go's [int] and [int64] are 64-bit two's complement on every platform the
    service is built for; [wrap64] is the wrap-around of their arithmetic. *)
Definition min_int64 : Z := - 2 ^ 63.
Definition max_int64 : Z := 2 ^ 63 - 1.
Definition in_int64 (z : Z) : Prop := min_int64 <= z <= max_int64.
Definition wrap64 (z : Z) : Z := (z + 2 ^ 63) mod 2 ^ 64 - 2 ^ 63.

Lemma wrap64_id (z : Z) : in_int64 z -> wrap64 z = z.
Proof.
  unfold in_int64, wrap64, min_int64, max_int64. intros H.
  rewrite Z.mod_small; lia.
Qed.

Lemma wrap64_range (z : Z) : in_int64 (wrap64 z).
Proof.
  unfold in_int64, wrap64, min_int64, max_int64.
  pose proof (Z.mod_pos_bound (z + 2 ^ 63) (2 ^ 64)). lia.
Qed.

(** ** Instants and durations

    [time.Duration] is an [int64] count of nanoseconds.  A [time.Time] is
    modelled by the nanoseconds since Go's zero time, so [0] is the zero time
    that [IsZero] recognises. *)
Abbreviation Duration := Z.
Abbreviation Time := Z.
Definition Millisecond : Duration := 1000000.
Definition Second : Duration := 1000000000.
Definition Minute : Duration := 60 * Second.
Definition Hour : Duration := 60 * Minute.

Module Time.
Definition zero : Time := 0.
Definition IsZero (t : Time) : bool := t =? 0.
Definition Before (t u : Time) : bool := t <? u.
Definition Add (t : Time) (d : Duration) : Time := t + d.
(** [time.Time.Sub] saturates at the limits of [Duration]. *)
Definition Sub (t u : Time) : Duration := Z.max min_int64 (Z.min max_int64 (t - u)).
End Time.

(** ** Outcomes and effects

    A Go call returns or panics.  [GoM S A] is a computation over the state [S]
    with that outcome; a function returning [(v, err)] has the result type
    [A * option error], so the value that accompanies an error is kept. *)
Inductive outcome (A : Type) : Type :=
| Returns (a : A)
| Panics (v : string).
Arguments Returns {A} _.
Arguments Panics {A} _.

Definition GoM (S A : Type) : Type := S -> outcome A * S.

Section GoM.
Context {S A B : Type}.

Definition gret (a : A) : GoM S A := fun s => (Returns a, s).

Definition gpanic (v : string) : GoM S A := fun s => (Panics v, s).

Definition gbind (m : GoM S A) (k : A -> GoM S B) : GoM S B :=
  fun s => match m s with
           | (Returns a, s') => k a s'
           | (Panics v, s') => (Panics v, s')
           end.

(** A deferred function that recovers: a panic of [m] becomes the result of
    the handler, in the state the panic left behind. *)
Definition grecover (m : GoM S A) (h : string -> GoM S A) : GoM S A :=
  fun s => match m s with
           | (Returns a, s') => (Returns a, s')
           | (Panics v, s') => h v s'
           end.

End GoM.

Declare Scope go_scope.
Delimit Scope go_scope with go.
Notation "'let!' p ':=' m 'in' k" := (gbind m (fun p => k))
  (at level 10, p pattern, m at level 100, k at level 200)
  : go_scope.
#[global] Open Scope go_scope.

(** A computation that never panics, found compositionally by instance
    search. *)
Class Total {S A : Type} (m : GoM S A) : Prop :=
  total_run : forall s, exists a s', m s = (Returns a, s').

(** A state predicate that a computation preserves on every outcome. *)
Class Preserves {S A : Type} (P : S -> Prop) (m : GoM S A) : Prop :=
  preserves_run : forall s, P s -> P (snd (m s)).

Section GoM_rules.
Context {S A B : Type}.
Implicit Types m : GoM S A.

#[global] Instance total_ret (a : A) : Total (S:=S) (gret a).
Proof. intros s. by exists a, s. Qed.

#[global] Instance total_bind m (k : A -> GoM S B) :
  Total m -> (forall a, Total (k a)) -> Total (gbind m k).
Proof.
  intros Hm Hk s. unfold gbind.
  destruct (Hm s) as (a & s' & ->). apply Hk.
Qed.

#[global] Instance total_recover m (h : string -> GoM S A) :
  (forall v, Total (h v)) -> Total (grecover m h).
Proof.
  intros Hh s. unfold grecover.
  destruct (m s) as [[a|v] s']; [by exists a, s' | apply Hh].
Qed.

#[global] Instance preserves_ret (P : S -> Prop) (a : A) : Preserves P (gret a).
Proof. by intros s Hs. Qed.

#[global] Instance preserves_panic (P : S -> Prop) v : Preserves P (gpanic (A:=A) v).
Proof. by intros s Hs. Qed.

#[global] Instance preserves_bind (P : S -> Prop) m (k : A -> GoM S B) :
  Preserves P m -> (forall a, Preserves P (k a)) -> Preserves P (gbind m k).
Proof.
  intros Hm Hk s Hs. unfold gbind. pose proof (Hm s Hs) as Hm'.
  destruct (m s) as [[a|v] s']; [by apply Hk | done].
Qed.

#[global] Instance preserves_recover (P : S -> Prop) m (h : string -> GoM S A) :
  Preserves P m -> (forall v, Preserves P (h v)) -> Preserves P (grecover m h).
Proof.
  intros Hm Hh s Hs. unfold grecover. pose proof (Hm s Hs) as Hm'.
  destruct (m s) as [[a|v] s']; [done | by apply Hh].
Qed.

Lemma gbind_returns m (k : A -> GoM S B) s a s' :
  m s = (Returns a, s') -> gbind m k s = k a s'.
Proof. unfold gbind. by intros ->. Qed.

Lemma gbind_panics m (k : A -> GoM S B) s v s' :
  m s = (Panics v, s') -> gbind m k s = (Panics v, s').
Proof. unfold gbind. by intros ->. Qed.

End GoM_rules.

(** ** Layered state

    A decorator owns a state [B] in front of the state [S] of what it wraps. *)
Section layers.
Context {B S A : Type}.

Definition on_own (f : B -> A * B) : GoM (B * S) A :=
  fun '(b, s) => let '(a, b') := f b in (Returns a, (b', s)).

Definition on_inner (m : GoM S A) : GoM (B * S) A :=
  fun '(b, s) => let '(r, s') := m s in (r, (b, s')).

Definition get_own : GoM (B * S) B := fun '(b, s) => (Returns b, (b, s)).

Definition put_own (b : B) : GoM (B * S) unit := fun '(_, s) => (Returns tt, (b, s)).

Lemma on_inner_run (m : GoM S A) (b : B) (s : S) o s' :
  m s = (o, s') -> on_inner m (b, s) = (o, (b, s')).
Proof. simpl. by intros ->. Qed.

#[global] Instance total_on_inner (m : GoM S A) : Total m -> Total (on_inner m).
Proof.
  intros Hm [b s]. simpl. destruct (Hm s) as (a & s' & ->). by exists a, (b, s').
Qed.

#[global] Instance total_on_own (f : B -> A * B) : Total (on_own f).
Proof. intros [b s]. simpl. destruct (f b) as [a b']. by exists a, (b', s). Qed.

#[global] Instance total_get_own : Total get_own.
Proof. intros [b s]. by exists b, (b, s). Qed.

#[global] Instance total_put_own (b : B) : Total (put_own b).
Proof. intros [b' s]. by exists tt, (b, s). Qed.

End layers.

(** ** The clock

    [Clock S] is what [time.Now] is to a computation over [S]: each reading may
    move the state on.  [LawfulClock] says readings never run backwards, as Go's
    monotonic clock guarantees, and that they lie after Go's zero time. *)
Class Clock (S : Type) : Type := clock_now : S -> Time * S.

Definition now {S : Type} `{Clock S} : GoM S Time :=
  fun s => let '(t, s') := clock_now s in (Returns t, s').

#[global] Instance clock_layer {B S : Type} `{Clock S} : Clock (B * S) :=
  fun '(b, s) => let '(t, s') := clock_now s in (t, (b, s')).

#[global] Instance total_now {S : Type} `{Clock S} : Total now.
Proof. intros s. unfold now. destruct (clock_now s) as [t s']. by exists t, s'. Qed.

Lemma now_reading {S : Type} `{Clock S} (s : S) t s' :
  clock_now s = (t, s') -> now s = (Returns t, s').
Proof. unfold now. by intros ->. Qed.

Lemma now_layer {B S : Type} `{Clock S} (b : B) (s : S) t s' :
  clock_now s = (t, s') -> now (b, s) = (Returns t, (b, s')).
Proof. intros E. apply now_reading. unfold clock_now at 1, clock_layer. by rewrite E. Qed.

Class LawfulClock (S : Type) `{Clock S} : Type := {
  instant : S -> Time;
  clock_ok : S -> Prop;
  clock_reading s t s' :
    clock_ok s -> clock_now s = (t, s') -> instant s <= t <= instant s' /\ clock_ok s';
  instant_pos s : clock_ok s -> 0 < instant s;
}.

#[global] Program Instance lawful_clock_layer {B S : Type} `{LawfulClock S} :
  LawfulClock (B * S) :=
  {| instant := fun '(_, s) => instant s;
     clock_ok := fun '(_, s) => clock_ok s |}.
Next Obligation.
  intros B S ?? [b s] t [b' s'] Hok E. unfold clock_now, clock_layer in E.
  destruct (clock_now s) as [t0 s0] eqn:Es. simplify_eq.
  by eapply clock_reading.
Qed.
Next Obligation. intros B S ?? [b s] Hok. by apply instant_pos. Qed.

(** A clock to evaluate examples with: the current instant and how far every
    reading advances it. *)
Record sim_clock : Type := SimClock { sim_instant : Time; sim_step : Duration }.

#[global] Instance sim_clock_clock : Clock sim_clock :=
  fun c => (sim_instant c, SimClock (sim_instant c + sim_step c) (sim_step c)).

#[global] Program Instance sim_clock_lawful : LawfulClock sim_clock :=
  {| instant := sim_instant;
     clock_ok := fun c => 0 < sim_instant c /\ 0 <= sim_step c |}.
Next Obligation. intros [i d] t s' [??] [= <- <-]. simpl in *. lia. Qed.
Next Obligation. intros [i d] [??]. done. Qed.

(** ** Tactics *)

(** Unfold the plumbing of [GoM] in the goal. *)
Ltac go_unfold :=
  unfold gbind, gret, gpanic, grecover, on_own, on_inner, get_own, put_own in *;
  cbn beta iota zeta in *.

(** Split every scrutinee of the goal, keeping the equations. *)
Ltac go_cases := repeat (case_match; simplify_eq/=).

(** Show totality of a handler: split its binds and its branches. *)
Ltac solve_total := repeat first [case_match | apply _ | apply total_bind | intros ?].

(** Show that a handler keeps a predicate: as [solve_total]. *)
Ltac solve_preserves := repeat first [case_match | apply _ | apply preserves_bind | intros ?].
