(* ===== verification/GoStrings.v ===== *)
(** * Go strings

    The part of Go's [strings] package the service uses, on byte strings
    ([Stdlib]'s [string], one [ascii] per byte), with the lemmas the other files
    share.  Case mapping of text that is not ASCII needs Go's Unicode tables,
    which are the class [Unicode]. *)
From stdpp Require Import base list strings pretty.
From Stdlib Require Import ZArith Lia Ascii String.
From S2P Require Import Prelude.

#[local] Open Scope string_scope.
#[local] Open Scope Z_scope.

#[global] Arguments String.append : simpl nomatch.

(** ** Bytes *)
Definition byte_Z (c : ascii) : Z := Z.of_N (N_of_ascii c).

Definition is_upper (c : ascii) : bool := (65 <=? byte_Z c) && (byte_Z c <=? 90).
Definition is_lower (c : ascii) : bool := (97 <=? byte_Z c) && (byte_Z c <=? 122).
Definition is_digit (c : ascii) : bool := (48 <=? byte_Z c) && (byte_Z c <=? 57).

(** [utf8.RuneSelf]: bytes below it are ASCII. *)
Definition is_rune_self (c : ascii) : bool := byte_Z c <? 128.

Definition to_lower_byte (c : ascii) : ascii :=
  if is_upper c then ascii_of_N (N_of_ascii c + 32) else c.
Definition to_upper_byte (c : ascii) : ascii :=
  if is_lower c then ascii_of_N (N_of_ascii c - 32) else c.

(** ** Whole-string combinators *)
Fixpoint smap (f : ascii -> ascii) (s : string) : string :=
  match s with
  | EmptyString => EmptyString
  | String c s' => String (f c) (smap f s')
  end.

Fixpoint sfilter (f : ascii -> bool) (s : string) : string :=
  match s with
  | EmptyString => EmptyString
  | String c s' => if f c then String c (sfilter f s') else sfilter f s'
  end.

Fixpoint sforall (f : ascii -> bool) (s : string) : bool :=
  match s with
  | EmptyString => true
  | String c s' => f c && sforall f s'
  end.

(** ** Prefixes, suffixes and cutting *)
Definition HasPrefix (s prefix : string) : bool := String.prefix prefix s.

(** [strings.CutSuffix]: the base when [suffix] is one. *)
Fixpoint CutSuffix (s suffix : string) : option string :=
  if String.eqb s suffix then Some EmptyString
  else match s with
       | EmptyString => None
       | String c s' =>
           match CutSuffix s' suffix with
           | Some b => Some (String c b)
           | None => None
           end
       end.

Definition HasSuffix (s suffix : string) : bool :=
  match CutSuffix s suffix with Some _ => true | None => false end.

Definition TrimSuffix (s suffix : string) : string :=
  match CutSuffix s suffix with Some b => b | None => s end.

(** [strings.Cut] at a one-byte separator: what precedes the first one, what
    follows it, and whether there is one. *)
Fixpoint Cut (s : string) (sep : ascii) : string * string * bool :=
  match s with
  | EmptyString => (EmptyString, EmptyString, false)
  | String c s' =>
      if Ascii.eqb c sep then (EmptyString, s', true)
      else let '(before, after, found) := Cut s' sep in (String c before, after, found)
  end.

(** [strings.Split] at a one-byte separator: always at least one piece. *)
Fixpoint Split (s : string) (sep : ascii) : list string :=
  match s with
  | EmptyString => [EmptyString]
  | String c s' =>
      if Ascii.eqb c sep then EmptyString :: Split s' sep
      else match Split s' sep with
           | [] => [String c EmptyString]
           | p :: ps => String c p :: ps
           end
  end.

Fixpoint ContainsByte (s : string) (c : ascii) : bool :=
  match s with
  | EmptyString => false
  | String d s' => Ascii.eqb d c || ContainsByte s' c
  end.

(** [strings.Join]. *)
Definition Join (parts : list string) (sep : string) : string := String.concat sep parts.

(** ** Case mapping *)

(** What the Unicode tables give: [strings.Map(unicode.ToLower, s)] on a string
    that is not all ASCII, and the rune-by-rune loop of [strings.EqualFold] from
    the first byte that is not ASCII. *)
Class Unicode : Type := {
  unicode_to_lower : string -> string;
  unicode_to_upper : string -> string;
  unicode_equal_fold : string -> string -> bool;
}.

Definition is_ascii (s : string) : bool := sforall is_rune_self s.

Definition ToLower `{Unicode} (s : string) : string :=
  if is_ascii s then smap to_lower_byte s else unicode_to_lower s.

Definition ToUpper `{Unicode} (s : string) : string :=
  if is_ascii s then smap to_upper_byte s else unicode_to_upper s.

Fixpoint EqualFold `{Unicode} (s t : string) : bool :=
  match s, t with
  | EmptyString, EmptyString => true
  | String a s', String b t' =>
      if is_rune_self a && is_rune_self b
      then Ascii.eqb (to_lower_byte a) (to_lower_byte b) && EqualFold s' t'
      else unicode_equal_fold s t
  | _, _ => false
  end.

(** ** Trimming white space *)

(** The encodings of the runes [unicode.IsSpace] accepts: one byte, two bytes
    (U+0085, U+00A0) and three bytes (U+1680, U+2000-U+200A, U+2028, U+2029,
    U+202F, U+205F, U+3000). *)
Definition space1 (a : ascii) : bool :=
  let x := byte_Z a in ((9 <=? x) && (x <=? 13)) || (x =? 32).
Definition space2 (a b : ascii) : bool :=
  (byte_Z a =? 0xC2) && ((byte_Z b =? 0x85) || (byte_Z b =? 0xA0)).
Definition space3 (a b c : ascii) : bool :=
  let x := byte_Z a in let y := byte_Z b in let z := byte_Z c in
  ((x =? 0xE1) && (y =? 0x9A) && (z =? 0x80)) ||
  ((x =? 0xE2) && (y =? 0x80) &&
     (((0x80 <=? z) && (z <=? 0x8A)) || (z =? 0xA8) || (z =? 0xA9) || (z =? 0xAF))) ||
  ((x =? 0xE2) && (y =? 0x81) && (z =? 0x9F)) ||
  ((x =? 0xE3) && (y =? 0x80) && (z =? 0x80)).

(** Drop encodings from the front, read in the direction [sp2], [sp3] expect. *)
Fixpoint trim_front (sp2 : ascii -> ascii -> bool) (sp3 : ascii -> ascii -> ascii -> bool)
    (s : string) : string :=
  match s with
  | String a s1 =>
      if space1 a then trim_front sp2 sp3 s1
      else match s1 with
           | String b s2 =>
               if sp2 a b then trim_front sp2 sp3 s2
               else match s2 with
                    | String c s3 => if sp3 a b c then trim_front sp2 sp3 s3 else s
                    | EmptyString => s
                    end
           | EmptyString => s
           end
  | EmptyString => EmptyString
  end.

Fixpoint srev_onto (s acc : string) : string :=
  match s with
  | EmptyString => acc
  | String c s' => srev_onto s' (String c acc)
  end.
Definition srev (s : string) : string := srev_onto s EmptyString.

Definition TrimLeftSpace (s : string) : string := trim_front space2 space3 s.
Definition TrimRightSpace (s : string) : string :=
  srev (trim_front (fun b a => space2 a b) (fun c b a => space3 a b c) (srev s)).

(** [strings.TrimSpace] *)
Definition TrimSpace (s : string) : string := TrimRightSpace (TrimLeftSpace s).

(** ** Numbers *)

(** [strconv.Itoa] and [strconv.FormatInt(_, 10)]. *)
Definition Itoa (z : Z) : string := pretty z.

(** A Unicode instance for examples on ASCII text: it leaves other text alone. *)
Definition ascii_only : Unicode :=
  {| unicode_to_lower := fun s => s;
     unicode_to_upper := fun s => s;
     unicode_equal_fold := String.eqb |}.

(** ** Lemmas *)

Lemma app_assoc_s (a b c : string) : (a ++ b) ++ c = a ++ (b ++ c).
Proof. induction a as [|x a IH]; simpl; [done | by rewrite IH]. Qed.

Lemma app_nil_r_s (a : string) : a ++ "" = a.
Proof. induction a as [|x a IH]; simpl; [done | by rewrite IH]. Qed.

Lemma app_inj_l_s (p a b : string) : p ++ a = p ++ b -> a = b.
Proof. induction p as [|x p IH]; simpl; [done | intros [= E]; auto]. Qed.

Lemma length_app_s (a b : string) :
  String.length (a ++ b) = (String.length a + String.length b)%nat.
Proof. induction a as [|x a IH]; simpl; [done | by rewrite IH]. Qed.

Lemma app_inj_len_s (a b c d : string) :
  String.length a = String.length c -> a ++ b = c ++ d -> a = c /\ b = d.
Proof.
  revert c. induction a as [|x a IH]; intros [|y c]; simpl; try done.
  intros [= Hl] [= -> E]. by destruct (IH c Hl E) as [-> ->].
Qed.

Lemma app_inj_r_s (a b s : string) : a ++ s = b ++ s -> a = b.
Proof.
  intros E. apply (f_equal String.length) in E as El.
  rewrite !length_app_s in El. by destruct (app_inj_len_s a s b s); [lia|..].
Qed.

Lemma CutSuffix_Some (s suf b : string) : CutSuffix s suf = Some b <-> s = b ++ suf.
Proof.
  revert b. induction s as [|c s IH]; intros b; cbn [CutSuffix].
  - destruct suf as [|x suf]; cbn [String.eqb].
    + rewrite app_nil_r_s. naive_solver.
    + split; [done|]. by destruct b.
  - destruct (String.eqb_spec (String c s) suf) as [<-|Hne].
    + split; [by intros [= <-] |]. intros E. f_equal. symmetry.
      by apply (app_inj_r_s _ "" (String c s)).
    + destruct b as [|d b].
      * split; [|done]. by destruct (CutSuffix s suf).
      * specialize (IH b). simpl. destruct (CutSuffix s suf) as [b'|].
        -- split; [intros [= -> ->]; f_equal; by apply IH|].
           intros [= -> E]. by apply IH in E as [= ->].
        -- split; [done|]. intros [= -> E]. by apply IH in E.
Qed.

Lemma HasSuffix_true (s suf : string) : HasSuffix s suf = true <-> exists b, s = b ++ suf.
Proof.
  unfold HasSuffix. destruct (CutSuffix s suf) as [b|] eqn:E.
  - apply CutSuffix_Some in E. naive_solver.
  - split; [done|]. intros [b Hb]. apply CutSuffix_Some in Hb. congruence.
Qed.

Lemma TrimSuffix_spec (s suf : string) :
  (exists b, s = b ++ suf /\ TrimSuffix s suf = b) \/
  ((~ exists b, s = b ++ suf) /\ TrimSuffix s suf = s).
Proof.
  unfold TrimSuffix. destruct (CutSuffix s suf) as [b|] eqn:E.
  - left. exists b. by apply CutSuffix_Some in E.
  - right. split; [|done]. intros [b Hb]. apply CutSuffix_Some in Hb. congruence.
Qed.

Lemma HasPrefix_true (s p : string) : HasPrefix s p = true <-> exists r, s = p ++ r.
Proof.
  unfold HasPrefix. revert s. induction p as [|c p IH]; intros s; simpl.
  - split; [by exists s | by destruct s].
  - destruct s as [|d s]; [split; [done | by intros [r ?]]|]. simpl. destruct (ascii_dec c d) as [->|Hne].
    + rewrite IH. split; intros [r E]; exists r; [by rewrite E | by injection E].
    + split; [done|]. intros [r [= ? ?]]. congruence.
Qed.

Lemma smap_app f (a b : string) : smap f (a ++ b) = smap f a ++ smap f b.
Proof. induction a as [|x a IH]; simpl; [done | by rewrite IH]. Qed.

Lemma sfilter_app f (a b : string) : sfilter f (a ++ b) = sfilter f a ++ sfilter f b.
Proof. induction a as [|x a IH]; simpl; [done|]. rewrite IH. by destruct (f x). Qed.

Lemma sforall_app f (a b : string) : sforall f (a ++ b) = sforall f a && sforall f b.
Proof. induction a as [|x a IH]; simpl; [done|]. rewrite IH. by destruct (f x). Qed.

Lemma sforall_sfilter f (s : string) : sforall f (sfilter f s) = true.
Proof. induction s as [|c s IH]; simpl; [done|]. destruct (f c) eqn:E; simpl; by rewrite ?E. Qed.

Lemma sfilter_id f (s : string) : sforall f s = true -> sfilter f s = s.
Proof.
  induction s as [|c s IH]; simpl; [done|]. intros [-> H]%andb_true_iff. by rewrite IH.
Qed.

Lemma sforall_smap f g (s : string) :
  (forall c, f c = true -> f (g c) = true) -> sforall f s = true -> sforall f (smap g s) = true.
Proof.
  intros Hg. induction s as [|c s IH]; simpl; [done|].
  intros [Hc H]%andb_true_iff. by rewrite Hg, IH.
Qed.

Lemma ContainsByte_app (a b : string) c :
  ContainsByte (a ++ b) c = ContainsByte a c || ContainsByte b c.
Proof. induction a as [|x a IH]; simpl; [done|]. by rewrite IH, orb_assoc. Qed.

(** A separator that neither left part contains splits an equality of
    concatenations. *)
Lemma app_sep_inj (a b c d : string) (x : ascii) :
  ContainsByte a x = false -> ContainsByte c x = false ->
  a ++ String x b = c ++ String x d -> a = c /\ b = d.
Proof.
  revert c. induction a as [|y a IH]; intros [|z c]; simpl; intros Ha Hc E.
  - by injection E as ->.
  - injection E as <- E. by rewrite Ascii.eqb_refl in Hc.
  - injection E as -> E. by rewrite Ascii.eqb_refl in Ha.
  - apply orb_false_iff in Ha as [_ Ha]. apply orb_false_iff in Hc as [_ Hc].
    injection E as -> E. by destruct (IH c Ha Hc E) as [-> ->].
Qed.

Lemma to_lower_byte_idemp (c : ascii) : to_lower_byte (to_lower_byte c) = to_lower_byte c.
Proof. destruct c as [[] [] [] [] [] [] [] []]; vm_compute; reflexivity. Qed.

Lemma to_lower_upper_byte (c : ascii) : to_lower_byte (to_upper_byte c) = to_lower_byte c.
Proof. destruct c as [[] [] [] [] [] [] [] []]; vm_compute; reflexivity. Qed.

Lemma to_lower_byte_rune_self (c : ascii) :
  is_rune_self c = true -> is_rune_self (to_lower_byte c) = true.
Proof. destruct c as [[] [] [] [] [] [] [] []]; vm_compute; auto. Qed.

Lemma smap_lower_idemp (s : string) :
  smap to_lower_byte (smap to_lower_byte s) = smap to_lower_byte s.
Proof. induction s as [|c s IH]; simpl; [done|]. by rewrite to_lower_byte_idemp, IH. Qed.

Lemma ToLower_ascii `{Unicode} (s : string) :
  is_ascii s = true -> ToLower s = smap to_lower_byte s.
Proof. unfold ToLower. by intros ->. Qed.

(** On ASCII text [EqualFold] is equality of the lowercased strings. *)
Lemma EqualFold_ascii `{Unicode} (s t : string) :
  is_ascii s = true -> is_ascii t = true ->
  EqualFold s t = String.eqb (ToLower s) (ToLower t).
Proof.
  intros Hs Ht. rewrite !ToLower_ascii by done.
  revert t Ht. induction s as [|a s IH]; intros [|b t] Ht; simpl in *; try done.
  apply andb_true_iff in Hs as [Ha Hs]. apply andb_true_iff in Ht as [Hb Ht].
  rewrite Ha, Hb. simpl. rewrite IH by done.
  by destruct (Ascii.eqb (to_lower_byte a) (to_lower_byte b)).
Qed.

#[export] Hint Rewrite app_assoc_s app_nil_r_s smap_app sforall_app : golim.
#[export] Hint Resolve sforall_sfilter to_lower_byte_rune_self : golim.

Lemma Cut_app (a b : string) (c : ascii) :
  ContainsByte a c = false -> Cut (a ++ String c b) c = (a, b, true).
Proof.
  induction a as [|d a IH]; simpl; [by rewrite Ascii.eqb_refl|].
  intros [Hd Ha]%orb_false_iff. rewrite Hd, (IH Ha). done.
Qed.

(** ** Trimming twice *)
Section trim.
Context (sp2 : ascii -> ascii -> bool) (sp3 : ascii -> ascii -> ascii -> bool).

(** What is trimmed is a prefix, and what is left begins with no space. *)
Lemma trim_front_spec s :
  (exists p, s = p ++ trim_front sp2 sp3 s) /\
  forall q r, trim_front sp2 sp3 s = q ++ r -> trim_front sp2 sp3 q = q.
Proof.
  remember (String.length s) as n eqn:En. assert (String.length s <= n)%nat as Hn by lia. clear En.
  revert s Hn. induction n as [|n IH]; intros [|a s1] Hn; simpl in Hn; try lia.
  - split; [by exists ""|]. by intros [|] r.
  - split; [by exists ""|]. by intros [|] r.
  - assert (forall s', (String.length s' <= n)%nat -> forall h, String a s1 = h ++ s' ->
      (exists p, String a s1 = p ++ trim_front sp2 sp3 s') /\
      forall q r, trim_front sp2 sp3 s' = q ++ r -> trim_front sp2 sp3 q = q) as Hskip.
    { intros s' Hs' h ->. destruct (IH s' Hs') as [[p Ep] Hq]. split; [|done].
      exists (h ++ p). by rewrite app_assoc_s, <-Ep. }
    simpl. destruct (space1 a) eqn:E1; [by apply (Hskip s1 ltac:(lia) (String a ""))|].
    assert ((exists p, String a s1 = p ++ String a s1)) as Hself by by exists "".
    destruct s1 as [|b s2].
    { split; [done|]. intros [|x q] r [=]; [done|]. subst x. destruct q; [|done]. simpl. by rewrite E1. }
    destruct (sp2 a b) eqn:E2; [by apply (Hskip s2 ltac:(simpl in *; lia) (String a (String b "")))|].
    destruct s2 as [|c s3].
    { split; [done|]. intros [|x [|y q]] r [=]; [done|subst x; simpl; by rewrite E1|].
      subst x y. destruct q; [|done]. simpl. by rewrite E1, E2. }
    destruct (sp3 a b c) eqn:E3;
      [by apply (Hskip s3 ltac:(simpl in *; lia) (String a (String b (String c ""))))|].
    split; [done|]. intros [|x [|y [|z q]]] r [=]; subst; simpl; [done|by rewrite E1|by rewrite E1, E2|].
    by rewrite E1, E2, E3.
Qed.
End trim.

Lemma srev_onto_app s acc : srev_onto s acc = srev s ++ acc.
Proof.
  unfold srev. revert acc. induction s as [|c s IH]; intros acc; [done|]. simpl.
  rewrite (IH (String c acc)), (IH (String c "")), app_assoc_s. done.
Qed.

Lemma srev_cons c s : srev (String c s) = srev s ++ String c "".
Proof. exact (srev_onto_app s (String c "")). Qed.

Lemma srev_app a b : srev (a ++ b) = srev b ++ srev a.
Proof.
  induction a as [|c a IH]; [by rewrite app_nil_r_s|]. simpl. by rewrite !srev_cons, IH, app_assoc_s.
Qed.

Lemma srev_srev s : srev (srev s) = s.
Proof. induction s as [|c s IH]; [done|]. by rewrite srev_cons, srev_app, IH. Qed.

Lemma TrimSpace_idemp s : TrimSpace (TrimSpace s) = TrimSpace s.
Proof.
  unfold TrimSpace at 2 3. set (l := TrimLeftSpace s).
  assert (TrimLeftSpace (TrimRightSpace l) = TrimRightSpace l) as Hl.
  { unfold TrimRightSpace.
    destruct (trim_front_spec (fun b a => space2 a b) (fun c b a => space3 a b c) (srev l)) as [[p Ep] _].
    assert (l = srev (trim_front (fun b a => space2 a b) (fun c b a => space3 a b c) (srev l)) ++ srev p) as El.
    { rewrite <-srev_app, <-Ep. by rewrite srev_srev. }
    destruct (trim_front_spec space2 space3 s) as [_ Hq]. by eapply Hq. }
  unfold TrimSpace. rewrite Hl. unfold TrimRightSpace. rewrite srev_srev. f_equal.
  destruct (trim_front_spec (fun b a => space2 a b) (fun c b a => space3 a b c) (srev l)) as [_ Hq].
  eapply (Hq _ ""). by rewrite app_nil_r_s.
Qed.

(** A string of visible ASCII is not trimmed. *)
Definition visible (c : ascii) : bool := (33 <=? byte_Z c) && (byte_Z c <? 128).

Lemma trim_front_visible sp2 sp3 s :
  (forall a b, is_rune_self a = true -> sp2 a b = false) ->
  (forall a b c, is_rune_self a = true -> sp3 a b c = false) ->
  sforall visible s = true -> trim_front sp2 sp3 s = s.
Proof.
  intros H2 H3 Hv. destruct s as [|a s1]; [done|]. simpl in *. apply andb_true_iff in Hv as [Ha _].
  unfold visible in Ha. apply andb_true_iff in Ha as [H33 H128].
  replace (space1 a) with false by (symmetry; unfold space1; lia).
  destruct s1 as [|b s2]; [done|]. rewrite H2 by done.
  destruct s2 as [|c s3]; [done|]. by rewrite H3.
Qed.

Lemma sforall_srev f s : sforall f (srev s) = sforall f s.
Proof.
  induction s as [|c s IH]; [done|]. rewrite srev_cons, sforall_app, IH. simpl. by rewrite andb_true_r, andb_comm.
Qed.

Lemma TrimSpace_visible s : sforall visible s = true -> TrimSpace s = s.
Proof.
  intros Hv. unfold TrimSpace, TrimLeftSpace, TrimRightSpace.
  rewrite (trim_front_visible space2 space3 s); [|unfold is_rune_self, space2, space3; lia..|done].
  rewrite trim_front_visible; [apply srev_srev| | |by rewrite sforall_srev].
  - unfold is_rune_self, space2. intros a b Ha. lia.
  - unfold is_rune_self, space3. intros a b c Ha. lia.
Qed.
