(* ===== verification/Float.v ===== *)
(** * Binary64 arithmetic

    Go's [float64] and Lua's numbers are IEEE 754 doubles.  A finite double is
    modelled by the rational it stands for and an operation by the exact one
    followed by [f64], which rounds to 53 significant bits, ties to even.  The
    exponent is unbounded: the values the program computes with stay between
    2^-60 and 2^70, far from overflow and from subnormals. *)
From stdpp Require Import base tactics.
From Stdlib Require Import ZArith Lia QArith Qpower Qround Qreduction Lqa.
From Stdlib Require Qcanon.
From S2P Require Import Prelude.

#[local] Open Scope Q_scope.

Lemma inject_Z_minus x y : inject_Z (x - y) == inject_Z x - inject_Z y.
Proof. unfold Zminus. rewrite inject_Z_plus, inject_Z_opp. ring. Qed.

(** ** Rounding *)
Definition pow2 (e : Z) : Q := Qpower 2 e.

(** The exponent of the binade of a positive rational. *)
Definition mag (q : Q) : Z :=
  let e := (Z.log2 (Qnum q) - Z.log2 (Zpos (Qden q)))%Z in
  if Qle_bool (pow2 e) q then e else (e - 1)%Z.

(** The nearest integer, ties to even. *)
Definition rne (q : Q) : Z :=
  let f := Qfloor q in
  match (q - inject_Z f ?= 1 # 2)%Q with
  | Lt => f
  | Gt => (f + 1)%Z
  | Eq => if Z.even f then f else (f + 1)%Z
  end.

Definition round_pos (q : Q) : Q :=
  let u := pow2 (mag q - 52) in inject_Z (rne (q / u)) * u.

Definition f64 (q : Q) : Q :=
  Qred (match q ?= 0 with
        | Eq => 0
        | Gt => round_pos q
        | Lt => - round_pos (- q)
        end).

(** ** Operations *)
Definition fadd (x y : Q) : Q := f64 (x + y).
Definition fsub (x y : Q) : Q := f64 (x - y).
Definition fmul (x y : Q) : Q := f64 (x * y).
Definition fdiv (x y : Q) : Q := f64 (x / y).
Definition of_int (z : Z) : Q := f64 (inject_Z z).
Definition Qlt_bool (x y : Q) : bool := negb (Qle_bool y x).

(** Go's [math.Ceil] and [math.Floor] are exact. *)
Definition fceil (x : Q) : Z := Qceiling x.
Definition ffloor (x : Q) : Z := Qfloor x.

(** ** Powers of two *)
Lemma pow2_pos e : 0 < pow2 e.
Proof. apply Qpower_0_lt. lra. Qed.

Lemma pow2_add a b : pow2 (a + b) == pow2 a * pow2 b.
Proof. apply Qpower_plus. discriminate. Qed.

Lemma pow2_succ e : pow2 (e + 1) == 2 * pow2 e.
Proof. rewrite pow2_add. change (pow2 1) with 2%Q. ring. Qed.

Lemma pow2_Z e : (0 <= e)%Z -> pow2 e == inject_Z (2 ^ e).
Proof. intros He. unfold pow2. change 2 with (inject_Z 2). symmetry. by apply Zpower_Qpower. Qed.

Lemma pow2_ge_1 e : (0 <= e)%Z -> 1 <= pow2 e.
Proof.
  intros He. rewrite pow2_Z by done. change 1 with (inject_Z 1). rewrite <-Zle_Qle.
  pose proof (Z.pow_pos_nonneg 2 e). lia.
Qed.

Lemma pow2_mono a b : (a <= b)%Z -> pow2 a <= pow2 b.
Proof.
  intros H. replace b with (a + (b - a))%Z by lia. rewrite pow2_add.
  pose proof (pow2_pos a). pose proof (pow2_ge_1 (b - a)). assert (0 <= b - a)%Z by lia.
  intuition. nra.
Qed.

Lemma pow2_lt_inv a b : pow2 a < pow2 b -> (a < b)%Z.
Proof.
  intros H. destruct (Z.lt_ge_cases a b); [done|]. pose proof (pow2_mono b a). intuition. lra.
Qed.

Lemma Q_div_bounds n d : n # d == inject_Z n / inject_Z (Zpos d).
Proof. apply Qmake_Qdiv. Qed.

Lemma pow2_sub a b : (0 <= a)%Z -> (0 <= b)%Z ->
  pow2 (a - b) == inject_Z (2 ^ a) / inject_Z (2 ^ b).
Proof.
  intros Ha Hb. rewrite <-!pow2_Z by done.
  replace (pow2 a) with (pow2 ((a - b) + b)) by (f_equal; lia). rewrite pow2_add.
  field. pose proof (pow2_pos b). lra.
Qed.

Lemma Qdiv_le_cross a b c d :
  (0 < b)%Z -> (0 < d)%Z ->
  inject_Z a / inject_Z b <= inject_Z c / inject_Z d <-> (a * d <= c * b)%Z.
Proof.
  intros Hb Hd. destruct b as [|b|b], d as [|d|d]; try lia.
  rewrite <-!Qmake_Qdiv. unfold Qle. simpl. done.
Qed.

Lemma Qdiv_lt_cross a b c d :
  (0 < b)%Z -> (0 < d)%Z ->
  inject_Z a / inject_Z b < inject_Z c / inject_Z d <-> (a * d < c * b)%Z.
Proof.
  intros Hb Hd. destruct b as [|b|b], d as [|d|d]; try lia.
  rewrite <-!Qmake_Qdiv. unfold Qlt. simpl. done.
Qed.

(** [mag] finds the binade. *)
Lemma mag_spec q : 0 < q -> pow2 (mag q) <= q /\ q < pow2 (mag q + 1).
Proof.
  destruct q as [n d]. intros Hq. assert (0 < n)%Z as Hn by (unfold Qlt in Hq; simpl in Hq; lia).
  pose proof (Z.log2_spec n Hn) as [Hn1 Hn2]. pose proof (Z.log2_spec (Zpos d) eq_refl) as [Hd1 Hd2].
  pose proof (Z.log2_nonneg n). pose proof (Z.log2_nonneg (Zpos d)).
  unfold mag. cbn [Qnum Qden].
  set (a := Z.log2 n) in *. set (b := Z.log2 (Zpos d)) in *.
  rewrite Z.pow_succ_r in Hn2, Hd2 by done.
  assert (0 < 2 ^ a)%Z by (by apply Z.pow_pos_nonneg).
  assert (0 < 2 ^ b)%Z by (by apply Z.pow_pos_nonneg).
  assert (n # d < pow2 (a - b + 1)) as Hup.
  { replace (a - b + 1)%Z with ((a + 1) - b)%Z by lia. rewrite pow2_sub, Q_div_bounds by lia.
    apply Qdiv_lt_cross; [lia..|]. rewrite Z.pow_add_r by lia. nia. }
  assert (pow2 (a - b - 1) <= n # d) as Hlow.
  { replace (a - b - 1)%Z with (a - (b + 1))%Z by lia. rewrite pow2_sub, Q_div_bounds by lia.
    apply Qdiv_le_cross; [rewrite Z.pow_add_r by lia; lia|lia|].
    rewrite Z.pow_add_r by lia. nia. }
  destruct (Qle_bool (pow2 (a - b)) (n # d)) eqn:E.
  - by apply Qle_bool_iff in E.
  - split; [done|]. replace (a - b - 1 + 1)%Z with (a - b)%Z by lia.
    apply Qnot_le_lt. intros Hle. apply Qle_bool_iff in Hle. congruence.
Qed.

Lemma mag_unique q e : pow2 e <= q -> q < pow2 (e + 1) -> mag q = e.
Proof.
  intros H1 H2. assert (0 < q) as Hq by (pose proof (pow2_pos e); lra).
  destruct (mag_spec q Hq) as [H3 H4].
  assert (mag q < e + 1)%Z by (apply pow2_lt_inv; lra).
  assert (e < mag q + 1)%Z by (apply pow2_lt_inv; lra). lia.
Qed.

Lemma mag_mono p q : 0 < p -> p <= q -> (mag p <= mag q)%Z.
Proof.
  intros Hp Hle. destruct (mag_spec p Hp) as [H1 _].
  destruct (mag_spec q) as [_ H2]; [lra|].
  assert (mag p < mag q + 1)%Z by (apply pow2_lt_inv; lra). lia.
Qed.


Lemma rne_bounds q : inject_Z (rne q) - (1 # 2) <= q /\ q <= inject_Z (rne q) + (1 # 2).
Proof.
  pose proof (Qfloor_le q). pose proof (Qlt_floor q) as Hlt. rewrite inject_Z_plus in Hlt.
  change (inject_Z 1) with 1%Q in Hlt.
  unfold rne. destruct (Qcompare_spec (q - inject_Z (Qfloor q)) (1 # 2)) as [E|E|E].
  - destruct (Z.even _); rewrite ?inject_Z_plus; change (inject_Z 1) with 1%Q; split; lra.
  - split; lra.
  - rewrite inject_Z_plus. change (inject_Z 1) with 1%Q. split; [lra|]. lra.
Qed.

Lemma rne_mono p q : p <= q -> (rne p <= rne q)%Z.
Proof.
  intros H. destruct (Z.le_gt_cases (rne p) (rne q)) as [|Hgt]; [done|]. exfalso.
  pose proof (Qfloor_resp_le p q H) as Hf. revert Hgt. unfold rne.
  destruct (Z.eq_dec (Qfloor p) (Qfloor q)) as [E|E].
  - rewrite E.
    destruct (Qcompare_spec (p - inject_Z (Qfloor q)) (1 # 2)),
      (Qcompare_spec (q - inject_Z (Qfloor q)) (1 # 2)); repeat case_match; intros; try lia; lra.
  - repeat case_match; lia.
Qed.

Lemma rne_Z z : rne (inject_Z z) = z.
Proof.
  unfold rne. rewrite Qfloor_Z.
  destruct (Qcompare_spec (inject_Z z - inject_Z z) (1 # 2)); [lra|done|lra].
Qed.

#[global] Instance rne_proper : Proper (Qeq ==> eq) rne.
Proof. intros p q E. apply Z.le_antisymm; apply rne_mono; lra. Qed.

(** ** [f64] on positive numbers *)
Lemma Qdiv_mul_cancel a u : 0 < u -> a / u * u == a.
Proof. intros. field. lra. Qed.

Lemma round_pos_bracket q : 0 < q -> pow2 (mag q) <= round_pos q /\ round_pos q <= pow2 (mag q + 1).
Proof.
  intros Hq. destruct (mag_spec q Hq) as [Hl Hu]. unfold round_pos.
  set (e := (mag q - 52)%Z). pose proof (pow2_pos e) as Hp.
  assert (pow2 (mag q) == inject_Z (2 ^ 52) * pow2 e) as E1.
  { rewrite <-pow2_Z, <-pow2_add by done. replace (52 + e)%Z with (mag q) by (unfold e; lia). reflexivity. }
  assert (pow2 (mag q + 1) == inject_Z (2 ^ 53) * pow2 e) as E2.
  { rewrite <-pow2_Z, <-pow2_add by done. replace (53 + e)%Z with (mag q + 1)%Z by (unfold e; lia). reflexivity. }
  rewrite E1 in Hl |- *. rewrite E2 in Hu |- *.
  split; apply Qmult_le_r; try done; rewrite <-Zle_Qle.
  - rewrite <-(rne_Z (2 ^ 52)). apply rne_mono. apply Qle_shift_div_l; done.
  - rewrite <-(rne_Z (2 ^ 53)). apply rne_mono. apply Qle_shift_div_r; [done|lra].
Qed.

Lemma round_pos_mono p q : 0 < p -> p <= q -> round_pos p <= round_pos q.
Proof.
  intros Hp Hle. assert (0 < q) as Hq by lra.
  destruct (round_pos_bracket p Hp) as [_ Hpu]. destruct (round_pos_bracket q Hq) as [Hql _].
  destruct (Z.eq_dec (mag p) (mag q)) as [E|E].
  - unfold round_pos. rewrite E. pose proof (pow2_pos (mag q - 52)).
    apply Qmult_le_compat_r; [|lra]. rewrite <-Zle_Qle. apply rne_mono.
    apply Qmult_le_compat_r; [done|]. apply Qinv_le_0_compat. lra.
  - pose proof (mag_mono p q Hp Hle).
    assert (pow2 (mag p + 1) <= pow2 (mag q)) by (apply pow2_mono; lia). lra.
Qed.

(** Half a unit in the last place, so relatively 2^-53. *)
Definition eps : Q := 1 # 9007199254740992.

Lemma round_pos_error q :
  0 < q -> q * (1 - eps) <= round_pos q /\ round_pos q <= q * (1 + eps).
Proof.
  intros Hq. destruct (mag_spec q Hq) as [Hl _]. unfold round_pos.
  set (e := (mag q - 52)%Z). pose proof (pow2_pos e) as Hp.
  assert (pow2 e * (1 # 2) <= q * eps) as Hu.
  { replace (mag q) with (52 + e)%Z in Hl by (unfold e; lia). rewrite pow2_add in Hl.
    change (pow2 52) with (4503599627370496 # 1) in Hl. unfold eps. lra. }
  destruct (rne_bounds (q / pow2 e)) as [H1 H2].
  pose proof (Qdiv_mul_cancel q (pow2 e) Hp) as Hc.
  set (r := inject_Z (rne (q / pow2 e))) in *. set (x := q / pow2 e) in *. split; nra.
Qed.

Lemma round_pos_int z :
  (0 < z <= 2 ^ 53)%Z -> round_pos (inject_Z z) == inject_Z z.
Proof.
  intros Hz. assert (0 < inject_Z z) as Hq by (change 0 with (inject_Z 0); rewrite <-Zlt_Qlt; lia).
  assert (exists n, inject_Z z / pow2 (mag (inject_Z z) - 52) == inject_Z n) as [n En].
  { destruct (Z.le_gt_cases (mag (inject_Z z)) 52) as [Hm|Hm].
    - exists (z * 2 ^ (52 - mag (inject_Z z)))%Z. rewrite inject_Z_mult, <-pow2_Z by lia.
      replace (mag (inject_Z z) - 52)%Z with (- (52 - mag (inject_Z z)))%Z by lia.
      unfold pow2. rewrite Qpower_opp. unfold Qdiv. by rewrite Qinv_involutive.
    - destruct (mag_spec _ Hq) as [Hl _].
      assert (pow2 53 <= pow2 (mag (inject_Z z))) by (apply pow2_mono; lia).
      assert (inject_Z z <= inject_Z (2 ^ 53)) by (rewrite <-Zle_Qle; lia).
      rewrite (pow2_Z 53) in H by done.
      assert (inject_Z z == inject_Z (2 ^ 53)) as Ez by lra.
      assert (z = 2 ^ 53)%Z as -> by by apply inject_Z_injective.
      exists (2 ^ 52)%Z. vm_compute. reflexivity. }
  unfold round_pos. rewrite En, rne_Z, <-En. apply Qdiv_mul_cancel, pow2_pos.
Qed.

(** ** The laws of [f64] *)
Lemma f64_pos q : 0 < q -> f64 q == round_pos q.
Proof. intros Hq. unfold f64. rewrite Qred_correct. by rewrite (proj1 (Qgt_alt _ _) Hq). Qed.

Lemma f64_neg q : q < 0 -> f64 q == - round_pos (- q).
Proof. intros Hq. unfold f64. rewrite Qred_correct. by rewrite (proj1 (Qlt_alt _ _) Hq). Qed.

Lemma f64_zero q : q == 0 -> f64 q == 0.
Proof. intros Hq. unfold f64. rewrite Qred_correct. by rewrite (proj1 (Qeq_alt _ _) Hq). Qed.

Lemma round_pos_pos q : 0 < q -> 0 < round_pos q.
Proof. intros Hq. destruct (round_pos_bracket q Hq). pose proof (pow2_pos (mag q)). lra. Qed.

Lemma f64_mono p q : p <= q -> f64 p <= f64 q.
Proof.
  intros H. destruct (Q_dec p 0) as [[Hp|Hp]|Hp], (Q_dec q 0) as [[Hq|Hq]|Hq]; try lra;
    rewrite ?(f64_neg p), ?(f64_neg q), ?(f64_pos p), ?(f64_pos q), ?(f64_zero p), ?(f64_zero q)
      by lra.
  - assert (round_pos (- q) <= round_pos (- p)) by (apply round_pos_mono; lra). lra.
  - assert (0 < round_pos (- p)) by (apply round_pos_pos; lra).
    assert (0 < round_pos q) by (by apply round_pos_pos). lra.
  - assert (0 < round_pos (- p)) by (apply round_pos_pos; lra). lra.
  - by apply round_pos_mono.
  - assert (0 < round_pos q) by (by apply round_pos_pos). lra.
  - lra.
Qed.

Lemma f64_error q : 0 <= q -> q * (1 - eps) <= f64 q /\ f64 q <= q * (1 + eps).
Proof.
  intros Hq. destruct (Qle_lt_or_eq _ _ Hq) as [Hp|E].
  - rewrite f64_pos by done. by apply round_pos_error.
  - rewrite f64_zero by (by symmetry). rewrite <-E. split; lra.
Qed.

Lemma f64_int z : (0 <= z <= 2 ^ 53)%Z -> f64 (inject_Z z) == inject_Z z.
Proof.
  intros Hz. destruct (Z.eq_dec z 0) as [->|Hn]; [by apply f64_zero|].
  rewrite f64_pos by (change 0 with (inject_Z 0); rewrite <-Zlt_Qlt; lia).
  apply round_pos_int. lia.
Qed.

(** The result is in lowest terms, so equal numbers round to the same one. *)
Lemma f64_canonical q : f64 q = Qred (f64 q).
Proof. unfold f64. symmetry. apply Qred_complete, Qred_correct. Qed.

Lemma Qred_inject_Z z : Qred (inject_Z z) = inject_Z z.
Proof. apply Qcanon.Qred_identity. unfold inject_Z. cbn [Qnum Qden]. by apply Z.gcd_1_r. Qed.

Lemma f64_int_eq z : (0 <= z <= 2 ^ 53)%Z -> f64 (inject_Z z) = inject_Z z.
Proof.
  intros Hz. rewrite f64_canonical, <-(Qred_inject_Z z). apply Qred_complete.
  rewrite (Qred_inject_Z z). by apply f64_int.
Qed.

Lemma f64_nonneg q : 0 <= q -> 0 <= f64 q.
Proof. intros Hq. rewrite <-(f64_zero 0) by reflexivity. by apply f64_mono. Qed.

Lemma f64_positive q : 0 < q -> 0 < f64 q.
Proof. intros Hq. rewrite f64_pos by done. by apply round_pos_pos. Qed.

Lemma f64_le_int q z : (0 <= z <= 2 ^ 53)%Z -> q <= inject_Z z -> f64 q <= inject_Z z.
Proof. intros Hz Hq. rewrite <-(f64_int z) by done. by apply f64_mono. Qed.

Lemma f64_ge_int q z : (0 <= z <= 2 ^ 53)%Z -> inject_Z z <= q -> inject_Z z <= f64 q.
Proof. intros Hz Hq. rewrite <-(f64_int z) by done. by apply f64_mono. Qed.

#[global] Instance f64_proper : Proper (Qeq ==> Qeq) f64.
Proof. intros p q E. apply Qle_antisym; apply f64_mono; lra. Qed.

Lemma f64_eq p q : p == q -> f64 p = f64 q.
Proof.
  intros E. rewrite (f64_canonical p), (f64_canonical q). apply Qred_complete. by rewrite E.
Qed.

Lemma f64_int_of q z : (0 <= z <= 2 ^ 53)%Z -> q == inject_Z z -> f64 q = inject_Z z.
Proof. intros Hz E. rewrite (f64_eq _ _ E). by apply f64_int_eq. Qed.

(** Rounding what is rounded changes nothing. *)
Lemma round_pos_idem q : 0 < q -> round_pos (round_pos q) == round_pos q.
Proof.
  intros Hq. destruct (round_pos_bracket q Hq) as [Hlo Hhi]. pose proof (pow2_pos (mag q - 52)) as Hu.
  assert (exists n, round_pos q / pow2 (mag (round_pos q) - 52) == inject_Z n) as [n En].
  { destruct (Qle_lt_or_eq _ _ Hhi) as [Hlt|E].
    - rewrite (mag_unique _ _ Hlo Hlt). exists (rne (q / pow2 (mag q - 52))). unfold round_pos. field. lra.
    - exists (2 ^ 52)%Z. rewrite (mag_unique (round_pos q) (mag q + 1)).
      + rewrite E, <-(pow2_Z 52) by done. pose proof (pow2_pos (mag q + 1 - 52)).
        replace (mag q + 1)%Z with (52 + (mag q + 1 - 52))%Z at 1 by ring. rewrite pow2_add. field. lra.
      + rewrite E. apply Qle_refl.
      + rewrite E, (pow2_succ (mag q + 1)). pose proof (pow2_pos (mag q + 1)). lra. }
  unfold round_pos at 1. rewrite En, rne_Z, <-En. apply Qdiv_mul_cancel, pow2_pos.
Qed.

Lemma f64_idem q : 0 <= q -> f64 (f64 q) = f64 q.
Proof.
  intros Hq. rewrite (f64_canonical (f64 q)), (f64_canonical q). apply Qred_complete. rewrite <-(f64_canonical q).
  destruct (Qle_lt_or_eq _ _ Hq) as [Hp|E].
  - transitivity (f64 (round_pos q)); [apply f64_proper; by apply f64_pos|].
    rewrite (f64_pos (round_pos q)) by (by apply round_pos_pos). rewrite (f64_pos q) by done. by apply round_pos_idem.
  - rewrite (f64_zero q) by (by symmetry). by apply f64_zero.
Qed.

Lemma of_int_eq z : (0 <= z <= 2 ^ 53)%Z -> of_int z = inject_Z z.
Proof. apply f64_int_eq. Qed.

Lemma of_int_exact z : (0 <= z <= 2 ^ 53)%Z -> of_int z == inject_Z z.
Proof. apply f64_int. Qed.

Lemma Qlt_bool_iff x y : Qlt_bool x y = true <-> x < y.
Proof.
  unfold Qlt_bool. rewrite negb_true_iff. split.
  - intros H. apply Qnot_le_lt. intros Hle. apply Qle_bool_iff in Hle. congruence.
  - intros H. destruct (Qle_bool y x) eqn:E; [|done]. apply Qle_bool_iff in E. lra.
Qed.

Lemma Qlt_bool_false x y : Qlt_bool x y = false <-> y <= x.
Proof. unfold Qlt_bool. rewrite negb_false_iff. apply Qle_bool_iff. Qed.

Lemma Qle_bool_false x y : Qle_bool x y = false <-> y < x.
Proof. rewrite <-Qlt_bool_iff. unfold Qlt_bool. symmetry. apply negb_true_iff. Qed.

(** Tenths are not doubles, and their sum is not three tenths. *)
Example f64_tenths :
  f64 (1 # 10) = 3602879701896397 # 36028797018963968 /\
  Qeq_bool (fadd (f64 (1 # 10)) (f64 (2 # 10))) (f64 (3 # 10)) = false.
Proof. vm_compute. split; reflexivity. Qed.

(** ** [time.Duration.Seconds] *)
Definition Duration_Seconds (d : Duration) : Q :=
  fadd (of_int (Z.quot d Second)) (fdiv (of_int (Z.rem d Second)) (of_int 1000000000)).

(** [int64(math.Ceil(d.Seconds()))] *)
Definition ceil_seconds (d : Duration) : Z := fceil (Duration_Seconds d).

Lemma f64_abs_error q e : 0 < q -> q < pow2 e -> q - pow2 (e - 54) <= f64 q.
Proof.
  intros Hq Hlt. rewrite f64_pos by done. destruct (mag_spec q Hq) as [Hl _]. unfold round_pos.
  set (u := pow2 (mag q - 52)). assert (0 < u) as Hu by apply pow2_pos.
  destruct (rne_bounds (q / u)) as [_ H2]. pose proof (Qdiv_mul_cancel q u Hu) as Hc.
  assert (mag q < e)%Z by (apply pow2_lt_inv; lra).
  assert (u <= 2 * pow2 (e - 54)) as Hup.
  { rewrite <-pow2_succ. apply pow2_mono. lia. }
  set (r := inject_Z (rne (q / u))) in *. set (x := q / u) in *. nra.
Qed.

Lemma of_int_Second : of_int 1000000000 == inject_Z 1000000000.
Proof. vm_compute. reflexivity. Qed.

Section duration.
Context (d : Duration) (Hpos : (0 < d)%Z).

Lemma duration_split :
  (0 <= d ÷ Second)%Z /\ (0 <= Z.rem d Second < Second)%Z /\
  (d = Second * (d ÷ Second) + Z.rem d Second)%Z.
Proof.
  pose proof (Z.quot_pos d Second). pose proof (Z.rem_bound_pos d Second).
  pose proof (Z.quot_rem' d Second). unfold Second in *. lia.
Qed.

(** The fraction of a second, rounded. *)
Lemma fraction_bounds :
  let f := fdiv (of_int (Z.rem d Second)) (of_int 1000000000) in
  0 <= f /\ f <= 1 /\ ((0 < Z.rem d Second)%Z -> (1 # 1000000000) * (1 - eps) <= f) /\
  (Z.rem d Second = 0%Z -> f == 0).
Proof.
  destruct duration_split as (_ & Hr & _). unfold Second in *. set (r := Z.rem d _) in *.
  unfold fdiv. rewrite of_int_Second, of_int_exact by lia.
  assert (inject_Z r / inject_Z 1000000000 == inject_Z r * (1 # 1000000000)) as Ed
    by (unfold Qdiv; reflexivity).
  rewrite Ed. assert (inject_Z 0 <= inject_Z r) as H0 by (rewrite <-Zle_Qle; lia).
  assert (inject_Z r <= inject_Z 1000000000) as H1 by (rewrite <-Zle_Qle; lia).
  change (inject_Z 0) with 0%Q in H0. change (inject_Z 1000000000) with (1000000000 # 1) in H1.
  split_and!.
  - apply f64_nonneg. lra.
  - apply (f64_le_int _ 1); [lia|]. change (inject_Z 1) with 1%Q. lra.
  - intros Hp. assert (inject_Z 1 <= inject_Z r) as H2 by (rewrite <-Zle_Qle; lia).
    change (inject_Z 1) with 1%Q in H2.
    destruct (f64_error (inject_Z r * (1 # 1000000000))) as [He _]; [lra|].
    unfold eps in *. lra.
  - intros ->. apply f64_zero. reflexivity.
Qed.

Lemma Qceiling_between x n : inject_Z n < x -> x <= inject_Z (n + 1) -> Qceiling x = (n + 1)%Z.
Proof.
  intros H1 H2. apply Z.le_antisymm.
  - rewrite <-(Qceiling_Z (n + 1)). by apply Qceiling_resp_le.
  - pose proof (Qle_ceiling x). assert (n < Qceiling x)%Z; [|lia]. rewrite Zlt_Qlt. lra.
Qed.

(** Whatever the duration, rounding up is off by less than a second and never
    gives zero. *)
Lemma ceil_seconds_range :
  in_int64 d -> (d / Second <= ceil_seconds d <= d / Second + 1 /\ 1 <= ceil_seconds d)%Z.
Proof.
  intros Hd. destruct duration_split as (Hq & Hr & Ed).
  destruct fraction_bounds as (Hf0 & Hf1 & Hfp & _).
  assert (d ÷ Second = d / Second)%Z as En by (apply Z.quot_div_nonneg; unfold Second; lia).
  unfold ceil_seconds, fceil, Duration_Seconds, fadd. rewrite <-En.
  set (f := fdiv _ _) in *. set (n := (d ÷ Second)%Z) in *.
  assert (n + 1 <= 2 ^ 53)%Z as Hn by (unfold in_int64, max_int64, Second in *; lia).
  rewrite of_int_exact by lia.
  assert (inject_Z n <= f64 (inject_Z n + f)) as Hlo by (apply f64_ge_int; [lia|lra]).
  assert (f64 (inject_Z n + f) <= inject_Z (n + 1)) as Hhi.
  { apply f64_le_int; [lia|]. rewrite inject_Z_plus. change (inject_Z 1) with 1%Q. lra. }
  apply Qceiling_resp_le in Hlo as Hlo'. apply Qceiling_resp_le in Hhi as Hhi'.
  rewrite Qceiling_Z in Hlo', Hhi'. split; [done|].
  destruct (Z.eq_dec n 0) as [E0|]; [|lia].
  assert (0 < Z.rem d Second)%Z as Hp by lia. specialize (Hfp Hp).
  assert (0 < f64 (inject_Z n + f)) as Hpos'.
  { apply f64_positive. rewrite E0. change (inject_Z 0) with 0%Q. unfold eps in *. lra. }
  pose proof (Qle_ceiling (f64 (inject_Z n + f))). rewrite Zle_Qle. change (inject_Z 1) with 1%Q.
  assert (0 < Qceiling (f64 (inject_Z n + f)))%Z; [|rewrite <-(Zle_Qle 1); lia].
  rewrite Zlt_Qlt. change (inject_Z 0) with 0%Q. lra.
Qed.

(** Below 2^24 seconds - 194 days - a single nanosecond still shows, and the result
    is exactly the duration rounded up. *)
Lemma ceil_seconds_exact :
  (d < 2 ^ 24 * Second)%Z -> ceil_seconds d = ((d + Second - 1) / Second)%Z.
Proof.
  intros Hd. destruct duration_split as (Hq & Hr & Ed).
  destruct fraction_bounds as (Hf0 & Hf1 & Hfp & Hfz).
  unfold ceil_seconds, fceil, Duration_Seconds, fadd.
  set (f := fdiv _ _) in *. set (n := (d ÷ Second)%Z) in *. set (r := Z.rem d Second) in *.
  assert (n < 2 ^ 24)%Z as Hn by (unfold Second in *; lia).
  rewrite of_int_exact by lia.
  destruct (Z.eq_dec r 0) as [E0|Hne].
  - rewrite (Hfz E0), Qplus_0_r, f64_int, Qceiling_Z by lia.
    rewrite E0 in Ed. rewrite Ed. unfold Second in *.
    apply (Z.div_unique _ _ _ 999999999); lia.
  - assert (0 < r)%Z as Hp by lia. specialize (Hfp Hp).
    replace ((d + Second - 1) / Second)%Z with (n + 1)%Z
      by (apply (Z.div_unique _ _ _ (r - 1)); unfold Second in *; lia).
    apply Qceiling_between.
    + assert (inject_Z n <= inject_Z (2 ^ 24 - 1)) as Hnq by (rewrite <-Zle_Qle; lia).
      assert (0 <= inject_Z n) as Hn0 by (change 0 with (inject_Z 0); rewrite <-Zle_Qle; lia).
      change (inject_Z (2 ^ 24 - 1)) with (16777215 # 1) in Hnq.
      assert (pow2 (25 - 54) == 1 # 536870912) as Ep by (vm_compute; reflexivity).
      assert (pow2 25 == 33554432 # 1) as Ep' by (vm_compute; reflexivity).
      unfold eps in *. destruct (Qlt_le_dec (inject_Z n + f) 16777216) as [Hsmall|Hbig]; cycle 1.
      * enough (inject_Z (2 ^ 24) <= f64 (inject_Z n + f)) as Hge.
        { change (inject_Z (2 ^ 24)) with (16777216 # 1) in Hge. lra. }
        apply f64_ge_int; [lia|done].
      * assert (pow2 24 == 16777216 # 1) as Ep2 by (vm_compute; reflexivity).
        assert (pow2 (24 - 54) == 1 # 1073741824) as Ep3 by (vm_compute; reflexivity).
        pose proof (f64_abs_error (inject_Z n + f) 24) as He. rewrite Ep2, Ep3 in He.
        assert (0 < inject_Z n + f) by lra. specialize (He H Hsmall). lra.
    + apply f64_le_int; [lia|]. rewrite inject_Z_plus. change (inject_Z 1) with 1%Q. lra.
Qed.

End duration.
