(* ===== verification/GoParse.v ===== *)
(** * Parsing values the way Go does ([strconv], [time])

    [strconv.Atoi], [ParseInt] in base 10 and [ParseBool], and [time.ParseDuration],
    on byte strings; [None] is any of their errors. *)
From stdpp Require Import base list strings pretty.
From Stdlib Require Import ZArith Lia Ascii String QArith Qround.
From S2P Require Import Prelude.
From S2P Require Import GoStrings.
From S2P Require Import Float.

#[local] Open Scope string_scope.
#[local] Open Scope Z_scope.

(** The value of decimal digits, read onto [acc]. *)
Fixpoint digits_value (s : string) (acc : Z) : option Z :=
  match s with
  | EmptyString => Some acc
  | String c s' => if is_digit c then digits_value s' (acc * 10 + (byte_Z c - 48)) else None
  end.

(** [strconv.ParseUint] in base 10, before the range check. *)
Definition ParseDigits (s : string) : option Z :=
  match s with EmptyString => None | _ => digits_value s 0 end.

(** [strconv.ParseInt(s, 10, 64)] *)
Definition ParseInt (s : string) : option Z :=
  let '(neg, digits) :=
    match s with
    | String "+" s' => (false, s')
    | String "-" s' => (true, s')
    | _ => (false, s)
    end in
  match ParseDigits digits with
  | None => None
  | Some n =>
      if (neg : bool) then (if 2 ^ 63 <? n then None else Some (- n))
      else (if 2 ^ 63 <=? n then None else Some n)
  end.

(** [strconv.Atoi]: [int] has 64 bits. *)
Definition Atoi (s : string) : option Z := ParseInt s.

(** [strconv.ParseBool] *)
Definition ParseBool (s : string) : option bool :=
  if existsb (String.eqb s) ["1"; "t"; "T"; "TRUE"; "true"; "True"] then Some true
  else if existsb (String.eqb s) ["0"; "f"; "F"; "FALSE"; "false"; "False"] then Some false
  else None.

(** ** Durations

    [time.ParseDuration]: a sign, then numbers with a unit each.  Its unsigned
    64-bit sum and its doubles for the fractions are written out. *)

(** [leadingInt]: the digits in front, unless they exceed [2^63]. *)
Fixpoint leadingInt (s : string) (x : Z) : option (Z * string) :=
  match s with
  | EmptyString => Some (x, s)
  | String c s' =>
      if negb (is_digit c) then Some (x, s)
      else if 2 ^ 63 / 10 <? x then None
      else
        let x := x * 10 + (byte_Z c - 48) in
        if 2 ^ 63 <? x then None else leadingInt s' x
  end.

(** [leadingFraction]: digits past what fits are dropped. *)
Fixpoint leadingFraction (s : string) (x : Z) (scale : Q) (overflow : bool) : Z * Q * string :=
  match s with
  | EmptyString => (x, scale, s)
  | String c s' =>
      if negb (is_digit c) then (x, scale, s)
      else if overflow then leadingFraction s' x scale overflow
      else if (2 ^ 63 - 1) / 10 <? x then leadingFraction s' x scale true
      else
        let y := x * 10 + (byte_Z c - 48) in
        if 2 ^ 63 <? y then leadingFraction s' x scale true
        else leadingFraction s' y (fmul scale (of_int 10)) false
  end.

(** The unit: everything up to a digit or a point. *)
Fixpoint span_unit (s : string) : string * string :=
  match s with
  | EmptyString => (EmptyString, EmptyString)
  | String c s' =>
      if is_digit c || Ascii.eqb c "." then (EmptyString, s)
      else let '(u, rest) := span_unit s' in (String c u, rest)
  end.

(** [unitMap]; the two spellings of the micro sign are in UTF-8. *)
Definition micro : string := String "194" (String "181" "s").
Definition mu : string := String "206" (String "188" "s").

Definition unitMap (u : string) : option Z :=
  if String.eqb u "ns" then Some 1
  else if String.eqb u "us" || String.eqb u micro || String.eqb u mu then Some 1000
  else if String.eqb u "ms" then Some Millisecond
  else if String.eqb u "s" then Some Second
  else if String.eqb u "m" then Some Minute
  else if String.eqb u "h" then Some Hour
  else None.

(** The optional fraction: its digits, their scale, and whether there were any. *)
Definition fraction (s : string) : Z * Q * string * bool :=
  match s with
  | EmptyString => (0, of_int 1, s, false)
  | String c s' =>
      if negb (Ascii.eqb c ".") then (0, of_int 1, s, false)
      else
        let '(f, scale, rest) := leadingFraction s' 0 (of_int 1) false in
        (f, scale, rest, negb (Z.of_nat (String.length rest) =? Z.of_nat (String.length s')))
  end.

(** One number with its unit: its nanoseconds, and what is left. *)
Definition component (s : string) : option (Z * string) :=
  match leadingInt s 0 with
  | None => None
  | Some (v, s1) =>
      let pre := negb (Z.of_nat (String.length s1) =? Z.of_nat (String.length s)) in
      let '(f, scale, s2, post) := fraction s1 in
      if negb pre && negb post then None
      else
        let '(u, s3) := span_unit s2 in
        match unitMap u with
        | None => None
        | Some unit =>
            if 2 ^ 63 / unit <? v then None
            else
              let v := v * unit in
              if 0 <? f then
                let v := v + Qfloor (fmul (of_int f) (fdiv (of_int unit) scale)) in
                if 2 ^ 63 <? v then None else Some (v, s3)
              else Some (v, s3)
        end
  end.

(** The loop, with as much fuel as there are bytes. *)
Fixpoint components (fuel : nat) (s : string) (d : Z) : option Z :=
  match s with
  | EmptyString => Some d
  | String c _ =>
      match fuel with
      | O => None
      | S fuel =>
          if negb (Ascii.eqb c "." || is_digit c) then None
          else match component s with
               | None => None
               | Some (v, rest) =>
                   let d := (d + v) mod 2 ^ 64 in
                   if 2 ^ 63 <? d then None else components fuel rest d
               end
      end
  end.

Definition ParseDuration (s : string) : option Duration :=
  let '(neg, s) :=
    match s with
    | String "-" s' => (true, s')
    | String "+" s' => (false, s')
    | _ => (false, s)
    end in
  if String.eqb s "0" then Some 0
  else if String.eqb s "" then None
  else match components (String.length s) s 0 with
       | None => None
       | Some d =>
           if (neg : bool) then Some (- d)
           else if 2 ^ 63 - 1 <? d then None else Some d
       end.

Example durations_parsed :
  map ParseDuration ["1h15m30.918s"; "500ms"; "-1.5h"; ".5s"; "0"; "1d"; "10"; ""; "9223372036854775808ns"] =
    [Some 4530918000000; Some 500000000; Some (-5400000000000); Some 500000000; Some 0; None; None; None; None].
Proof. vm_compute. reflexivity. Qed.

(** ** Lemmas *)
Lemma digits_value_ge s acc n : digits_value s acc = Some n -> 0 <= acc -> 0 <= n.
Proof.
  revert acc. induction s as [|c s IH]; intros acc; simpl; [by intros [= ->]|].
  destruct (is_digit c) eqn:Ed; [|done]. intros E Ha. apply IH in E; [done|].
  unfold is_digit in Ed. lia.
Qed.

Lemma ParseInt_range s n : ParseInt s = Some n -> in_int64 n.
Proof.
  unfold ParseInt, in_int64, min_int64, max_int64.
  destruct (match s with EmptyString => _ | _ => _ end) as [neg digits].
  destruct (ParseDigits digits) as [m|] eqn:E; [|done].
  assert (0 <= m) as Hm.
  { destruct digits as [|c d]; [done|]. by eapply (digits_value_ge (String c d) 0). }
  destruct neg.
  - destruct (Z.ltb_spec (2 ^ 63) m); [done|]. intros [= <-]. lia.
  - destruct (Z.leb_spec (2 ^ 63) m); [done|]. intros [= <-]. lia.
Qed.

(** Every number takes a unit off the text, so the fuel is enough. *)
Lemma leadingInt_length s x v rest :
  leadingInt s x = Some (v, rest) -> (String.length rest <= String.length s)%nat.
Proof.
  revert x. induction s as [|c s IH]; intros x; simpl; [by intros [= _ <-]|].
  destruct (is_digit c); simpl; [|by intros [= _ <-]].
  destruct (_ <? x); [done|]. destruct (_ <? _); [done|]. intros E%IH. lia.
Qed.

Lemma leadingFraction_length s x scale o f scale' rest :
  leadingFraction s x scale o = (f, scale', rest) -> (String.length rest <= String.length s)%nat.
Proof.
  revert x scale o. induction s as [|c s IH]; intros x scale o; simpl; [by intros [= _ _ <-]|].
  destruct (is_digit c); simpl; [|by intros [= _ _ <-]].
  destruct o; [by intros E%IH; lia|]. destruct (_ <? x); [by intros E%IH; lia|].
  destruct (_ <? _); intros E%IH; lia.
Qed.

Lemma fraction_length s f scale rest post :
  fraction s = (f, scale, rest, post) -> (String.length rest <= String.length s)%nat.
Proof.
  destruct s as [|c s]; cbn [fraction]; [by intros [= _ _ <- _]|].
  destruct (Ascii.eqb c "."); cbn [negb]; [|by intros [= _ _ <- _]].
  destruct (leadingFraction s 0 (of_int 1) false) as [[f' sc] r] eqn:E.
  apply leadingFraction_length in E. intros [= _ _ <- _]. simpl. lia.
Qed.

Lemma span_unit_app s u rest : span_unit s = (u, rest) -> s = (u ++ rest)%string.
Proof.
  revert u rest. induction s as [|c s IH]; intros u rest; simpl; [by intros [= <- <-]|].
  destruct (is_digit c || Ascii.eqb c "."); [by intros [= <- <-]|].
  destruct (span_unit s) as [u' r']. intros [= <- <-]. by rewrite (IH u' r').
Qed.

Lemma component_shorter s v rest :
  component s = Some (v, rest) -> (String.length rest < String.length s)%nat.
Proof.
  unfold component. destruct (leadingInt s 0) as [[n s1]|] eqn:E1; [|done].
  destruct (fraction s1) as [[[f scale] s2] post] eqn:E2.
  destruct (negb _ && negb post); [done|]. destruct (span_unit s2) as [u s3] eqn:E3.
  apply leadingInt_length in E1. apply fraction_length in E2.
  apply span_unit_app in E3. subst s2. rewrite length_app_s in E2.
  destruct u as [|c u]; [done|]. simpl in E2.
  destruct (unitMap _); [|done]. destruct (_ <? n); [done|].
  destruct (0 <? f); [destruct (_ <? _); [done|]|]; intros [= _ <-]; lia.
Qed.

Lemma components_fuel n m s d :
  (String.length s <= n)%nat -> (String.length s <= m)%nat -> components n s d = components m s d.
Proof.
  revert m s d. induction n as [|n IH]; intros m s d Hn Hm; destruct s as [|c s]; try (simpl in *; lia);
    [by destruct m|by destruct m|].
  destruct m as [|m]; [simpl in Hm; lia|]. cbn [components]. destruct (negb _); [done|].
  destruct (component (String c s)) as [[v rest]|] eqn:E; [|done]. apply component_shorter in E.
  destruct (_ <? _); [done|]. apply IH; simpl in *; lia.
Qed.

Lemma components_range n s d v : components n s d = Some v -> 0 <= d <= 2 ^ 63 -> 0 <= v <= 2 ^ 63.
Proof.
  revert s d. induction n as [|n IH]; intros [|c s] d; cbn [components]; try (by intros [= ->]); try done.
  destruct (negb _); [done|]. destruct (component _) as [[w rest]|]; [|done].
  destruct (Z.ltb_spec (2 ^ 63) ((d + w) mod 2 ^ 64)); [done|]. intros E _. eapply IH; [exact E|].
  pose proof (Z.mod_pos_bound (d + w) (2 ^ 64)). lia.
Qed.

Lemma ParseDuration_range s d : ParseDuration s = Some d -> in_int64 d.
Proof.
  unfold ParseDuration, in_int64, min_int64, max_int64.
  destruct (match s with EmptyString => _ | _ => _ end) as [neg s'].
  destruct (String.eqb s' "0"); [intros [= <-]; lia|]. destruct (String.eqb s' ""); [done|].
  destruct (components _ s' 0) as [v|] eqn:E; [|done]. apply components_range in E; [|lia].
  destruct neg; [intros [= <-]; lia|]. destruct (Z.ltb_spec (2 ^ 63 - 1) v); [done|]. intros [= <-]. lia.
Qed.
