(* ===== verification/Store.v ===== *)
(** * The store contract ([internal/store])

    The two rules, their results, the key that names a bucket, the [Store]
    interface as a record of operations over a state, and [Noop].  The laws a
    client may rely on are classes over a [Store]; the decorators and the Redis
    store are instances elsewhere. *)
From stdpp Require Import base list strings.
From Stdlib Require Import ZArith Lia Ascii String.
From S2P Require Import Prelude.
From S2P Require Import GoStrings.

(** An [error] is known by its text; the sentinels are constants. *)
Abbreviation error := string.

(** ** Data *)
Record Rule : Type := mkRule {
  Rule_Limit : Z;
  Rule_Window : Duration;
  Rule_Block : Duration;
}.

Record Key : Type := mkKey {
  Key_Limiter : string;
  Key_Bucket : string;
}.

Record Result : Type := mkResult {
  Result_Blocked : bool;
  Result_Count : Z;
  Result_RetryAfter : Duration;
}.

Record Bucket : Type := mkBucket {
  Bucket_Rate : Z;
  Bucket_Burst : Z;
}.

Record TakeResult : Type := mkTakeResult {
  TakeResult_Allowed : bool;
  TakeResult_Remaining : Z;
  TakeResult_RetryAfter : Duration;
}.

#[global] Instance Rule_eq_dec : EqDecision Rule.
Proof. solve_decision. Defined.
#[global] Instance Key_eq_dec : EqDecision Key.
Proof. solve_decision. Defined.
#[global] Instance Result_eq_dec : EqDecision Result.
Proof. solve_decision. Defined.
#[global] Instance Bucket_eq_dec : EqDecision Bucket.
Proof. solve_decision. Defined.
#[global] Instance TakeResult_eq_dec : EqDecision TakeResult.
Proof. solve_decision. Defined.

(** The zero values Go returns beside an error. *)
Definition Result_zero : Result := mkResult false 0 0.
Definition TakeResult_zero : TakeResult := mkTakeResult false 0 0.

Definition Rule_zero : Rule := mkRule 0 0 0.
Definition Bucket_zero : Bucket := mkBucket 0 0.

Definition Rule_Valid (r : Rule) : bool :=
  (Rule_Limit r >? 0) && (Rule_Window r >? 0) && (Rule_Block r >? 0).

Definition Bucket_Valid (b : Bucket) : bool :=
  (Bucket_Rate b >? 0) && (Bucket_Burst b >? 0).

Definition Key_String (k : Key) : string :=
  (Key_Limiter k ++ ":" ++ Key_Bucket k)%string.

Definition ErrDisabled : error := "store disabled"%string.

(** ** Storage-safe bucket values *)
Definition is_brace (c : ascii) : bool := Ascii.eqb c "{"%char || Ascii.eqb c "}"%char.

(** [strings.ContainsAny(s, "{}")] *)
Definition contains_brace (s : string) : bool := negb (sforall (fun c => negb (is_brace c)) s).

Definition SanitizeBucket (s : string) : string :=
  if negb (contains_brace s) then s
  else sfilter (fun c => negb (is_brace c)) s.

(** ** The interface *)

(** [store.Store]: the operations of a counter backend over a state [S].  The
    [context.Context] argument carries cancellation only and is not modelled. *)
Record Store (S : Type) : Type := mkStore {
  Consume : Key -> Rule -> GoM S (Result * option error);
  Take : Key -> Bucket -> GoM S (TakeResult * option error);
  Close : GoM S (option error);
}.
Arguments mkStore {S} _ _ _.
Arguments Consume {S} _ _ _.
Arguments Take {S} _ _ _.
Arguments Close {S} _.

Module Noop.
(** [store.Noop]: what is installed when limiting is switched off. *)
Definition Consume {S} (_ : Key) (_ : Rule) : GoM S (Result * option error) :=
  gret (Result_zero, None).

Definition Take {S} (_ : Key) (b : Bucket) : GoM S (TakeResult * option error) :=
  gret (mkTakeResult true (Bucket_Burst b) 0, None).

Definition Close {S} : GoM S (option error) := gret None.

Definition Noop {S} : Store S := mkStore Consume Take Close.
End Noop.

(** ** What clients may rely on *)

(** A store whose operations never panic. *)
Class TotalStore {S} (st : Store S) : Prop := {
  total_Consume :: forall k r, Total (Consume st k r);
  total_Take :: forall k b, Total (Take st k b);
}.

(** A store whose operations keep an invariant of its state. *)
Class StoreInv {S} (P : S -> Prop) (st : Store S) : Prop := {
  inv_Consume :: forall k r, Preserves P (Consume st k r);
  inv_Take :: forall k b, Preserves P (Take st k b);
}.

(** A store whose buckets are per limiter, on the states [P] and for the rules and
    buckets in [RuleOk] and [BucketOk]: [agree N] relates states that hold the
    same for the limiters of [N], and a call on one limiter neither sees nor
    touches what belongs to the others.  A call takes no time that another
    limiter could notice. *)
Class Isolated {S} (RuleOk : Rule -> Prop) (BucketOk : Bucket -> Prop) (P : S -> Prop)
    (st : Store S) : Type := {
  agree : (string -> Prop) -> S -> S -> Prop;
  agree_equiv N :: Equivalence (agree N);
  Consume_keeps k r s : RuleOk r -> P s -> P (Consume st k r s).2;
  Take_keeps k b s : BucketOk b -> P s -> P (Take st k b s).2;
  Consume_inside N k r s1 s2 :
    RuleOk r -> P s1 -> P s2 -> N (Key_Limiter k) -> agree N s1 s2 ->
    (Consume st k r s1).1 = (Consume st k r s2).1 /\
    agree N (Consume st k r s1).2 (Consume st k r s2).2;
  Consume_outside N k r s :
    RuleOk r -> P s -> ~ N (Key_Limiter k) -> agree N s (Consume st k r s).2;
  Take_inside N k b s1 s2 :
    BucketOk b -> P s1 -> P s2 -> N (Key_Limiter k) -> agree N s1 s2 ->
    (Take st k b s1).1 = (Take st k b s2).1 /\
    agree N (Take st k b s1).2 (Take st k b s2).2;
  Take_outside N k b s :
    BucketOk b -> P s -> ~ N (Key_Limiter k) -> agree N s (Take st k b s).2;
}.

#[global] Instance TotalStore_Noop {S} : TotalStore (S:=S) Noop.Noop.
Proof. split; intros; apply total_ret. Qed.

#[global] Instance StoreInv_Noop {S} (P : S -> Prop) : StoreInv P Noop.Noop.
Proof. split; intros; apply preserves_ret. Qed.

(** ** Lemmas *)

Lemma Rule_Valid_spec (r : Rule) :
  Rule_Valid r = true <-> 0 < Rule_Limit r /\ 0 < Rule_Window r /\ 0 < Rule_Block r.
Proof. unfold Rule_Valid. rewrite !andb_true_iff, !Z.gtb_lt. tauto. Qed.

Lemma Bucket_Valid_spec (b : Bucket) :
  Bucket_Valid b = true <-> 0 < Bucket_Rate b /\ 0 < Bucket_Burst b.
Proof. unfold Bucket_Valid. rewrite !andb_true_iff, !Z.gtb_lt. tauto. Qed.

Lemma SanitizeBucket_filter (s : string) :
  SanitizeBucket s = sfilter (fun c => negb (is_brace c)) s.
Proof.
  unfold SanitizeBucket, contains_brace. rewrite negb_involutive.
  destruct (sforall _ s) eqn:E; [by rewrite sfilter_id | done].
Qed.

Lemma SanitizeBucket_no_brace (s : string) : contains_brace (SanitizeBucket s) = false.
Proof.
  rewrite SanitizeBucket_filter. unfold contains_brace. by rewrite sforall_sfilter.
Qed.

Lemma SanitizeBucket_id (s : string) : contains_brace s = false -> SanitizeBucket s = s.
Proof. unfold SanitizeBucket. by intros ->. Qed.

Lemma Key_String_inj_aux (k1 k2 : Key) :
  ContainsByte (Key_Limiter k1) ":"%char = false ->
  ContainsByte (Key_Limiter k2) ":"%char = false ->
  Key_String k1 = Key_String k2 -> k1 = k2.
Proof.
  destruct k1, k2; unfold Key_String; simpl. intros H1 H2 E.
  by destruct (app_sep_inj _ _ _ _ _ H1 H2 E) as [-> ->].
Qed.

#[export] Hint Resolve SanitizeBucket_no_brace : golim.
#[export] Hint Rewrite Rule_Valid_spec Bucket_Valid_spec : golim.

(** ** A store to evaluate examples with

    One count per limiter: [Consume] blocks above the limit for ever, and [Take]
    above the burst. *)
Module Tally.
Definition Tally : Type := string -> Z.

Definition empty : Tally := fun _ => 0.

Definition count (k : Key) (t : Tally) : Tally :=
  fun n => if String.eqb n (Key_Limiter k) then t n + 1 else t n.

Definition store : Store Tally :=
  mkStore
    (fun k r t =>
       let c := t (Key_Limiter k) + 1 in
       (Returns (mkResult (Rule_Limit r <? c) c (if Rule_Limit r <? c then Rule_Block r else 0), None),
        count k t))
    (fun k b t =>
       let c := t (Key_Limiter k) + 1 in
       (Returns (mkTakeResult (c <=? Bucket_Burst b) (Bucket_Burst b - c) Second, None), count k t))
    (gret None).
End Tally.
