(* ===== verification/Request.v ===== *)
(** * The request under decision ([internal/limiter/request.go])

    [Request] carries the forwarded method, path, headers, body and query string,
    and the two lazily filled caches ([parseOnce]/[obj] and
    [queryOnce]/[query]).  Accessors are computations over it, because they fill
    the caches.  JSON decoding and the iteration order of Go maps are classes;
    query parsing and header lookup are written out. *)
From stdpp Require Import base list gmap strings.
From Stdlib Require Import ZArith Lia Ascii String.
From S2P Require Import Prelude.
From S2P Require Import GoStrings.

#[local] Open Scope string_scope.
#[local] Open Scope Z_scope.

(** ** JSON *)

(** A decoded [any]; numbers keep their text ([UseNumber]). *)
#[warnings="-register-all"]
Inductive json : Type :=
| JNull
| JBool (b : bool)
| JNumber (text : string)
| JString (s : string)
| JArray (l : list json)
| JObject (m : gmap string json).

(** [json.NewDecoder(body).Decode(&obj)] into a [map[string]any]: [None] is an
    error, [Some None] the nil map of a JSON [null]. *)
Class JSONDecoder : Type := Decode : string -> option (option (gmap string json)).

(** ** [net/url] *)

Definition unhex (c : ascii) : option Z :=
  let x := byte_Z c in
  if is_digit c then Some (x - 48)
  else if (97 <=? x) && (x <=? 102) then Some (x - 87)
  else if (65 <=? x) && (x <=? 70) then Some (x - 55)
  else None.

(** [url.QueryUnescape]: [None] is an error. *)
Fixpoint QueryUnescape (s : string) : option string :=
  match s with
  | EmptyString => Some EmptyString
  | String "%" (String a (String b s')) =>
      match unhex a, unhex b, QueryUnescape s' with
      | Some x, Some y, Some r => Some (String (ascii_of_N (Z.to_N (16 * x + y))) r)
      | _, _, _ => None
      end
  | String "%" _ => None
  | String "+" s' => match QueryUnescape s' with Some r => Some (String " " r) | None => None end
  | String c s' => match QueryUnescape s' with Some r => Some (String c r) | None => None end
  end.

(** [url.Values] *)
Abbreviation Values := (gmap string (list string)).

Definition values_add (m : Values) (key value : string) : Values :=
  <[key := (match m !! key with Some vs => vs | None => [] end ++ [value])%list]> m.

(** One [&]-separated piece of [url.ParseQuery]; a piece that does not decode is
    skipped, its error being ignored by the caller. *)
Definition parse_pair (m : Values) (piece : string) : Values :=
  if ContainsByte piece ";" then m
  else if String.eqb piece "" then m
  else
    let '(k, v, _) := Cut piece "=" in
    match QueryUnescape k with
    | None => m
    | Some k =>
        match QueryUnescape v with
        | None => m
        | Some v => values_add m k v
        end
    end.

Definition ParseQuery (query : string) : Values :=
  fold_left parse_pair (Split query "&") ∅.

(** [url.Values.Get] and [http.Header.Get] both return the first value or "". *)
Definition first_value (o : option (list string)) : string :=
  match o with Some (v :: _) => v | _ => "" end.

Definition Values_Get (m : Values) (key : string) : string := first_value (m !! key).

(** The order in which [range] visits a map: any permutation of its pairs. *)
Class MapRange : Type := {
  range : Values -> list (string * list string);
  range_perm m : range m ≡ₚ map_to_list m;
}.

(** ** [http.Header] *)

(** A token byte of RFC 9110, what [validHeaderFieldByte] accepts. *)
Definition is_token_byte (c : ascii) : bool :=
  is_digit c || is_upper c || is_lower c || ContainsByte "!#$%&'*+-.^_`|~" c.

Fixpoint canonical_from (upper : bool) (s : string) : string :=
  match s with
  | EmptyString => EmptyString
  | String c s' =>
      String (if upper then to_upper_byte c else to_lower_byte c)
             (canonical_from (Ascii.eqb c "-") s')
  end.

(** [textproto.CanonicalMIMEHeaderKey] *)
Definition CanonicalMIMEHeaderKey (s : string) : string :=
  if sforall is_token_byte s then canonical_from true s else s.

Abbreviation HeaderMap := (gmap string (list string)).

Definition Header_Get (h : HeaderMap) (key : string) : string :=
  first_value (h !! CanonicalMIMEHeaderKey key).

(** ** The request *)
Record Request : Type := mkRequest {
  Method : string;
  Path : string;
  Header : HeaderMap;
  Body : string;
  RawQuery : string;
  (** [None] until [parseOnce] has fired, then [obj]. *)
  parsed : option (option (gmap string json));
  (** [None] until [queryOnce] has fired, then [query]. *)
  queried : option Values;
}.

Definition with_parsed (r : Request) (o : option (gmap string json)) : Request :=
  mkRequest (Method r) (Path r) (Header r) (Body r) (RawQuery r) (Some o) (queried r).
Definition with_queried (r : Request) (q : Values) : Request :=
  mkRequest (Method r) (Path r) (Header r) (Body r) (RawQuery r) (parsed r) (Some q).

Section accessors.
Context {J : JSONDecoder} {M : MapRange} {U : Unicode}.

(** What [parse] leaves in [obj]. *)
Definition parse (body : string) : option (gmap string json) :=
  if String.eqb body "" then None
  else match Decode body with Some obj => obj | None => None end.

(** [r.parseOnce.Do(r.parse)] and then a read of [r.obj]. *)
Definition parse_once : GoM Request (option (gmap string json)) :=
  fun r => match parsed r with
           | Some o => (Returns o, r)
           | None => let o := parse (Body r) in (Returns o, with_parsed r o)
           end.

(** The walk along a dotted path. *)
Fixpoint walk (cur : json) (parts : list string) : option json :=
  match parts with
  | [] => Some cur
  | p :: ps =>
      match cur with
      | JObject m => match m !! p with Some v => walk v ps | None => None end
      | _ => None
      end
  end.

Definition scalar (v : json) : string * bool :=
  match v with
  | JString s => if String.eqb s "" then ("", false) else (s, true)
  | JNumber s => if String.eqb s "" then ("", false) else (s, true)
  | _ => ("", false)
  end.

Definition Field (name : string) : GoM Request (string * bool) :=
  let! obj := parse_once in
  match obj with
  | None => gret ("", false)
  | Some obj =>
      if String.eqb name "" then gret ("", false)
      else match walk (JObject obj) (Split name ".") with
           | None => gret ("", false)
           | Some v => gret (scalar v)
           end
  end.

(** [r.queryOnce.Do(...)] and then a read of [r.query]. *)
Definition query_once : GoM Request Values :=
  fun r => match queried r with
           | Some q => (Returns q, r)
           | None => let q := ParseQuery (RawQuery r) in (Returns q, with_queried r q)
           end.

(** The first loop of [QueryValue]: exact names, in order. *)
Fixpoint query_exact (q : Values) (names : list string) : option string :=
  match names with
  | [] => None
  | n :: ns =>
      let v := TrimSpace (Values_Get q n) in
      if String.eqb v "" then query_exact q ns else Some v
  end.

(** The inner loop of the second pass, over the pairs in range order. *)
Fixpoint query_scan (n : string) (pairs : list (string * list string)) : option string :=
  match pairs with
  | [] => None
  | (k, vs) :: pairs =>
      match vs with
      | [] => query_scan n pairs
      | v0 :: _ =>
          if negb (EqualFold k n) then query_scan n pairs
          else
            let v := TrimSpace v0 in
            if String.eqb v "" then query_scan n pairs else Some v
      end
  end.

Fixpoint query_folded (q : Values) (names : list string) : option string :=
  match names with
  | [] => None
  | n :: ns =>
      match query_scan n (range q) with
      | Some v => Some v
      | None => query_folded q ns
      end
  end.

Definition QueryValue (names : list string) : GoM Request (string * bool) :=
  fun r =>
    if String.eqb (RawQuery r) "" then (Returns ("", false), r)
    else
      (let! q := query_once in
       match query_exact q names with
       | Some v => gret (v, true)
       | None =>
           match query_folded q names with
           | Some v => gret (v, true)
           | None => gret ("", false)
           end
       end) r.

(** The leftmost entry of a list-valued header. *)
Definition leftmost (v : string) : string :=
  let '(before, _, found) := Cut v "," in
  if (found : bool) then TrimSpace before else v.

Fixpoint header_value (h : HeaderMap) (names : list string) : string * bool :=
  match names with
  | [] => ("", false)
  | n :: ns =>
      let v := TrimSpace (Header_Get h n) in
      if String.eqb v "" then header_value h ns
      else
        let v := leftmost v in
        if negb (String.eqb v "") then (v, true) else header_value h ns
  end.

Definition HeaderValue (names : list string) : GoM Request (string * bool) :=
  fun r => (Returns (header_value (Header r) names), r).

End accessors.

(** ** What the accessors compute *)
Section specification.
Context {J : JSONDecoder} {M : MapRange} {U : Unicode}.

(** The value [Field] stands for, as a function of the body alone. *)
Definition field_of (body name : string) : string * bool :=
  match parse body with
  | None => ("", false)
  | Some obj =>
      if String.eqb name "" then ("", false)
      else match walk (JObject obj) (Split name ".") with
           | None => ("", false)
           | Some v => scalar v
           end
  end.

(** The value [QueryValue] stands for, as a function of the query string. *)
Definition query_value_of (raw : string) (names : list string) : string * bool :=
  if String.eqb raw "" then ("", false)
  else match query_exact (ParseQuery raw) names with
       | Some v => (v, true)
       | None => match query_folded (ParseQuery raw) names with
                 | Some v => (v, true)
                 | None => ("", false)
                 end
       end.

(** A cache holds nothing or what it caches. *)
Definition coherent (r : Request) : Prop :=
  (parsed r = None \/ parsed r = Some (parse (Body r))) /\
  (queried r = None \/ queried r = Some (ParseQuery (RawQuery r))).

Definition same_input (r r' : Request) : Prop :=
  Method r' = Method r /\ Path r' = Path r /\ Header r' = Header r /\
  Body r' = Body r /\ RawQuery r' = RawQuery r.

(** [m] computes [v] on [r] and only fills caches, coherently. *)
Definition reads {A} (m : GoM Request A) (r : Request) (v : A) : Prop :=
  exists r', m r = (Returns v, r') /\ coherent r' /\ same_input r r'.

(** A usable value for one of [names] among the pairs of a query. *)
Definition query_hit (q : Values) (names : list string) : Prop :=
  exists n, n ∈ names /\
    (TrimSpace (Values_Get q n) <> "" \/
     exists k v0 vs, q !! k = Some (v0 :: vs) /\ EqualFold k n = true /\ TrimSpace v0 <> "").

#[global] Instance same_input_equiv : Equivalence same_input.
Proof. unfold same_input. split; red; intuition congruence. Qed.

Lemma reads_bind {A B} (m : GoM Request A) (k : A -> GoM Request B) r a b :
  reads m r a -> (forall r', coherent r' -> same_input r r' -> reads (k a) r' b) ->
  reads (gbind m k) r b.
Proof.
  intros (r1 & Em & Hc1 & Hs1) Hk. destruct (Hk r1 Hc1 Hs1) as (r2 & Ek & Hc2 & Hs2).
  exists r2. rewrite (gbind_returns _ _ _ _ _ Em). split_and!; [done..|]. by etransitivity.
Qed.

Lemma reads_ret {A} r (a : A) : coherent r -> reads (gret a) r a.
Proof. intros Hc. by exists r. Qed.

Lemma parse_once_reads r : coherent r -> reads parse_once r (parse (Body r)).
Proof.
  intros [[E|E] Hq]; unfold reads, parse_once; rewrite E; eexists; split; try done.
  - split; [|done]. split; [by right|done].
  - split; [|done]. split; [by right|done].
Qed.

Lemma query_once_reads r : coherent r -> reads query_once r (ParseQuery (RawQuery r)).
Proof.
  intros [Hp [E|E]]; unfold reads, query_once; rewrite E; eexists; split; try done.
  - split; [|done]. split; [done|by right].
  - split; [|done]. split; [done|by right].
Qed.

Lemma Field_reads r name : coherent r -> reads (Field name) r (field_of (Body r) name).
Proof.
  intros Hc. unfold Field, field_of. eapply reads_bind; [by apply parse_once_reads|].
  intros r' Hc' _. repeat case_match; by apply reads_ret.
Qed.

Lemma QueryValue_reads r names :
  coherent r -> reads (QueryValue names) r (query_value_of (RawQuery r) names).
Proof.
  intros Hc. unfold query_value_of, reads, QueryValue.
  destruct (String.eqb (RawQuery r) ""); [by exists r|].
  change (reads (let! q := query_once in
       match query_exact q names with
       | Some v => gret (v, true)
       | None =>
           match query_folded q names with
           | Some v => gret (v, true)
           | None => gret ("", false)
           end
       end) r (match query_exact (ParseQuery (RawQuery r)) names with
       | Some v => (v, true)
       | None => match query_folded (ParseQuery (RawQuery r)) names with
                 | Some v => (v, true)
                 | None => ("", false)
                 end
       end)).
  eapply reads_bind; [by apply query_once_reads|].
  intros r' Hc' _. repeat case_match; by apply reads_ret.
Qed.

Lemma HeaderValue_reads r names :
  coherent r -> reads (HeaderValue names) r (header_value (Header r) names).
Proof. intros Hc. by exists r. Qed.

(** *** The two passes of [QueryValue] *)

Lemma query_exact_Some q names v :
  query_exact q names = Some v -> v <> "" /\ exists n, n ∈ names /\ v = TrimSpace (Values_Get q n).
Proof.
  induction names as [|n ns IH]; simpl; [done|].
  destruct (String.eqb_spec (TrimSpace (Values_Get q n)) "") as [E|E].
  - intros Hv. destruct (IH Hv) as (? & n' & ? & ?). split; [done|]. exists n'. by split; [right|].
  - intros [= <-]. split; [done|]. exists n. by split; [left|].
Qed.

Lemma query_exact_None q names n :
  query_exact q names = None -> n ∈ names -> TrimSpace (Values_Get q n) = "".
Proof.
  induction names as [|n' ns IH]; simpl; [by intros _ ?%not_elem_of_nil|].
  destruct (String.eqb_spec (TrimSpace (Values_Get q n')) "") as [E|E]; [|done].
  intros Hn [->|Hin]%elem_of_cons; auto.
Qed.

Lemma query_scan_Some n pairs v :
  query_scan n pairs = Some v ->
  exists k v0 vs, (k, v0 :: vs) ∈ pairs /\ EqualFold k n = true /\ v = TrimSpace v0 /\ v <> "".
Proof.
  induction pairs as [|[k [|v0 vs]] ps IH]; simpl; [done|..].
  - intros Hv. destruct (IH Hv) as (k' & w & ws & ? & ?). exists k', w, ws. by split; [right|].
  - destruct (EqualFold k n) eqn:Ef; simpl.
    + destruct (String.eqb_spec (TrimSpace v0) "") as [E|E].
      * intros Hv. destruct (IH Hv) as (k' & w & ws & ? & ?). exists k', w, ws. by split; [right|].
      * intros [= <-]. exists k, v0, vs. by split; [left|].
    + intros Hv. destruct (IH Hv) as (k' & w & ws & ? & ?). exists k', w, ws. by split; [right|].
Qed.

Lemma query_scan_None n pairs k v0 vs :
  query_scan n pairs = None -> (k, v0 :: vs) ∈ pairs -> EqualFold k n = true -> TrimSpace v0 = "".
Proof.
  induction pairs as [|[k' [|w ws]] ps IH]; simpl; [by intros _ ?%not_elem_of_nil|..].
  - intros Hn [[=]|Hin]%elem_of_cons Hf; auto.
  - destruct (EqualFold k' n) eqn:Ef; simpl.
    + destruct (String.eqb_spec (TrimSpace w) "") as [E|E]; [|done].
      intros Hn [[= -> -> ->]|Hin]%elem_of_cons Hf; auto.
    + intros Hn [[= -> -> ->]|Hin]%elem_of_cons Hf; [congruence|auto].
Qed.

Lemma elem_of_range q k vs : (k, vs) ∈ range q <-> q !! k = Some vs.
Proof. by rewrite range_perm, elem_of_map_to_list. Qed.

Lemma query_folded_Some q names v :
  query_folded q names = Some v -> v <> "" /\ query_hit q names.
Proof.
  induction names as [|n ns IH]; simpl; [done|].
  destruct (query_scan n (range q)) as [w|] eqn:Es.
  - intros [= <-]. apply query_scan_Some in Es as (k & v0 & vs & Hin & Hf & -> & Hne).
    split; [done|]. exists n. split; [by left|]. right. exists k, v0, vs.
    by rewrite elem_of_range in Hin.
  - intros Hv. destruct (IH Hv) as (? & n' & Hn' & Hh). split; [done|].
    exists n'. by split; [right|].
Qed.

Lemma query_folded_None q names n k v0 vs :
  query_folded q names = None -> n ∈ names -> q !! k = Some (v0 :: vs) ->
  EqualFold k n = true -> TrimSpace v0 = "".
Proof.
  induction names as [|n' ns IH]; simpl; [by intros _ ?%not_elem_of_nil|].
  destruct (query_scan n' (range q)) as [w|] eqn:Es; [done|].
  intros Hn [->|Hin]%elem_of_cons Hk Hf; [|auto].
  eapply query_scan_None; [exact Es|by apply elem_of_range|done].
Qed.

End specification.

(** ** Theorems *)
Section theorems.
Context {M : MapRange} {U : Unicode}.


(** The body is decoded at most once.  After any [Field] call the cache is
    filled, and from then on [Field] does not depend on the decoder at all. *)
Theorem body_decoded_once (d : JSONDecoder) r name res r1 :
  @Field d name r = (Returns res, r1) ->
  forall (d' : JSONDecoder) name', @Field d' name' r1 = @Field d name' r1.
Proof.
  intros E. assert (exists o, parsed r1 = Some o) as [o Ho].
  { unfold Field, gbind in E. destruct (parse_once r) as [[obj|v] r'] eqn:Ep; [|done].
    assert (r' = r1) as <- by (unfold gret in E; repeat case_match; by simplify_eq).
    unfold parse_once in Ep. destruct (parsed r) as [o|] eqn:Er; simplify_eq; [by eauto|].
    by eexists. }
  intros d' name'. unfold Field, gbind, parse_once. by rewrite Ho.
Qed.

(** A query limiter applies exactly when some configured name has a usable
    value, under that exact name or under any name that folds to it: whether it
    applies cannot be changed by the case of a parameter name, nor by the order
    in which Go ranges over the query map. *)
Theorem query_applies_iff raw names :
  raw <> "" ->
  (query_value_of raw names).2 = true <-> query_hit (ParseQuery raw) names.
Proof.
  intros Hraw. unfold query_value_of. destruct (String.eqb_spec raw "") as [|_]; [done|].
  set (q := ParseQuery raw). split.
  - destruct (query_exact q names) as [v|] eqn:Ee.
    + intros _. apply query_exact_Some in Ee as (Hne & n & Hn & ->).
      exists n. split; [done|by left].
    + destruct (query_folded q names) as [v|] eqn:Ef; [|done].
      intros _. by apply query_folded_Some in Ef as [_ ?].
  - intros (n & Hn & Hh).
    destruct (query_exact q names) as [v|] eqn:Ee; [done|].
    destruct (query_folded q names) as [v|] eqn:Ef; [done|]. exfalso.
    destruct Hh as [Hh|(k & v0 & vs & Hk & Hf & Hne)].
    + by apply Hh, (query_exact_None q names).
    + by eapply Hne, (query_folded_None q names n k v0 vs).
Qed.

(** What a header limiter extracts is never blank and never a list: it
    applies with value [v] only if [v] is the trimmed leftmost entry of one of
    the named headers, is not empty, and every header named before it yields
    nothing. *)
Theorem header_value_spec h names v :
  header_value h names = (v, true) <->
  v <> "" /\ exists before n after, names = (before ++ n :: after)%list /\
    leftmost (TrimSpace (Header_Get h n)) = v /\
    Forall (fun m => leftmost (TrimSpace (Header_Get h m)) = "") before.
Proof.
  induction names as [|n ns IH]; simpl.
  { split; [done|]. intros (_ & before & n & after & E & _). by destruct before. }
  assert (forall m, TrimSpace (Header_Get h m) = "" -> leftmost (TrimSpace (Header_Get h m)) = "")
    as Hblank by (by intros m ->).
  assert (leftmost (TrimSpace (Header_Get h n)) = "" ->
    (header_value h ns = (v, true) <->
     v <> "" /\ exists before n' after, n :: ns = (before ++ n' :: after)%list /\
       leftmost (TrimSpace (Header_Get h n')) = v /\
       Forall (fun m => leftmost (TrimSpace (Header_Get h m)) = "") before)) as Hskip.
  { intros Hn. rewrite IH. split; intros (Hv & before & n' & after & E & Hl & Hf); split; try done.
    - exists (n :: before), n', after. rewrite E. split_and!; [done|done|by constructor].
    - destruct before as [|m before]; [by simplify_eq/=|]. simplify_eq/=.
      exists before, n', after. by apply Forall_cons in Hf as [_ ?]. }
  destruct (String.eqb_spec (TrimSpace (Header_Get h n)) "") as [E|E]; [auto|].
  destruct (String.eqb_spec (leftmost (TrimSpace (Header_Get h n))) "") as [El|El]; simpl; [auto|].
  split.
  - intros [= <-]. split; [done|]. by exists [], n, ns.
  - intros (Hv & [|m before] & n' & after & En & Hl & Hf); simplify_eq/=; [done|].
    by apply Forall_cons in Hf as [? _].
Qed.

End theorems.

(** Two range orders Go may choose. *)
Definition range_forward : MapRange.
Proof. exact {| range := fun m => map_to_list m; range_perm := fun m => Permutation_refl _ |}. Defined.

Definition range_backward : MapRange.
Proof.
  refine {| range := fun m => reverse (map_to_list m); range_perm := _ |}.
  intros m. apply reverse_Permutation.
Defined.

(** The bucket of a query limiter is not a function of the request.  When
    two parameters fold to the same configured name and neither is spelled
    exactly so, the one that is used depends on the order in which Go happens to
    range over the map. *)
Theorem query_value_depends_on_range_order :
  exists raw names,
    @query_value_of range_forward ascii_only raw names <>
    @query_value_of range_backward ascii_only raw names.
Proof. exists "API_KEY=a&Api_Key=b", ["api_key"]. vm_compute. congruence. Qed.

(** ** Instances of the theorems *)
Section examples.

(** A decoder that knows one body. *)
Definition one_body : JSONDecoder := fun s =>
  if String.eqb s "{...}"
  then Some (Some {["user" := JObject {["email" := JString "a@b.c"]}; "n" := JNumber "12"]})
  else None.

Definition sample : Request :=
  mkRequest "POST" "/v1/login" {["X-Forwarded-For" := ["203.0.113.9, 10.0.0.1"]]}
    "{...}" "API_KEY=k%2B1&x=+" None None.

#[local] Existing Instances one_body range_forward ascii_only.


Definition no_decoder : JSONDecoder := fun _ => None.

Lemma body_decoded_once_witness :
  exists r1, @Field one_body "n" sample = (Returns ("12", true), r1) /\
    @Field no_decoder "user.email" r1 = @Field one_body "user.email" r1.
Proof.
  eexists. split; [vm_compute; reflexivity|].
  by apply (body_decoded_once one_body sample "n" ("12", true)).
Defined.

Lemma query_applies_iff_witness :
  (query_value_of "API_KEY=a" ["api_key"]).2 = true /\
  query_hit (ParseQuery "API_KEY=a") ["api_key"].
Proof.
  assert ((query_value_of "API_KEY=a" ["api_key"]).2 = true)
    as E by (vm_compute; reflexivity).
  split; [exact E|]. by apply (query_applies_iff "API_KEY=a").
Defined.

End examples.
