(* ===== verification/Limiter.v ===== *)
(** * Limiters, verdicts and decisions ([internal/limiter/limiter.go])

    A [Limiter] pairs a [Keyer] with a rule or a bucket and a scope of paths and
    methods; a [Decision] is what evaluating them yields. *)
From stdpp Require Import base list gmap strings.
From Stdlib Require Import ZArith Lia Ascii String.
From S2P Require Import Prelude.
From S2P Require Import GoStrings.
From S2P Require Import Store.
From S2P Require Import Request.

#[local] Open Scope string_scope.
#[local] Open Scope Z_scope.

(** [limiter.Keyer]: a computation over the request, since reading it fills its
    caches; [(_, false)] means the limiter does not apply. *)
Abbreviation Keyer := (GoM Request (string * bool)).

Record Limiter : Type := mkLimiter {
  Limiter_Name : string;
  Limiter_Rule : Rule;
  Limiter_Bucket : Bucket;
  Limiter_Keyer : Keyer;
  Limiter_Paths : list string;
  Limiter_Methods : list string;
  Limiter_DryRun : bool;
  Limiter_AdviseRetryAfter : bool;
}.

Definition Active (l : Limiter) : bool :=
  Rule_Valid (Limiter_Rule l) || Bucket_Valid (Limiter_Bucket l).

Definition normalisePath (p : string) : string :=
  if (1 <? Z.of_nat (String.length p)) then TrimSuffix p "/" else p.

Section scope.
Context {U : Unicode}.

(** The loop of [matchesPath]; [path] is already folded and normalised. *)
Fixpoint path_in (path : string) (paths : list string) : bool :=
  match paths with
  | [] => false
  | p :: ps =>
      let p := ToLower p in
      match CutSuffix p "/*" with
      | Some base =>
          if String.eqb base "" || String.eqb path base || HasPrefix path (base ++ "/")
          then true
          else path_in path ps
      | None =>
          if String.eqb path (normalisePath p) then true else path_in path ps
      end
  end.

Definition matchesPath (l : Limiter) (path : string) : bool :=
  match Limiter_Paths l with
  | [] => true
  | paths => path_in (ToLower (normalisePath path)) paths
  end.

Fixpoint method_in (method : string) (methods : list string) : bool :=
  match methods with
  | [] => false
  | m :: ms => if EqualFold method m then true else method_in method ms
  end.

Definition matchesMethod (l : Limiter) (method : string) : bool :=
  match Limiter_Methods l with
  | [] => true
  | methods => method_in method methods
  end.

Definition Applies (l : Limiter) (path method : string) : bool :=
  matchesPath l path && matchesMethod l method.

End scope.

Inductive Verdict : Type :=
| VerdictAllowed
| VerdictBlocked
| VerdictWouldBlock
| VerdictFailedOpen.

#[global] Instance Verdict_eq_dec : EqDecision Verdict.
Proof. solve_decision. Defined.

(** The string each verdict is, as it reaches logs and metrics. *)
Definition Verdict_string (v : Verdict) : string :=
  match v with
  | VerdictAllowed => "allowed"
  | VerdictBlocked => "blocked"
  | VerdictWouldBlock => "would_block"
  | VerdictFailedOpen => "failed_open"
  end.

Record Evaluation : Type := mkEvaluation {
  Evaluation_Limiter : string;
  Evaluation_Verdict : Verdict;
}.

Record Decision : Type := mkDecision {
  Decision_Blocked : bool;
  Decision_DryRun : bool;
  Decision_Limiter : string;
  Decision_Count : Z;
  Decision_RetryAfter : Duration;
  Decision_AdviseRetryAfter : bool;
  Decision_Evaluations : list Evaluation;
}.

Definition Decision_zero : Decision := mkDecision false false "" 0 0 false [].

Definition Rejected (d : Decision) : bool := Decision_Blocked d && negb (Decision_DryRun d).

Definition FailedOpen (d : Decision) : bool :=
  existsb (fun e => bool_decide (Evaluation_Verdict e = VerdictFailedOpen))
          (Decision_Evaluations d).

(** ** What a path pattern covers *)

(** A pattern ending in ["/*"] covers its base and everything below it; any other
    covers exactly itself, up to a trailing slash. *)
Definition covers `{Unicode} (p path : string) : Prop :=
  (exists base, ToLower p = base ++ "/*" /\
     (base = "" \/ path = base \/ exists rest, path = base ++ "/" ++ rest)) \/
  ((~ exists base, ToLower p = base ++ "/*") /\ path = normalisePath (ToLower p)).

Section scope_lemmas.
Context {U : Unicode}.

Lemma path_in_iff path paths :
  path_in path paths = true <-> exists p, p ∈ paths /\ covers p path.
Proof.
  induction paths as [|p ps IH]; simpl.
  { split; [done|]. by intros (? & ?%not_elem_of_nil & _). }
  assert ((exists q, q ∈ p :: ps /\ covers q path) <->
          covers p path \/ exists q, q ∈ ps /\ covers q path) as ->.
  { split.
    - intros (q & [->|Hq]%elem_of_cons & Hc); [by left|right; by exists q].
    - intros [Hc|(q & Hq & Hc)]; [exists p|exists q]; (split; [|done]); by apply elem_of_cons; auto. }
  rewrite <-IH. clear IH. unfold covers.
  destruct (CutSuffix (ToLower p) "/*") as [base|] eqn:Ec.
  - apply CutSuffix_Some in Ec.
    assert ((base = "" \/ path = base \/ exists rest, path = base ++ "/" ++ rest) <->
            String.eqb base "" || String.eqb path base || HasPrefix path (base ++ "/") = true)
      as Hb.
    { rewrite !orb_true_iff, !String.eqb_eq, HasPrefix_true.
      setoid_rewrite app_assoc_s. tauto. }
    split.
    + destruct (_ || _) eqn:Eb; [|by right]. intros _. left. left. exists base.
      by rewrite Hb.
    + intros [[(base' & E & Hc)|[Hn _]]|Hr].
      * rewrite Ec in E. apply app_inj_r_s in E as <-. apply Hb in Hc. by rewrite Hc.
      * destruct Hn. by exists base.
      * by destruct (_ || _).
  - assert (~ exists base, ToLower p = base ++ "/*") as Hn.
    { intros [base Hb]. apply CutSuffix_Some in Hb. congruence. }
    destruct (String.eqb_spec path (normalisePath (ToLower p))) as [E|E].
    { split; [|done]. intros _. left. by right. }
    split; [by right|]. intros [[(base & Hb & _)|[_ Hp]]|Hr]; [|congruence|exact Hr].
    destruct Hn. by exists base.
Qed.

Lemma method_in_iff m ms : method_in m ms = true <-> exists n, n ∈ ms /\ EqualFold m n = true.
Proof.
  induction ms as [|n ms IH]; simpl.
  { split; [done|]. by intros (? & ?%not_elem_of_nil & _). }
  destruct (EqualFold m n) eqn:E.
  - split; [|done]. intros _. exists n. split; [by left|done].
  - rewrite IH. split; intros (n' & Hn & Hf); exists n'; (split; [|done]); [by right|].
    apply elem_of_cons in Hn as [->|?]; [congruence|done].
Qed.

Lemma is_ascii_smap_lower s : is_ascii s = true -> is_ascii (smap to_lower_byte s) = true.
Proof. apply sforall_smap. apply to_lower_byte_rune_self. Qed.

Lemma length_smap f s : String.length (smap f s) = String.length s.
Proof. induction s as [|c s IH]; simpl; [done|by rewrite IH]. Qed.

Lemma smap_lower_slash c : to_lower_byte c = "/"%char -> c = "/"%char.
Proof. destruct c as [[] [] [] [] [] [] [] []]; vm_compute; congruence. Qed.

Lemma smap_lower_app_slash s b :
  smap to_lower_byte s = b ++ "/" -> exists a, s = a ++ "/" /\ smap to_lower_byte a = b.
Proof.
  revert b. induction s as [|c s IH]; intros b E; simpl in E.
  { by destruct b. }
  destruct b as [|d b]; simpl in E.
  - injection E as Ec Es. apply smap_lower_slash in Ec as ->. destruct s; [|done].
    by exists "".
  - injection E as <- Es. destruct (IH b Es) as (a & -> & <-). by exists (String c a).
Qed.

(** Folding and dropping a trailing slash commute. *)
Lemma smap_lower_TrimSuffix s :
  smap to_lower_byte (TrimSuffix s "/") = TrimSuffix (smap to_lower_byte s) "/".
Proof.
  destruct (TrimSuffix_spec s "/") as [(b & -> & ->)|(Hn & ->)].
  - rewrite smap_app. change (smap to_lower_byte "/") with "/". unfold TrimSuffix.
    by rewrite (proj2 (CutSuffix_Some (smap to_lower_byte b ++ "/") "/" (smap to_lower_byte b))).
  - destruct (TrimSuffix_spec (smap to_lower_byte s) "/") as [(b & E & _)|(_ & ->)]; [|done].
    destruct (smap_lower_app_slash s b E) as (a & -> & _). destruct Hn. by exists a.
Qed.

Lemma smap_lower_normalisePath s :
  smap to_lower_byte (normalisePath s) = normalisePath (smap to_lower_byte s).
Proof.
  unfold normalisePath. rewrite length_smap.
  destruct (1 <? _); [apply smap_lower_TrimSuffix|done].
Qed.

Lemma is_ascii_normalisePath s : is_ascii s = true -> is_ascii (normalisePath s) = true.
Proof.
  unfold normalisePath, is_ascii. destruct (1 <? _); [|done].
  destruct (TrimSuffix_spec s "/") as [(b & -> & ->)|(_ & ->)]; [|done].
  rewrite sforall_app. by intros [? _]%andb_true_iff.
Qed.

Lemma ToLower_normalisePath s :
  is_ascii s = true ->
  ToLower (normalisePath s) = normalisePath (smap to_lower_byte s).
Proof.
  intros Hs. rewrite ToLower_ascii by by apply is_ascii_normalisePath.
  apply smap_lower_normalisePath.
Qed.

Lemma method_in_fold m m' ms :
  is_ascii m = true -> is_ascii m' = true -> Forall (fun n => is_ascii n = true) ms ->
  smap to_lower_byte m = smap to_lower_byte m' -> method_in m ms = method_in m' ms.
Proof.
  intros Hm Hm' Hms E. induction Hms as [|n ms Hn _ IH]; simpl; [done|].
  by rewrite !EqualFold_ascii, (ToLower_ascii m), (ToLower_ascii m'), E, IH.
Qed.

(** Scoping cannot be evaded by the case of the path or of the method: two
    ASCII requests that differ only by case are in the scope of the same
    limiters, whatever the configured paths (methods being ASCII tokens). *)
Theorem Applies_case_insensitive l path path' method method' :
  is_ascii path = true -> is_ascii path' = true ->
  is_ascii method = true -> is_ascii method' = true ->
  Forall (fun n => is_ascii n = true) (Limiter_Methods l) ->
  smap to_lower_byte path = smap to_lower_byte path' ->
  smap to_lower_byte method = smap to_lower_byte method' ->
  Applies l path method = Applies l path' method'.
Proof.
  intros Hp Hp' Hm Hm' Hms Ep Em. unfold Applies. f_equal.
  - unfold matchesPath. destruct (Limiter_Paths l); [done|].
    by rewrite !ToLower_normalisePath, Ep.
  - unfold matchesMethod. destruct (Limiter_Methods l) as [|n ms] eqn:El; [done|].
    by apply method_in_fold.
Qed.

(** A limiter without paths covers every request; one with paths covers
    exactly the requests one of its patterns covers - its base and the subtree
    below it (on a [/] boundary) for a pattern ending in [/*], itself up to one
    trailing slash and case otherwise. *)
Theorem matchesPath_iff l path :
  matchesPath l path = true <->
  Limiter_Paths l = [] \/
  exists p, p ∈ Limiter_Paths l /\ covers p (ToLower (normalisePath path)).
Proof.
  unfold matchesPath. destruct (Limiter_Paths l) as [|p ps] eqn:El.
  - split; [by left|done].
  - rewrite path_in_iff. split; [by right|]. by intros [?|?].
Qed.

(** One trailing slash never changes whether a path is in scope. *)
Theorem matchesPath_trailing_slash l path :
  path <> "" -> HasSuffix path "/" = false ->
  matchesPath l (path ++ "/") = matchesPath l path.
Proof.
  intros Hne Hs. unfold matchesPath. destruct (Limiter_Paths l) as [|p ps]; [done|].
  enough (normalisePath (path ++ "/") = normalisePath path) as -> by done.
  unfold normalisePath. rewrite length_app_s. simpl.
  destruct path as [|c path]; [done|].
  replace (1 <? Z.of_nat (String.length (String c path) + 1)) with true
    by (symmetry; apply Z.ltb_lt; simpl; lia).
  unfold TrimSuffix at 1. rewrite (proj2 (CutSuffix_Some _ "/" (String c path)) eq_refl).
  unfold TrimSuffix. unfold HasSuffix in Hs.
  destruct (CutSuffix (String c path) "/"); [done|]. by destruct (1 <? _).
Qed.

End scope_lemmas.

(** ** Instances of the theorems *)
Section examples.

#[local] Existing Instance ascii_only.

Definition some_keyer : Keyer := gret ("k", true).

Definition login_limiter : Limiter :=
  mkLimiter "login" (mkRule 15 Hour Hour) Bucket_zero some_keyer
    ["/v1/Login"; "/v1/orders/*"] ["POST"] false false.

Lemma Applies_case_insensitive_witness :
  Applies login_limiter "/v1/login" "POST" = true /\
  Applies login_limiter "/V1/LOGIN" "post" = Applies login_limiter "/v1/login" "POST".
Proof.
  split; [vm_compute; reflexivity|].
  apply Applies_case_insensitive; try reflexivity. by repeat constructor.
Defined.

Lemma matchesPath_trailing_slash_witness :
  matchesPath login_limiter "/v1/login" = true /\
  matchesPath login_limiter ("/v1/login" ++ "/") = matchesPath login_limiter "/v1/login".
Proof.
  split; [vm_compute; reflexivity|]. by apply matchesPath_trailing_slash.
Defined.

(** The separator is what bounds a subtree, and the root pattern is the root only. *)
Example subtree_boundary :
  map (matchesPath login_limiter)
    ["/v1/orders"; "/v1/orders/9/cancel"; "/v1/ordersfoo"; "/v1/login/x"; "/"]
  = [true; true; false; false; false].
Proof. vm_compute. reflexivity. Qed.

End examples.
