(* ===== verification/Engine.v ===== *)
(** * The engine ([internal/limiter/engine.go])

    [Evaluate] walks the limiters over a request and a store: its state is the
    request (whose caches the keyers fill), the log lines written so far, and the
    state of the store behind [store.Store]. *)
From stdpp Require Import base list gmap strings.
From Stdlib Require Import ZArith Lia Ascii String.
From S2P Require Import Prelude.
From S2P Require Import GoStrings.
From S2P Require Import Store.
From S2P Require Import Request.
From S2P Require Import Limiter.

(** [truncate]: at most 12 bytes of a bucket reach a log line. *)
Definition truncate (s : string) : string :=
  if (Z.of_nat (String.length s) <=? 12) then s
  else (String.substring 0 12 s ++ "...")%string.

(** The two lines the engine logs. *)
Inductive log_line : Type :=
| LogStoreError (limiter bucket error : string)
| LogKeyerPanic (limiter panic : string).

(** The engine's own state over the store's: the request and the log. *)
Record frame : Type := mkFrame {
  frame_req : Request;
  frame_log : list log_line;
}.

(** [outcome] in the source: both store algorithms in one shape. *)
Record Outcome : Type := mkOutcome {
  Outcome_blocked : bool;
  Outcome_count : Z;
  Outcome_retryAfter : Duration;
}.
Definition Outcome_zero : Outcome := mkOutcome false 0 0.

Section engine.
Context {U : Unicode} {S : Type}.
Context (st : Store S).

(** Effects of the engine's layers. *)
Definition get_req : GoM (frame * S) Request :=
  fun '(f, s) => (Returns (frame_req f), (f, s)).

Definition on_req {A} (m : GoM Request A) : GoM (frame * S) A :=
  fun '(f, s) => let '(o, r) := m (frame_req f) in (o, (mkFrame r (frame_log f), s)).

Definition emit (line : log_line) : GoM (frame * S) unit :=
  fun '(f, s) => (Returns tt, (mkFrame (frame_req f) (frame_log f ++ [line]), s)).

Definition bucket (l : Limiter) : GoM (frame * S) (string * bool) :=
  grecover (on_req (Limiter_Keyer l))
    (fun v => let! _ := emit (LogKeyerPanic (Limiter_Name l) v) in gret ("", false)).

Definition apply (l : Limiter) (bucket : string) : GoM (frame * S) (Outcome * option error) :=
  grecover
    (let key := mkKey (Limiter_Name l) bucket in
     if Bucket_Valid (Limiter_Bucket l)
     then
       let! (res, terr) := on_inner (Store.Take st key (Limiter_Bucket l)) in
       match terr with
       | Some _ => gret (Outcome_zero, terr)
       | None =>
           gret (mkOutcome (negb (TakeResult_Allowed res)) (TakeResult_Remaining res)
                   (TakeResult_RetryAfter res), None)
       end
     else
       let! (res, cerr) := on_inner (Store.Consume st key (Limiter_Rule l)) in
       match cerr with
       | Some _ => gret (Outcome_zero, cerr)
       | None => gret (mkOutcome (Result_Blocked res) (Result_Count res) (Result_RetryAfter res), None)
       end)
    (fun v => gret (Outcome_zero, Some ("store panicked: " ++ v)%string)).

(** [append(d.Evaluations, Evaluation{name, v})] *)
Definition evaluated (d : Decision) (name : string) (v : Verdict) : Decision :=
  mkDecision (Decision_Blocked d) (Decision_DryRun d) (Decision_Limiter d) (Decision_Count d)
    (Decision_RetryAfter d) (Decision_AdviseRetryAfter d)
    (Decision_Evaluations d ++ [mkEvaluation name v]).

(** The dry-run case: the verdict is recorded, the first one also in the fields. *)
Definition would_block (d : Decision) (l : Limiter) (res : Outcome) : Decision :=
  let d := evaluated d (Limiter_Name l) VerdictWouldBlock in
  if negb (Decision_Blocked d)
  then mkDecision true true (Limiter_Name l) (Outcome_count res) (Outcome_retryAfter res)
         (Decision_AdviseRetryAfter d) (Decision_Evaluations d)
  else d.

(** The enforced case, overriding any dry-run verdict. *)
Definition block (d : Decision) (l : Limiter) (res : Outcome) : Decision :=
  mkDecision true false (Limiter_Name l) (Outcome_count res) (Outcome_retryAfter res)
    (Limiter_AdviseRetryAfter l)
    (Decision_Evaluations d ++ [mkEvaluation (Limiter_Name l) VerdictBlocked]).

(** The loop of [Evaluate], with the decision built so far. *)
Fixpoint evaluate_from (limiters : list Limiter) (d : Decision) : GoM (frame * S) Decision :=
  match limiters with
  | [] => gret d
  | l :: ls =>
      let! req := get_req in
      if negb (Applies l (Path req) (Method req)) || negb (Active l)
      then evaluate_from ls d
      else
        let! (bkt, ok) := bucket l in
        if negb ok then evaluate_from ls d
        else
          let! (res, err) := apply l bkt in
          match err with
          | Some e =>
              let! _ := emit (LogStoreError (Limiter_Name l) (truncate bkt) e) in
              evaluate_from ls (evaluated d (Limiter_Name l) VerdictFailedOpen)
          | None =>
              if Outcome_blocked res && Limiter_DryRun l
              then evaluate_from ls (would_block d l res)
              else if Outcome_blocked res
              then gret (block d l res)
              else evaluate_from ls (evaluated d (Limiter_Name l) VerdictAllowed)
          end
  end.

Definition Evaluate (limiters : list Limiter) : GoM (frame * S) Decision :=
  evaluate_from limiters Decision_zero.

End engine.

(** ** The decision as a summary of answers

    What evaluating one limiter amounts to, and the decision a sequence of such
    answers stands for. *)
Inductive answer : Type :=
| Skipped
| Failed (e : error)
| Answered (res : Outcome).

(** The limiters that were consulted, in order, with their answers. *)
Abbreviation transcript := (list (Limiter * (error + Outcome))).

Definition verdict_of (l : Limiter) (a : error + Outcome) : Verdict :=
  match a with
  | inl _ => VerdictFailedOpen
  | inr res =>
      if Outcome_blocked res
      then if Limiter_DryRun l then VerdictWouldBlock else VerdictBlocked
      else VerdictAllowed
  end.

Definition evaluations_of (tr : transcript) : list Evaluation :=
  map (fun '(l, a) => mkEvaluation (Limiter_Name l) (verdict_of l a)) tr.

(** The first answer with a given verdict. *)
Fixpoint first_with (v : Verdict) (tr : transcript) : option (Limiter * Outcome) :=
  match tr with
  | [] => None
  | (l, inr res) :: tr =>
      if bool_decide (verdict_of l (inr res) = v) then Some (l, res) else first_with v tr
  | (_, inl _) :: tr => first_with v tr
  end.

(** An enforced block decides; failing that the first dry-run block is reported
    as a suppressed one; failing that the request was not blocked. *)
Definition summary (tr : transcript) : Decision :=
  match first_with VerdictBlocked tr with
  | Some (l, res) =>
      mkDecision true false (Limiter_Name l) (Outcome_count res) (Outcome_retryAfter res)
        (Limiter_AdviseRetryAfter l) (evaluations_of tr)
  | None =>
      match first_with VerdictWouldBlock tr with
      | Some (l, res) =>
          mkDecision true true (Limiter_Name l) (Outcome_count res) (Outcome_retryAfter res)
            false (evaluations_of tr)
      | None => mkDecision false false "" 0 0 false (evaluations_of tr)
      end
  end.

(** A store that notes the calls it is asked to make, in front of any other. *)
Inductive call : Type :=
| CallConsume (k : Key) (r : Rule)
| CallTake (k : Key) (b : Bucket).

Definition call_limiter (c : call) : string :=
  match c with CallConsume k _ | CallTake k _ => Key_Limiter k end.

Definition call_valid (c : call) : bool :=
  match c with CallConsume _ r => Rule_Valid r | CallTake _ b => Bucket_Valid b end.

Definition recorder {S} (st : Store S) : Store (list call * S) :=
  mkStore
    (fun k r '(cs, s) =>
       let '(o, s') := Store.Consume st k r s in (o, (cs ++ [CallConsume k r], s')))
    (fun k b '(cs, s) =>
       let '(o, s') := Store.Take st k b s in (o, (cs ++ [CallTake k b], s')))
    (on_inner (Store.Close st)).

(** A keyer that reads a request's inputs only: it fills caches coherently and
    its result does not depend on how full they were. *)
Definition settled {J : JSONDecoder} (k : Keyer) : Prop :=
  forall r, coherent r ->
    coherent (k r).2 /\ same_input r (k r).2 /\
    forall r', coherent r' -> same_input r r' -> (k r').1 = (k r).1.

Section consult.
Context {U : Unicode} {S : Type}.
Context (st : Store S).

(** One limiter on its own: skipped by scope, by inactivity or by its keyer, or
    put to the store. *)
Definition consult (l : Limiter) : GoM (frame * S) answer :=
  let! req := get_req in
  if negb (Applies l (Path req) (Method req)) || negb (Active l) then gret Skipped
  else
    let! (bkt, ok) := bucket l in
    if negb ok then gret Skipped
    else
      let! (res, err) := apply st l bkt in
      match err with
      | Some e =>
          let! _ := emit (LogStoreError (Limiter_Name l) (truncate bkt) e) in
          gret (Failed e)
      | None => gret (Answered res)
      end.

(** Consulting a list: limiters are taken in order, until one that is enforced
    answers "blocked". *)
Inductive consults : list Limiter -> frame * S -> transcript -> frame * S -> Prop :=
| consults_nil fs : consults [] fs [] fs
| consults_skip l ls fs fs1 tr fs2 :
    consult l fs = (Returns Skipped, fs1) -> consults ls fs1 tr fs2 ->
    consults (l :: ls) fs tr fs2
| consults_fail l ls fs e fs1 tr fs2 :
    consult l fs = (Returns (Failed e), fs1) -> consults ls fs1 tr fs2 ->
    consults (l :: ls) fs ((l, inl e) :: tr) fs2
| consults_pass l ls fs res fs1 tr fs2 :
    consult l fs = (Returns (Answered res), fs1) ->
    verdict_of l (inr res) <> VerdictBlocked -> consults ls fs1 tr fs2 ->
    consults (l :: ls) fs ((l, inr res) :: tr) fs2
| consults_block l ls fs res fs1 :
    consult l fs = (Returns (Answered res), fs1) ->
    verdict_of l (inr res) = VerdictBlocked ->
    consults (l :: ls) fs [(l, inr res)] fs1.

End consult.

(** ** Lemmas *)
Section lemmas.
Context {U : Unicode} {S : Type}.
Context (st : Store S).
Implicit Types (l : Limiter) (ls : list Limiter) (fs : frame * S) (tr : transcript).

#[global] Instance total_get_req : Total (S:=frame * S) get_req.
Proof. intros [f s]. by eexists _, _. Qed.

#[global] Instance total_emit line : Total (S:=frame * S) (emit line).
Proof. intros [f s]. by eexists _, _. Qed.

#[global] Instance total_bucket l : Total (S:=frame * S) (bucket l).
Proof. apply total_recover. intros v. solve_total. Qed.

#[global] Instance total_apply l b : Total (S:=frame * S) (apply st l b).
Proof. apply total_recover. intros v. solve_total. Qed.

#[global] Instance total_consult l : Total (S:=frame * S) (consult st l).
Proof. unfold consult. solve_total. Qed.

(** One turn of the loop is a consultation followed by the bookkeeping. *)
Lemma evaluate_from_cons l ls d fs :
  evaluate_from st (l :: ls) d fs =
    match consult st l fs with
    | (Returns Skipped, fs1) => evaluate_from st ls d fs1
    | (Returns (Failed e), fs1) =>
        evaluate_from st ls (evaluated d (Limiter_Name l) VerdictFailedOpen) fs1
    | (Returns (Answered res), fs1) =>
        if Outcome_blocked res && Limiter_DryRun l
        then evaluate_from st ls (would_block d l res) fs1
        else if Outcome_blocked res then (Returns (block d l res), fs1)
        else evaluate_from st ls (evaluated d (Limiter_Name l) VerdictAllowed) fs1
    | (Panics v, fs1) => (Panics v, fs1)
    end.
Proof.
  destruct fs as [f s]. cbn [evaluate_from]. unfold consult, gbind, get_req, gret. cbn beta iota.
  destruct (_ || _); [done|].
  destruct (bucket l (f, s)) as [[[bkt []]|v] fs1]; cbn [negb]; [|done..].
  destruct (apply st l bkt fs1) as [[[res [e|]]|v] [f2 s2]]; [done| |done].
  by destruct (Outcome_blocked res), (Limiter_DryRun l).
Qed.

Lemma evaluations_of_app tr tr' : evaluations_of (tr ++ tr') = evaluations_of tr ++ evaluations_of tr'.
Proof. apply map_app. Qed.

Lemma first_with_app v tr tr' :
  first_with v (tr ++ tr') =
    match first_with v tr with Some x => Some x | None => first_with v tr' end.
Proof. induction tr as [|[l [e|res]] tr IH]; simpl; [done|done|]. by case_bool_decide. Qed.

Lemma first_with_single v l a :
  first_with v [(l, a)] =
    match a with
    | inr res => if bool_decide (verdict_of l a = v) then Some (l, res) else None
    | inl _ => None
    end.
Proof. by destruct a. Qed.

#[local] Arguments verdict_of : simpl never.

(** The bookkeeping keeps the decision the summary of the transcript. *)
Lemma summary_other tr l a :
  first_with VerdictBlocked tr = None ->
  verdict_of l a <> VerdictBlocked -> verdict_of l a <> VerdictWouldBlock ->
  evaluated (summary tr) (Limiter_Name l) (verdict_of l a) = summary (tr ++ [(l, a)]).
Proof.
  intros Hb Hn Hw. unfold summary, evaluated.
  rewrite !first_with_app, Hb, !first_with_single, evaluations_of_app.
  rewrite (bool_decide_eq_false_2 _ Hn), (bool_decide_eq_false_2 _ Hw).
  destruct (first_with VerdictWouldBlock tr) as [[l' res']|]; by destruct a.
Qed.

Lemma summary_would_block tr l res :
  first_with VerdictBlocked tr = None -> verdict_of l (inr res) = VerdictWouldBlock ->
  would_block (summary tr) l res = summary (tr ++ [(l, inr res)]).
Proof.
  intros Hb Hw. unfold summary, would_block, evaluated.
  rewrite !first_with_app, Hb, !first_with_single, evaluations_of_app, Hw. simpl.
  rewrite Hw. by destruct (first_with VerdictWouldBlock tr) as [[l' res']|].
Qed.

Lemma summary_block tr l res :
  first_with VerdictBlocked tr = None -> verdict_of l (inr res) = VerdictBlocked ->
  block (summary tr) l res = summary (tr ++ [(l, inr res)]).
Proof.
  intros Hb Hv. unfold summary, block.
  rewrite !first_with_app, Hb, !first_with_single, evaluations_of_app, Hv. simpl.
  rewrite Hv. by destruct (first_with VerdictWouldBlock tr) as [[l' res']|].
Qed.

Lemma evaluate_from_summary ls tr0 fs :
  first_with VerdictBlocked tr0 = None ->
  exists tr fs', consults st ls fs tr fs' /\
    evaluate_from st ls (summary tr0) fs = (Returns (summary (tr0 ++ tr)), fs').
Proof.
  revert tr0 fs. induction ls as [|l ls IH]; intros tr0 fs Hb.
  { exists [], fs. rewrite app_nil_r. split; [constructor|done]. }
  rewrite evaluate_from_cons.
  assert (forall a fs1 d, (forall tr fs', consults st ls fs1 tr fs' ->
            consults st (l :: ls) fs ((l, a) :: tr) fs') ->
          d = summary (tr0 ++ [(l, a)]) -> verdict_of l a <> VerdictBlocked ->
          exists tr fs', consults st (l :: ls) fs tr fs' /\
            evaluate_from st ls d fs1 = (Returns (summary (tr0 ++ tr)), fs')) as Hgo.
  { intros a fs1 d Hc -> Hv. destruct (IH (tr0 ++ [(l, a)]) fs1) as (tr & fs' & Hcs & ->).
    - rewrite first_with_app, Hb, first_with_single.
      destruct a; [done|]. by rewrite (bool_decide_eq_false_2 _ Hv).
    - exists ((l, a) :: tr), fs'. rewrite <-app_assoc. by split; [apply Hc|]. }
  destruct (total_consult l fs) as (a & fs1 & Ea). rewrite Ea. destruct a as [|e|res].
  - destruct (IH tr0 fs1 Hb) as (tr & fs' & Hc & Er). exists tr, fs'.
    split; [by eapply consults_skip|done].
  - apply (Hgo (inl e)); [|by apply (summary_other tr0 l (inl e))|done].
    intros tr fs' ?. by eapply consults_fail.
  - destruct (Outcome_blocked res) eqn:Eb; simpl; [destruct (Limiter_DryRun l) eqn:Ed|].
    + assert (verdict_of l (inr res) = VerdictWouldBlock) as Hv by (unfold verdict_of; by rewrite Eb, Ed).
      apply (Hgo (inr res)); [|by apply summary_would_block|by rewrite Hv].
      intros tr fs' ?. eapply consults_pass; [done|by rewrite Hv|done].
    + assert (verdict_of l (inr res) = VerdictBlocked) as Hv by (unfold verdict_of; by rewrite Eb, Ed).
      exists [(l, inr res)], fs1. rewrite summary_block by done.
      split; [by eapply consults_block|done].
    + assert (verdict_of l (inr res) = VerdictAllowed) as Hv by (unfold verdict_of; by rewrite Eb).
      apply (Hgo (inr res)); [| |by rewrite Hv].
      * intros tr fs' ?. eapply consults_pass; [done|by rewrite Hv|done].
      * rewrite <-Hv. apply summary_other; [done|by rewrite Hv..].
Qed.

Lemma Evaluate_consults ls fs :
  exists tr fs', consults st ls fs tr fs' /\ Evaluate st ls fs = (Returns (summary tr), fs').
Proof. apply (evaluate_from_summary ls []). done. Qed.

End lemmas.

(** ** What a consultation does to the state *)
Section runs.
Context {U : Unicode} {S : Type}.
Context (st : Store S).

(** The store call [apply] makes, with its panic turned into an error. *)
Definition store_call (l : Limiter) (b : string) (s : S) : (Outcome * option error) * S :=
  let key := mkKey (Limiter_Name l) b in
  if Bucket_Valid (Limiter_Bucket l)
  then match Store.Take st key (Limiter_Bucket l) s with
       | (Returns (res, None), s') =>
           ((mkOutcome (negb (TakeResult_Allowed res)) (TakeResult_Remaining res)
               (TakeResult_RetryAfter res), None), s')
       | (Returns (_, Some e), s') => ((Outcome_zero, Some e), s')
       | (Panics v, s') => ((Outcome_zero, Some ("store panicked: " ++ v)%string), s')
       end
  else match Store.Consume st key (Limiter_Rule l) s with
       | (Returns (res, None), s') =>
           ((mkOutcome (Result_Blocked res) (Result_Count res) (Result_RetryAfter res), None), s')
       | (Returns (_, Some e), s') => ((Outcome_zero, Some e), s')
       | (Panics v, s') => ((Outcome_zero, Some ("store panicked: " ++ v)%string), s')
       end.

Lemma apply_run l b f s :
  apply st l b (f, s) = let '(r, s') := store_call l b s in (Returns r, (f, s')).
Proof.
  unfold apply, store_call. go_unfold. destruct (Bucket_Valid _).
  - by destruct (Store.Take _ _ _ s) as [[[res [e|]]|v] s'].
  - by destruct (Store.Consume _ _ _ s) as [[[res [e|]]|v] s'].
Qed.

Lemma bucket_run l f (s : S) :
  bucket l (f, s) =
    match Limiter_Keyer l (frame_req f) with
    | (Returns kb, r) => (Returns kb, (mkFrame r (frame_log f), s))
    | (Panics v, r) =>
        (Returns ("", false),
         (mkFrame r (frame_log f ++ [LogKeyerPanic (Limiter_Name l) v]), s))
    end.
Proof.
  unfold bucket, on_req, emit. go_unfold. by destruct (Limiter_Keyer l (frame_req f)) as [[kb|v] r].
Qed.

(** The request and log a keyer leaves, and the bucket it gives, if any. *)
Definition keyed (l : Limiter) (f : frame) : option string * frame :=
  match Limiter_Keyer l (frame_req f) with
  | (Returns (b, true), r) => (Some b, mkFrame r (frame_log f))
  | (Returns (_, false), r) => (None, mkFrame r (frame_log f))
  | (Panics v, r) => (None, mkFrame r (frame_log f ++ [LogKeyerPanic (Limiter_Name l) v]))
  end.

Definition in_scope (l : Limiter) (f : frame) : bool :=
  Applies l (Path (frame_req f)) (Method (frame_req f)) && Active l.

Lemma consult_run l f s :
  consult st l (f, s) =
    if in_scope l f
    then match keyed l f with
         | (None, f1) => (Returns Skipped, (f1, s))
         | (Some b, f1) =>
             match store_call l b s with
             | ((_, Some e), s1) =>
                 (Returns (Failed e),
                  (mkFrame (frame_req f1)
                     (frame_log f1 ++ [LogStoreError (Limiter_Name l) (truncate b) e]), s1))
             | ((res, None), s1) => (Returns (Answered res), (f1, s1))
             end
         end
    else (Returns Skipped, (f, s)).
Proof.
  unfold consult, in_scope, keyed, gbind, get_req, gret. cbn beta iota.
  rewrite <-negb_andb. destruct (_ && _); simpl; [|done]. rewrite bucket_run.
  destruct (Limiter_Keyer l (frame_req f)) as [[[b []]|v] r]; simpl; [|done..].
  rewrite apply_run. by destruct (store_call l b s) as [[res [e|]] s1].
Qed.

(** [store_call] makes exactly one call, and a valid one. *)
Lemma consult_sublist ls fs tr fs' : consults st ls fs tr fs' -> tr.*1 `sublist_of` ls.
Proof.
  induction 1; simpl; [done|by apply sublist_cons|by apply sublist_skip..|].
  apply sublist_skip, sublist_nil_l.
Qed.

Lemma consults_last_blocked ls fs tr fs' l res :
  consults st ls fs tr fs' -> first_with VerdictBlocked tr = Some (l, res) ->
  exists before fs0, tr = before ++ [(l, inr res)] /\ l ∈ ls /\
    verdict_of l (inr res) = VerdictBlocked /\
    first_with VerdictBlocked before = None /\
    consult st l fs0 = (Returns (Answered res), fs').
Proof.
  induction 1 as [|l' ls fs fs1 tr fs2 Hl _ IH|l' ls fs e fs1 tr fs2 Hl _ IH
    |l' ls fs res' fs1 tr fs2 Hl Hv _ IH|l' ls fs res' fs1 Hl Hv]; simpl; intros Hf.
  - done.
  - destruct (IH Hf) as (b & fs0 & ? & ? & ? & ? & ?). exists b, fs0. by split_and!; [|right|..].
  - destruct (IH Hf) as (b & fs0 & -> & ? & ? & ? & ?).
    exists ((l', inl e) :: b), fs0. by split_and!; [|right|..].
  - rewrite (bool_decide_eq_false_2 _ Hv) in Hf.
    destruct (IH Hf) as (b & fs0 & -> & ? & ? & ? & ?).
    exists ((l', inr res') :: b), fs0. split_and!; [done|by right|done| |done].
    cbn [first_with]. by rewrite (bool_decide_eq_false_2 _ Hv).
  - rewrite (bool_decide_eq_true_2 _ Hv) in Hf. simplify_eq.
    exists [], fs. by split_and!; [|left|..].
Qed.

End runs.

(** ** Determinism, and one consultation at a time *)
Section determinism.
Context {U : Unicode} {S : Type}.
Context (st : Store S).
Implicit Types (l : Limiter) (ls : list Limiter) (fs : frame * S) (tr : transcript).

Lemma consults_det ls fs tr1 fs1 tr2 fs2 :
  consults st ls fs tr1 fs1 -> consults st ls fs tr2 fs2 -> tr1 = tr2 /\ fs1 = fs2.
Proof.
  intros H1. revert tr2 fs2.
  induction H1 as [|? ? ? ? ? ? Hl _ IH|? ? ? ? ? ? ? Hl _ IH|? ? ? ? ? ? ? Hl Hv _ IH|? ? ? ? ? Hl Hv];
    intros tr2' fs2' H2; inversion H2; simplify_eq; try done;
    match goal with Hc : consult st _ _ = _ |- _ => rewrite Hl in Hc; simplify_eq end; try done;
    match goal with Hc : consults st _ _ _ _ |- _ => by destruct (IH _ _ Hc) as [-> ->] end.
Qed.

Lemma consults_Evaluate ls fs tr fs' :
  consults st ls fs tr fs' -> Evaluate st ls fs = (Returns (summary tr), fs').
Proof.
  intros H. destruct (Evaluate_consults st ls fs) as (tr0 & fs0 & H0 & ->).
  by destruct (consults_det _ _ _ _ _ _ H H0) as [-> ->].
Qed.

Lemma Evaluate_consults_inv ls fs d fs' :
  Evaluate st ls fs = (Returns d, fs') -> exists tr, d = summary tr /\ consults st ls fs tr fs'.
Proof.
  intros E. destruct (Evaluate_consults st ls fs) as (tr & fs0 & H0 & E0).
  rewrite E0 in E. simplify_eq. by exists tr.
Qed.

(** A consultation that reaches the store, in the terms of [store_call]. *)
Lemma consult_answered l f s res fs' :
  consult st l (f, s) = (Returns (Answered res), fs') ->
  in_scope l f = true /\ exists b f1 s1, keyed l f = (Some b, f1) /\
    store_call st l b s = ((res, None), s1) /\ fs' = (f1, s1).
Proof.
  rewrite consult_run. destruct (in_scope l f); [|done]. intros E. split; [done|].
  destruct (keyed l f) as [[b|] f1]; [|done].
  destruct (store_call st l b s) as [[res' [e|]] s1] eqn:Es; simplify_eq. by eauto 10.
Qed.

Lemma consult_failed l f s e fs' :
  consult st l (f, s) = (Returns (Failed e), fs') ->
  in_scope l f = true /\ exists b f1 res s1, keyed l f = (Some b, f1) /\
    store_call st l b s = ((res, Some e), s1) /\
    fs' = (mkFrame (frame_req f1)
             (frame_log f1 ++ [LogStoreError (Limiter_Name l) (truncate b) e]), s1).
Proof.
  rewrite consult_run. destruct (in_scope l f); [|done]. intros E. split; [done|].
  destruct (keyed l f) as [[b|] f1]; [|done].
  destruct (store_call st l b s) as [[res' [e'|]] s1] eqn:Es; simplify_eq. by eauto 10.
Qed.

Lemma consult_skipped l f s fs' :
  consult st l (f, s) = (Returns Skipped, fs') ->
  fs' = (f, s) \/ exists f1, keyed l f = (None, f1) /\ fs' = (f1, s).
Proof.
  rewrite consult_run. destruct (in_scope l f); [|intros [= <-]; by left].
  destruct (keyed l f) as [[b|] f1]; [|intros [= <-]; right; by eexists].
  by destruct (store_call st l b s) as [[res' [e|]] s1].
Qed.

Lemma verdict_blocked_inv l a :
  verdict_of l a = VerdictBlocked ->
  exists res, a = inr res /\ Outcome_blocked res = true /\ Limiter_DryRun l = false.
Proof.
  destruct a as [e|res]; simpl; [done|].
  destruct (Outcome_blocked res) eqn:?, (Limiter_DryRun l) eqn:?; try done. by eauto.
Qed.

Lemma first_with_verdict v tr l res :
  first_with v tr = Some (l, res) -> verdict_of l (inr res) = v /\ (l, inr res) ∈ tr.
Proof.
  induction tr as [|[l' [e|res']] tr IH]; cbn [first_with]; intros E; [done|..].
  - destruct (IH E). split; [done|by right].
  - case_bool_decide; [simplify_eq; split; [done|by left]|].
    destruct (IH E). split; [done|by right].
Qed.

Lemma first_with_None v tr l res :
  first_with v tr = None -> (l, inr res) ∈ tr -> verdict_of l (inr res) <> v.
Proof.
  induction tr as [|[l' a] tr IH]; intros E Hin; [by apply not_elem_of_nil in Hin|].
  apply elem_of_cons in Hin as [Hin|Hin].
  - simplify_eq. cbn [first_with] in E. by case_bool_decide.
  - destruct a as [e|res']; cbn [first_with] in E; [auto|]. case_bool_decide; [done|auto].
Qed.

Lemma summary_Rejected tr :
  Rejected (summary tr) = match first_with VerdictBlocked tr with Some _ => true | None => false end.
Proof.
  unfold summary, Rejected.
  destruct (first_with VerdictBlocked tr) as [[l res]|]; [done|].
  by destruct (first_with VerdictWouldBlock tr) as [[l res]|].
Qed.

Lemma summary_Evaluations tr : Decision_Evaluations (summary tr) = evaluations_of tr.
Proof.
  unfold summary. destruct (first_with VerdictBlocked tr) as [[l res]|]; [done|].
  by destruct (first_with VerdictWouldBlock tr) as [[l res]|].
Qed.

End determinism.

#[export] Hint Rewrite summary_Rejected summary_Evaluations : golim.

(** ** Theorems *)
Section theorems.
Context {U : Unicode} {S : Type}.
Context (st : Store S).

(** C3: [Evaluate] always returns, whatever the keyers and the store do, and its
    decision is the summary of the limiters it consulted, taken in order up to the
    first enforced block: that block if there is one, else the first dry-run
    block, else nothing, with one evaluation per limiter consulted. *)
Theorem Evaluate_decides ls fs :
  exists tr fs', consults st ls fs tr fs' /\ tr.*1 `sublist_of` ls /\
    Evaluate st ls fs = (Returns (summary tr), fs').
Proof.
  destruct (Evaluate_consults st ls fs) as (tr & fs' & Hc & E).
  exists tr, fs'. by split_and!; [|eapply consult_sublist|].
Qed.

(** C14: a request is rejected exactly when an enforced limiter in its list
    got the answer "blocked" from the store, without error; the decision is then
    that limiter's answer, it is the last one evaluated, the only one whose verdict
    is "blocked", and the store call was the last thing that happened. *)
Theorem Rejected_iff ls f s d f' s' :
  Evaluate st ls (f, s) = (Returns d, (f', s')) ->
  Rejected d = true <->
  exists l b s0 res evs, l ∈ ls /\ Limiter_DryRun l = false /\
    store_call st l b s0 = ((res, None), s') /\ Outcome_blocked res = true /\
    d = mkDecision true false (Limiter_Name l) (Outcome_count res) (Outcome_retryAfter res)
          (Limiter_AdviseRetryAfter l)
          (evs ++ [mkEvaluation (Limiter_Name l) VerdictBlocked]) /\
    Forall (fun e => Evaluation_Verdict e <> VerdictBlocked) evs.
Proof.
  intros (tr & -> & Hc)%Evaluate_consults_inv. rewrite summary_Rejected.
  split; [|by intros (l & b & s0 & res & evs & _ & _ & _ & _ & Ed & _);
            apply (f_equal Rejected) in Ed; rewrite summary_Rejected in Ed].
  destruct (first_with VerdictBlocked tr) as [[l res]|] eqn:Ef; [intros _|done].
  destruct (consults_last_blocked _ _ _ _ _ _ _ Hc Ef)
    as (before & [f0 s0] & -> & Hin & Hv & Hb & Ea).
  apply consult_answered in Ea as (_ & b & f1 & s1 & _ & Es & [= <- <-]).
  apply verdict_blocked_inv in Hv as (? & [= <-] & Hblk & Hdry).
  exists l, b, s0, res, (evaluations_of before). split_and!; try done.
  - unfold summary. rewrite Ef, evaluations_of_app. simpl. by rewrite Hblk, Hdry.
  - apply Forall_fmap, Forall_forall. intros [l' a] Hin'. simpl. intros Hv'.
    apply verdict_blocked_inv in Hv' as Hv2. destruct Hv2 as (res' & -> & _).
    by apply (first_with_None _ _ _ _ Hb Hin').
Qed.

(** A store whose calls on the limiters' keys only ever fail: an error, or a panic. *)
Definition failing {A} (o : outcome (A * option error)) : Prop :=
  match o with Returns (_, None) => False | _ => True end.

Class Broken : Prop := {
  broken_Consume k r s : failing (Store.Consume st k r s).1;
  broken_Take k b s : failing (Store.Take st k b s).1;
}.

Lemma store_call_broken `{Broken} l b s : exists e s', store_call st l b s = ((Outcome_zero, Some e), s').
Proof.
  unfold store_call. destruct (Bucket_Valid _).
  - pose proof (broken_Take (mkKey (Limiter_Name l) b) (Limiter_Bucket l) s) as Hf.
    destruct (Store.Take _ _ _ _) as [[[? [?|]]|] ?]; [eauto|done|eauto].
  - pose proof (broken_Consume (mkKey (Limiter_Name l) b) (Limiter_Rule l) s) as Hf.
    destruct (Store.Consume _ _ _ _) as [[[? [?|]]|] ?]; [eauto|done|eauto].
Qed.

Lemma consults_broken `{Broken} ls fs tr fs' :
  consults st ls fs tr fs' -> Forall (fun la => exists e, la.2 = inl e) tr.
Proof.
  induction 1 as [| |? ? ? ? ? ? ? ? ? IH|l ? [f s] res ? ? ? Hl|l ? [f s] res ? Hl].
  - done.
  - done.
  - constructor; [by eexists|done].
  - apply consult_answered in Hl as (_ & b & ? & ? & _ & Es & _).
    destruct (store_call_broken l b s) as (? & ? & ?). congruence.
  - apply consult_answered in Hl as (_ & b & ? & ? & _ & Es & _).
    destruct (store_call_broken l b s) as (? & ? & ?). congruence.
Qed.

Lemma first_with_all_failed v tr :
  Forall (fun la => exists e, la.2 = inl e) tr -> first_with v tr = None.
Proof. induction 1 as [|[l a] tr [e He] _ IH]; simpl in *; by subst. Qed.


End theorems.
