(* ===== verification/Guarantees.v ===== *)
(** * What the engine guarantees its callers

    Consequences of the engine's definitions for whole requests: dry-run limiters
    are invisible to enforcement, the store sees one valid call per evaluation,
    and a log line never carries a whole bucket.  The first of them is proved
    against the interface [Isolated], not against a particular store. *)
From stdpp Require Import base list gmap strings.
From Stdlib Require Import ZArith Lia Ascii String.
From S2P Require Import Prelude.
From S2P Require Import GoStrings.
From S2P Require Import Store.
From S2P Require Import Request.
From S2P Require Import Limiter.
From S2P Require Import Engine.

(** The limiters that can reject, and the names they use in the store. *)
Definition enforced (ls : list Limiter) : list Limiter :=
  filter (fun l => Limiter_DryRun l = false) ls.

Definition enforced_name (ls : list Limiter) (n : string) : Prop :=
  exists l, l ∈ ls /\ Limiter_DryRun l = false /\ Limiter_Name l = n.

Definition enforced_part (tr : transcript) : transcript :=
  filter (fun la => Limiter_DryRun la.1 = false) tr.

(** ** Dry-run limiters and the limiters behind them *)
Section transparency.
Context {U : Unicode} {J : JSONDecoder} {S : Type}.
Context (RuleOk : Rule -> Prop) (BucketOk : Bucket -> Prop) (P : S -> Prop).
Context (st : Store S) {Iso : Isolated RuleOk BucketOk P st}.
Implicit Types (l : Limiter) (ls : list Limiter) (tr : transcript) (N : string -> Prop).

(** Two states of the engine that the limiters named by [N] cannot tell apart. *)
Definition alike N (fs1 fs2 : frame * S) : Prop :=
  coherent (frame_req fs1.1) /\ coherent (frame_req fs2.1) /\
  same_input (frame_req fs1.1) (frame_req fs2.1) /\ P fs1.2 /\ P fs2.2 /\ agree N fs1.2 fs2.2.

(** A limiter the store takes the rule and the bucket of. *)
Definition accepted (l : Limiter) : Prop :=
  RuleOk (Limiter_Rule l) /\ BucketOk (Limiter_Bucket l).

Lemma in_scope_alike N l f1 s1 f2 s2 :
  alike N (f1, s1) (f2, s2) -> in_scope l f1 = in_scope l f2.
Proof. intros (_ & _ & (Em & Ep & _) & _). unfold in_scope. simpl in *. by rewrite Em, Ep. Qed.

Lemma keyed_alike N l f1 s1 f2 s2 :
  settled (Limiter_Keyer l) -> alike N (f1, s1) (f2, s2) ->
  (keyed l f1).1 = (keyed l f2).1 /\ alike N ((keyed l f1).2, s1) ((keyed l f2).2, s2).
Proof.
  intros Hk (Hc1 & Hc2 & Hi & Ha). simpl in *. unfold keyed.
  destruct (Hk _ Hc1) as (Hc1' & Hi1 & Hd). destruct (Hk _ Hc2) as (Hc2' & Hi2 & _).
  pose proof (Hd _ Hc2 Hi) as Eo.
  destruct (Limiter_Keyer l (frame_req f1)) as [o1 r1], (Limiter_Keyer l (frame_req f2)) as [o2 r2].
  simpl in *. subst o2.
  assert (same_input r1 r2) as Hr by (rewrite <-Hi1, Hi; done).
  destruct o1 as [[b []]|v]; split; done.
Qed.

Lemma keyed_alike_l N l f1 s1 fs2 :
  settled (Limiter_Keyer l) -> alike N (f1, s1) fs2 -> alike N ((keyed l f1).2, s1) fs2.
Proof.
  intros Hk (Hc1 & Hc2 & Hi & Ha). simpl in *. unfold keyed.
  destruct (Hk _ Hc1) as (Hc1' & Hi1 & _).
  destruct (Limiter_Keyer l (frame_req f1)) as [o1 r1]. simpl in *.
  assert (same_input r1 (frame_req fs2.1)) as Hr by (by rewrite <-Hi1).
  by destruct o1 as [[b []]|v].
Qed.

Lemma store_call_keeps l b s : accepted l -> P s -> P (store_call st l b s).2.
Proof.
  intros [Hr Hb] Hs. unfold store_call. set (k := mkKey (Limiter_Name l) b).
  destruct (Bucket_Valid _).
  - pose proof (Take_keeps k (Limiter_Bucket l) s Hb Hs).
    by destruct (Store.Take _ _ _ s) as [[[? [?|]]|?] s'].
  - pose proof (Consume_keeps k (Limiter_Rule l) s Hr Hs).
    by destruct (Store.Consume _ _ _ s) as [[[? [?|]]|?] s'].
Qed.

Lemma store_call_inside N l b s1 s2 :
  accepted l -> P s1 -> P s2 -> N (Limiter_Name l) -> agree N s1 s2 ->
  (store_call st l b s1).1 = (store_call st l b s2).1 /\
  agree N (store_call st l b s1).2 (store_call st l b s2).2.
Proof.
  intros [Hr Hb] H1 H2 HN Ha. unfold store_call. set (k := mkKey (Limiter_Name l) b).
  destruct (Bucket_Valid _).
  - destruct (Take_inside N k (Limiter_Bucket l) _ _ Hb H1 H2 HN Ha) as [E A].
    destruct (Store.Take _ _ _ s1) as [o s1'], (Store.Take _ _ _ s2) as [o' s2'].
    simpl in *. subst o'. by destruct o as [[? [?|]]|?].
  - destruct (Consume_inside N k (Limiter_Rule l) _ _ Hr H1 H2 HN Ha) as [E A].
    destruct (Store.Consume _ _ _ s1) as [o s1'], (Store.Consume _ _ _ s2) as [o' s2'].
    simpl in *. subst o'. by destruct o as [[? [?|]]|?].
Qed.

Lemma store_call_outside N l b s :
  accepted l -> P s -> ~ N (Limiter_Name l) -> agree N s (store_call st l b s).2.
Proof.
  intros [Hr Hb] Hs HN. unfold store_call. set (k := mkKey (Limiter_Name l) b).
  destruct (Bucket_Valid _).
  - pose proof (Take_outside N k (Limiter_Bucket l) s Hb Hs HN).
    by destruct (Store.Take _ _ _ s) as [[[? [?|]]|?] s'].
  - pose proof (Consume_outside N k (Limiter_Rule l) s Hr Hs HN).
    by destruct (Store.Consume _ _ _ s) as [[[? [?|]]|?] s'].
Qed.

(** An enforced limiter answers the same in states it cannot tell apart. *)
Lemma consult_enforced N l fs1 fs2 :
  settled (Limiter_Keyer l) -> accepted l -> N (Limiter_Name l) -> alike N fs1 fs2 ->
  (consult st l fs1).1 = (consult st l fs2).1 /\
  alike N (consult st l fs1).2 (consult st l fs2).2.
Proof.
  destruct fs1 as [f1 s1], fs2 as [f2 s2]. intros Hk Hl HN Ha.
  rewrite !consult_run, <-(in_scope_alike _ _ _ _ _ _ Ha).
  destruct (in_scope l f1); [|done].
  destruct (keyed_alike N l f1 s1 f2 s2 Hk Ha) as [Ek Ha'].
  destruct (keyed l f1) as [ob g1], (keyed l f2) as [ob2 g2]. simpl in *. subst ob2.
  destruct ob as [b|]; [|done]. destruct Ha' as (? & ? & ? & H1 & H2 & Hs).
  destruct (store_call_inside N l b s1 s2 Hl H1 H2 HN Hs) as [Es Hs'].
  pose proof (store_call_keeps l b s1 Hl H1). pose proof (store_call_keeps l b s2 Hl H2).
  destruct (store_call st l b s1) as [[res oe] s1'], (store_call st l b s2) as [p s2'].
  simpl in *. subst p. by destruct oe.
Qed.

(** A limiter outside [N] leaves what [N] sees alone. *)
Lemma consult_other N l fs1 fs2 :
  settled (Limiter_Keyer l) -> accepted l -> ~ N (Limiter_Name l) -> alike N fs1 fs2 ->
  alike N (consult st l fs1).2 fs2.
Proof.
  destruct fs1 as [f1 s1]. intros Hk Hl HN Ha. rewrite consult_run.
  destruct (in_scope l f1); [|done].
  pose proof (keyed_alike_l N l f1 s1 fs2 Hk Ha) as Ha'.
  destruct (keyed l f1) as [[b|] g1]; [|done]. destruct Ha' as (? & ? & ? & H1 & H2 & Hs).
  pose proof (store_call_outside N l b s1 Hl H1 HN) as Ho. pose proof (store_call_keeps l b s1 Hl H1).
  destruct (store_call st l b s1) as [[res [e|]] s1']; simpl in *;
    (split_and!; [done..|]); by rewrite <-Ho.
Qed.

Lemma enforced_cons l ls :
  enforced (l :: ls) = if Limiter_DryRun l then enforced ls else l :: enforced ls.
Proof. unfold enforced. rewrite filter_cons. by destruct (Limiter_DryRun l). Qed.

Lemma enforced_part_cons l a tr :
  enforced_part ((l, a) :: tr) =
    if Limiter_DryRun l then enforced_part tr else (l, a) :: enforced_part tr.
Proof. unfold enforced_part. rewrite filter_cons. simpl. by destruct (Limiter_DryRun l). Qed.

Lemma verdict_dry l a : Limiter_DryRun l = true -> verdict_of l a <> VerdictBlocked.
Proof. intros Hd Hv. apply verdict_blocked_inv in Hv as (? & _ & _ & ?). congruence. Qed.

Lemma consults_enforced N ls fs1 fs2 tr fs1' :
  Forall (fun l => (settled (Limiter_Keyer l) /\ accepted l) /\
            if Limiter_DryRun l then ~ N (Limiter_Name l) else N (Limiter_Name l)) ls ->
  alike N fs1 fs2 -> consults st ls fs1 tr fs1' ->
  exists fs2', consults st (enforced ls) fs2 (enforced_part tr) fs2' /\ alike N fs1' fs2'.
Proof.
  intros Hls Ha Hc. revert fs2 Ha Hls.
  induction Hc as [fs|l ls fs fs1 tr fs' Hl _ IH|l ls fs e fs1 tr fs' Hl _ IH
    |l ls fs res fs1 tr fs' Hl Hv _ IH|l ls fs res fs1 Hl Hv]; intros fs2 Ha Hls.
  { exists fs2. by split; [constructor|]. }
  all: apply Forall_cons in Hls as [[[Hk Hacc] HN] Hls]; rewrite enforced_cons, ?enforced_part_cons.
  all: destruct (Limiter_DryRun l) eqn:Ed;
    [pose proof (consult_other N l fs fs2 Hk Hacc HN Ha) as Hn; rewrite Hl in Hn; simpl in Hn
    |pose proof (consult_enforced N l fs fs2 Hk Hacc HN Ha) as [Ea Hn]; rewrite Hl in Ea, Hn;
     destruct (consult st l fs2) as [o g2] eqn:El; simpl in Ea, Hn; subst o].
  all: try (destruct (IH _ Hn Hls) as (fs2' & Hc2 & Hz)).
  all: try by eauto using consults_skip, consults_fail, consults_pass, consults_block.
  by apply verdict_dry in Hv.
Qed.

Lemma first_with_enforced tr :
  first_with VerdictBlocked (enforced_part tr) = first_with VerdictBlocked tr.
Proof.
  induction tr as [|[l a] tr IH]; [done|]. rewrite enforced_part_cons.
  destruct (Limiter_DryRun l) eqn:Ed.
  - rewrite IH. destruct a as [e|res]; [done|]. cbn [first_with].
    by rewrite (bool_decide_eq_false_2 _ (verdict_dry l (inr res) Ed)).
  - destruct a as [e|res]; cbn [first_with]; [done|]. by rewrite IH.
Qed.

(** A dry-run limiter measures without enforcing.  Over a store whose buckets
    are per limiter, and with keyers that only read the request, removing every
    dry-run limiter from the list (the names of the others being their own) changes
    neither whether a request is rejected nor what the rejection says. *)
Lemma dry_run_transparent ls f s d fs' d' fs'' :
  Forall (fun l => settled (Limiter_Keyer l) /\ accepted l) ls ->
  (forall l, l ∈ ls -> Limiter_DryRun l = true -> ~ enforced_name ls (Limiter_Name l)) ->
  coherent (frame_req f) -> P s ->
  Evaluate st ls (f, s) = (Returns d, fs') ->
  Evaluate st (enforced ls) (f, s) = (Returns d', fs'') ->
  Rejected d = Rejected d' /\
  (Rejected d = true ->
   Decision_Limiter d = Decision_Limiter d' /\ Decision_Count d = Decision_Count d' /\
   Decision_RetryAfter d = Decision_RetryAfter d' /\
   Decision_AdviseRetryAfter d = Decision_AdviseRetryAfter d').
Proof.
  intros Hk Hn Hf Hs (tr & -> & Hc)%Evaluate_consults_inv E'.
  assert (alike (enforced_name ls) (f, s) (f, s)) as Ha by (by split_and!).
  assert (Forall (fun l => (settled (Limiter_Keyer l) /\ accepted l) /\
            if Limiter_DryRun l then ~ enforced_name ls (Limiter_Name l)
            else enforced_name ls (Limiter_Name l)) ls) as Hls.
  { apply Forall_forall. intros l Hl. split; [by apply (proj1 (Forall_forall _ _) Hk)|].
    destruct (Limiter_DryRun l) eqn:Ed; [by apply Hn|by exists l]. }
  destruct (consults_enforced _ _ _ _ _ _ Hls Ha Hc) as (g & Hc' & _).
  apply consults_Evaluate in Hc'. rewrite Hc' in E'. simplify_eq.
  rewrite !summary_Rejected, first_with_enforced. split; [done|].
  unfold summary. rewrite first_with_enforced.
  by destruct (first_with VerdictBlocked tr) as [[l res]|].
Qed.

End transparency.

(** ** The calls the store sees *)
Section calls.
Context {U : Unicode} {S : Type}.
Context (st : Store S).
Implicit Types (l : Limiter) (ls : list Limiter) (tr : transcript).

(** The call a limiter in scope makes for a bucket. *)
Definition call_of (l : Limiter) (b : string) : call :=
  if Bucket_Valid (Limiter_Bucket l)
  then CallTake (mkKey (Limiter_Name l) b) (Limiter_Bucket l)
  else CallConsume (mkKey (Limiter_Name l) b) (Limiter_Rule l).

Lemma call_of_limiter l b : call_limiter (call_of l b) = Limiter_Name l.
Proof. unfold call_of. by destruct (Bucket_Valid _). Qed.

Lemma call_of_valid l b : Active l = true -> call_valid (call_of l b) = true.
Proof.
  unfold Active, call_of. destruct (Bucket_Valid (Limiter_Bucket l)) eqn:E; simpl; [done|].
  by rewrite orb_false_r.
Qed.

Lemma store_call_recorder l b cs (s : S) :
  store_call (recorder st) l b (cs, s) =
    let '(r, s') := store_call st l b s in (r, (cs ++ [call_of l b], s')).
Proof.
  unfold store_call, recorder, call_of. simpl. destruct (Bucket_Valid _).
  - by destruct (Store.Take st _ _ s) as [[[? [?|]]|] ?].
  - by destruct (Store.Consume st _ _ s) as [[[? [?|]]|] ?].
Qed.

Lemma consult_recorder l f cs s o f' w :
  consult (recorder st) l (f, (cs, s)) = (o, (f', w)) ->
  exists calls s', w = (cs ++ calls, s') /\ consult st l (f, s) = (o, (f', s')) /\
    map call_limiter calls = match o with Returns Skipped => [] | _ => [Limiter_Name l] end /\
    Forall (fun c => call_valid c = true) calls.
Proof.
  rewrite !consult_run. unfold in_scope. destruct (Applies _ _ _ && Active l) eqn:Es.
  2:{ intros [= <- <- <-]. exists [], s. by rewrite app_nil_r. }
  apply andb_true_iff in Es as [_ Hact].
  destruct (keyed l f) as [[b|] f1].
  2:{ intros [= <- <- <-]. exists [], s. by rewrite app_nil_r. }
  rewrite store_call_recorder. destruct (store_call st l b s) as [[res oe] s'].
  intros E. exists [call_of l b], s'. simpl. rewrite call_of_limiter.
  destruct oe; simplify_eq; (split_and!; [done..|]); by rewrite Forall_singleton, call_of_valid.
Qed.

Lemma consults_recorder ls f cs s tr f' w :
  consults (recorder st) ls (f, (cs, s)) tr (f', w) ->
  exists calls s', w = (cs ++ calls, s') /\ consults st ls (f, s) tr (f', s') /\
    map call_limiter calls = map Evaluation_Limiter (evaluations_of tr) /\
    Forall (fun c => call_valid c = true) calls.
Proof.
  remember (f, (cs, s)) as fs eqn:Efs. remember (f', w) as fs' eqn:Efs'. intros H.
  revert f cs s Efs. induction H as [fs|l ls fs [g1 [c1 s1]] tr fs' Hl _ IH
    |l ls fs e [g1 [c1 s1]] tr fs' Hl _ IH|l ls fs res [g1 [c1 s1]] tr fs' Hl Hv _ IH
    |l ls fs res [g1 [c1 s1]] Hl Hv]; intros f cs s ->; simplify_eq.
  { exists [], s. rewrite app_nil_r. split_and!; try done. constructor. }
  all: apply consult_recorder in Hl as (c & s2 & [= -> ->] & Hl & Hm & Hf).
  all: try (destruct (IH eq_refl _ _ _ eq_refl) as (c' & s' & -> & Hc & Em & Hf');
    exists (c ++ c'), s'; rewrite <-app_assoc, map_app, Hm, Em; split_and!;
      [done| |done|by apply Forall_app];
      by eauto using consults_skip, consults_fail, consults_pass).
  exists c, s2. split_and!; [done|by apply consults_block|done|done].
Qed.

(** C27: the store sees exactly one call per evaluation in the decision, made
    under the name of the limiter evaluated and in the same order, and never a rule or
    a bucket that is not valid - the inputs [redisstore] answers with an error.
    Noting the calls changes nothing. *)
Theorem one_call_per_evaluation ls f cs s d f' w :
  Evaluate (recorder st) ls (f, (cs, s)) = (Returns d, (f', w)) ->
  exists calls s', w = (cs ++ calls, s') /\
    map call_limiter calls = map Evaluation_Limiter (Decision_Evaluations d) /\
    Forall (fun c => call_valid c = true) calls /\
    Evaluate st ls (f, s) = (Returns d, (f', s')).
Proof.
  intros (tr & -> & Hc)%Evaluate_consults_inv.
  apply consults_recorder in Hc as (calls & s' & -> & Hc & Hm & Hf).
  exists calls, s'. rewrite summary_Evaluations. split_and!; [done..|by apply consults_Evaluate].
Qed.

(** ** The lines the log gets *)

(** The limiter a store-error line names. *)
Definition error_line (ln : log_line) : list string :=
  match ln with LogStoreError n _ _ => [n] | LogKeyerPanic _ _ => [] end.

(** A line's bucket field is at most twelve bytes of the bucket, marked as cut. *)
Definition bucket_cut (ln : log_line) : Prop :=
  match ln with
  | LogStoreError _ b _ => (String.length b <= 15)%nat
  | LogKeyerPanic _ _ => True
  end.

Lemma length_substring n s : (String.length (String.substring 0 n s) <= n)%nat.
Proof.
  revert s. induction n as [|n IH]; intros [|c s]; simpl; try lia. specialize (IH s). lia.
Qed.

Lemma truncate_length b : (String.length (truncate b) <= 15)%nat.
Proof.
  unfold truncate. destruct (Z.leb_spec (Z.of_nat (String.length b)) 12); [lia|].
  rewrite length_app_s. pose proof (length_substring 12 b). simpl (String.length "..."). lia.
Qed.

Lemma consult_log l fs a fs' :
  consult st l fs = (Returns a, fs') ->
  exists lines, frame_log fs'.1 = frame_log fs.1 ++ lines /\ Forall bucket_cut lines /\
    List.concat (map error_line lines) = match a with Failed _ => [Limiter_Name l] | _ => [] end.
Proof.
  assert (forall f x f1, keyed l f = (x, f1) -> (x <> None -> frame_log f1 = frame_log f) /\
    exists lines, frame_log f1 = frame_log f ++ lines /\ Forall bucket_cut lines /\
      List.concat (map error_line lines) = []) as Hkey.
  { intros f x f1. unfold keyed. destruct (Limiter_Keyer l (frame_req f)) as [[[b []]|v] r];
      intros [= <- <-]; (split; [done|]).
    - exists []. by rewrite app_nil_r.
    - exists []. by rewrite app_nil_r.
    - exists [LogKeyerPanic (Limiter_Name l) v]. simpl. split_and!; [done| |done]. by constructor. }
  destruct fs as [f s]. intros E. destruct a as [|e|res].
  - apply consult_skipped in E as [->|(f1 & Ek & ->)]; [exists []; by rewrite app_nil_r|].
    by destruct (Hkey _ _ _ Ek).
  - apply consult_failed in E as (_ & b & f1 & res & s1 & Ek & _ & ->).
    destruct (Hkey _ _ _ Ek) as [El _]. simpl. rewrite El by done. eexists. split; [done|].
    split; [|done]. apply Forall_singleton, truncate_length.
  - apply consult_answered in E as (_ & b & f1 & s1 & Ek & _ & ->).
    destruct (Hkey _ _ _ Ek) as [El _]. simpl. rewrite El by done. exists []. by rewrite app_nil_r.
Qed.

Lemma consults_log ls fs tr fs' :
  consults st ls fs tr fs' ->
  exists lines, frame_log fs'.1 = frame_log fs.1 ++ lines /\ Forall bucket_cut lines /\
    List.concat (map error_line lines) =
      map Evaluation_Limiter
        (filter (fun e => Evaluation_Verdict e = VerdictFailedOpen) (evaluations_of tr)).
Proof.
  assert (forall l res, verdict_of l (inr res) <> VerdictFailedOpen) as Hok.
  { intros l res. simpl. by destruct (Outcome_blocked res), (Limiter_DryRun l). }
  assert (forall l a evs, filter (fun e => Evaluation_Verdict e = VerdictFailedOpen)
            (mkEvaluation (Limiter_Name l) (verdict_of l a) :: evs) =
          match a with inl _ => [mkEvaluation (Limiter_Name l) VerdictFailedOpen] | inr _ => [] end
            ++ filter (fun e => Evaluation_Verdict e = VerdictFailedOpen) evs) as Hfil.
  { intros l [e|res] evs; rewrite filter_cons; cbn [Evaluation_Verdict];
      [by rewrite decide_True|by rewrite decide_False]. }
  induction 1 as [fs|l ls fs fs1 tr fs' Hl _ IH|l ls fs e fs1 tr fs' Hl _ IH
    |l ls fs res fs1 tr fs' Hl Hv _ IH|l ls fs res fs1 Hl Hv].
  { exists []. by rewrite app_nil_r. }
  all: apply consult_log in Hl as (lines & El & Hf & Em).
  all: try destruct IH as (lines' & El' & Hf' & Em').
  all: cbn [evaluations_of map]; rewrite ?Hfil; cbn [map app Evaluation_Limiter].
  4: { exists lines. done. }
  all: exists (lines ++ lines'); rewrite El', El, <-app_assoc, map_app, List.concat_app, Em, Em'.
  all: split_and!; [done|by apply Forall_app|done].
Qed.

(** Every store failure that lets a request through is logged, once and in
    order, and no log line carries more of the bucket in its bucket field than
    twelve bytes and the mark that it was cut. *)
Theorem failures_logged_truncated ls f s d f' s' :
  Evaluate st ls (f, s) = (Returns d, (f', s')) ->
  exists lines, frame_log f' = frame_log f ++ lines /\ Forall bucket_cut lines /\
    List.concat (map error_line lines) =
      map Evaluation_Limiter
        (filter (fun e => Evaluation_Verdict e = VerdictFailedOpen) (Decision_Evaluations d)).
Proof.
  intros (tr & -> & Hc)%Evaluate_consults_inv. rewrite summary_Evaluations.
  by apply consults_log in Hc.
Qed.

End calls.

(** ** Instances of the theorems *)
Section examples.

#[local] Existing Instances ascii_only no_decoder range_forward.
#[local] Open Scope string_scope.
#[local] Open Scope Z_scope.

Lemma settled_HeaderValue names : settled (HeaderValue names).
Proof.
  intros r Hc. split_and!; [done|done|]. intros r' _ (_ & _ & Eh & _).
  unfold HeaderValue. simpl. by rewrite Eh.
Qed.

(** A dry-run limiter in front of an enforced one, both per address. *)
Definition by_ip : Keyer := HeaderValue ["x-forwarded-for"].
Definition probe : Limiter :=
  mkLimiter "probe" (mkRule 1 Minute Minute) Bucket_zero by_ip [] [] true false.
Definition login : Limiter :=
  mkLimiter "login" (mkRule 2 Minute Hour) Bucket_zero by_ip ["/v1/login"] ["POST"] false true.

Definition caller : Request :=
  mkRequest "POST" "/v1/Login/" {["X-Forwarded-For" := ["203.0.113.9"]]} "" "" None None.
Definition start : frame := mkFrame caller [].

(** Both counters are one call short of blocking, and then past it. *)
Definition full : Tally.Tally := fun _ => 2.

Definition rejection : Decision :=
  mkDecision true false "login" 3 Hour true
    [mkEvaluation "probe" VerdictWouldBlock; mkEvaluation "login" VerdictBlocked].

Lemma Rejected_iff_witness :
  exists s', Evaluate Tally.store [probe; login] (start, full) = (Returns rejection, (start, s')) /\
  (Rejected rejection = true <->
   exists l b s0 res evs, l ∈ [probe; login] /\ Limiter_DryRun l = false /\
     store_call Tally.store l b s0 = ((res, None), s') /\ Outcome_blocked res = true /\
     rejection = mkDecision true false (Limiter_Name l) (Outcome_count res) (Outcome_retryAfter res)
           (Limiter_AdviseRetryAfter l)
           (evs ++ [mkEvaluation (Limiter_Name l) VerdictBlocked]) /\
     Forall (fun e => Evaluation_Verdict e <> VerdictBlocked) evs).
Proof.
  assert (exists s', Evaluate Tally.store [probe; login] (start, full)
                     = (Returns rejection, (start, s'))) as [s' E].
  { eexists. vm_compute. reflexivity. }
  exists s'. split; [exact E|]. exact (Rejected_iff _ _ _ _ _ _ _ E).
Defined.

(** A store that errors on one algorithm and panics on the other. *)
Definition down : Store unit :=
  mkStore (fun _ _ => gret (Result_zero, Some "dial tcp: connection refused"))
          (fun _ _ => gpanic "nil pointer dereference")
          (gret None).

#[local] Instance broken_down : Broken down.
Proof. by split. Qed.


Lemma one_call_per_evaluation_witness :
  exists d f' w calls s',
    Evaluate (recorder Tally.store) [probe; login] (start, ([], full)) = (Returns d, (f', w)) /\
    w = (([] ++ calls)%list, s') /\
    map call_limiter calls = map Evaluation_Limiter (Decision_Evaluations d) /\
    Forall (fun c => call_valid c = true) calls /\
    Evaluate Tally.store [probe; login] (start, full) = (Returns d, (f', s')).
Proof.
  destruct (Evaluate (recorder Tally.store) [probe; login] (start, ([], full)))
    as [[d|v] [f' w]] eqn:E; [|exfalso; revert E; vm_compute; discriminate].
  destruct (one_call_per_evaluation Tally.store _ _ _ _ _ _ _ E) as (calls & s' & ?).
  by exists d, f', w, calls, s'.
Defined.

Lemma failures_logged_truncated_witness :
  exists d f' s' lines,
    Evaluate down [probe; login] (start, tt) = (Returns d, (f', s')) /\
    frame_log f' = ([] ++ lines)%list /\ List.length lines = 2%nat /\ Forall bucket_cut lines /\
    List.concat (map error_line lines) =
      map Evaluation_Limiter
        (filter (fun e => Evaluation_Verdict e = VerdictFailedOpen) (Decision_Evaluations d)).
Proof.
  destruct (Evaluate down [probe; login] (start, tt)) as [[d|v] [f' s']] eqn:E;
    [|exfalso; revert E; vm_compute; discriminate].
  destruct (failures_logged_truncated down _ _ _ _ _ _ E) as (lines & El & Hf & Em).
  exists d, f', s', lines. split_and!; try done.
  simpl in El. rewrite <-El. revert E. vm_compute. intros [= _ <- _]. reflexivity.
Defined.

End examples.
