(* ===== verification/Redis.v ===== *)
(** * Redis, as the store's scripts use it

    Redis and the client library are not part of the repository: the commands the
    scripts call and the round trip that runs a script are a class of operations
    over a state [R], and what the store relies on is stated as laws about the live
    keys and the server's clock.  A script runs atomically, with the clock standing
    still; between scripts time passes and expired keys vanish ([idle]). *)
From stdpp Require Import base list gmap strings.
From Stdlib Require Import ZArith Lia QArith Ascii String.
From S2P Require Import Prelude.
From S2P Require Import GoStrings.
From S2P Require Import Store.
From S2P Require Import Float.

#[local] Open Scope string_scope.
#[local] Open Scope Z_scope.
#[local] Obligation Tactic := idtac.

(** ** Keys *)
Inductive value : Type :=
| Counter (n : Z)
| Text (s : string)
| Hash (fields : gmap string Q).

(** A key's value and, in milliseconds of the server's clock, when it expires. *)
Record entry : Type := mkEntry {
  entry_value : value;
  entry_expiry : option Z;
}.

Abbreviation keyspace := (gmap string entry).

(** What became of a script that was sent. *)
Inductive delivery : Type :=
| Delivered
| NotSent (e : error)
| ReplyLost (e : error).

(** The commands.  One that fails aborts the script, as a panic here. *)
Class Redis (R : Type) : Type := {
  TTL : string -> GoM R Z;
  INCR : string -> GoM R Z;
  EXPIRE : string -> Z -> GoM R unit;
  SET_EX : string -> string -> Z -> GoM R unit;
  DEL : string -> GoM R unit;
  TIME : GoM R (Z * Z);
  HMGET : string -> string -> string -> GoM R (option Q * option Q);
  HSET : string -> string * Q -> string * Q -> GoM R unit;
  PEXPIRE : string -> Z -> GoM R unit;
  transport : R -> delivery * R;
  client_Ping : GoM R (option error);
  client_Close : GoM R (option error);
}.

Definition set_expiry (at_ms : Z) (e : entry) : entry := mkEntry (entry_value e) (Some at_ms).

(** A key with an expiry exists until then. *)
Definition live (now : Z) (e : entry) : Prop :=
  match entry_expiry e with Some x => now < x | None => True end.

#[global] Instance live_dec now e : Decision (live now e).
Proof. unfold live. destruct (entry_expiry e); apply _. Defined.

Definition expire (now : Z) (m : keyspace) : keyspace := filter (fun kv => live now kv.2) m.

(** ** The laws *)
Class LawfulRedis (R : Type) `{Redis R} : Type := {
  redis_ok : R -> Prop;
  keys : R -> keyspace;
  ms : R -> Z;
  (** How a remaining time in milliseconds is reported in seconds. *)
  ttl_round : Z -> Z;
  ms_range r : redis_ok r -> 0 <= ms r < 2 ^ 53;
  keys_live r k e : redis_ok r -> keys r !! k = Some e -> live (ms r) e;
  ttl_round_near x : 0 < x -> 0 <= ttl_round x /\ x - 1000 < 1000 * ttl_round x < x + 1000;
}.

Section effects.
Context {R : Type} `{LawfulRedis R}.

(** [m] returns [v], leaves the keys [K] and takes no time. *)
Definition does {A} (m : GoM R A) (r : R) (v : A) (K : keyspace) : Prop :=
  exists r', m r = (Returns v, r') /\ redis_ok r' /\ keys r' = K /\ ms r' = ms r.

Lemma does_ret {A} r (v : A) : redis_ok r -> does (gret v) r v (keys r).
Proof. intros Hr. by exists r. Qed.

Lemma does_bind {A B} (m : GoM R A) (k : A -> GoM R B) r a K b K' :
  does m r a K ->
  (forall r', redis_ok r' -> keys r' = K -> ms r' = ms r -> does (k a) r' b K') ->
  does (gbind m k) r b K'.
Proof.
  intros (r1 & E1 & Ho & HK & Ht) Hk. destruct (Hk r1 Ho HK Ht) as (r2 & E2 & ? & ? & ?).
  exists r2. rewrite (gbind_returns _ _ _ _ _ E1). split_and!; [done..|congruence].
Qed.

(** What [TTL] answers. *)
Definition ttl_of (o : option entry) (now : Z) : Z :=
  match o with
  | None => -2
  | Some e => match entry_expiry e with None => -1 | Some x => ttl_round (x - now) end
  end.

End effects.

(** The documented effect of each command on the keys; a command applied to a key of
    another type fails, which the store never does, so nothing is said of it. *)
Class RedisCommands (R : Type) `{LawfulRedis R} : Prop := {
  TTL_does r k : redis_ok r -> does (TTL k) r (ttl_of (keys r !! k) (ms r)) (keys r);
  INCR_new r k : redis_ok r -> keys r !! k = None ->
    does (INCR k) r 1 (<[k := mkEntry (Counter 1) None]> (keys r));
  INCR_does r k n x : redis_ok r -> keys r !! k = Some (mkEntry (Counter n) x) ->
    n < max_int64 -> does (INCR k) r (n + 1) (<[k := mkEntry (Counter (n + 1)) x]> (keys r));
  EXPIRE_does r k s : redis_ok r -> 0 < s <= 2 ^ 53 ->
    does (EXPIRE k s) r tt (alter (set_expiry (ms r + 1000 * s)) k (keys r));
  SET_EX_does r k v s : redis_ok r -> 0 < s <= 2 ^ 53 ->
    does (SET_EX k v s) r tt (<[k := mkEntry (Text v) (Some (ms r + 1000 * s))]> (keys r));
  DEL_does r k : redis_ok r -> does (DEL k) r tt (delete k (keys r));
  TIME_does r : redis_ok r -> exists s us, 0 <= s /\ 0 <= us < 1000000 /\
    ms r = 1000 * s + us / 1000 /\ does TIME r (s, us) (keys r);
  HMGET_none r k f g : redis_ok r -> keys r !! k = None ->
    does (HMGET k f g) r (None, None) (keys r);
  HMGET_does r k f g m x : redis_ok r -> keys r !! k = Some (mkEntry (Hash m) x) ->
    does (HMGET k f g) r (m !! f, m !! g) (keys r);
  HSET_new r k f u g v : redis_ok r -> keys r !! k = None ->
    does (HSET k (f, u) (g, v)) r tt
      (<[k := mkEntry (Hash (<[g := v]> (<[f := u]> ∅))) None]> (keys r));
  HSET_does r k f u g v m x : redis_ok r -> keys r !! k = Some (mkEntry (Hash m) x) ->
    does (HSET k (f, u) (g, v)) r tt
      (<[k := mkEntry (Hash (<[g := v]> (<[f := u]> m))) x]> (keys r));
  PEXPIRE_does r k d : redis_ok r -> 0 < d <= 2 ^ 53 ->
    does (PEXPIRE k d) r tt (alter (set_expiry (ms r + d)) k (keys r));
  transport_keeps r : redis_ok r ->
    redis_ok (transport r).2 /\ keys (transport r).2 = keys r /\ ms (transport r).2 = ms r;
}.

(** Time passing between scripts. *)
Definition idle {R : Type} `{LawfulRedis R} (r r' : R) : Prop :=
  redis_ok r' /\ ms r <= ms r' /\ keys r' = expire (ms r') (keys r).

Lemma lookup_expire now (m : keyspace) k e :
  m !! k = Some e -> expire now m !! k = if decide (live now e) then Some e else None.
Proof.
  intros E. unfold expire. rewrite map_lookup_filter, E. simpl.
  destruct (decide (live now e)); [by rewrite option_guard_True|by rewrite option_guard_False].
Qed.

Lemma lookup_expire_None now (m : keyspace) k : m !! k = None -> expire now m !! k = None.
Proof. intros E. unfold expire. by rewrite map_lookup_filter, E. Qed.

(** ** Hash tags

    What of a key decides its slot in a cluster: what stands between the first
    opening brace and the first closing one after it, unless that is nothing. *)
Definition hash_tag (key : string) : string :=
  let '(_, rest, opened) := Cut key "{" in
  let '(tag, _, closed) := Cut rest "}" in
  if opened && closed && negb (String.eqb tag "") then tag else key.

(** ** A server to evaluate examples with

    Its keys and its clock; a command on a key of another type fails. *)
Record sim_redis : Type := SimRedis {
  sim_keys : keyspace;
  sim_ms : Z;
}.

Definition wrong_type : error :=
  "WRONGTYPE Operation against a key holding the wrong kind of value"%string.

Definition sim_put (K : keyspace) : GoM sim_redis unit :=
  fun r => (Returns tt, SimRedis K (sim_ms r)).

(** Seconds left, to the nearest one. *)
Definition nearest_second (x : Z) : Z := (x + 500) / 1000.

Definition sim_get (k : string) : GoM sim_redis (option entry) := fun r => (Returns (sim_keys r !! k), r).

Definition sim_update (f : keyspace -> keyspace) : GoM sim_redis unit :=
  fun r => (Returns tt, SimRedis (f (sim_keys r)) (sim_ms r)).

Definition sim_clock_ms : GoM sim_redis Z := fun r => (Returns (sim_ms r), r).

#[global] Instance sim_redis_commands : Redis sim_redis := {
  TTL k := let! o := sim_get k in let! t := sim_clock_ms in
    gret (match o with
          | None => -2
          | Some e => match entry_expiry e with None => -1 | Some x => nearest_second (x - t) end
          end);
  INCR k := let! o := sim_get k in
    match o with
    | None => let! _ := sim_update (insert k (mkEntry (Counter 1) None)) in gret 1
    | Some (mkEntry (Counter n) x) =>
        if n <? max_int64
        then let! _ := sim_update (insert k (mkEntry (Counter (n + 1)) x)) in gret (n + 1)
        else gpanic "ERR increment or decrement would overflow"%string
    | _ => gpanic wrong_type
    end;
  EXPIRE k s := let! t := sim_clock_ms in sim_update (alter (set_expiry (t + 1000 * s)) k);
  SET_EX k v s := let! t := sim_clock_ms in
    sim_update (insert k (mkEntry (Text v) (Some (t + 1000 * s))));
  DEL k := sim_update (delete k);
  TIME := let! t := sim_clock_ms in gret (t / 1000, 1000 * (t mod 1000));
  HMGET k f g := let! o := sim_get k in
    match o with
    | None => gret (None, None)
    | Some (mkEntry (Hash m) _) => gret (m !! f, m !! g)
    | _ => gpanic wrong_type
    end;
  HSET k '(f, u) '(g, v) := let! o := sim_get k in
    match o with
    | None => sim_update (insert k (mkEntry (Hash (<[g := v]> (<[f := u]> ∅))) None))
    | Some (mkEntry (Hash m) x) =>
        sim_update (insert k (mkEntry (Hash (<[g := v]> (<[f := u]> m))) x))
    | _ => gpanic wrong_type
    end;
  PEXPIRE k d := let! t := sim_clock_ms in sim_update (alter (set_expiry (t + d)) k);
  transport r := (Delivered, r);
  client_Ping := gret None;
  client_Close := gret None;
}.

Definition sim_ok (r : sim_redis) : Prop :=
  0 <= sim_ms r < 2 ^ 53 /\ forall k e, sim_keys r !! k = Some e -> live (sim_ms r) e.

#[global] Program Instance sim_redis_lawful : LawfulRedis sim_redis := {|
  redis_ok := sim_ok;
  keys := sim_keys;
  ms := sim_ms;
  ttl_round := nearest_second;
|}.
Next Obligation. by intros r [? _]. Qed.
Next Obligation. intros r k e [_ Hl] E. by eapply Hl. Qed.
Next Obligation.
  intros x Hx. unfold nearest_second. simpl.
  pose proof (Z.div_mod (x + 500) 1000). pose proof (Z.mod_pos_bound (x + 500) 1000).
  pose proof (Z.div_pos (x + 500) 1000). lia.
Qed.

Lemma sim_does_update (f : keyspace -> keyspace) r :
  sim_ok r -> (forall k e, f (sim_keys r) !! k = Some e -> live (sim_ms r) e) ->
  does (sim_update f) r tt (f (sim_keys r)).
Proof. intros [Ht _] Hf. eexists. by split_and!. Qed.

Lemma live_insert k e (m : keyspace) t :
  (forall k' e', m !! k' = Some e' -> live t e') -> live t e ->
  forall k' e', <[k := e]> m !! k' = Some e' -> live t e'.
Proof. intros Hm He k' e' [[<- <-]|[_ ?]]%lookup_insert_Some; [done|by eapply Hm]. Qed.

Lemma live_delete k (m : keyspace) t :
  (forall k' e', m !! k' = Some e' -> live t e') ->
  forall k' e', delete k m !! k' = Some e' -> live t e'.
Proof. intros Hm k' e' [_ ?]%lookup_delete_Some. by eapply Hm. Qed.

Lemma live_alter k x (m : keyspace) t :
  (forall k' e', m !! k' = Some e' -> live t e') -> t < x ->
  forall k' e', alter (set_expiry x) k m !! k' = Some e' -> live t e'.
Proof.
  intros Hm Hx k' e' [(<- & e & _ & ->)|[_ ?]]%lookup_alter_Some; [done|by eapply Hm].
Qed.

#[global] Instance sim_redis_does : RedisCommands sim_redis.
Proof.
  split.
  - intros r k Hr. by eexists.
  - intros r k [Ht Hl] E. eexists. cbn. unfold gbind, sim_get. cbn in E. rewrite E.
    split_and!; [done| |done|done]. split; [done|]. by apply live_insert.
  - intros r k n x [Ht Hl] E Hn. eexists. cbn. unfold gbind, sim_get. cbn in E. rewrite E.
    apply Z.ltb_lt in Hn. rewrite Hn.
    split_and!; [done| |done|done]. split; [done|]. apply live_insert; [done|].
    by apply (Hl _ _ E).
  - intros r k s [Ht Hl] Hs. apply sim_does_update; [done|]. apply live_alter; [done|].
    change (ms r) with (sim_ms r). lia.
  - intros r k v s [Ht Hl] Hs. apply sim_does_update; [done|].
    apply live_insert; [done|].
    unfold live. cbn [entry_expiry]. change (ms r) with (sim_ms r). lia.
  - intros r k [Ht Hl]. apply sim_does_update; [done|]. by apply live_delete.
  - intros r [Ht Hl]. exists (sim_ms r / 1000), (1000 * (sim_ms r mod 1000)).
    pose proof (Z.mod_pos_bound (sim_ms r) 1000).
    split_and!; [apply Z.div_pos; lia|lia|lia| |by eexists].
    simpl. rewrite Z.mul_comm, (Z.mul_comm 1000 (_ mod _)), Z.div_mul by done.
    pose proof (Z.div_mod (sim_ms r) 1000). lia.
  - intros r k f g Hr E. eexists. cbn. unfold gbind, sim_get. cbn in E. by rewrite E.
  - intros r k f g m x Hr E. eexists. cbn. unfold gbind, sim_get. cbn in E. by rewrite E.
  - intros r k f u g v [Ht Hl] E. eexists. cbn. unfold gbind, sim_get. cbn in E. rewrite E.
    split_and!; [done| |done|done]. split; [done|]. by apply live_insert.
  - intros r k f u g v m x [Ht Hl] E. eexists. cbn. unfold gbind, sim_get. cbn in E. rewrite E.
    split_and!; [done| |done|done]. split; [done|]. apply live_insert; [done|].
    by apply (Hl _ _ E).
  - intros r k d [Ht Hl] Hd. apply sim_does_update; [done|]. apply live_alter; [done|].
    change (ms r) with (sim_ms r). lia.
  - done.
Qed.

(** Let [d] milliseconds pass. *)
Definition sim_wait (d : Z) (r : sim_redis) : sim_redis :=
  SimRedis (expire (sim_ms r + d) (sim_keys r)) (sim_ms r + d).
