(* ===== verification/RedisStore.v ===== *)
(** * The Redis store ([internal/store/redisstore])

    The two Lua scripts, the keys they run on and the Go around them, over the
    interface of [Redis].  [decide] is shown to be one step of a fixed window with a
    block ([window]), and the properties of runs are proved on that automaton.  The
    token bucket is in the next file. *)
From stdpp Require Import base list gmap strings.
From Stdlib Require Import ZArith Lia QArith Qround Ascii String Lqa.
From S2P Require Import Prelude.
From S2P Require Import GoStrings.
From S2P Require Import Float.
From S2P Require Import Store.
From S2P Require Import Redis.

#[local] Open Scope Z_scope.
#[local] Obligation Tactic := idtac.

(** ** Keys *)
Inductive kind : Type := KCounter | KMarker | KTokens.

Definition suffix_of (j : kind) : string :=
  match j with KCounter => ":c" | KMarker => ":b" | KTokens => ":tb" end.

(** The hash-tagged prefix the keys of one bucket share. *)
Definition base (prefix : string) (k : Key) : string :=
  (prefix ++ Key_Limiter k ++ ":{" ++ SanitizeBucket (Key_Bucket k) ++ "}")%string.

Definition key_of (prefix : string) (j : kind) (k : Key) : string :=
  (base prefix k ++ suffix_of j)%string.

(** ** The scripts *)

(** A Lua number as the reply's integer: truncated towards zero. *)
Definition to_reply (x : Q) : Z := if Qle_bool 0 x then Qfloor x else Qceiling x.

(** [seconds]: whole seconds, rounded up, and never zero. *)
Definition seconds (d : Duration) : Z := if d <=? 0 then 1 else ceil_seconds d.

(** Lua's [math.min]. *)
Definition lua_min (x y : Q) : Q := if Qlt_bool y x then y else x.

Section scripts.
Context {R : Type} `{Redis R}.

(** Integer replies and [tonumber] of an argument are doubles. *)
Definition decide (counter marker : string) (limit window block : Z) : GoM R (list Q) :=
  let! blockTTL := TTL marker in
  if Qlt_bool 0 (of_int blockTTL) then gret [of_int 1; of_int (-1); of_int blockTTL]
  else
    let! count := INCR counter in
    let! _ := if Qeq_bool (of_int count) 1 then EXPIRE counter window else gret tt in
    if Qlt_bool (of_int limit) (of_int count) then
      let! _ := SET_EX marker "1" block in
      let! _ := DEL counter in
      gret [of_int 1; of_int count; of_int block]
    else gret [of_int 0; of_int count; of_int 0].

Definition take (key : string) (rate burst : Z) : GoM R (list Q) :=
  let rate := of_int rate in
  let burst := of_int burst in
  let! (s, us) := TIME in
  let now := fadd (fmul (of_int s) 1000) (inject_Z (ffloor (fdiv (of_int us) 1000))) in
  let! (n, t) := HMGET key "n" "t" in
  let (tokens, ts) := match n, t with Some n, Some t => (n, t) | _, _ => (burst, now) end in
  let elapsed := fsub now ts in
  let elapsed := if Qlt_bool elapsed 0 then 0%Q else elapsed in
  let tokens := lua_min burst (fadd tokens (fdiv (fmul elapsed rate) 1000)) in
  let '(tokens, allowed, retry_ms) :=
    if Qle_bool 1 tokens then (fsub tokens 1, of_int 1, of_int 0)
    else (tokens, of_int 0, inject_Z (fceil (fdiv (fmul (fsub 1 tokens) 1000) rate))) in
  let! _ := HSET key ("n"%string, tokens) ("t"%string, now) in
  let! _ := PEXPIRE key (to_reply (fadd (inject_Z (fceil (fdiv (fmul burst 1000) rate))) 10000)) in
  gret [allowed; inject_Z (ffloor tokens); retry_ms].

(** [Script.Run(...).Int64Slice()]: one round trip. *)
Definition run (script : GoM R (list Q)) : GoM R (list Z * option error) :=
  fun r =>
    match transport r with
    | (NotSent e, r) => (Returns ([], Some e), r)
    | (ReplyLost e, r) => (Returns ([], Some e), (script r).2)
    | (Delivered, r) =>
        match script r with
        | (Returns xs, r) => (Returns (map to_reply xs, None), r)
        | (Panics e, r) => (Returns ([], Some e), r)
        end
    end.

End scripts.

(** ** The store *)
Section store.
Context {R : Type} `{Redis R}.
(** [fmt]'s [%+v] of a rule and of a bucket. *)
Context (fmt_Rule : Rule -> string) (fmt_Bucket : Bucket -> string).
Context (prefix : string).

Definition unexpected_length (raw : list Z) : error :=
  ("redisstore: unexpected script result length " ++ Itoa (Z.of_nat (List.length raw)))%string.

Definition Redis_Consume (key : Key) (rule : Rule) : GoM R (Result * option error) :=
  if negb (Rule_Valid rule)
  then gret (Result_zero, Some ("redisstore: invalid rule " ++ fmt_Rule rule)%string)
  else
    let! (raw, err) := run (decide (key_of prefix KCounter key) (key_of prefix KMarker key)
        (Rule_Limit rule) (seconds (Rule_Window rule)) (seconds (Rule_Block rule))) in
    match err with
    | Some e => gret (Result_zero, Some ("redisstore: consume " ++ Key_String key ++ ": " ++ e)%string)
    | None =>
        match raw with
        | [r0; r1; r2] => gret (mkResult (r0 =? 1) r1 (wrap64 (r2 * Second)), None)
        | _ => gret (Result_zero, Some (unexpected_length raw))
        end
    end.

Definition Redis_Take (key : Key) (bucket : Bucket) : GoM R (TakeResult * option error) :=
  if negb (Bucket_Valid bucket)
  then gret (TakeResult_zero, Some ("redisstore: invalid bucket " ++ fmt_Bucket bucket)%string)
  else
    let! (raw, err) := run (take (key_of prefix KTokens key)
        (Bucket_Rate bucket) (Bucket_Burst bucket)) in
    match err with
    | Some e => gret (TakeResult_zero, Some ("redisstore: take " ++ Key_String key ++ ": " ++ e)%string)
    | None =>
        match raw with
        | [r0; r1; r2] => gret (mkTakeResult (r0 =? 1) r1 (wrap64 (r2 * Millisecond)), None)
        | _ => gret (TakeResult_zero, Some (unexpected_length raw))
        end
    end.

Definition Redis_Ping : GoM R (option error) := client_Ping.

Definition Redis_Close : GoM R (option error) := client_Close.

(** [NewWithClient] *)
Definition NewWithClient : Store R := mkStore Redis_Consume Redis_Take Redis_Close.

End store.

(** ** The fixed window the script implements

    Times in milliseconds, durations in seconds. *)
Record window : Type := mkWindow {
  counting : option (Z * Z);
  held : option Z;
}.

Record hit : Type := mkHit { refused : bool; number : Z; wait : Z }.

Section automaton.
(** How the time left of a block is reported. *)
Context (ttl : Z -> Z).

Definition count_step (now limit win blk : Z) (w : window) : hit * window :=
  let '(n, x) := match counting w with
                 | None => (1, now + 1000 * win)
                 | Some (n, x) => (n + 1, x)
                 end in
  if limit <? n then (mkHit true n blk, mkWindow None (Some (now + 1000 * blk)))
  else (mkHit false n 0, mkWindow (Some (n, x)) (held w)).

Definition window_step (now limit win blk : Z) (w : window) : hit * window :=
  match held w with
  | Some u =>
      if 0 <? ttl (u - now) then (mkHit true (-1) (ttl (u - now)), w)
      else count_step now limit win blk w
  | None => count_step now limit win blk w
  end.

(** Time passing drops what has expired. *)
Definition lapse (now : Z) (w : window) : window :=
  mkWindow (match counting w with
            | Some (n, x) => if now <? x then Some (n, x) else None
            | None => None
            end)
           (match held w with
            | Some u => if now <? u then Some u else None
            | None => None
            end).

(** Calls at the given instants, with their answers. *)
Fixpoint window_run (limit win blk : Z) (times : list Z) (w : window) : list hit * window :=
  match times with
  | [] => ([], w)
  | t :: ts =>
      let (a, w) := window_step t limit win blk (lapse t w) in
      let (l, w) := window_run limit win blk ts w in
      (a :: l, w)
  end.

End automaton.

Definition counter_entry (o : option (Z * Z)) : option entry :=
  match o with Some (n, x) => Some (mkEntry (Counter n) (Some x)) | None => None end.

Definition marker_entry (o : option Z) : option entry :=
  match o with Some u => Some (mkEntry (Text "1") (Some u)) | None => None end.

(** ** Key layout *)

Lemma sforall_not_brace s c :
  contains_brace s = false -> is_brace c = true -> ContainsByte s c = false.
Proof.
  unfold contains_brace. rewrite negb_false_iff. intros Hs Hc.
  induction s as [|d s IH]; [done|]. simpl in *. apply andb_true_iff in Hs as [Hd Hs].
  destruct (Ascii.eqb_spec d c) as [->|]; simpl; [by rewrite Hc in Hd|auto].
Qed.

(** The last separator splits a string when what follows it does not hold it. *)
Lemma app_last_sep_inj a a' c s s' :
  ContainsByte s c = false -> ContainsByte s' c = false ->
  (a ++ String c s)%string = (a' ++ String c s')%string -> a = a' /\ s = s'.
Proof.
  intros Hs Hs'. revert a'. induction a as [|x a IH]; intros [|x' a'] E; simpl in E.
  - by simplify_eq.
  - injection E as -> ->. exfalso. clear -Hs. induction a' as [|y a' IH]; simpl in Hs.
    + by rewrite Ascii.eqb_refl in Hs.
    + destruct (Ascii.eqb y x'); [done|auto].
  - injection E as <- <-. exfalso. clear -Hs'. induction a as [|y a IH]; simpl in Hs'.
    + by rewrite Ascii.eqb_refl in Hs'.
    + destruct (Ascii.eqb y x); [done|auto].
  - injection E as -> E. by destruct (IH _ E) as [-> ->].
Qed.

Lemma base_inj prefix k k' :
  base prefix k = base prefix k' ->
  Key_Limiter k = Key_Limiter k' /\ SanitizeBucket (Key_Bucket k) = SanitizeBucket (Key_Bucket k').
Proof.
  unfold base. intros E%app_inj_l_s.
  assert (forall l s, (l ++ ":{" ++ s ++ "}")%string = ((l ++ ":") ++ String "{" (s ++ "}"))%string)
    as Hs by (intros; by rewrite app_assoc_s).
  rewrite !Hs in E. apply app_last_sep_inj in E as [El Eb].
  - apply app_inj_r_s in El. apply app_inj_r_s in Eb. done.
  - by rewrite ContainsByte_app, sforall_not_brace by auto using SanitizeBucket_no_brace.
  - by rewrite ContainsByte_app, sforall_not_brace by auto using SanitizeBucket_no_brace.
Qed.

Lemma app_same_length_inj a a' s s' :
  String.length s = String.length s' -> (a ++ s)%string = (a' ++ s')%string -> a = a' /\ s = s'.
Proof.
  intros Hl. revert a'. induction a as [|x a IH]; intros [|x' a'] E; simpl in E.
  - done.
  - subst s. simpl in Hl. rewrite length_app_s in Hl. lia.
  - subst s'. simpl in Hl. rewrite length_app_s in Hl. lia.
  - injection E as -> E. by destruct (IH _ E) as [-> ->].
Qed.

(** The three kinds of key are told apart by their last three bytes. *)
Lemma key_of_inj prefix j k j' k' :
  key_of prefix j k = key_of prefix j' k' ->
  j = j' /\ Key_Limiter k = Key_Limiter k' /\
  SanitizeBucket (Key_Bucket k) = SanitizeBucket (Key_Bucket k').
Proof.
  assert (forall k, base prefix k =
    ((prefix ++ Key_Limiter k ++ ":{" ++ SanitizeBucket (Key_Bucket k)) ++ "}")%string) as Hb
    by (intros; unfold base; by rewrite !app_assoc_s).
  assert (forall j k, exists a, key_of prefix j k = (a ++ match j with
            | KCounter => "}:c" | KMarker => "}:b" | KTokens => ":tb" end)%string) as Hk.
  { intros [] k0; unfold key_of; simpl; rewrite ?Hb.
    - eexists. rewrite app_assoc_s. reflexivity.
    - eexists. rewrite app_assoc_s. reflexivity.
    - by eexists. }
  intros E. assert (j = j') as ->.
  { destruct (Hk j k) as [a Ea], (Hk j' k') as [a' Ea']. rewrite Ea, Ea' in E.
    apply app_same_length_inj in E as [_ E]; [|by destruct j, j'].
    by destruct j, j'. }
  split; [done|]. apply base_inj with prefix. unfold key_of in E. by apply app_inj_r_s in E.
Qed.

(** ** Numbers *)
Lemma to_reply_int z : to_reply (inject_Z z) = z.
Proof. unfold to_reply. destruct (Qle_bool _ _); [apply Qfloor_Z|apply Qceiling_Z]. Qed.

#[global] Instance to_reply_proper : Proper (Qeq ==> eq) to_reply.
Proof.
  intros x y E. unfold to_reply. rewrite (Qfloor_comp _ _ E), (Qceiling_comp _ _ E).
  assert (Qle_bool 0 x = Qle_bool 0 y) as -> by (by rewrite E). done.
Qed.

Lemma to_reply_of_int z : 0 <= z <= 2 ^ 53 -> to_reply (of_int z) = z.
Proof. intros Hz. rewrite of_int_exact by done. apply to_reply_int. Qed.

Lemma of_int_lt x y :
  0 <= x <= 2 ^ 53 -> 0 <= y <= 2 ^ 53 -> Qlt_bool (of_int x) (of_int y) = (x <? y).
Proof.
  intros Hx Hy. destruct (Z.ltb_spec x y) as [Hlt|Hle].
  - apply Qlt_bool_iff. rewrite !of_int_exact by done. by rewrite <-Zlt_Qlt.
  - apply Qlt_bool_false. rewrite !of_int_exact by done. by rewrite <-Zle_Qle.
Qed.

Lemma of_int_eq1 x : 0 <= x <= 2 ^ 53 -> Qeq_bool (of_int x) 1 = (x =? 1).
Proof.
  intros Hx. destruct (Z.eqb_spec x 1) as [->|Hne].
  - done.
  - apply not_true_is_false. intros E%Qeq_bool_iff. rewrite of_int_exact in E by done.
    apply (inject_Z_injective x 1) in E. done.
Qed.

Lemma seconds_range d : in_int64 d -> 1 <= seconds d <= d / Second + 1 \/ d <= 0 /\ seconds d = 1.
Proof.
  intros Hd. unfold seconds. destruct (Z.leb_spec d 0); [by right|]. left.
  pose proof (ceil_seconds_range d ltac:(lia) Hd). lia.
Qed.

(** ** [decide] is one step of the window *)
Section decide_spec.
Context {R : Type} `{RedisCommands R}.

Definition reply_of (h : hit) : list Z := [Z.b2z (refused h); number h; wait h].

(** The script's effect on the two keys of a bucket, the others being untouched. *)
Definition steps (m : GoM R (list Q)) (r : R) (c b : string) (h : hit) (w : window) : Prop :=
  exists raw K, does m r raw K /\ map to_reply raw = reply_of h /\
    K !! c = counter_entry (counting w) /\ K !! b = marker_entry (held w) /\
    forall k, k <> c -> k <> b -> K !! k = keys r !! k.

Lemma ttl_reply u now :
  0 <= ttl_round (u - now) <= 2 ^ 53 ->
  Qlt_bool 0 (of_int (ttl_round (u - now))) = (0 <? ttl_round (u - now)).
Proof. intros Ht. change 0%Q with (of_int 0). apply of_int_lt; lia. Qed.

Context (c b : string) (Hcb : c <> b) (limit win blk : Z).
Context (Hlimit : 0 < limit < 2 ^ 53) (Hwin : 0 < win <= 2 ^ 34) (Hblk : 0 < blk <= 2 ^ 33).

Definition holds (r : R) (w : window) : Prop :=
  keys r !! c = counter_entry (counting w) /\ keys r !! b = marker_entry (held w) /\
  (forall n x, counting w = Some (n, x) -> 1 <= n < 2 ^ 53) /\
  (forall u, held w = Some u -> u <= ms r + 1000 * 2 ^ 33).

Lemma refuse_does r n :
  redis_ok r -> 0 <= n <= 2 ^ 53 ->
  steps (let! _ := SET_EX b "1" blk in
         let! _ := DEL c in
         gret [of_int 1; of_int n; of_int blk]) r c b
    (mkHit true n blk) (mkWindow None (Some (ms r + 1000 * blk))).
Proof.
  intros Hr Hn.
  exists [of_int 1; of_int n; of_int blk],
    (delete c (<[b := mkEntry (Text "1") (Some (ms r + 1000 * blk))]> (keys r))). split_and!.
  - eapply does_bind; [by apply SET_EX_does; [done|lia]|]. intros r1 Hr1 HK1 Ht1.
    eapply does_bind; [by apply DEL_does|]. intros r2 Hr2 HK2 Ht2.
    rewrite HK1 in HK2. rewrite <-HK2. by apply does_ret.
  - simpl. by rewrite !to_reply_of_int by lia.
  - by rewrite lookup_delete_eq.
  - by rewrite lookup_delete_ne, lookup_insert_eq by done.
  - intros k ??. by rewrite lookup_delete_ne, lookup_insert_ne by done.
Qed.

Lemma count_does r w :
  redis_ok r -> holds r w ->
  steps (let! count := INCR c in
         let! _ := if Qeq_bool (of_int count) 1 then EXPIRE c win else gret tt in
         if Qlt_bool (of_int limit) (of_int count) then
           let! _ := SET_EX b "1" blk in
           let! _ := DEL c in
           gret [of_int 1; of_int count; of_int blk]
         else gret [of_int 0; of_int count; of_int 0]) r c b
    (count_step (ms r) limit win blk w).1 (count_step (ms r) limit win blk w).2.
Proof.
  intros Hr (Hc & Hb & Hn & _). unfold count_step. destruct (counting w) as [[n x]|] eqn:Ec.
  - specialize (Hn _ _ eq_refl).
    assert (does (INCR c) r (n + 1) (<[c := mkEntry (Counter (n + 1)) (Some x)]> (keys r))) as HI
      by (apply INCR_does; [done|done|unfold max_int64; lia]).
    destruct HI as (r1 & E1 & Hr1 & HK1 & Ht1). unfold steps.
    destruct (Z.ltb_spec limit (n + 1)) as [Hlt|Hle].
    + destruct (refuse_does r1 (n + 1) Hr1) as (raw & K & Hd & Hraw & HKc & HKb & HKo); [lia|].
      exists raw, K. rewrite Ht1 in *. split_and!; try done.
      * destruct Hd as (r2 & E2 & Hr2 & HK2 & Ht2). exists r2.
        rewrite (gbind_returns _ _ _ _ _ E1), of_int_eq1, of_int_lt by lia.
        replace (n + 1 =? 1) with false by (symmetry; apply Z.eqb_neq; lia).
        replace (limit <? n + 1) with true by (symmetry; apply Z.ltb_lt; lia).
        split_and!; [exact E2|done|done|congruence].
      * intros k Hkc Hkb. by rewrite HKo, HK1, lookup_insert_ne by done.
    + exists [of_int 0; of_int (n + 1); of_int 0], (keys r1). split_and!.
      * exists r1. rewrite (gbind_returns _ _ _ _ _ E1), of_int_eq1, of_int_lt by lia.
        replace (n + 1 =? 1) with false by (symmetry; apply Z.eqb_neq; lia).
        replace (limit <? n + 1) with false by (symmetry; apply Z.ltb_ge; lia). done.
      * simpl. by rewrite !to_reply_of_int by lia.
      * by rewrite HK1, lookup_insert_eq.
      * by rewrite HK1, lookup_insert_ne.
      * intros k ??. by rewrite HK1, lookup_insert_ne.
  - assert (does (INCR c) r 1 (<[c := mkEntry (Counter 1) None]> (keys r))) as HI by by apply INCR_new.
    destruct HI as (r1 & E1 & Hr1 & HK1 & Ht1).
    destruct (EXPIRE_does r1 c win Hr1) as (r2 & E2 & Hr2 & HK2 & Ht2); [lia|].
    destruct (Z.ltb_spec limit 1) as [Hlt|Hle]; [lia|].
    exists [of_int 0; of_int 1; of_int 0], (keys r2).
    assert (keys r2 !! c = Some (mkEntry (Counter 1) (Some (ms r + 1000 * win)))) as HKc.
    { by rewrite HK2, HK1, lookup_alter_eq, lookup_insert_eq, Ht1. }
    assert (forall k, k <> c -> keys r2 !! k = keys r !! k) as HKo.
    { intros k ?. by rewrite HK2, HK1, lookup_alter_ne, lookup_insert_ne. }
    split_and!; [|done|done|by rewrite HKo|by auto].
    exists r2. rewrite (gbind_returns _ _ _ _ _ E1), of_int_lt by lia.
    replace (limit <? 1) with false by (symmetry; by apply Z.ltb_ge).
    change (Qeq_bool (of_int 1) 1) with true. cbn iota.
    rewrite (gbind_returns _ _ _ _ _ E2). split_and!; [done..|congruence].
Qed.

Lemma decide_does r w :
  redis_ok r -> holds r w ->
  steps (decide c b limit win blk) r c b
    (window_step ttl_round (ms r) limit win blk w).1
    (window_step ttl_round (ms r) limit win blk w).2.
Proof.
  intros Hr Hh. pose proof Hh as (Hc & Hb & _ & Hu). unfold decide, window_step.
  destruct (TTL_does r b Hr) as (r1 & E1 & Hr1 & HK1 & Ht1). rewrite Hb in E1.
  destruct (held w) as [u|] eqn:Eu; simpl in E1.
  - pose proof (keys_live r b _ Hr Hb) as Hlive. unfold live in Hlive. simpl in Hlive.
    specialize (Hu _ eq_refl). pose proof (ms_range r Hr).
    destruct (ttl_round_near (u - ms r)) as [Hp Ht]; [lia|].
    assert (0 <= ttl_round (u - ms r) <= 2 ^ 53) as Hr53 by lia.
    pose proof (ttl_reply u (ms r) Hr53) as Eq.
    destruct (0 <? ttl_round (u - ms r)) eqn:Ez.
    + exists [of_int 1; of_int (-1); of_int (ttl_round (u - ms r))], (keys r).
      split_and!; [|simpl; by rewrite (to_reply_of_int (ttl_round _)) by lia|done|simpl; by rewrite Eu|done].
      exists r1. by rewrite (gbind_returns _ _ _ _ _ E1), Eq.
    + destruct (count_does r1 w Hr1) as (raw & K & (r2 & E2 & Hr2 & HK2 & Ht2) & ? & ? & ? & HKo).
      { unfold holds. rewrite HK1, Ht1. exact Hh. }
      exists raw, K. rewrite Ht1 in *. split_and!; [|done|done|done|intros; by rewrite HKo, HK1].
      exists r2. rewrite (gbind_returns _ _ _ _ _ E1), Eq. split_and!; [exact E2|done|done|congruence].
  - destruct (count_does r1 w Hr1) as (raw & K & (r2 & E2 & Hr2 & HK2 & Ht2) & ? & ? & ? & HKo).
    { unfold holds. rewrite HK1, Ht1. exact Hh. }
    exists raw, K. rewrite Ht1 in *. split_and!; [|done|done|done|intros; by rewrite HKo, HK1].
    exists r2. rewrite (gbind_returns _ _ _ _ _ E1). split_and!; [exact E2|done|done|congruence].
Qed.

End decide_spec.

(** ** What the store keeps for a bucket *)

(** The range of the rules an operator can mean: below 2^53 calls and 146 years. *)
Definition Rule_in_range (r : Rule) : Prop :=
  Rule_Limit r < 2 ^ 53 /\ Rule_Window r <= 2 ^ 62 /\ Rule_Block r <= 2 ^ 62.

(** The token bucket's hash: both fields, an expiry, no debt, no future. *)
Definition tokens_typed (now : Z) (o : option entry) : Prop :=
  forall e, o = Some e -> exists m x n t,
    e = mkEntry (Hash m) (Some x) /\ m !! "n"%string = Some n /\
    m !! "t"%string = Some (inject_Z t) /\ (0 <= n)%Q /\ 0 <= t <= now.

Lemma seconds_bounds d : 0 < d -> d <= 2 ^ 62 -> 0 < seconds d <= 2 ^ 33.
Proof.
  intros Hp Hd. destruct (seconds_range d) as [Hs|[? _]]; [unfold in_int64, min_int64, max_int64; lia| |lia].
  split; [lia|]. assert (d / Second <= 2 ^ 62 / Second) by (apply Z.div_le_mono; done).
  change (2 ^ 62 / Second) with 4611686018 in *. lia.
Qed.

Section keeps.
Context {R : Type} `{RedisCommands R}.
Context (prefix : string).

Definition window_of (r : R) (k : Key) : window :=
  mkWindow
    (match keys r !! key_of prefix KCounter k with
     | Some (mkEntry (Counter n) (Some x)) => Some (n, x)
     | _ => None
     end)
    (match keys r !! key_of prefix KMarker k with
     | Some (mkEntry (Text _) (Some u)) => Some u
     | _ => None
     end).

(** What the store's own keys look like.  Every one of them expires. *)
Definition store_ok (r : R) : Prop :=
  redis_ok r /\
  (forall k, holds (key_of prefix KCounter k) (key_of prefix KMarker k) r (window_of r k)) /\
  (forall k, tokens_typed (ms r) (keys r !! key_of prefix KTokens k)).

(** Two raw keys that name the same bucket. *)
Definition same_bucket (k k' : Key) : Prop :=
  Key_Limiter k = Key_Limiter k' /\
  SanitizeBucket (Key_Bucket k) = SanitizeBucket (Key_Bucket k').

#[global] Instance same_bucket_dec k k' : Decision (same_bucket k k').
Proof. unfold same_bucket. apply _. Defined.

Lemma key_of_same j k k' : same_bucket k k' -> key_of prefix j k = key_of prefix j k'.
Proof. intros [El Eb]. unfold key_of, base. by rewrite El, Eb. Qed.

Lemma key_of_other j j' k k' :
  j <> j' \/ ~ same_bucket k k' -> key_of prefix j k <> key_of prefix j' k'.
Proof. intros Hn E. apply key_of_inj in E as (? & ? & ?). by destruct Hn as [|[]]. Qed.

Lemma window_of_lookup r r' k :
  keys r' !! key_of prefix KCounter k = keys r !! key_of prefix KCounter k ->
  keys r' !! key_of prefix KMarker k = keys r !! key_of prefix KMarker k ->
  window_of r' k = window_of r k.
Proof. intros E1 E2. unfold window_of. by rewrite E1, E2. Qed.

Lemma window_of_entries r k w :
  keys r !! key_of prefix KCounter k = counter_entry (counting w) ->
  keys r !! key_of prefix KMarker k = marker_entry (held w) -> window_of r k = w.
Proof.
  intros E1 E2. unfold window_of. rewrite E1, E2. by destruct w as [[[n x]|] [u|]].
Qed.

(** The step keeps the counts and the blocks within bounds. *)
Lemma window_step_bounds now limit win blk w :
  0 < limit < 2 ^ 53 -> 0 < blk <= 2 ^ 33 ->
  (forall n x, counting w = Some (n, x) -> 1 <= n < 2 ^ 53) ->
  (forall u, held w = Some u -> u <= now + 1000 * 2 ^ 33) ->
  let (h, w') := window_step ttl_round now limit win blk w in
  (forall n x, counting w' = Some (n, x) -> 1 <= n < 2 ^ 53) /\
  (forall u, held w' = Some u -> u <= now + 1000 * 2 ^ 33).
Proof.
  intros Hl Hb Hn Hu.
  assert (let (h, w') := count_step now limit win blk w in
    (forall n x, counting w' = Some (n, x) -> 1 <= n < 2 ^ 53) /\
    (forall u, held w' = Some u -> u <= now + 1000 * 2 ^ 33)) as Hcount.
  { unfold count_step. destruct (counting w) as [[n x]|].
    - specialize (Hn _ _ eq_refl). destruct (Z.ltb_spec limit (n + 1)); simpl.
      + split; [done|]. intros u [= <-]. lia.
      + split; [|done]. intros n' x' [= <- <-]. lia.
    - destruct (Z.ltb_spec limit 1); simpl.
      + split; [done|]. intros u [= <-]. lia.
      + split; [|done]. intros n' x' [= <- <-]. lia. }
  unfold window_step. destruct (held w) as [u|] eqn:Eu; [|done].
  destruct (0 <? _); [|done]. split; [done|]. intros u'. rewrite Eu. apply Hu.
Qed.

End keeps.

#[global] Arguments window_of : simpl never.

(** ** [Consume] refines the window *)
Section consume.
Context {R : Type} `{RedisCommands R}.
Context (fmt_Rule : Rule -> string) (fmt_Bucket : Bucket -> string).
Context (prefix : string).

Abbreviation Consume := (Redis_Consume fmt_Rule prefix).
Abbreviation window_of := (window_of prefix).
Abbreviation store_ok := (store_ok prefix).

(** The step a rule makes of a bucket's window. *)
Definition rule_step (rule : Rule) (now : Z) (w : window) : hit * window :=
  window_step ttl_round now (Rule_Limit rule) (seconds (Rule_Window rule))
    (seconds (Rule_Block rule)) w.

Definition result_of (h : hit) : Result := mkResult (refused h) (number h) (wait h * Second).

Lemma store_ok_same r r' :
  store_ok r -> redis_ok r' -> keys r' = keys r -> ms r' = ms r -> store_ok r'.
Proof.
  intros (_ & Hw & Ht) Hr' HK Hms. split_and!; [done| |].
  - intros k. specialize (Hw k). unfold holds, RedisStore.window_of in *. by rewrite HK, Hms.
  - intros k. by rewrite HK, Hms.
Qed.

(** A change to one bucket's window that keeps its bounds keeps the store sound. *)
Lemma store_ok_window r r' k w :
  store_ok r -> redis_ok r' -> ms r' = ms r ->
  keys r' !! key_of prefix KCounter k = counter_entry (counting w) ->
  keys r' !! key_of prefix KMarker k = marker_entry (held w) ->
  (forall q, q <> key_of prefix KCounter k -> q <> key_of prefix KMarker k ->
     keys r' !! q = keys r !! q) ->
  (forall n x, counting w = Some (n, x) -> 1 <= n < 2 ^ 53) ->
  (forall u, held w = Some u -> u <= ms r + 1000 * 2 ^ 33) ->
  store_ok r' /\ window_of r' k = w /\
  (forall k', ~ same_bucket k k' -> window_of r' k' = window_of r k') /\
  (forall k', keys r' !! key_of prefix KTokens k' = keys r !! key_of prefix KTokens k').
Proof.
  intros (_ & Hw & Ht) Hr' Hms Ec Eb Eo Hn Hu.
  assert (forall k', ~ same_bucket k k' -> window_of r' k' = window_of r k') as Hother.
  { intros k' Hk. apply window_of_lookup; apply Eo; apply not_eq_sym, key_of_other; auto. }
  assert (forall k', keys r' !! key_of prefix KTokens k' = keys r !! key_of prefix KTokens k') as Htok.
  { intros k'. apply Eo; apply key_of_other; by left. }
  assert (window_of r' k = w) as Ew by by apply window_of_entries.
  split_and!; try done. split_and!; [done| |].
  - intros k'. destruct (stdpp.base.decide (same_bucket k k')) as [Hs|Hs].
    + assert (window_of r' k' = w) as ->.
      { rewrite <-Ew. unfold RedisStore.window_of. by rewrite !(key_of_same prefix _ _ _ Hs). }
      rewrite <-!(key_of_same prefix _ _ _ Hs). unfold holds. by rewrite Hms.
    + rewrite Hother by done. destruct (Hw k') as (? & ? & ? & ?). unfold holds. rewrite Hms.
      rewrite !Eo by (apply not_eq_sym, key_of_other; auto). done.
  - intros k'. rewrite Htok, Hms. apply Ht.
Qed.

Lemma window_step_wait now limit win blk w :
  0 < blk <= 2 ^ 33 ->
  (forall u, held w = Some u -> now < u <= now + 1000 * 2 ^ 33) ->
  0 <= wait (window_step ttl_round now limit win blk w).1 <= 2 ^ 33 + 1.
Proof.
  intros Hb Hu.
  assert (0 <= wait (count_step now limit win blk w).1 <= 2 ^ 33) as Hc.
  { unfold count_step. destruct (counting w) as [[n x]|]; destruct (_ <? _); simpl; lia. }
  unfold window_step. destruct (held w) as [u|]; [|lia].
  specialize (Hu _ eq_refl). destruct (ttl_round_near (u - now)) as [? Hr]; [lia|].
  destruct (Z.ltb_spec 0 (ttl_round (u - now))); simpl; lia.
Qed.

Lemma held_live r k u : store_ok r -> held (window_of r k) = Some u -> ms r < u.
Proof.
  intros (Hr & Hw & _) Hu. destruct (Hw k) as (_ & Hb & _). rewrite Hu in Hb.
  apply (keys_live r _ _ Hr Hb).
Qed.

Lemma wrap_seconds z : 0 <= z <= 2 ^ 33 + 1 -> wrap64 (z * Second) = z * Second.
Proof. intros Hz. apply wrap64_id. unfold in_int64, min_int64, max_int64, Second. lia. Qed.

Lemma key_of_cb k : key_of prefix KCounter k <> key_of prefix KMarker k.
Proof. apply key_of_other. by left. Qed.

(** What a bucket's window and everything else become when the script runs. *)
Definition stepped (r : R) (k : Key) (rule : Rule) (r' : R) : Prop :=
  store_ok r' /\ ms r' = ms r /\
  window_of r' k = (rule_step rule (ms r) (window_of r k)).2 /\
  (forall k', ~ same_bucket k k' -> window_of r' k' = window_of r k') /\
  (forall k', keys r' !! key_of prefix KTokens k' = keys r !! key_of prefix KTokens k').

(** Nothing happened to any bucket. *)
Definition unchanged (r r' : R) : Prop := store_ok r' /\ ms r' = ms r /\ keys r' = keys r.

Lemma decide_stepped r k rule :
  store_ok r -> Rule_Valid rule = true -> Rule_in_range rule ->
  exists raw r',
    decide (key_of prefix KCounter k) (key_of prefix KMarker k) (Rule_Limit rule)
      (seconds (Rule_Window rule)) (seconds (Rule_Block rule)) r = (Returns raw, r') /\
    map to_reply raw = reply_of (rule_step rule (ms r) (window_of r k)).1 /\
    0 <= wait (rule_step rule (ms r) (window_of r k)).1 <= 2 ^ 33 + 1 /\
    stepped r k rule r'.
Proof.
  intros Hok Hv (Hl & Hw & Hb). pose proof (proj1 (Rule_Valid_spec _) Hv) as (Hl0 & Hw0 & Hb0).
  pose proof (seconds_bounds _ Hw0 Hw) as Hws. pose proof (seconds_bounds _ Hb0 Hb) as Hbs.
  pose proof (proj1 (proj2 Hok) k) as Hh.
  destruct (decide_does _ _ (key_of_cb k) (Rule_Limit rule) (seconds (Rule_Window rule))
              (seconds (Rule_Block rule)) ltac:(lia) ltac:(lia) Hbs r _ (proj1 Hok) Hh)
    as (raw & K & (r1 & E1 & Hr1 & HK1 & Ht1) & Hraw & HKc & HKb & HKo).
  fold (rule_step rule (ms r) (window_of r k)) in *. destruct Hh as (_ & _ & Hn & Hu).
  assert (0 <= wait (rule_step rule (ms r) (window_of r k)).1 <= 2 ^ 33 + 1) as Hwait.
  { apply window_step_wait; [done|]. intros u Hu'. split; [by apply (held_live r k)|auto]. }
  assert (let (h, w') := rule_step rule (ms r) (window_of r k) in
    (forall n x, counting w' = Some (n, x) -> 1 <= n < 2 ^ 53) /\
    (forall u, held w' = Some u -> u <= ms r + 1000 * 2 ^ 33)) as Hbounds.
  { apply window_step_bounds; auto with lia. }
  exists raw, r1. unfold stepped.
  destruct (rule_step rule (ms r) (window_of r k)) as [h w']. simpl in *.
  destruct (store_ok_window r r1 k w') as (Hok1 & Ew1 & Ho1 & Htok1);
    [exact Hok|exact Hr1|congruence|by rewrite HK1|by rewrite HK1
    |intros; rewrite HK1; by apply HKo|apply Hbounds|apply Hbounds|].
  split_and!; solve [done|lia].
Qed.

Lemma Consume_refines r k rule :
  store_ok r -> Rule_Valid rule = true -> Rule_in_range rule ->
  exists res err r', Consume k rule r = (Returns (res, err), r') /\
    match (transport r).1 with
    | Delivered =>
        res = result_of (rule_step rule (ms r) (window_of r k)).1 /\ err = None /\
        stepped r k rule r'
    | NotSent _ => res = Result_zero /\ err <> None /\ unchanged r r'
    | ReplyLost _ => res = Result_zero /\ err <> None /\ stepped r k rule r'
    end.
Proof.
  intros Hok Hv Hr. destruct (transport_keeps r (proj1 Hok)) as (Hr0 & HK0 & Ht0).
  pose proof (store_ok_same _ _ Hok Hr0 HK0 Ht0) as Hok0.
  destruct (decide_stepped _ k rule Hok0 Hv Hr) as (raw & r1 & E1 & Hraw & Hwait & Hst).
  assert (stepped r k rule r1) as Hst'.
  { unfold stepped, RedisStore.window_of in *. by rewrite <-HK0, <-Ht0. }
  assert (window_of (transport r).2 k = window_of r k) as Ew
    by (apply window_of_lookup; by rewrite HK0).
  rewrite Ew, Ht0 in Hraw, Hwait.
  unfold Redis_Consume. rewrite Hv. cbn [negb]. unfold gbind, run.
  destruct (transport r) as [[|e|e] r0]; simpl in *.
  - rewrite E1, Hraw. unfold reply_of, gret. eexists _, _, r1. split_and!; [done| |done|done].
    unfold result_of. rewrite wrap_seconds by done. by destruct (refused _).
  - unfold gret. eexists _, _, r0. by split_and!.
  - rewrite E1. unfold gret. eexists _, _, r1. by split_and!.
Qed.

(** C2: [Consume] on the Redis store is one step of the fixed window.  When the
    reply arrives it is the automaton's answer - blocked with count -1 while a block
    stands, else the count, blocked above the limit - and the bucket's state in
    Redis moves as the automaton's does; when the script was not run nothing
    changes; when only the reply was lost the call was still counted.  No other
    bucket and no token bucket is touched, and a failure always is an error. *)
Theorem Consume_refines_window r k rule :
  store_ok r -> Rule_Valid rule = true -> Rule_in_range rule ->
  exists res err r', Consume k rule r = (Returns (res, err), r') /\
    match (transport r).1 with
    | Delivered =>
        res = result_of (rule_step rule (ms r) (window_of r k)).1 /\ err = None /\
        stepped r k rule r'
    | NotSent _ => res = Result_zero /\ err <> None /\ unchanged r r'
    | ReplyLost _ => res = Result_zero /\ err <> None /\ stepped r k rule r'
    end.
Proof. apply Consume_refines. Qed.

End consume.

(** ** Runs of the automaton *)
Section runs.
Context (ttl : Z -> Z).
Context (limit win blk : Z) (Hlimit : 0 < limit).

Abbreviation run_from := (window_run ttl limit win blk).

Definition fresh : window := mkWindow None None.

Lemma lapse_lapse t t' w : t <= t' -> lapse t' (lapse t w) = lapse t' w.
Proof.
  intros Ht. destruct w as [[[n x]|] [u|]]; unfold lapse; simpl;
    repeat match goal with |- context [?a <? ?b] =>
      destruct (Z.ltb_spec a b); simpl; try lia end; done.
Qed.

Lemma lapse_fresh t : lapse t fresh = fresh.
Proof. done. Qed.

Lemma window_run_lapse t0 ts w :
  (forall t ts', ts = t :: ts' -> t0 <= t) -> ts <> [] -> run_from ts (lapse t0 w) = run_from ts w.
Proof.
  destruct ts as [|t ts]; [done|]. intros Ht _. simpl. by rewrite lapse_lapse by by eapply Ht.
Qed.

(** Counting up to the limit, and the call that goes over it. *)
Lemma window_run_counts n x ts :
  0 <= n -> Forall (fun t => t < x) ts ->
  forall i h, (run_from ts (mkWindow (Some (n, x)) None)).1 !! i = Some h ->
  n + 1 + Z.of_nat i <= limit + 1 ->
  h = if n + 1 + Z.of_nat i <=? limit then mkHit false (n + 1 + Z.of_nat i) 0
      else mkHit true (limit + 1) blk.
Proof.
  intros Hn Hts. revert n Hn. induction Hts as [|t ts Ht _ IH]; intros n Hn i h; [done|].
  simpl. unfold lapse at 1. simpl. replace (t <? x) with true by (symmetry; by apply Z.ltb_lt).
  unfold window_step. simpl. unfold count_step. simpl.
  destruct (Z.ltb_spec limit (n + 1)) as [Hlt|Hle].
  - destruct (run_from ts _) as [l w']. destruct i as [|i]; [simpl; intros [= <-] Hi|intros _ Hi; lia].
    destruct (Z.leb_spec (n + 1 + Z.of_nat 0) limit); [lia|]. f_equal. lia.
  - specialize (IH (n + 1) ltac:(lia)). destruct (run_from ts _) as [l w'].
    destruct i as [|i]; simpl.
    + intros [= <-] Hi. destruct (Z.leb_spec (n + 1 + Z.of_nat 0) limit); [|lia]. f_equal. lia.
    + intros Hh Hi. rewrite (IH i h Hh) by lia.
      replace (n + 1 + 1 + Z.of_nat i) with (n + 1 + Z.of_nat (S i)) by lia. done.
Qed.

Lemma window_run_quota t ts :
  Forall (fun t' => t' < t + 1000 * win) ts ->
  forall i h, (run_from (t :: ts) fresh).1 !! i = Some h -> Z.of_nat i <= limit ->
  h = if Z.of_nat i <? limit then mkHit false (Z.of_nat i + 1) 0 else mkHit true (limit + 1) blk.
Proof.
  intros Hts i h. cbn [window_run]. rewrite lapse_fresh. unfold window_step, fresh, count_step. simpl.
  destruct (Z.ltb_spec limit 1); [lia|].
  pose proof (window_run_counts 1 (t + 1000 * win) ts ltac:(lia) Hts) as Hc.
  destruct (run_from ts _) as [l w']. destruct i as [|i]; simpl.
  - intros [= <-] _. destruct (Z.ltb_spec (Z.of_nat 0) limit); [done|lia].
  - intros Hh Hi. rewrite (Hc i h Hh) by lia.
    destruct (Z.leb_spec (1 + 1 + Z.of_nat i) limit), (Z.ltb_spec (Z.of_nat (S i)) limit);
      [f_equal; lia|lia|lia|done].
Qed.

(** While a block stands it answers everything, and nothing moves it. *)
Lemma window_run_held u ts w :
  held w = Some u ->
  (forall t, t ∈ ts -> t < u /\ 0 < ttl (u - t)) ->
  (run_from ts w).1 = map (fun t => mkHit true (-1) (ttl (u - t))) ts /\
  held (run_from ts w).2 = Some u.
Proof.
  revert w. induction ts as [|t ts IH]; intros w Hu Hts; [done|]. cbn [window_run].
  destruct (Hts t) as [Ht Hr]; [by left|].
  assert (held (lapse t w) = Some u) as Hl.
  { unfold lapse. rewrite Hu. simpl. by replace (t <? u) with true by (symmetry; by apply Z.ltb_lt). }
  unfold window_step. rewrite Hl. replace (0 <? ttl (u - t)) with true by (symmetry; by apply Z.ltb_lt).
  destruct (IH _ Hl) as [E1 E2]; [intros; apply Hts; by right|].
  destruct (run_from ts _) as [l w']. simpl in *. by rewrite E1.
Qed.

(** A refusal by count leaves only the block, so what follows it is fresh. *)
Lemma window_step_refused t w h w' :
  window_step ttl t limit win blk w = (h, w') -> refused h = true -> number h <> -1 ->
  w' = mkWindow None (Some (t + 1000 * blk)).
Proof.
  assert (forall h w', count_step t limit win blk w = (h, w') -> refused h = true ->
            w' = mkWindow None (Some (t + 1000 * blk))) as Hc.
  { intros h0 w0. unfold count_step. destruct (counting w) as [[n x]|]; destruct (_ <? _);
      intros [= <- <-]; done. }
  unfold window_step. destruct (held w) as [u|]; [|eauto]. destruct (0 <? _); [|eauto].
  by intros [= <- <-].
Qed.

Lemma window_step_fresh t : window_step ttl t limit win blk fresh
  = (mkHit false 1 0, mkWindow (Some (1, t + 1000 * win)) None).
Proof.
  unfold window_step, count_step, fresh. simpl. by destruct (Z.ltb_spec limit 1); [lia|].
Qed.

End runs.

(** ** Histories of a bucket *)
Section histories.
Context {R : Type} `{RedisCommands R}.
Context (fmt_Rule : Rule -> string).
Context (prefix : string) (k : Key) (rule : Rule).
Context (Hv : Rule_Valid rule = true) (Hrange : Rule_in_range rule).

Abbreviation Consume := (Redis_Consume fmt_Rule prefix).
Abbreviation window_of := (window_of prefix).
Abbreviation store_ok := (store_ok prefix).
Abbreviation run_rule :=
  (window_run ttl_round (Rule_Limit rule) (seconds (Rule_Window rule)) (seconds (Rule_Block rule))).

(** The answered calls on [k] under [rule], with the instants they were served at,
    among time passing and anything that leaves the bucket alone. *)
Inductive history : R -> list (Z * Result) -> R -> Prop :=
| history_nil r : history r [] r
| history_idle r r1 l r2 : idle r r1 -> history r1 l r2 -> history r l r2
| history_other r r1 l r2 :
    store_ok r1 -> ms r1 = ms r -> window_of r1 k = window_of r k ->
    history r1 l r2 -> history r l r2
| history_call r res r1 l r2 :
    (transport r).1 = Delivered -> Consume k rule r = (Returns (res, None), r1) ->
    history r1 l r2 -> history r ((ms r, res) :: l) r2.

Lemma lookup_expire_entry now (m : keyspace) q v x :
  m !! q = Some (mkEntry v (Some x)) ->
  expire now m !! q = if now <? x then Some (mkEntry v (Some x)) else None.
Proof.
  intros E. rewrite (lookup_expire _ _ _ _ E). unfold live. simpl.
  destruct (stdpp.base.decide (now < x)), (Z.ltb_spec now x); done || lia.
Qed.

Lemma window_of_idle r r1 k' : store_ok r -> idle r r1 -> window_of r1 k' = lapse (ms r1) (window_of r k').
Proof.
  intros (_ & Hw & _) (_ & _ & HK). destruct (Hw k') as (Hc & Hb & _ & _).
  apply window_of_entries; rewrite HK; unfold lapse; cbn [counting held].
  - destruct (counting (window_of r k')) as [[n x]|]; simpl in Hc.
    + rewrite (lookup_expire_entry _ _ _ _ _ Hc). by destruct (_ <? _).
    + by rewrite lookup_expire_None.
  - destruct (held (window_of r k')) as [u|]; simpl in Hb.
    + rewrite (lookup_expire_entry _ _ _ _ _ Hb). by destruct (_ <? _).
    + by rewrite lookup_expire_None.
Qed.

Lemma store_ok_idle r r1 : store_ok r -> idle r r1 -> store_ok r1.
Proof.
  intros Hok Hi. pose proof Hi as (Hr1 & Hms & HK). pose proof Hok as (Hr & Hw & Ht).
  split_and!; [done| |].
  - intros k'. destruct (Hw k') as (Hc & Hb & Hn & Hu).
    pose proof (window_of_idle r r1 k' Hok Hi) as Ew. rewrite Ew.
    unfold holds. rewrite HK. unfold lapse in *. cbn [counting held]. split_and!.
    + destruct (counting (window_of r k')) as [[n x]|]; simpl in Hc |- *.
      * rewrite (lookup_expire_entry _ _ _ _ _ Hc). by destruct (_ <? _).
      * by rewrite lookup_expire_None.
    + destruct (held (window_of r k')) as [u|]; simpl in Hb |- *.
      * rewrite (lookup_expire_entry _ _ _ _ _ Hb). by destruct (_ <? _).
      * by rewrite lookup_expire_None.
    + intros n x. destruct (counting (window_of r k')) as [[n' x']|]; [|done].
      destruct (_ <? _); [|done]. intros [= <- <-]. by eapply Hn.
    + intros u. destruct (held (window_of r k')) as [u'|]; [|done].
      destruct (_ <? _); [|done]. intros [= <-]. specialize (Hu _ eq_refl). lia.
  - intros k' e. rewrite HK. unfold expire. rewrite map_lookup_filter_Some. intros [E _].
    destruct (Ht k' e E) as (m & x & n & t & -> & ? & ? & ? & ?). exists m, x, n, t.
    split_and!; try done; lia.
Qed.

Lemma lapse_now r : store_ok r -> lapse (ms r) (window_of r k) = window_of r k.
Proof.
  intros (Hr & Hw & _). destruct (Hw k) as (Hc & Hb & _ & _). unfold lapse.
  assert (forall q v x, keys r !! q = Some (mkEntry v (Some x)) -> (ms r <? x) = true) as Hl.
  { intros q v x E. apply Z.ltb_lt. by apply (keys_live r q _ Hr) in E. }
  destruct (window_of r k) as [[[n x]|] [u|]]; simpl in *;
    repeat match goal with E : keys r !! _ = Some _ |- _ => rewrite (Hl _ _ _ E); clear E end; done.
Qed.

Lemma history_from r l r' : store_ok r -> history r l r' ->
  forall t ts, l.*1 = t :: ts -> ms r <= t.
Proof.
  intros Hok Hh. induction Hh as [r|r r1 l r2 Hi _ IH|r r1 l r2 Hok1 Hms _ _ IH|r res r1 l r2 _ _ _ _];
    intros t ts E; simpl in E.
  - done.
  - specialize (IH (store_ok_idle _ _ Hok Hi) _ _ E). destruct Hi as (_ & ? & _). lia.
  - specialize (IH Hok1 _ _ E). lia.
  - by simplify_eq.
Qed.

Lemma history_run r l r' : store_ok r -> history r l r' ->
  store_ok r' /\ l.*2 = map result_of (run_rule l.*1 (window_of r k)).1 /\
  (held (window_of r' k) = None \/
   held (window_of r' k) = held (run_rule l.*1 (window_of r k)).2).
Proof.
  intros Hok Hh. induction Hh as [r|r r1 l r2 Hi Hh IH|r r1 l r2 Hok1 Hms Hw Hh IH|r res r1 l r2 Hd Ec Hh IH].
  - split_and!; [done..|by right].
  - pose proof (store_ok_idle _ _ Hok Hi) as Hok1. destruct (IH Hok1) as (? & El & Eh).
    rewrite (window_of_idle _ _ k Hok Hi) in El, Eh. destruct l as [|[t a] l].
    + split_and!; [done..|]. cbn [fmap list_fmap window_run fst snd] in *. destruct Eh as [Eh|Eh]; [by left|].
      unfold lapse in Eh. cbn [counting held] in Eh. destruct (held (window_of r k)) as [u|]; [|by left].
      destruct (_ <? _); [by right|by left].
    + rewrite window_run_lapse in El, Eh; [done|..]; try done;
        intros t' ts' E; by eapply (history_from r1 _ _ Hok1 Hh).
  - rewrite <-Hw. by apply IH.
  - destruct (Consume_refines fmt_Rule prefix r k rule Hok Hv Hrange) as (res' & err & r1' & E & Hm).
    rewrite Ec in E. simplify_eq. rewrite Hd in Hm. destruct Hm as (-> & _ & Hok1 & Hms1 & Ew & _).
    destruct (IH Hok1) as (? & El & Eh). rewrite Ew in El, Eh. cbn [fmap list_fmap fst snd].
    cbn [window_run]. rewrite (lapse_now _ Hok). fold (rule_step rule (ms r) (window_of r k)).
    destruct (rule_step rule (ms r) (window_of r k)) as [h w1]. cbn [fst snd] in *.
    destruct (run_rule _ w1) as [hs w2]. cbn [map fst snd] in *. split_and!; [done| |done]. by rewrite El.
Qed.

Lemma history_nth r l r' i t res :
  store_ok r -> history r l r' -> l !! i = Some (t, res) ->
  exists h, (run_rule l.*1 (window_of r k)).1 !! i = Some h /\ res = result_of h.
Proof.
  intros Hok Hh Hi. destruct (history_run _ _ _ Hok Hh) as (_ & El & _).
  assert (l.*2 !! i = Some res) as E by (by rewrite list_lookup_fmap, Hi).
  rewrite El in E. apply list_lookup_fmap_Some in E as (h & -> & ?). by exists h.
Qed.

Lemma limit_pos : 0 < Rule_Limit rule.
Proof. by apply Rule_Valid_spec in Hv as (? & _). Qed.

(** C22: a bucket that is not being counted allows exactly [limit] calls in a
    window, answering 1, 2, ..., and refuses the next one with the count that broke
    the limit and the whole block as the wait. *)
Theorem quota_then_block r t res0 l r' :
  store_ok r -> window_of r k = fresh -> history r ((t, res0) :: l) r' ->
  Forall (fun t' => t' < t + 1000 * seconds (Rule_Window rule)) l.*1 ->
  forall i t' res, ((t, res0) :: l) !! i = Some (t', res) -> Z.of_nat i <= Rule_Limit rule ->
  res = if Z.of_nat i <? Rule_Limit rule then mkResult false (Z.of_nat i + 1) 0
        else mkResult true (Rule_Limit rule + 1) (seconds (Rule_Block rule) * Second).
Proof.
  intros Hok Hw Hh Hts i t' res Hi Hle.
  destruct (history_nth _ _ _ _ _ _ Hok Hh Hi) as (h & Hn & ->). rewrite Hw in Hn.
  rewrite (window_run_quota ttl_round _ _ _ limit_pos t l.*1 Hts i h Hn Hle).
  by destruct (_ <? _).
Qed.

(** A block is not extended by calls made under it.  While more than a second
    of it is left every call is answered "blocked", with count -1 and a wait
    within a second of the time left, and the block ends when it would have. *)
Theorem block_not_extended r l r' u :
  store_ok r -> held (window_of r k) = Some u -> history r l r' ->
  Forall (fun t => t + 1000 <= u) l.*1 ->
  Forall (fun '(t, res) => exists s, res = mkResult true (-1) (s * Second) /\
            u - t - 1000 < 1000 * s < u - t + 1000) l /\
  (held (window_of r' k) = None \/ held (window_of r' k) = Some u).
Proof.
  intros Hok Hu Hh Hts. destruct (history_run _ _ _ Hok Hh) as (_ & El & Eh).
  assert (forall t, t ∈ l.*1 -> t < u /\ 0 < ttl_round (u - t)) as Hr.
  { intros t Ht. eapply Forall_forall in Hts; [|done]. simpl in Hts.
    destruct (ttl_round_near (u - t)); lia. }
  destruct (window_run_held ttl_round (Rule_Limit rule) (seconds (Rule_Window rule))
              (seconds (Rule_Block rule)) u l.*1 _ Hu Hr) as [E1 E2].
  rewrite E2 in Eh. split; [|done]. rewrite E1 in El. clear -El Hr Hts.
  induction l as [|[t res] l IH]; [done|]. simpl in El, Hts. injection El as -> El.
  apply Forall_cons in Hts as [Ht Hts]. constructor.
  - exists (ttl_round (u - t)). split; [done|]. apply ttl_round_near. lia.
  - apply IH; [done|done|]. intros t' Ht'. apply Hr. by right.
Qed.

(** A block ends in a fresh window.  The first call made once the block's
    seconds have passed since the refusal is allowed with count 1, however long the
    counting window was: the counter was dropped with the block. *)
Theorem block_lifts_fresh r t0 a t b r' :
  store_ok r -> history r [(t0, a); (t, b)] r' ->
  Result_Blocked a = true -> Result_Count a <> -1 ->
  t0 + 1000 * seconds (Rule_Block rule) <= t -> b = mkResult false 1 0.
Proof.
  intros Hok Hh Ha Hc Ht. destruct (history_run _ _ _ Hok Hh) as (_ & El & _).
  simpl in El. destruct (window_step ttl_round t0 _ _ _ _) as [h w1] eqn:E1.
  assert (Result_Blocked a = refused h /\ Result_Count a = number h) as [E2 E3].
  { destruct (window_step ttl_round t _ _ _ _) as [h2 w2]. simpl in El. by simplify_eq. }
  apply window_step_refused in E1; [|congruence..]. subst w1.
  replace (lapse t (mkWindow None (Some (t0 + 1000 * seconds (Rule_Block rule))))) with fresh in El.
  2:{ unfold lapse. simpl. by destruct (Z.ltb_spec t (t0 + 1000 * seconds (Rule_Block rule))); [lia|]. }
  rewrite window_step_fresh in El by apply limit_pos. simpl in El. by simplify_eq.
Qed.

End histories.

(** ** The key layout, and [seconds] *)
Section layout.
Context (prefix : string).

(** C30: buckets do not share keys.  Two keys of the store are equal only when they
    are of the same kind, of the same limiter and of the same bucket up to the
    braces that are stripped from it, whatever the prefix and the limiters' names. *)
Theorem keys_distinct j k j' k' :
  key_of prefix j k = key_of prefix j' k' <-> j = j' /\ same_bucket k k'.
Proof.
  split; [apply key_of_inj|]. intros [-> Hs]. by apply key_of_same.
Qed.


End layout.

(** A duration becomes a TTL that is never zero, whatever it is - so Redis
    never takes it for "no expiry" - and that is the duration rounded up, exactly
    below 194 days and within a second of it beyond. *)
Theorem seconds_rounds_up d :
  in_int64 d ->
  1 <= seconds d /\
  (0 < d -> d / Second <= seconds d <= d / Second + 1) /\
  (0 < d < 2 ^ 24 * Second -> seconds d = (d + Second - 1) / Second).
Proof.
  intros Hd. unfold seconds. destruct (Z.leb_spec d 0) as [Hle|Hlt].
  - split_and!; [done|lia|lia].
  - pose proof (ceil_seconds_range d Hlt Hd). split_and!; [lia|lia|].
    intros [_ H24]. by apply ceil_seconds_exact.
Qed.

(** ** Instances of the theorems *)
Section examples.

Definition no_fmt_Rule (_ : Rule) : string := "{...}".
Definition start_ms : Z := 1700000000000.
Definition empty_redis : sim_redis := SimRedis ∅ start_ms.
Definition visitor : Key := mkKey "login" "203.0.113.9".
Definition two_per_minute : Rule := mkRule 2 Minute (10 * Second).

Lemma empty_ok prefix : store_ok prefix empty_redis.
Proof.
  split_and!; [done| |].
  - intros k. by split_and!.
  - by intros k e.
Qed.

Lemma two_per_minute_ok : Rule_Valid two_per_minute = true /\ Rule_in_range two_per_minute.
Proof. split; [done|]. split_and!; vm_compute; congruence. Qed.

Abbreviation call := (Redis_Consume no_fmt_Rule "fl:").

Lemma Consume_refines_window_witness :
  exists res err r', call visitor two_per_minute empty_redis = (Returns (res, err), r') /\
    res = mkResult false 1 0 /\
    res = result_of (rule_step two_per_minute start_ms
                       (window_of "fl:" empty_redis visitor)).1 /\ err = None /\
    stepped "fl:" empty_redis visitor two_per_minute r'.
Proof.
  destruct (Consume_refines_window no_fmt_Rule "fl:" empty_redis visitor two_per_minute)
    as (res & err & r' & E & Hm);
    [apply empty_ok|apply two_per_minute_ok|apply two_per_minute_ok|].
  exists res, err, r'. split; [exact E|]. split; [|exact Hm].
  destruct Hm as (-> & _). vm_compute. reflexivity.
Defined.

(** Three calls a second apart: two are allowed, the third is refused. *)
Definition after (r : sim_redis) : sim_redis := (call visitor two_per_minute r).2.

Definition second (r : sim_redis) : sim_redis := sim_wait 1000 (after r).

Lemma sim_idle d r : 0 <= d -> redis_ok r -> sim_ms r + d < 2 ^ 53 -> idle r (sim_wait d r).
Proof.
  intros Hd [Ht _] Hlt. split_and!; [|simpl; lia|done]. split; [simpl; lia|].
  intros k e. simpl. unfold expire. by rewrite map_lookup_filter_Some; intros [_ ?].
Qed.

Definition ok1 := mkResult false 1 0.
Definition ok2 := mkResult false 2 0.
Definition no3 := mkResult true 3 (10 * Second).
Definition standing s := mkResult true (-1) (s * Second).

Abbreviation ok := (store_ok "fl:").
Abbreviation history_of := (history no_fmt_Rule "fl:" visitor two_per_minute).

Lemma after_ok r : ok r -> ok (after r).
Proof.
  intros Hr. destruct two_per_minute_ok as [Hv Hg].
  destruct (Consume_refines no_fmt_Rule "fl:" r visitor two_per_minute Hr Hv Hg)
    as (res & err & r' & E & Hm). unfold after. rewrite E. simpl in *. by destruct Hm as (_ & _ & ? & _).
Qed.

Lemma wait_ok d r : 0 <= d -> ok r -> sim_ms r + d < 2 ^ 53 -> ok (sim_wait d r).
Proof. intros Hd Hr Hm. eapply store_ok_idle; [done|]. apply sim_idle; [done|apply Hr|done]. Qed.

(** A call, then [d] milliseconds. *)
Lemma history_hit r d t res l r2 :
  ok r -> 0 <= d -> t = sim_ms r -> sim_ms r + d < 2 ^ 53 ->
  call visitor two_per_minute r = (Returns (res, None), after r) ->
  sim_ms (after r) = sim_ms r ->
  history_of (sim_wait d (after r)) l r2 -> history_of r ((t, res) :: l) r2.
Proof.
  intros Hr Hd -> Hm E Ea Hh. change (sim_ms r) with (ms r). apply (history_call _ _ _ _ r res (after r)); [done|done|].
  apply (history_idle _ _ _ _ _ (sim_wait d (after r))); [|done].
  apply sim_idle; [done|by apply after_ok|by rewrite Ea].
Qed.

Definition redis_1s := second empty_redis.
Definition redis_2s := second redis_1s.
Definition blocked_redis := after redis_2s.

Lemma redis_1s_ok : ok redis_1s.
Proof. apply wait_ok; [done|apply after_ok, empty_ok|by vm_compute]. Qed.
Lemma redis_2s_ok : ok redis_2s.
Proof. apply wait_ok; [done|apply after_ok, redis_1s_ok|by vm_compute]. Qed.

Lemma three_calls : history_of empty_redis
  [(start_ms, ok1); (start_ms + 1000, ok2); (start_ms + 2000, no3)] (sim_wait 0 blocked_redis).
Proof.
  apply (history_hit empty_redis 1000);
    [apply empty_ok|done|done|by vm_compute|by vm_compute|by vm_compute|].
  apply (history_hit redis_1s 1000);
    [apply redis_1s_ok|done|by vm_compute|by vm_compute|by vm_compute|by vm_compute|].
  apply (history_hit redis_2s 0);
    [apply redis_2s_ok|done|by vm_compute|by vm_compute|by vm_compute|by vm_compute|].
  apply history_nil.
Qed.

Lemma quota_then_block_witness :
  exists r', history_of empty_redis
      [(start_ms, ok1); (start_ms + 1000, ok2); (start_ms + 2000, no3)] r' /\
    no3 = if Z.of_nat 2 <? Rule_Limit two_per_minute then mkResult false (Z.of_nat 2 + 1) 0
          else mkResult true (Rule_Limit two_per_minute + 1)
                 (seconds (Rule_Block two_per_minute) * Second).
Proof.
  pose proof three_calls as Hh.
  eexists. split; [exact Hh|].
  apply (quota_then_block no_fmt_Rule "fl:" visitor two_per_minute
           (proj1 two_per_minute_ok) (proj2 two_per_minute_ok) empty_redis start_ms ok1
           [(start_ms + 1000, ok2); (start_ms + 2000, no3)] _ (empty_ok "fl:") eq_refl Hh)
    with (t' := start_ms + 2000) (i := 2%nat); [|done|done].
  repeat constructor.
Defined.

(** Two calls under the block, which then lifts. *)
Lemma block_not_extended_witness :
  exists r', history_of blocked_redis [(start_ms + 2000, standing 10); (start_ms + 5000, standing 7)] r' /\
    Forall (fun '(t, res) => exists s, res = mkResult true (-1) (s * Second) /\
              (start_ms + 12000) - t - 1000 < 1000 * s < (start_ms + 12000) - t + 1000)
      [(start_ms + 2000, standing 10); (start_ms + 5000, standing 7)] /\
    (held (window_of "fl:" r' visitor) = None \/
     held (window_of "fl:" r' visitor) = Some (start_ms + 12000)).
Proof.
  assert (ok blocked_redis) as Hok by apply after_ok, redis_2s_ok.
  assert (history_of blocked_redis [(start_ms + 2000, standing 10); (start_ms + 5000, standing 7)]
            (sim_wait 0 (after (sim_wait 3000 (after blocked_redis))))) as Hh.
  { apply (history_hit blocked_redis 3000);
      [done|done|by vm_compute|by vm_compute|by vm_compute|by vm_compute|].
    apply (history_hit _ 0); [|done|by vm_compute|by vm_compute|by vm_compute|by vm_compute|].
    - apply wait_ok; [done|by apply after_ok|by vm_compute].
    - apply history_nil. }
  eexists. split; [exact Hh|].
  apply (block_not_extended no_fmt_Rule "fl:" visitor two_per_minute
           (proj1 two_per_minute_ok) (proj2 two_per_minute_ok) blocked_redis _ _ _ Hok); [|exact Hh|].
  - vm_compute. reflexivity.
  - repeat constructor; vm_compute; congruence.
Defined.

Lemma block_lifts_fresh_witness :
  exists r', history_of redis_2s [(start_ms + 2000, no3); (start_ms + 12000, ok1)] r' /\
    ok1 = mkResult false 1 0.
Proof.
  assert (history_of redis_2s [(start_ms + 2000, no3); (start_ms + 12000, ok1)]
            (sim_wait 0 (after (sim_wait 10000 blocked_redis)))) as Hh.
  { apply (history_hit redis_2s 10000);
      [apply redis_2s_ok|done|by vm_compute|by vm_compute|by vm_compute|by vm_compute|].
    apply (history_hit _ 0); [|done|by vm_compute|by vm_compute|by vm_compute|by vm_compute|].
    - apply wait_ok; [done|apply after_ok, redis_2s_ok|by vm_compute].
    - apply history_nil. }
  eexists. split; [exact Hh|].
  apply (block_lifts_fresh no_fmt_Rule "fl:" visitor two_per_minute
           (proj1 two_per_minute_ok) (proj2 two_per_minute_ok) redis_2s _ _ _ _ _ redis_2s_ok Hh);
    [done|done|by vm_compute].
Defined.


Lemma seconds_rounds_up_witness :
  in_int64 1500000000 /\ seconds 1500000000 = 2 /\
  1 <= seconds 1500000000 /\
  (0 < 1500000000 -> 1500000000 / Second <= seconds 1500000000 <= 1500000000 / Second + 1) /\
  (0 < 1500000000 < 2 ^ 24 * Second ->
   seconds 1500000000 = (1500000000 + Second - 1) / Second).
Proof.
  assert (in_int64 1500000000) as Hd by (split; vm_compute; congruence).
  split; [exact Hd|]. split; [vm_compute; reflexivity|]. exact (seconds_rounds_up _ Hd).
Defined.

(** A nanosecond above 388 days is lost in the float: the TTL is rounded down. *)
Example seconds_rounds_down : seconds (2 ^ 25 * Second + 1) = 2 ^ 25.
Proof. vm_compute. reflexivity. Qed.

End examples.
