(* ===== verification/TokenBucket.v ===== *)
(** * The token bucket of the Redis store

    The script [take] of [internal/store/redisstore] is shown to be one step of a
    token bucket computed in doubles ([take_step]), and the properties are proved on
    that: bounds, what a new bucket admits, and how much any run admits. *)
From stdpp Require Import base list gmap strings.
From Stdlib Require Import ZArith Lia QArith Qround Ascii String Lqa.
From S2P Require Import Prelude.
From S2P Require Import GoStrings.
From S2P Require Import Float.
From S2P Require Import Store.
From S2P Require Import Redis.
From S2P Require Import RedisStore.

#[local] Open Scope Z_scope.

(** ** The bucket the script implements

    A level in doubles and the instant in milliseconds it was left at; [None] is a
    bucket Redis does not hold. *)
Abbreviation level := (option (Q * Z)).

Record pass : Type := mkPass { granted : bool; remaining : Z; retry_ms : Z }.

Section bucket.
Context (rate burst : Z).

Definition refilled (now : Z) (o : level) : Q :=
  let (n, t) := match o with Some nt => nt | None => (inject_Z burst, now) end in
  lua_min (inject_Z burst) (fadd n (fdiv (fmul (inject_Z (now - t)) (inject_Z rate)) 1000)).

Definition retry_of (tokens : Q) : Z := fceil (fdiv (fmul (fsub 1 tokens) 1000) (inject_Z rate)).

Definition take_step (now : Z) (o : level) : pass * Q :=
  let tokens := refilled now o in
  if Qle_bool 1 tokens
  then (mkPass true (ffloor (fsub tokens 1)) 0, fsub tokens 1)
  else (mkPass false (ffloor tokens) (retry_of tokens), tokens).

(** How long an idle bucket is kept, in milliseconds. *)
Definition keep_ms : Z := fceil (fdiv (fmul (inject_Z burst) 1000) (inject_Z rate)) + 10000.

End bucket.

(** The buckets an operator can mean. *)
Definition Bucket_in_range (b : Bucket) : Prop :=
  Bucket_Rate b <= 2 ^ 53 /\ Bucket_Burst b <= 2 ^ 40.

(** ** Bounds of one step *)
Section bounds.
Context (rate burst : Z) (Hrate : 0 < rate <= 2 ^ 53) (Hburst : 0 < burst <= 2 ^ 40).

#[local] Open Scope Q_scope.

Lemma inject_le x y : (x <= y)%Z -> inject_Z x <= inject_Z y.
Proof. by rewrite Zle_Qle. Qed.

Lemma inject_nonneg z : (0 <= z)%Z -> 0 <= inject_Z z.
Proof. intros Hz. by apply (inject_le 0). Qed.

Lemma rate_pos : 1 <= inject_Z rate.
Proof. apply (inject_le 1). lia. Qed.

Lemma lua_min_le x y : lua_min x y <= x /\ lua_min x y <= y.
Proof.
  unfold lua_min. destruct (Qlt_bool y x) eqn:E.
  - apply Qlt_bool_iff in E. split; lra.
  - apply Qlt_bool_false in E. split; lra.
Qed.

Lemma lua_min_glb z x y : z <= x -> z <= y -> z <= lua_min x y.
Proof. unfold lua_min. by destruct (Qlt_bool y x). Qed.

(** What refilling adds, before it is added. *)
Definition gain (d : Z) : Q := fdiv (fmul (inject_Z d) (inject_Z rate)) 1000.

Lemma gain_nonneg d : (0 <= d)%Z -> 0 <= gain d.
Proof.
  intros Hd. unfold gain, fdiv, fmul. apply f64_nonneg. unfold Qdiv.
  apply Qmult_le_0_compat; [|done]. apply f64_nonneg.
  apply Qmult_le_0_compat; [by apply inject_nonneg|]. pose proof rate_pos. lra.
Qed.

(** A level the script may have left: what [tokens_typed] says of it. *)
Definition level_ok (now : Z) (o : level) : Prop :=
  forall n t, o = Some (n, t) -> 0 <= n /\ (0 <= t <= now)%Z.

Lemma refilled_bounds now o :
  level_ok now o -> 0 <= refilled rate burst now o /\ refilled rate burst now o <= inject_Z burst.
Proof.
  intros Ho. unfold refilled. destruct o as [[n t]|]; (split; [|apply lua_min_le]).
  - destruct (Ho _ _ eq_refl) as [Hn Ht]. apply lua_min_glb; [apply inject_nonneg; lia|].
    unfold fadd. apply f64_nonneg. pose proof (gain_nonneg (now - t)) as Hg. unfold gain in Hg.
    assert (0 <= now - t)%Z as Hd by lia. specialize (Hg Hd). lra.
  - apply lua_min_glb; [apply inject_nonneg; lia|]. unfold fadd. apply f64_nonneg.
    pose proof (gain_nonneg (now - now)) as Hg. unfold gain in Hg. specialize (Hg ltac:(lia)).
    pose proof (inject_nonneg burst ltac:(lia)). lra.
Qed.

Lemma spent_bounds x :
  1 <= x -> x <= inject_Z burst -> 0 <= fsub x 1 /\ fsub x 1 <= inject_Z (burst - 1).
Proof.
  intros H1 Hb. unfold fsub. split; [apply f64_nonneg; lra|]. apply f64_le_int; [lia|].
  rewrite inject_Z_minus. change (inject_Z 1) with 1. lra.
Qed.

Lemma floor_bounds x lo hi :
  inject_Z lo <= x -> x <= inject_Z hi -> (lo <= ffloor x <= hi)%Z.
Proof.
  intros Hlo Hhi. unfold ffloor. apply Qfloor_resp_le in Hlo. apply Qfloor_resp_le in Hhi.
  by rewrite Qfloor_Z in Hlo, Hhi.
Qed.

Lemma retry_bounds x : 0 <= x -> x < 1 -> (1 <= retry_of rate x <= 1000)%Z.
Proof.
  intros H0 H1. unfold retry_of, fceil. pose proof rate_pos as Hr.
  assert (0 < fsub 1 x) as Hs by (unfold fsub; apply f64_positive; lra).
  assert (fsub 1 x <= 1) as Hs1.
  { unfold fsub. apply (f64_le_int _ 1); [lia|]. change (inject_Z 1) with 1. lra. }
  assert (0 < fmul (fsub 1 x) 1000) as Hm by (unfold fmul; apply f64_positive; lra).
  assert (fmul (fsub 1 x) 1000 <= 1000) as Hm1.
  { unfold fmul. apply (f64_le_int _ 1000); [lia|]. change (inject_Z 1000) with 1000. lra. }
  set (m := fmul (fsub 1 x) 1000) in *. unfold fdiv.
  assert (0 < m / inject_Z rate) as Hd by (apply Qlt_shift_div_l; lra).
  assert (m / inject_Z rate <= inject_Z 1000) as Hd1.
  { apply Qle_shift_div_r; [lra|]. change (inject_Z 1000) with 1000. nra. }
  pose proof (f64_positive _ Hd) as Hp. pose proof (f64_le_int _ 1000 ltac:(lia) Hd1) as Hp1.
  set (q := f64 (m / inject_Z rate)) in *. split.
  - pose proof (Qle_ceiling q). assert (0 < Qceiling q)%Z; [|lia].
    rewrite Zlt_Qlt. change (inject_Z 0) with 0. lra.
  - rewrite <-(Qceiling_Z 1000). by apply Qceiling_resp_le.
Qed.

(** The key outlives the time the bucket needs to fill up, and its expiry is in the
    range Redis takes. *)
Lemma keep_bounds : (10000 <= keep_ms rate burst <= 2 ^ 53)%Z /\
  inject_Z (burst * 1000) <= inject_Z (keep_ms rate burst) * inject_Z rate.
Proof.
  pose proof rate_pos as Hr. set (B := (burst * 1000)%Z).
  assert (0 <= inject_Z B) as HB by (apply inject_nonneg; lia).
  assert (fmul (inject_Z burst) 1000 = inject_Z B) as Em.
  { unfold fmul. apply f64_int_of; [lia|]. unfold B. by rewrite inject_Z_mult. }
  unfold keep_ms, fceil, fdiv. rewrite Em.
  assert (0 <= inject_Z B / inject_Z rate) as Hq by (apply Qle_shift_div_l; lra).
  assert (inject_Z B / inject_Z rate <= inject_Z B) as Hq1 by (apply Qle_shift_div_r; [lra|nra]).
  destruct (f64_error _ Hq) as [He _]. pose proof (f64_nonneg _ Hq) as Hf.
  pose proof (f64_le_int _ B ltac:(lia) Hq1) as Hf1.
  assert (inject_Z B / inject_Z rate * inject_Z rate == inject_Z B) as Ec by (field; lra).
  set (q := inject_Z B / inject_Z rate) in *. set (x := f64 q) in *.
  pose proof (Qle_ceiling x) as Hx. apply Qceiling_resp_le in Hf as Hc. apply Qceiling_resp_le in Hf1.
  rewrite Qceiling_Z in Hf1. change (Qceiling 0) with 0%Z in Hc. split; [lia|].
  rewrite inject_Z_plus. change (inject_Z 10000) with 10000.
  assert (inject_Z B <= inject_Z (2 ^ 52)) as HBs by (apply inject_le; lia).
  change (inject_Z (2 ^ 52)) with (4503599627370496 # 1) in HBs. unfold eps in He.
  assert (q <= 4503599627370496 # 1) by lra. nra.
Qed.

End bounds.

(** ** [take] is one step of the bucket *)
Section take_spec.
Context {R : Type} `{RedisCommands R}.
Context (rate burst : Z) (Hrate : 0 < rate <= 2 ^ 53) (Hburst : 0 < burst <= 2 ^ 40).
Context (key : string).

Lemma of_int_floor z : ffloor (inject_Z z) = z.
Proof. apply Qfloor_Z. Qed.

(** The clock the script computes is the server's, to the millisecond. *)
Lemma script_clock s us t :
  0 <= s -> 0 <= us < 1000000 -> t = 1000 * s + us / 1000 -> t < 2 ^ 53 ->
  fadd (fmul (of_int s) 1000) (inject_Z (ffloor (fdiv (of_int us) 1000))) = inject_Z t.
Proof.
  intros Hs Hus Et Ht. pose proof (Z.div_mod us 1000 ltac:(lia)) as Ed.
  pose proof (Z.mod_pos_bound us 1000 ltac:(lia)) as Hm.
  rewrite (of_int_eq s), (of_int_eq us) by lia.
  assert (ffloor (fdiv (inject_Z us) 1000) = us / 1000) as ->.
  { unfold fdiv. set (q := (inject_Z us / 1000)%Q).
    assert (q * 1000 == inject_Z us)%Q as Eq by (unfold q; field).
    assert (inject_Z us == 1000 * inject_Z (us / 1000) + inject_Z (us mod 1000))%Q as Eu
      by (rewrite Ed at 1; by rewrite inject_Z_plus, inject_Z_mult).
    assert (0 <= inject_Z (us mod 1000) /\ inject_Z (us mod 1000) <= 999)%Q as [Hm0 Hm1]
      by (split; [apply inject_nonneg; lia|apply (inject_le _ 999); lia]).
    assert (0 <= inject_Z (us / 1000) /\ inject_Z (us / 1000) <= 999)%Q as [Hd0 Hd1].
    { split; [apply inject_nonneg; lia|apply (inject_le _ 999)].
      assert (us / 1000 < 1000) by (apply Z.div_lt_upper_bound; lia). lia. }
    assert (inject_Z (us / 1000) <= f64 q)%Q as Hlo by (apply f64_ge_int; [lia|lra]).
    destruct (f64_error q) as [_ He]; [lra|]. unfold eps in He.
    apply Z.le_antisymm.
    - assert (ffloor (f64 q) < us / 1000 + 1); [|lia]. unfold ffloor. rewrite Zlt_Qlt.
      pose proof (Qfloor_le (f64 q)). rewrite inject_Z_plus. change (inject_Z 1) with 1%Q. lra.
    - rewrite <-(of_int_floor (us / 1000)). by apply Qfloor_resp_le. }
  assert (fmul (inject_Z s) 1000 = inject_Z (1000 * s)) as ->.
  { unfold fmul. apply f64_int_of; [lia|]. rewrite inject_Z_mult. change (inject_Z 1000) with 1000%Q. ring. }
  unfold fadd. apply f64_int_of; [lia|]. rewrite Et, inject_Z_plus. reflexivity.
Qed.

(** What the script does once it has read the bucket. *)
Definition finish (now : Z) (tokens ts : Q) : GoM R (list Q) :=
  let elapsed := fsub (inject_Z now) ts in
  let elapsed := if Qlt_bool elapsed 0 then 0%Q else elapsed in
  let tokens := lua_min (inject_Z burst) (fadd tokens (fdiv (fmul elapsed (inject_Z rate)) 1000)) in
  let '(tokens, allowed, retry_ms) :=
    if Qle_bool 1 tokens then (fsub tokens 1, of_int 1, of_int 0)
    else (tokens, of_int 0,
          inject_Z (fceil (fdiv (fmul (fsub 1 tokens) 1000) (inject_Z rate)))) in
  let! _ := HSET key ("n"%string, tokens) ("t"%string, inject_Z now) in
  let! _ := PEXPIRE key
    (to_reply (fadd (inject_Z (fceil (fdiv (fmul (inject_Z burst) 1000) (inject_Z rate)))) 10000)) in
  gret [allowed; inject_Z (ffloor tokens); retry_ms].

Definition pass_reply (p : pass) : list Z := [Z.b2z (granted p); remaining p; retry_ms p].

(** The bucket's hash as the script leaves it. *)
Definition left_at (now : Z) (x : Q) (o : option entry) : Prop :=
  exists m, o = Some (mkEntry (Hash m) (Some (now + keep_ms rate burst))) /\
    m !! "n"%string = Some x /\ m !! "t"%string = Some (inject_Z now).

Lemma keep_arg :
  to_reply (fadd (inject_Z (fceil (fdiv (fmul (inject_Z burst) 1000) (inject_Z rate)))) 10000)
  = keep_ms rate burst.
Proof.
  destruct (keep_bounds rate burst Hrate Hburst) as [Hk _]. unfold keep_ms in *.
  set (c := fceil _) in *. unfold fadd. rewrite (f64_int_of _ (c + 10000)); [apply to_reply_int|lia|].
  by rewrite inject_Z_plus.
Qed.

Lemma HSET_left r x now :
  redis_ok r -> tokens_typed (ms r) (keys r !! key) ->
  exists m e r', HSET key ("n"%string, x) ("t"%string, now) r = (Returns tt, r') /\
    redis_ok r' /\ ms r' = ms r /\ keys r' = <[key := mkEntry (Hash m) e]> (keys r) /\
    m !! "n"%string = Some x /\ m !! "t"%string = Some now.
Proof.
  intros Hr Ht. destruct (keys r !! key) as [e|] eqn:Ek.
  - destruct (Ht e eq_refl) as (m & y & n & t & -> & _).
    destruct (HSET_does r key "n" x "t" now m (Some y) Hr Ek) as (r' & E & ? & HK & ?).
    eexists _, _, r'. split_and!; [done|done|done|exact HK| |].
    + by rewrite lookup_insert_ne, lookup_insert_eq.
    + by rewrite lookup_insert_eq.
  - destruct (HSET_new r key "n" x "t" now Hr Ek) as (r' & E & ? & HK & ?).
    eexists _, _, r'. split_and!; [done|done|done|exact HK| |].
    + by rewrite lookup_insert_ne, lookup_insert_eq.
    + by rewrite lookup_insert_eq.
Qed.

Lemma finish_does r n t :
  redis_ok r -> tokens_typed (ms r) (keys r !! key) -> 0 <= t <= ms r ->
  exists raw r', finish (ms r) n (inject_Z t) r = (Returns raw, r') /\ redis_ok r' /\ ms r' = ms r /\
    map to_reply raw = pass_reply (take_step rate burst (ms r) (Some (n, t))).1 /\
    left_at (ms r) (take_step rate burst (ms r) (Some (n, t))).2 (keys r' !! key) /\
    forall q, q <> key -> keys r' !! q = keys r !! q.
Proof.
  intros Hr Ht Hts. pose proof (ms_range r Hr). unfold finish.
  assert (fsub (inject_Z (ms r)) (inject_Z t) = inject_Z (ms r - t)) as ->.
  { unfold fsub. apply f64_int_of; [lia|]. by rewrite inject_Z_minus. }
  assert (Qlt_bool (inject_Z (ms r - t)) 0 = false) as ->.
  { apply Qlt_bool_false. apply inject_nonneg. lia. }
  cbv zeta. unfold take_step, refilled. rewrite keep_arg.
  set (x := lua_min _ _).
  assert (exists tokens allowed retry,
    (if Qle_bool 1 x then (fsub x 1, of_int 1, of_int 0)
     else (x, of_int 0, inject_Z (fceil (fdiv (fmul (fsub 1 x) 1000) (inject_Z rate)))))
      = (tokens, allowed, retry) /\
    tokens = (if Qle_bool 1 x then (mkPass true (ffloor (fsub x 1)) 0, fsub x 1)
      else (mkPass false (ffloor x) (retry_of rate x), x)).2 /\
    [to_reply allowed; ffloor tokens; to_reply retry]
      = pass_reply (if Qle_bool 1 x then (mkPass true (ffloor (fsub x 1)) 0, fsub x 1)
      else (mkPass false (ffloor x) (retry_of rate x), x)).1)
    as (tokens & allowed & retry & -> & -> & Hrep).
  { destruct (Qle_bool 1 x); eexists _, _, _; (split_and!; [done|done|]); unfold pass_reply; simpl;
      by rewrite ?to_reply_int. }
  set (y := (if Qle_bool 1 x then _ else _).2) in *.
  destruct (HSET_left r y (inject_Z (ms r)) Hr Ht) as (m & e & r1 & E1 & Hr1 & Ht1 & HK1 & Hm1 & Hm2).
  destruct (keep_bounds rate burst Hrate Hburst) as [Hk _].
  destruct (PEXPIRE_does r1 key (keep_ms rate burst) Hr1 ltac:(lia)) as (r2 & E2 & Hr2 & HK2 & Ht2).
  exists [allowed; inject_Z (ffloor y); retry], r2.
  rewrite (gbind_returns _ _ _ _ _ E1), (gbind_returns _ _ _ _ _ E2).
  split_and!; [done|done|congruence| | |].
  - cbn [map]. by rewrite to_reply_int.
  - exists m. split_and!; [|done|done].
    by rewrite HK2, HK1, lookup_alter_eq, lookup_insert_eq, Ht1.
  - intros q Hq. by rewrite HK2, HK1, lookup_alter_ne, lookup_insert_ne.
Qed.

(** The level kept under the key. *)
Definition level_at (o : option entry) : level :=
  match o with
  | Some (mkEntry (Hash m) _) =>
      match m !! "n"%string, m !! "t"%string with
      | Some n, Some t => Some (n, Qfloor t)
      | _, _ => None
      end
  | _ => None
  end.

Lemma take_does r :
  redis_ok r -> tokens_typed (ms r) (keys r !! key) ->
  let o := level_at (keys r !! key) in
  exists raw r', take key rate burst r = (Returns raw, r') /\ redis_ok r' /\ ms r' = ms r /\
    map to_reply raw = pass_reply (take_step rate burst (ms r) o).1 /\
    left_at (ms r) (take_step rate burst (ms r) o).2 (keys r' !! key) /\
    forall q, q <> key -> keys r' !! q = keys r !! q.
Proof.
  intros Hr Ht. pose proof (ms_range r Hr).
  destruct (TIME_does r Hr) as (s & us & Hs & Hus & Ems & (r1 & E1 & Hr1 & HK1 & Ht1)).
  unfold take. rewrite (of_int_eq rate), (of_int_eq burst) by lia. cbv zeta.
  rewrite (gbind_returns _ _ _ _ _ E1), (script_clock s us (ms r)) by lia.
  destruct (keys r !! key) as [e|] eqn:Ek.
  - destruct (Ht e eq_refl) as (m & x & n & t & -> & Hn & Htt & Hn0 & Htr).
    assert (keys r1 !! key = Some (mkEntry (Hash m) (Some x))) as Ek1 by by rewrite HK1.
    destruct (HMGET_does r1 key "n" "t" m (Some x) Hr1 Ek1) as (r2 & E2 & Hr2 & HK2 & Ht2).
    rewrite Hn, Htt in E2. rewrite (gbind_returns _ _ _ _ _ E2).
    destruct (finish_does r2 n t) as (raw & r' & E & Hr' & Ht' & Hrep & Hl & Ho).
    { done. } { by rewrite HK2, HK1, Ht2, Ht1, Ek. } { lia. }
    rewrite Ht2, Ht1 in *. exists raw, r'. simpl. rewrite Hn, Htt, Qfloor_Z.
    split_and!; [exact E|done|congruence|done|done|].
    intros q Hq. by rewrite Ho, HK2, HK1.
  - destruct (HMGET_none r1 key "n" "t" Hr1 ltac:(by rewrite HK1)) as (r2 & E2 & Hr2 & HK2 & Ht2).
    rewrite (gbind_returns _ _ _ _ _ E2).
    destruct (finish_does r2 (inject_Z burst) (ms r)) as (raw & r' & E & Hr' & Ht' & Hrep & Hl & Ho).
    { done. } { by rewrite HK2, HK1, Ht2, Ht1, Ek. } { lia. }
    rewrite Ht2, Ht1 in *. exists raw, r'. simpl.
    split_and!; [exact E|done|congruence|done|done|].
    intros q Hq. by rewrite Ho, HK2, HK1.
Qed.

End take_spec.

(** ** Runs of the bucket *)
Section token_runs.
Context (rate burst : Z) (Hrate : 0 < rate <= 2 ^ 53) (Hburst : 0 < burst <= 2 ^ 40).

(** An idle bucket is forgotten when its key expires. *)
Definition faded (now : Z) (o : level) : level :=
  match o with
  | Some (n, t) => if now <? t + keep_ms rate burst then Some (n, t) else None
  | None => None
  end.

(** Calls at the given instants. *)
Fixpoint take_run (times : list Z) (o : level) : list pass * level :=
  match times with
  | [] => ([], o)
  | t :: ts =>
      let (p, x) := take_step rate burst t (faded t o) in
      let (l, o) := take_run ts (Some (x, t)) in
      (p :: l, o)
  end.

Definition admitted (l : list pass) : Z := Z.of_nat (List.length (filter (fun p => granted p = true) l)).

#[local] Open Scope Q_scope.

Lemma level_ok_faded now o : level_ok now o -> level_ok now (faded now o).
Proof.
  intros Ho n t E. apply Ho. unfold faded in E. destruct o as [[n' t']|]; [|done]. by destruct (_ <? _)%Z.
Qed.

Lemma level_ok_later now now' o : (now <= now')%Z -> level_ok now o -> level_ok now' o.
Proof. intros Hle Ho n t E. destruct (Ho n t E) as [? ?]. split; [done|lia]. Qed.

Lemma take_step_level now o :
  level_ok now o -> (0 <= now)%Z -> level_ok now (Some ((take_step rate burst now o).2, now)).
Proof.
  intros Ho Hnow n t [= <- <-]. split; [|lia]. destruct (refilled_bounds rate burst Hrate Hburst now o Ho).
  unfold take_step. destruct (Qle_bool 1 _) eqn:E; simpl; [|done].
  apply Qle_bool_iff in E. by apply (spent_bounds burst Hburst).
Qed.

(** What the two roundings of a refill can add. *)
Lemma gain_upper d :
  (0 <= d)%Z -> gain rate d <= inject_Z d * inject_Z rate / 1000 * (1 + 3 * eps).
Proof.
  intros Hd. pose proof (inject_nonneg d Hd) as Hdq. pose proof (rate_pos rate Hrate) as Hr.
  unfold gain, fdiv, fmul. set (p := inject_Z d * inject_Z rate).
  assert (0 <= p) as Hp by (unfold p; nra).
  destruct (f64_error p Hp) as [_ H1]. pose proof (f64_nonneg p Hp) as H0.
  assert (0 <= f64 p / 1000) as Hq by (unfold Qdiv; change (/ 1000) with (1 # 1000); lra).
  destruct (f64_error _ Hq) as [_ H2].
  assert (f64 p / 1000 == f64 p * (1 # 1000)) as E1 by reflexivity.
  assert (p / 1000 == p * (1 # 1000)) as E2 by reflexivity.
  rewrite E1 in H2 |- *. rewrite E2. unfold eps in *. lra.
Qed.

(** A refill is worth the time that passed, up to rounding. *)
Lemma refilled_upper now n t :
  level_ok now (Some (n, t)) ->
  refilled rate burst now (faded now (Some (n, t))) <=
    n + inject_Z (now - t) * inject_Z rate / 1000 * (1 + 3 * eps) + 2 * eps * inject_Z burst.
Proof.
  intros Ho. destruct (Ho n t eq_refl) as [Hn Ht]. pose proof (rate_pos rate Hrate) as Hr.
  pose proof (inject_nonneg burst ltac:(lia)) as Hb. pose proof (gain_upper (now - t) ltac:(lia)) as Hg.
  pose proof (gain_nonneg rate Hrate (now - t) ltac:(lia)) as Hg0. unfold gain in Hg, Hg0.
  unfold faded. destruct (Z.ltb_spec now (t + keep_ms rate burst)) as [Hlt|Hge].
  - unfold refilled. set (g := fdiv _ _) in *. destruct (lua_min_le (inject_Z burst) (fadd n g)) as [L1 L2].
    destruct (Qlt_le_dec (2 * inject_Z burst) (n + g)) as [Hbig|Hsmall]; [unfold eps in *; lra|].
    unfold fadd in *. destruct (f64_error (n + g)) as [_ He]; [lra|]. unfold eps in *. lra.
  - destruct (refilled_bounds rate burst Hrate Hburst now None) as [_ Hup]; [done|].
    destruct (keep_bounds rate burst Hrate Hburst) as [_ Hk]. rewrite inject_Z_mult in Hk.
    change (inject_Z 1000) with 1000 in Hk.
    pose proof (inject_le (keep_ms rate burst) (now - t) ltac:(lia)) as Hd.
    assert (inject_Z burst * 1000 <= inject_Z (now - t) * inject_Z rate) as Hfull by nra.
    assert (inject_Z (now - t) * inject_Z rate / 1000 == inject_Z (now - t) * inject_Z rate * (1 # 1000))
      as E by reflexivity.
    rewrite E. unfold eps. lra.
Qed.

Lemma take_step_upper now n t :
  level_ok now (Some (n, t)) ->
  let (p, x) := take_step rate burst now (faded now (Some (n, t))) in
  x + inject_Z (Z.b2z (granted p)) <=
    n + inject_Z (now - t) * inject_Z rate / 1000 * (1 + 3 * eps) + 3 * eps * inject_Z burst.
Proof.
  intros Ho. pose proof (refilled_upper now n t Ho) as Hup.
  destruct (refilled_bounds rate burst Hrate Hburst now _ (level_ok_faded now _ Ho)) as [H0 H1].
  pose proof (inject_nonneg burst ltac:(lia)) as Hb.
  unfold take_step. set (x := refilled rate burst now _) in *.
  destruct (Qle_bool 1 x) eqn:E; simpl.
  - apply Qle_bool_iff in E. change (inject_Z 1) with 1. unfold fsub.
    destruct (f64_error (x - 1)) as [_ He]; [lra|]. unfold eps in *. lra.
  - change (inject_Z 0) with 0. unfold eps in *. lra.
Qed.

Lemma admitted_cons p l : admitted (p :: l) = (Z.b2z (granted p) + admitted l)%Z.
Proof.
  unfold admitted. rewrite filter_cons. destruct (granted p); simpl; [|done]. lia.
Qed.

(** Nondecreasing instants from [t0] on. *)
Fixpoint later_than (t0 : Z) (ts : list Z) : Prop :=
  match ts with [] => True | t :: ts => (t0 <= t)%Z /\ later_than t ts end.

Definition last_of (t0 : Z) (ts : list Z) : Z := List.last ts t0.

Lemma last_of_cons t0 t ts : last_of t0 (t :: ts) = last_of t ts.
Proof.
  unfold last_of. revert t0 t. induction ts as [|t' ts IH]; intros t0 t; [done|].
  change (List.last (t :: t' :: ts) t0) with (List.last (t' :: ts) t0). by rewrite !IH.
Qed.

Lemma take_run_upper ts n t0 :
  level_ok t0 (Some (n, t0)) -> later_than t0 ts ->
  inject_Z (admitted (take_run ts (Some (n, t0))).1) <=
    n + inject_Z (last_of t0 ts - t0) * inject_Z rate / 1000 * (1 + 3 * eps)
      + inject_Z (Z.of_nat (List.length ts)) * (3 * eps * inject_Z burst).
Proof.
  revert n t0. induction ts as [|t ts IH]; intros n t0 Ho Hts.
  - destruct (Ho n t0 eq_refl) as [Hn _]. cbn. unfold last_of. simpl. rewrite Z.sub_diag.
    change (inject_Z 0) with 0. assert (0 * inject_Z rate / 1000 == 0) as E by field. rewrite E. change (inject_Z (admitted [])) with 0. change (inject_Z (Z.of_nat 0)) with 0. lra.
  - destruct Hts as [Ht Hts]. destruct (Ho n t0 eq_refl) as [Hn Ht0].
    assert (level_ok t (Some (n, t0))) as Ho' by by apply (level_ok_later t0).
    pose proof (take_step_upper t n t0 Ho') as Hs.
    pose proof (take_step_level t _ (level_ok_faded t _ Ho') ltac:(lia)) as Hx.
    cbn [take_run]. destruct (take_step rate burst t _) as [p x] eqn:Ep. simpl in Hx.
    specialize (IH x t Hx Hts). destruct (take_run ts (Some (x, t))) as [l o']. cbn [fst snd List.length] in IH |- *.
    rewrite admitted_cons, inject_Z_plus, last_of_cons.
    replace (Z.of_nat (S (List.length ts))) with (Z.of_nat (List.length ts) + 1)%Z by lia.
    rewrite inject_Z_plus. change (inject_Z 1) with 1.
    replace (last_of t ts - t0)%Z with ((last_of t ts - t) + (t - t0))%Z by lia.
    rewrite inject_Z_plus.
    set (T := inject_Z (last_of t ts - t)) in *. set (D := inject_Z (t - t0)) in *.
    assert ((T + D) * inject_Z rate / 1000 == T * inject_Z rate / 1000 + D * inject_Z rate / 1000)
      as E by field.
    rewrite E. set (a := T * inject_Z rate / 1000) in *. set (d := D * inject_Z rate / 1000) in *.
    set (N := inject_Z (Z.of_nat (List.length ts))) in *. unfold eps in *. lra.
Qed.

(** A bucket at [m] tokens or more grants the next [m] calls, whenever they come. *)
Lemma take_run_grants ts n t0 m :
  level_ok t0 (Some (n, t0)) -> later_than t0 ts ->
  (0 <= m <= burst)%Z -> inject_Z m <= n ->
  forall i p, (take_run ts (Some (n, t0))).1 !! i = Some p -> (Z.of_nat i < m)%Z -> granted p = true.
Proof.
  revert n t0 m. induction ts as [|t ts IH]; intros n t0 m Ho [] Hm Hn i p; [done|].
  assert (level_ok t (Some (n, t0))) as Ho' by by apply (level_ok_later t0).
  pose proof (take_step_level t _ (level_ok_faded t _ Ho') ltac:(destruct (Ho n t0 eq_refl); lia)) as Hx.
  assert (inject_Z m <= refilled rate burst t (faded t (Some (n, t0)))) as Hr.
  { unfold faded, refilled. pose proof (inject_le m burst ltac:(lia)).
    destruct (_ <? _)%Z; apply lua_min_glb; try done; unfold fadd; apply f64_ge_int; try lia;
      [pose proof (gain_nonneg rate Hrate (t - t0) ltac:(lia)) as Hg
      |pose proof (gain_nonneg rate Hrate (t - t) ltac:(lia)) as Hg]; unfold gain in Hg; lra. }
  cbn [take_run]. destruct (take_step rate burst t _) as [q x] eqn:Eq. simpl in Hx.
  destruct (Z.le_gt_cases 1 m) as [Hm1|Hm0]; [|lia].
  unfold take_step in Eq. set (y := refilled rate burst t _) in *.
  assert (Qle_bool 1 y = true) as Ey.
  { apply Qle_bool_iff. pose proof (inject_le 1 m Hm1). change (inject_Z 1) with 1 in *. lra. }
  rewrite Ey in Eq. injection Eq as <- <-.
  assert (inject_Z (m - 1) <= fsub y 1) as Hy.
  { unfold fsub. apply f64_ge_int; [lia|]. rewrite inject_Z_minus. change (inject_Z 1) with 1. lra. }
  specialize (IH _ t (m - 1)%Z Hx ltac:(done) ltac:(lia) Hy).
  destruct (take_run ts _) as [l o']. destruct i as [|i]; simpl in *.
  - by intros [= <-] _.
  - intros Hi Him. apply (IH i p Hi). lia.
Qed.

End token_runs.

(** ** [Take] on the store *)
Section take_store.
Context {R : Type} `{RedisCommands R}.
Context (fmt_Bucket : Bucket -> string) (prefix : string).

Abbreviation Take := (Redis_Take fmt_Bucket prefix).
Abbreviation store_ok := (store_ok prefix).

Definition level_of (r : R) (k : Key) : level := level_at (keys r !! key_of prefix KTokens k).

(** The step a bucket's parameters make of its level. *)
Definition bucket_step (b : Bucket) (now : Z) (o : level) : pass * Q :=
  take_step (Bucket_Rate b) (Bucket_Burst b) now o.

Definition take_result (p : pass) : TakeResult :=
  mkTakeResult (granted p) (remaining p) (retry_ms p * Millisecond).

(** What the script does to the store. *)
Definition took (r : R) (k : Key) (b : Bucket) (r' : R) : Prop :=
  store_ok r' /\ ms r' = ms r /\
  left_at (Bucket_Rate b) (Bucket_Burst b) (ms r) (bucket_step b (ms r) (level_of r k)).2
    (keys r' !! key_of prefix KTokens k) /\
  (forall k', ~ same_bucket k k' ->
     keys r' !! key_of prefix KTokens k' = keys r !! key_of prefix KTokens k') /\
  (forall k', window_of prefix r' k' = window_of prefix r k').

Lemma level_of_ok r k : store_ok r -> level_ok (ms r) (level_of r k).
Proof.
  intros (_ & _ & Ht) n t E. specialize (Ht k). unfold level_of, level_at in E.
  destruct (keys r !! _) as [e|] eqn:Ek; [|done].
  destruct (Ht e eq_refl) as (m & x & n' & t' & -> & Hn & Htt & ? & ?).
  rewrite Hn, Htt, Qfloor_Z in E. by simplify_eq.
Qed.

Lemma Bucket_ranges b : Bucket_Valid b = true -> Bucket_in_range b ->
  0 < Bucket_Rate b <= 2 ^ 53 /\ 0 < Bucket_Burst b <= 2 ^ 40.
Proof. intros (? & ?)%Bucket_Valid_spec (? & ?). lia. Qed.

Lemma left_at_level rate burst now x o : left_at rate burst now x o -> level_at o = Some (x, now).
Proof. intros (m & -> & Hn & Ht). simpl. by rewrite Hn, Ht, Qfloor_Z. Qed.

(** A step answers within its bounds. *)
Lemma bucket_step_bounds b now o :
  Bucket_Valid b = true -> Bucket_in_range b -> level_ok now o ->
  let p := (bucket_step b now o).1 in
  (if granted p then 0 <= remaining p <= Bucket_Burst b - 1 /\ retry_ms p = 0
   else remaining p = 0 /\ 1 <= retry_ms p <= 1000).
Proof.
  intros Hv Hr Ho. destruct (Bucket_ranges b Hv Hr) as [Hrate Hburst].
  destruct (refilled_bounds _ _ Hrate Hburst now o Ho) as [Hx0 Hx1].
  unfold bucket_step, take_step. set (x := refilled _ _ _ _) in *.
  destruct (Qle_bool 1 x) eqn:E; simpl.
  - apply Qle_bool_iff in E. destruct (spent_bounds _ Hburst x E Hx1) as [Hs0 Hs1].
    split; [|done]. by apply floor_bounds.
  - apply Qle_bool_false in E. split; [|by apply retry_bounds].
    assert (0 <= ffloor x <= 0); [|lia]. split; [by apply (floor_bounds x 0 (Bucket_Burst b))|].
    assert (ffloor x < 1); [|lia]. unfold ffloor. rewrite Zlt_Qlt.
    pose proof (Qfloor_le x). change (inject_Z 1) with 1%Q. lra.
Qed.

Lemma take_took r k b :
  store_ok r -> Bucket_Valid b = true -> Bucket_in_range b ->
  exists raw r', take (key_of prefix KTokens k) (Bucket_Rate b) (Bucket_Burst b) r = (Returns raw, r') /\
    map to_reply raw = pass_reply (bucket_step b (ms r) (level_of r k)).1 /\ took r k b r'.
Proof.
  intros Hok Hv Hr. destruct (Bucket_ranges b Hv Hr) as [Hrate Hburst].
  pose proof Hok as (Hro & Hw & Ht).
  destruct (take_does _ _ Hrate Hburst (key_of prefix KTokens k) r Hro (Ht k))
    as (raw & r' & E & Hr' & Hms & Hrep & Hl & Ho).
  exists raw, r'. split; [done|]. split; [done|].
  assert (forall j k', j <> KTokens \/ ~ same_bucket k k' ->
            keys r' !! key_of prefix j k' = keys r !! key_of prefix j k') as Hother.
  { intros j k' Hn. apply Ho. destruct Hn; apply not_eq_sym, key_of_other; [by left; apply not_eq_sym|by right]. }
  assert (forall k', window_of prefix r' k' = window_of prefix r k') as Hwin.
  { intros k'. apply window_of_lookup; apply Hother; by left. }
  unfold took. split_and!; [|done|done|intros; apply Hother; by right|done].
  split_and!; [done| |].
  - intros k'. rewrite Hwin. specialize (Hw k'). unfold holds in *. rewrite Hms.
    by rewrite !Hother by by left.
  - intros k'. destruct (stdpp.base.decide (same_bucket k k')) as [Hs|Hs].
    + rewrite <-(key_of_same prefix _ _ _ Hs). destruct Hl as (m & -> & Hn & Htt).
      intros e [= <-]. eexists m, _, _, (ms r). split_and!; [done|done|done| | |lia].
      * pose proof (level_of_ok r k Hok) as Hlo. pose proof (ms_range r Hro).
        destruct (take_step_level _ _ Hrate Hburst (ms r) _ Hlo ltac:(lia) _ _ eq_refl) as [? _]. done.
      * pose proof (ms_range r Hro). lia.
    + rewrite Hother by by right. rewrite Hms. apply Ht.
Qed.

Lemma Take_refines r k b :
  store_ok r -> Bucket_Valid b = true -> Bucket_in_range b ->
  let p := (bucket_step b (ms r) (level_of r k)).1 in
  exists res err r', Take k b r = (Returns (res, err), r') /\
    (if granted p then 0 <= remaining p <= Bucket_Burst b - 1 /\ retry_ms p = 0
     else remaining p = 0 /\ 1 <= retry_ms p <= 1000) /\
    match (transport r).1 with
    | Delivered => res = take_result p /\ err = None /\ took r k b r'
    | NotSent _ => res = TakeResult_zero /\ err <> None /\ unchanged prefix r r'
    | ReplyLost _ => res = TakeResult_zero /\ err <> None /\ took r k b r'
    end.
Proof.
  intros Hok Hv Hr p. destruct (transport_keeps r (proj1 Hok)) as (Hr0 & HK0 & Ht0).
  pose proof (store_ok_same prefix _ _ Hok Hr0 HK0 Ht0) as Hok0.
  destruct (take_took _ k b Hok0 Hv Hr) as (raw & r1 & E1 & Hraw & Htook).
  pose proof (bucket_step_bounds b (ms r) _ Hv Hr (level_of_ok r k Hok)) as Hb. fold p in Hb.
  assert (took r k b r1) as Htook'.
  { unfold took, level_of, window_of in *. by rewrite <-HK0, <-Ht0. }
  assert (level_of (transport r).2 k = level_of r k) as El by (unfold level_of; by rewrite HK0).
  rewrite El, Ht0 in Hraw. fold p in Hraw.
  unfold Redis_Take. rewrite Hv. cbn [negb]. unfold gbind, run.
  destruct (transport r) as [[|e|e] r0]; simpl in *.
  - rewrite E1, Hraw. unfold pass_reply, gret. eexists _, _, r1. split_and!; [done|done| |done|done].
    unfold take_result. rewrite wrap64_id; [by destruct (granted p)|].
    unfold in_int64, min_int64, max_int64, Millisecond. destruct (granted p); lia.
  - unfold gret. eexists _, _, r0. by split_and!.
  - rewrite E1. unfold gret. eexists _, _, r1. by split_and!.
Qed.

(** C9: [Take] on the Redis store is one step of the token bucket, computed in
    doubles from the server's clock: granted exactly when the refilled level is a
    whole token, with what is left; otherwise refused with between a millisecond
    and a second to wait.  When the script was not run nothing changes, when only
    the reply was lost the token is spent, and no other bucket is touched. *)
Theorem Take_refines_bucket r k b :
  store_ok r -> Bucket_Valid b = true -> Bucket_in_range b ->
  let p := (bucket_step b (ms r) (level_of r k)).1 in
  exists res err r', Take k b r = (Returns (res, err), r') /\
    (if granted p then 0 <= remaining p <= Bucket_Burst b - 1 /\ retry_ms p = 0
     else remaining p = 0 /\ 1 <= retry_ms p <= 1000) /\
    match (transport r).1 with
    | Delivered => res = take_result p /\ err = None /\ took r k b r'
    | NotSent _ => res = TakeResult_zero /\ err <> None /\ unchanged prefix r r'
    | ReplyLost _ => res = TakeResult_zero /\ err <> None /\ took r k b r'
    end.
Proof. apply Take_refines. Qed.

End take_store.

(** ** Histories of a token bucket *)
Section take_histories.
Context {R : Type} `{RedisCommands R}.
Context (fmt_Bucket : Bucket -> string) (prefix : string) (k : Key) (b : Bucket).
Context (Hv : Bucket_Valid b = true) (Hrange : Bucket_in_range b).

Abbreviation Take := (Redis_Take fmt_Bucket prefix).
Abbreviation store_ok := (store_ok prefix).
Abbreviation level_of := (level_of prefix).
Abbreviation tokens_key := (key_of prefix KTokens k).
Abbreviation run_bucket := (take_run (Bucket_Rate b) (Bucket_Burst b)).
Abbreviation fade := (faded (Bucket_Rate b) (Bucket_Burst b)).

(** The answered calls on [k], among time passing and anything that leaves the
    bucket alone. *)
Inductive take_history : R -> list (Z * TakeResult) -> R -> Prop :=
| take_history_nil r : take_history r [] r
| take_history_idle r r1 l r2 : idle r r1 -> take_history r1 l r2 -> take_history r l r2
| take_history_other r r1 l r2 :
    store_ok r1 -> ms r1 = ms r -> keys r1 !! tokens_key = keys r !! tokens_key ->
    take_history r1 l r2 -> take_history r l r2
| take_history_call r res r1 l r2 :
    (transport r).1 = Delivered -> Take k b r = (Returns (res, None), r1) ->
    take_history r1 l r2 -> take_history r ((ms r, res) :: l) r2.

(** The key is absent, or as a call with these parameters left it. *)
Definition kept (r : R) : Prop :=
  keys r !! tokens_key = None \/
  exists x t, left_at (Bucket_Rate b) (Bucket_Burst b) t x (keys r !! tokens_key).

Lemma kept_idle r r1 : kept r -> idle r r1 ->
  kept r1 /\ level_of r1 k = fade (ms r1) (level_of r k).
Proof.
  intros Hk (_ & _ & HK). unfold kept, TokenBucket.level_of. rewrite HK.
  destruct Hk as [Hn|(x & t & Hl)].
  - rewrite lookup_expire_None by done. rewrite Hn. split; [by left|done].
  - pose proof (left_at_level _ _ _ _ _ Hl) as Elev. rewrite Elev. destruct Hl as (m & E & Hn & Ht).
    rewrite (lookup_expire_entry _ _ _ _ _ E). unfold faded.
    destruct (ms r1 <? _) eqn:Elt.
    + split; [right; exists x, t, m; by split_and!|]. by rewrite <-E.
    + split; [by left|done].
Qed.

Lemma fade_now r : store_ok r -> kept r -> fade (ms r) (level_of r k) = level_of r k.
Proof.
  intros (Hr & _) [Hn|(x & t & Hl)]; unfold TokenBucket.level_of; [by rewrite Hn|].
  rewrite (left_at_level _ _ _ _ _ Hl). destruct Hl as (m & E & _).
  pose proof (keys_live r _ _ Hr E) as Hlive. unfold faded.
  by replace (ms r <? _) with true by (symmetry; by apply Z.ltb_lt).
Qed.

Lemma take_run_fade t t0 ts o : t0 <= t ->
  run_bucket (t :: ts) (fade t0 o) = run_bucket (t :: ts) o.
Proof.
  intros Ht. cbn [take_run]. enough (fade t (fade t0 o) = fade t o) as -> by done.
  destruct o as [[n s]|]; [|done]. unfold faded.
  destruct (Z.ltb_spec t0 (s + keep_ms (Bucket_Rate b) (Bucket_Burst b))); [done|].
  by destruct (Z.ltb_spec t (s + keep_ms (Bucket_Rate b) (Bucket_Burst b))); [lia|].
Qed.

Lemma later_than_mono t0 t1 ts : t0 <= t1 -> later_than t1 ts -> later_than t0 ts.
Proof. destruct ts as [|t ts]; [done|]. intros ? [??]. split; [lia|done]. Qed.

Lemma take_history_run r l r' :
  store_ok r -> kept r -> take_history r l r' ->
  later_than (ms r) l.*1 /\ l.*2 = map take_result (run_bucket l.*1 (level_of r k)).1.
Proof.
  intros Hok Hk Hh. induction Hh as [r|r r1 l r2 Hi Hh IH|r r1 l r2 Hok1 Hms Hkey Hh IH|r res r1 l r2 Hd Et Hh IH].
  - done.
  - destruct (kept_idle r r1 Hk Hi) as [Hk1 El].
    destruct (IH (store_ok_idle prefix _ _ Hok Hi) Hk1) as [Hl E].
    destruct Hi as (_ & Hms & _). split; [by apply (later_than_mono _ (ms r1))|].
    rewrite El in E. destruct l as [|[t a] l]; [done|]. cbn [fmap list_fmap fst] in *.
    rewrite E, take_run_fade; [done|apply Hl].
  - assert (kept r1) as Hk1 by (unfold kept; by rewrite Hkey).
    destruct (IH Hok1 Hk1) as [Hl E]. rewrite Hms in Hl. split; [done|].
    unfold TokenBucket.level_of in *. by rewrite Hkey in E.
  - destruct (transport_keeps r (proj1 Hok)) as (Hr0 & HK0 & Ht0).
    pose proof (store_ok_same prefix _ _ Hok Hr0 HK0 Ht0) as Hok0.
    destruct (take_took prefix _ k b Hok0 Hv Hrange) as (raw & r1' & E1 & Hraw & Hok1 & Hms1 & Hleft & _).
    assert (level_of (transport r).2 k = level_of r k) as Elv
      by (unfold TokenBucket.level_of; by rewrite HK0).
    rewrite Elv, Ht0 in *.
    pose proof (bucket_step_bounds b (ms r) _ Hv Hrange (level_of_ok prefix r k Hok)) as Hb.
    assert (r1 = r1' /\ res = take_result (bucket_step b (ms r) (level_of r k)).1) as [-> ->].
    { unfold Redis_Take in Et. rewrite Hv in Et. cbn [negb] in Et. unfold gbind, run in Et.
      destruct (transport r) as [d r0]. simpl in *. subst d. rewrite E1, Hraw in Et.
      unfold pass_reply, gret in Et. simplify_eq. split; [done|]. unfold take_result.
      rewrite wrap64_id; [by destruct (granted _)|].
      unfold in_int64, min_int64, max_int64, Millisecond. destruct (granted _); lia. }
    assert (kept r1') as Hk1 by (right; by eexists _, _).
    destruct (IH Hok1 Hk1) as [Hl E]. split; [split; [apply Z.le_refl|by rewrite Hms1 in Hl]|].
    cbn [fmap list_fmap fst snd take_run]. rewrite (fade_now _ Hok Hk).
    fold (bucket_step b (ms r) (level_of r k)).
    rewrite (left_at_level _ _ _ _ _ Hleft : level_of r1' k = _) in E.
    destruct (bucket_step b (ms r) (level_of r k)) as [p x]. cbn [fst snd] in *.
    rewrite E. by destruct (run_bucket l.*1 (Some (x, ms r))).
Qed.

(** A new token bucket grants its whole burst: the first [burst] calls on a
    bucket Redis does not hold are allowed, however they are spaced in time -
    rounding never costs a token. *)
Theorem new_bucket_grants_burst r l r' i t res :
  store_ok r -> keys r !! tokens_key = None -> take_history r l r' ->
  l !! i = Some (t, res) -> Z.of_nat i < Bucket_Burst b -> TakeResult_Allowed res = true.
Proof.
  intros Hok Hn Hh Hi Hlt. destruct (Bucket_ranges b Hv Hrange) as [Hrate Hburst].
  destruct (take_history_run r l r' Hok (or_introl Hn) Hh) as [Hl E].
  assert (level_of r k = None) as Elv by (unfold TokenBucket.level_of; by rewrite Hn).
  rewrite Elv in E.
  assert (l.*2 !! i = Some res) as Er by (by rewrite list_lookup_fmap, Hi).
  rewrite E in Er. apply list_lookup_fmap_Some in Er as (p & -> & Hp). simpl.
  destruct l as [|[t0 a] l]; [done|]. cbn [fmap list_fmap fst] in *. destruct Hl as [Ht0 Hl].
  pose proof (ms_range r (proj1 Hok)).
  eapply (take_run_grants _ _ Hrate Hburst (t0 :: l.*1) (inject_Z (Bucket_Burst b)) t0 (Bucket_Burst b));
    [|split; [done|exact Hl]|lia|apply Qle_refl| |exact Hlt].
  - intros n s [= <- <-]. split; [apply inject_nonneg; lia|lia].
  - cbn [take_run] in *. destruct (keep_bounds _ _ Hrate Hburst) as [Hk _].
    assert (fade t0 (Some (inject_Z (Bucket_Burst b), t0)) = Some (inject_Z (Bucket_Burst b), t0)) as ->.
    { unfold faded. by replace (t0 <? _) with true by (symmetry; apply Z.ltb_lt; lia). }
    exact Hp.
Qed.

(** A token bucket bounds what it admits.  Among calls on a bucket Redis does
    not hold at first, spread over [T] milliseconds, at most
    [burst + rate * T / 1000] are allowed, up to the rounding of the doubles: three
    parts in 2^53 of the refill, and of the burst for every call made. *)
Theorem admission_bound r l r' t0 a0 :
  store_ok r -> keys r !! tokens_key = None -> take_history r ((t0, a0) :: l) r' ->
  (inject_Z (Z.of_nat (List.length (filter (fun '(_, res) => TakeResult_Allowed res = true) ((t0, a0) :: l))))
   <= inject_Z (Bucket_Burst b)
      + inject_Z (last_of t0 l.*1 - t0) * inject_Z (Bucket_Rate b) / 1000 * (1 + 3 * eps)
      + inject_Z (Z.of_nat (List.length ((t0, a0) :: l))) * (3 * eps * inject_Z (Bucket_Burst b)))%Q.
Proof.
  intros Hok Hn Hh. destruct (Bucket_ranges b Hv Hrange) as [Hrate Hburst].
  destruct (take_history_run _ _ _ Hok (or_introl Hn) Hh) as [[Ht0 Hl] E].
  assert (level_of r k = None) as Elv by (unfold TokenBucket.level_of; by rewrite Hn).
  rewrite Elv in E. cbn [fmap list_fmap fst snd] in *.
  destruct (keep_bounds _ _ Hrate Hburst) as [Hk _]. pose proof (ms_range r (proj1 Hok)).
  assert (run_bucket (t0 :: l.*1) None
    = run_bucket (t0 :: l.*1) (Some (inject_Z (Bucket_Burst b), t0))) as Er.
  { cbn [take_run]. unfold faded at 2.
    by replace (t0 <? _) with true by (symmetry; apply Z.ltb_lt; lia). }
  rewrite Er in E.
  assert (forall (l : list (Z * TakeResult)) ps, l.*2 = map take_result ps ->
    List.length (filter (fun '(_, res) => TakeResult_Allowed res = true) l) =
    List.length (filter (fun p => granted p = true) ps)) as Hlen.
  { clear. induction l as [|[t res] l IH]; intros [|p ps] E; simpl in E; try done.
    injection E as -> E. specialize (IH _ E). rewrite !filter_cons. simpl.
    destruct (granted p); simpl; [by rewrite IH|done]. }
  rewrite (Hlen ((t0, a0) :: l) _ E).
  pose proof (take_run_upper _ _ Hrate Hburst (t0 :: l.*1) (inject_Z (Bucket_Burst b)) t0) as Hup.
  rewrite last_of_cons in Hup. unfold admitted in Hup.
  replace (List.length (t0 :: l.*1)) with (List.length ((t0, a0) :: l)) in Hup
    by (simpl; by rewrite length_fmap).
  apply Hup; [|by split]. intros n s [= <- <-]. split; [apply inject_nonneg; lia|lia].
Qed.

End take_histories.

(** ** Instances of the theorems *)
Section examples.

Definition no_fmt_Bucket (_ : Bucket) : string := "{...}".
Definition two_per_second : Bucket := mkBucket 2 3.

Lemma two_per_second_ok : Bucket_Valid two_per_second = true /\ Bucket_in_range two_per_second.
Proof. split; [done|]. split; vm_compute; congruence. Qed.

Abbreviation take_call := (Redis_Take no_fmt_Bucket "fl:" visitor two_per_second).
Abbreviation take_history_of := (take_history no_fmt_Bucket "fl:" visitor two_per_second).
Abbreviation ok := (store_ok "fl:").

Lemma Take_refines_bucket_witness :
  let p := (bucket_step two_per_second start_ms (level_of "fl:" empty_redis visitor)).1 in
  exists res err r', take_call empty_redis = (Returns (res, err), r') /\
    res = mkTakeResult true 2 0 /\
    (if granted p then 0 <= remaining p <= Bucket_Burst two_per_second - 1 /\ retry_ms p = 0
     else remaining p = 0 /\ 1 <= retry_ms p <= 1000) /\
    (res = take_result p /\ err = None /\ took "fl:" empty_redis visitor two_per_second r').
Proof.
  destruct (Take_refines_bucket no_fmt_Bucket "fl:" empty_redis visitor two_per_second)
    as (res & err & r' & E & Hb & Hm);
    [apply empty_ok|apply two_per_second_ok|apply two_per_second_ok|].
  exists res, err, r'. split; [exact E|]. split; [|split; [exact Hb|exact Hm]].
  destruct Hm as (-> & _). vm_compute. reflexivity.
Defined.

Definition token_after (r : sim_redis) : sim_redis := (take_call r).2.

Lemma token_after_ok r : ok r -> ok (token_after r).
Proof.
  intros Hr. destruct two_per_second_ok as [Hv Hg].
  destruct (take_took "fl:" r visitor two_per_second Hr Hv Hg) as (raw & r' & E & Hm & Hok & _).
  unfold token_after, Redis_Take. rewrite Hv. cbn [negb]. unfold gbind, run. cbn [transport sim_redis_commands].
  rewrite E, Hm. unfold pass_reply, gret. exact Hok.
Qed.

Lemma token_hit r d t res l r2 :
  ok r -> 0 <= d -> t = sim_ms r -> sim_ms r + d < 2 ^ 53 ->
  take_call r = (Returns (res, None), token_after r) ->
  sim_ms (token_after r) = sim_ms r ->
  take_history_of (sim_wait d (token_after r)) l r2 -> take_history_of r ((t, res) :: l) r2.
Proof.
  intros Hr Hd -> Hm E Ea Hh. change (sim_ms r) with (ms r).
  apply (take_history_call _ _ _ _ r res (token_after r)); [done|done|].
  apply (take_history_idle _ _ _ _ _ (sim_wait d (token_after r))); [|done].
  apply sim_idle; [done|by apply token_after_ok|by rewrite Ea].
Qed.

(** Four calls at once and one half a second later: three, none, one. *)
Definition five_calls : list (Z * TakeResult) :=
  [(start_ms, mkTakeResult true 2 0); (start_ms, mkTakeResult true 1 0);
   (start_ms, mkTakeResult true 0 0); (start_ms, mkTakeResult false 0 (500 * Millisecond));
   (start_ms + 500, mkTakeResult true 0 0)].

Lemma five_calls_history : exists r', take_history_of empty_redis five_calls r'.
Proof.
  pose (s1 := sim_wait 0 (token_after empty_redis)). pose (s2 := sim_wait 0 (token_after s1)).
  pose (s3 := sim_wait 0 (token_after s2)). pose (s4 := sim_wait 500 (token_after s3)).
  assert (ok s1) as H1 by (apply wait_ok; [done|apply token_after_ok, empty_ok|by vm_compute]).
  assert (ok s2) as H2 by (apply wait_ok; [done|by apply token_after_ok|by vm_compute]).
  assert (ok s3) as H3 by (apply wait_ok; [done|by apply token_after_ok|by vm_compute]).
  assert (ok s4) as H4 by (apply wait_ok; [done|by apply token_after_ok|by vm_compute]).
  exists (sim_wait 0 (token_after s4)).
  apply (token_hit empty_redis 0); [apply empty_ok|done|by vm_compute..|].
  apply (token_hit s1 0); [exact H1|done|by vm_compute..|].
  apply (token_hit s2 0); [exact H2|done|by vm_compute..|].
  apply (token_hit s3 500); [exact H3|done|by vm_compute..|].
  apply (token_hit s4 0); [exact H4|done|by vm_compute..|].
  apply take_history_nil.
Qed.

Lemma new_bucket_grants_burst_witness :
  exists r', take_history_of empty_redis five_calls r' /\
    TakeResult_Allowed (mkTakeResult true 0 0) = true.
Proof.
  destruct five_calls_history as [r' Hh]. exists r'. split; [exact Hh|].
  apply (new_bucket_grants_burst no_fmt_Bucket "fl:" visitor two_per_second
           (proj1 two_per_second_ok) (proj2 two_per_second_ok) empty_redis five_calls r' 2%nat start_ms
           (mkTakeResult true 0 0) (empty_ok "fl:") eq_refl Hh);
    [reflexivity|by vm_compute].
Defined.

Lemma admission_bound_witness :
  exists r', take_history_of empty_redis five_calls r' /\
    (inject_Z (Z.of_nat (List.length (filter (fun '(_, res) => TakeResult_Allowed res = true) five_calls)))
     <= inject_Z 3 + inject_Z (last_of start_ms (List.tl five_calls).*1 - start_ms) * inject_Z 2 / 1000
          * (1 + 3 * eps)
        + inject_Z (Z.of_nat (List.length five_calls)) * (3 * eps * inject_Z 3))%Q.
Proof.
  destruct five_calls_history as [r' Hh]. exists r'. split; [exact Hh|].
  exact (admission_bound no_fmt_Bucket "fl:" visitor two_per_second
           (proj1 two_per_second_ok) (proj2 two_per_second_ok) empty_redis _ r' start_ms
           (mkTakeResult true 2 0) (empty_ok "fl:") eq_refl Hh).
Defined.

End examples.
