(* ===== verification/Quota.v ===== *)
(** * What the Redis store lets through ([internal/store/redisstore])

    The bound a fixed window with a block puts on any history of a bucket, and the
    invariant of the store's keys under any traffic at all: calls of both kinds on
    any buckets, failures of the round trip, and time passing. *)
From stdpp Require Import base list gmap strings.
From Stdlib Require Import ZArith Lia Ascii String.
From S2P Require Import Prelude.
From S2P Require Import GoStrings.
From S2P Require Import Store.
From S2P Require Import Redis.
From S2P Require Import RedisStore.
From S2P Require Import TokenBucket.

#[local] Open Scope Z_scope.

(** ** The bound on a window *)
Section quota.
Context (limit win blk : Z) (Hlimit : 0 < limit) (Hwin : 0 < win) (Hblk : 0 < blk).

(** Two windows of a bucket start at least this far apart, in milliseconds: the
    counter expires, or a block is set and ends - up to a second early, since Redis
    reports the time left of it in whole seconds. *)
Definition period : Z := Z.min (1000 * win) (1000 * blk - 999).

Lemma period_pos : 0 < period.
Proof using Hwin Hblk. unfold period. lia. Qed.

(** How many windows can start between [a] and [e]. *)
Definition starts (e a : Z) : Z := Z.max 0 ((e - a) / period + 1).

Lemma starts_later e a a' : a <= a' -> starts e a' <= starts e a.
Proof using Hwin Hblk.
  intros Ha. unfold starts. pose proof period_pos.
  assert ((e - a') / period <= (e - a) / period) by (apply Z.div_le_mono; lia). lia.
Qed.

Lemma starts_next e a : a <= e -> starts e (a + period) + 1 <= starts e a.
Proof using Hwin Hblk.
  intros Ha. unfold starts. pose proof period_pos.
  replace (e - (a + period)) with (e - a + (-1) * period) by ring.
  rewrite Z.div_add by lia. assert (0 <= (e - a) / period) by (apply Z.div_pos; lia). lia.
Qed.

Lemma starts_nonneg e a : 0 <= starts e a.
Proof. unfold starts. lia. Qed.

(** The soonest a new window can start, seen at [now], and the calls that can still be
    allowed up to [e]. *)
Definition soonest (now : Z) (w : window) : Z :=
  match counting w, held w with
  | Some (_, x), _ => Z.max now (Z.min x (now + 1000 * win) - 1000 * win + period)
  | None, Some u => Z.max now (u - 999)
  | None, None => now
  end.

Definition open_now (w : window) : Z :=
  match counting w with Some (n, _) => Z.max 0 (limit - n) | None => 0 end.

Definition allowance (e now : Z) (w : window) : Z := open_now w + limit * starts e (soonest now w).

Lemma allowance_nonneg e now w : 0 <= allowance e now w.
Proof using Hlimit.
  unfold allowance, open_now. pose proof (starts_nonneg e (soonest now w)).
  destruct (counting w) as [[n x]|]; nia.
Qed.

Lemma allowance_start e now w : now <= e ->
  (forall n x, counting w = Some (n, x) -> 1 <= n) ->
  allowance e now w <= limit * ((e - now) / period + 2).
Proof using Hlimit Hwin Hblk.
  intros He Hn. unfold allowance.
  assert (now <= soonest now w) as Hs
    by (unfold soonest; destruct (counting w) as [[n x]|]; [|destruct (held w)]; lia).
  pose proof (starts_later e _ _ Hs) as Hst. unfold starts in Hst at 2.
  assert (0 <= (e - now) / period) by (apply Z.div_pos; [lia|apply period_pos]).
  unfold open_now. destruct (counting w) as [[n x]|]; [specialize (Hn n x eq_refl)|]; nia.
Qed.

(** Time passing only lowers it. *)
Lemma allowance_lapse e now now' w : now <= now' -> allowance e now' (lapse now' w) <= allowance e now w.
Proof using Hlimit Hwin Hblk.
  intros Ht. unfold allowance. pose proof period_pos.
  assert (open_now (lapse now' w) <= open_now w).
  { unfold open_now, lapse. simpl. destruct (counting w) as [[n x]|]; [|lia]. destruct (_ <? _); lia. }
  enough (soonest now w <= soonest now' (lapse now' w)) as Hs
    by (pose proof (starts_later e _ _ Hs); nia).
  unfold soonest, lapse. simpl. unfold period in *.
  destruct (counting w) as [[n x]|], (held w) as [u|];
    repeat match goal with |- context [?a <? ?b] => destruct (Z.ltb_spec a b) end; lia.
Qed.

(** A counted call takes one off it if it is allowed. *)
Lemma allowance_count e now w :
  now <= e -> (counting w = None -> soonest now w = now) ->
  let (h, w') := count_step now limit win blk w in
  Z.b2z (negb (refused h)) + allowance e now w' <= allowance e now w.
Proof using Hlimit Hwin Hblk.
  intros He Hfree. unfold count_step, allowance. pose proof period_pos.
  destruct (counting w) as [[n x]|] eqn:Ec.
  - destruct (Z.ltb_spec limit (n + 1)); cbn [refused negb Z.b2z].
    + enough (soonest now w <= soonest now (mkWindow None (Some (now + 1000 * blk)))) as Hs
        by (pose proof (starts_later e _ _ Hs); unfold open_now; rewrite Ec; simpl; nia).
      unfold soonest. rewrite Ec. simpl. unfold period. lia.
    + unfold open_now, soonest. rewrite Ec. simpl. lia.
  - destruct (Z.ltb_spec limit 1); [lia|]. cbn [refused negb Z.b2z].
    rewrite Hfree by done. unfold open_now, soonest. rewrite Ec. simpl.
    pose proof (starts_next e now He).
    assert (now + period <= Z.max now (Z.min (now + 1000 * win) (now + 1000 * win) - 1000 * win + period))
      as Hs by lia.
    pose proof (starts_later e _ _ Hs). nia.
Qed.

Lemma allowance_step ttl e now w :
  now <= e -> (forall x, 1000 <= x -> 0 < ttl x) ->
  let (h, w') := window_step ttl now limit win blk w in
  Z.b2z (negb (refused h)) + allowance e now w' <= allowance e now w.
Proof using Hlimit Hwin Hblk.
  intros He Httl. unfold window_step. destruct (held w) as [u|] eqn:Eu.
  - destruct (Z.ltb_spec 0 (ttl (u - now))) as [Hp|Hp]; [simpl; lia|].
    apply allowance_count; [done|]. intros Ec. unfold soonest. rewrite Ec, Eu.
    destruct (Z.lt_ge_cases (u - now) 1000); [lia|]. specialize (Httl (u - now)). lia.
  - apply allowance_count; [done|]. intros Ec. unfold soonest. by rewrite Ec, Eu.
Qed.

End quota.

(** ** The bound on histories *)
Section histories.
Context {R : Type} `{RedisCommands R}.
Context (fmt_Rule : Rule -> string).
Context (prefix : string) (k : Key) (rule : Rule).
Context (Hv : Rule_Valid rule = true) (Hrange : Rule_in_range rule).

Abbreviation store_ok := (store_ok prefix).
Abbreviation window_of := (window_of prefix).
Abbreviation allows := (allowance (Rule_Limit rule) (seconds (Rule_Window rule)) (seconds (Rule_Block rule))).
Abbreviation rule_period := (period (seconds (Rule_Window rule)) (seconds (Rule_Block rule))).

(** The answers of a history that let the request through. *)
Definition let_through (l : list (Z * Result)) : Z :=
  Z.of_nat (List.length (List.filter (fun '(_, res) => negb (Result_Blocked res)) l)).

Lemma rule_ranges :
  0 < Rule_Limit rule /\ 0 < seconds (Rule_Window rule) /\ 0 < seconds (Rule_Block rule).
Proof.
  apply Rule_Valid_spec in Hv as (? & ? & ?). destruct Hrange as (_ & Hw & Hb).
  pose proof (seconds_bounds (Rule_Window rule)). pose proof (seconds_bounds (Rule_Block rule)). lia.
Qed.

Lemma allowance_history r l r' e :
  store_ok r -> history fmt_Rule prefix k rule r l r' -> ms r <= e -> Forall (fun t => t <= e) l.*1 ->
  let_through l <= allows e (ms r) (window_of r k).
Proof.
  intros Hok Hh. destruct rule_ranges as (Hl & Hw & Hb).
  induction Hh as [r|r r1 l r2 Hi Hh IH|r r1 l r2 Hok1 Hms Hwin Hh IH|r res r1 l r2 Hd Ec Hh IH]; intros He Hts.
  - by apply allowance_nonneg.
  - destruct l as [|[t a] l]; [by apply allowance_nonneg|].
    pose proof (store_ok_idle prefix _ _ Hok Hi) as Hok1.
    pose proof (history_from fmt_Rule prefix k rule r1 _ _ Hok1 Hh t l.*1 eq_refl).
    assert (t <= e) by (by apply Forall_cons in Hts as [? _]).
    etransitivity; [apply IH; [done|lia|done]|].
    rewrite (window_of_idle prefix _ _ k Hok Hi). apply allowance_lapse; [done..|]. apply Hi.
  - rewrite <-Hwin, <-Hms. apply IH; [done|lia|done].
  - destruct (Consume_refines fmt_Rule prefix r k rule Hok Hv Hrange) as (res' & err & r1' & E & Hm).
    rewrite Ec in E. simplify_eq. rewrite Hd in Hm. destruct Hm as (-> & _ & Hok1 & Hms1 & Ew & _).
    cbn [fmap list_fmap] in Hts. apply Forall_cons in Hts as [_ Hts].
    specialize (IH Hok1). rewrite Hms1, Ew in IH. specialize (IH He Hts).
    pose proof (allowance_step (Rule_Limit rule) _ _ Hl Hw Hb ttl_round e (ms r) (window_of r k) He) as Hs.
    fold (rule_step rule (ms r) (window_of r k)) in Hs.
    destruct (rule_step rule (ms r) (window_of r k)) as [h w'].
    unfold let_through in *. cbn [List.filter result_of fst Result_Blocked] in *.
    assert (forall x, 1000 <= x -> 0 < ttl_round x) as Httl
      by (intros x Hx; destruct (ttl_round_near x); lia).
    specialize (Hs Httl). cbn [snd] in IH. destruct (refused h); cbn [negb Z.b2z List.length] in *; lia.
Qed.


End histories.

(** ** Any traffic *)
Section traffic.
Context {R : Type} `{RedisCommands R}.
Context (fmt_Rule : Rule -> string) (fmt_Bucket : Bucket -> string) (prefix : string).

Abbreviation redis_store := (NewWithClient fmt_Rule fmt_Bucket prefix).
Abbreviation store_ok := (store_ok prefix).

(** A call, what became of its script, and its answer. *)
Inductive served : Type :=
| Counted (k : Key) (rule : Rule) (d : delivery) (res : Result) (err : option error)
| Took (k : Key) (b : Bucket) (d : delivery) (res : TakeResult) (err : option error).

(** Calls of both kinds on any buckets, one after another, among time passing. *)
Inductive traffic : R -> list served -> R -> Prop :=
| traffic_nil r : traffic r [] r
| traffic_idle r r1 l r2 : idle r r1 -> traffic r1 l r2 -> traffic r l r2
| traffic_consume r k rule res err r1 l r2 :
    Store.Consume redis_store k rule r = (Returns (res, err), r1) ->
    traffic r1 l r2 -> traffic r (Counted k rule (transport r).1 res err :: l) r2
| traffic_take r k b res err r1 l r2 :
    Store.Take redis_store k b r = (Returns (res, err), r1) ->
    traffic r1 l r2 -> traffic r (Took k b (transport r).1 res err :: l) r2.

Definition serves_in_range (s : served) : Prop :=
  match s with
  | Counted _ rule _ _ _ => Rule_in_range rule
  | Took _ b _ _ _ => Bucket_in_range b
  end.

(** The type of an answer: an error with the zero result exactly when the parameters
    are invalid or no reply came, else a blocked answer with at least a second to
    wait, or an allowed one with a count within the limit and nothing to wait. *)
Definition well_answered (s : served) : Prop :=
  match s with
  | Counted _ rule d res err =>
      (err = None <-> Rule_Valid rule = true /\ d = Delivered) /\
      (err <> None -> res = Result_zero) /\
      (err = None ->
       if Result_Blocked res
       then Second <= Result_RetryAfter res /\ (Result_Count res = -1 \/ Rule_Limit rule < Result_Count res)
       else Result_RetryAfter res = 0 /\ 1 <= Result_Count res <= Rule_Limit rule)
  | Took _ b d res err =>
      (err = None <-> Bucket_Valid b = true /\ d = Delivered) /\
      (err <> None -> res = TakeResult_zero) /\
      (err = None ->
       if TakeResult_Allowed res
       then TakeResult_RetryAfter res = 0 /\ 0 <= TakeResult_Remaining res < Bucket_Burst b
       else TakeResult_Remaining res = 0 /\ Millisecond <= TakeResult_RetryAfter res <= Second)
  end.

(** The automaton's answers are of that type. *)
Lemma window_step_typed ttl now limit win blk w :
  0 < blk -> (forall n x, counting w = Some (n, x) -> 1 <= n) -> 0 < limit ->
  let h := (window_step ttl now limit win blk w).1 in
  if refused h then 1 <= wait h /\ (number h = -1 \/ limit < number h)
  else wait h = 0 /\ 1 <= number h <= limit.
Proof.
  intros Hb Hn Hl.
  assert (let h := (count_step now limit win blk w).1 in
    if refused h then 1 <= wait h /\ (number h = -1 \/ limit < number h)
    else wait h = 0 /\ 1 <= number h <= limit) as Hc.
  { unfold count_step. destruct (counting w) as [[n x]|].
    - specialize (Hn n x eq_refl). destruct (Z.ltb_spec limit (n + 1)); simpl; lia.
    - destruct (Z.ltb_spec limit 1); simpl; lia. }
  unfold window_step. destruct (held w) as [u|]; [|done].
  destruct (Z.ltb_spec 0 (ttl (u - now))); [simpl; lia|done].
Qed.

Lemma Consume_typed k rule r :
  store_ok r -> Rule_in_range rule ->
  exists res err r', Store.Consume redis_store k rule r = (Returns (res, err), r') /\
    store_ok r' /\ well_answered (Counted k rule (transport r).1 res err).
Proof.
  intros Hok Hr. cbn [Store.Consume NewWithClient]. destruct (Rule_Valid rule) eqn:Hv.
  - destruct (Consume_refines fmt_Rule prefix r k rule Hok Hv Hr) as (res & err & r' & E & Hm).
    exists res, err, r'. split; [done|].
    pose proof (proj1 (Rule_Valid_spec _) Hv) as (Hl & Hw0 & Hb0).
    assert (0 < seconds (Rule_Block rule)) as Hb by (apply seconds_bounds; [done|apply Hr]).
    assert (forall n x, counting (window_of prefix r k) = Some (n, x) -> 1 <= n) as Hn.
    { intros n x En. destruct Hok as (_ & Hk & _). destruct (Hk k) as (_ & _ & Hn & _).
      by destruct (Hn n x En). }
    pose proof (window_step_typed ttl_round (ms r) _ (seconds (Rule_Window rule)) _ _ Hb Hn Hl) as Ht.
    fold (rule_step rule (ms r) (window_of prefix r k)) in Ht.
    destruct ((transport r).1) as [|e|e]; destruct Hm as (-> & Herr & Hst).
    + split; [apply Hst|]. subst err. unfold well_answered. rewrite Hv. split_and!; [done..|].
      intros _. unfold result_of. cbn [Result_Blocked Result_Count Result_RetryAfter] in *.
      destruct (rule_step _ _ _) as [h w']. cbn [fst] in *. destruct (refused h); unfold Second; lia.
    + split; [apply Hst|]. unfold well_answered. rewrite Hv.
      split_and!; [split; [done|by intros [_ ?]]|done|done].
    + split; [apply Hst|]. unfold well_answered. rewrite Hv.
      split_and!; [split; [done|by intros [_ ?]]|done|done].
  - eexists _, _, r. unfold Redis_Consume. rewrite Hv. split; [done|]. split; [done|].
    unfold well_answered. rewrite Hv. split_and!; [split; [done|by intros [? _]]|done|done].
Qed.

Lemma Take_typed k b r :
  store_ok r -> Bucket_in_range b ->
  exists res err r', Store.Take redis_store k b r = (Returns (res, err), r') /\
    store_ok r' /\ well_answered (Took k b (transport r).1 res err).
Proof.
  intros Hok Hr. cbn [Store.Take NewWithClient]. destruct (Bucket_Valid b) eqn:Hv.
  - destruct (Take_refines fmt_Bucket prefix r k b Hok Hv Hr) as (res & err & r' & E & Hp & Hm).
    exists res, err, r'. split; [done|].
    destruct ((transport r).1) as [|e|e]; destruct Hm as (-> & Herr & Hst).
    + split; [apply Hst|]. subst err. unfold well_answered. rewrite Hv. split_and!; [done..|].
      intros _. unfold take_result. cbn [TakeResult_Allowed TakeResult_Remaining TakeResult_RetryAfter].
      unfold Second, Millisecond. destruct (granted _); lia.
    + split; [apply Hst|]. unfold well_answered. rewrite Hv.
      split_and!; [split; [done|by intros [_ ?]]|done|done].
    + split; [apply Hst|]. unfold well_answered. rewrite Hv.
      split_and!; [split; [done|by intros [_ ?]]|done|done].
  - eexists _, _, r. unfold Redis_Take. rewrite Hv. split; [done|]. split; [done|].
    unfold well_answered. rewrite Hv. split_and!; [split; [done|by intros [? _]]|done|done].
Qed.

(** C28: the store is well typed.  Under any traffic - both algorithms, any buckets,
    shared or not, failed round trips, lost replies - the keys keep their types, every
    one of them with an expiry, so no script ever fails on a key; and every answer is
    of the type the engine reads it at. *)
Theorem traffic_typed r l r' :
  store_ok r -> traffic r l r' -> Forall serves_in_range l -> store_ok r' /\ Forall well_answered l.
Proof.
  intros Hok Ht. induction Ht as [r|r r1 l r2 Hi _ IH|r k rule res err r1 l r2 E _ IH|r k b res err r1 l r2 E _ IH];
    intros Hl.
  - by split.
  - apply IH; [by eapply store_ok_idle|done].
  - apply Forall_cons in Hl as [Hr Hl].
    destruct (Consume_typed k rule r Hok Hr) as (? & ? & ? & E' & Hok1 & Hw). rewrite E in E'. simplify_eq.
    destruct (IH Hok1 Hl). split; [done|by constructor].
  - apply Forall_cons in Hl as [Hr Hl].
    destruct (Take_typed k b r Hok Hr) as (? & ? & ? & E' & Hok1 & Hw). rewrite E in E'. simplify_eq.
    destruct (IH Hok1 Hl). split; [done|by constructor].
Qed.

End traffic.

(** ** Instances of the theorems *)
Section examples.


(** A counted call and, ten milliseconds later, a token on the same bucket. *)
Definition mixed : list served :=
  [Counted visitor two_per_minute (transport empty_redis).1 ok1 None;
   Took visitor two_per_second (transport (sim_wait 10 (after empty_redis))).1 (mkTakeResult true 2 0) None].

Lemma traffic_typed_witness :
  exists r', traffic no_fmt_Rule no_fmt_Bucket "fl:" empty_redis mixed r' /\
    store_ok "fl:" r' /\ Forall well_answered mixed.
Proof.
  assert (store_ok "fl:" (after empty_redis)) as Ha by apply after_ok, empty_ok.
  assert (traffic no_fmt_Rule no_fmt_Bucket "fl:" empty_redis mixed
            (token_after (sim_wait 10 (after empty_redis)))) as Ht.
  { apply (traffic_consume no_fmt_Rule no_fmt_Bucket "fl:" empty_redis visitor two_per_minute
             ok1 None (after empty_redis)); [vm_compute; reflexivity|].
    apply (traffic_idle _ _ _ _ (sim_wait 10 (after empty_redis))).
    { apply sim_idle; [done|apply Ha|by vm_compute]. }
    apply (traffic_take no_fmt_Rule no_fmt_Bucket "fl:" (sim_wait 10 (after empty_redis)) visitor
             two_per_second (mkTakeResult true 2 0) None
             (token_after (sim_wait 10 (after empty_redis)))); [vm_compute; reflexivity|].
    apply traffic_nil. }
  eexists. split; [exact Ht|].
  apply (traffic_typed no_fmt_Rule no_fmt_Bucket "fl:" empty_redis mixed _ (empty_ok "fl:") Ht).
  apply Forall_cons. split; [apply two_per_minute_ok|].
  apply Forall_singleton, two_per_second_ok.
Defined.

End examples.
