(* ===== verification/TokenQuota.v ===== *)
(** * What a token bucket can still grant ([internal/store/redisstore])

    The script's arithmetic against an exact account of time: what a level is worth, what
    time passing, a refill and a granted token do to that worth, rounding included.  A
    refill within the millisecond rounds nothing, since a stored level is a double
    already ([f64_idem]); so the account charges the rounding to the milliseconds and to
    the tokens granted, not to the calls made. *)
From stdpp Require Import base list gmap strings.
From Stdlib Require Import ZArith Lia QArith Qround Ascii String Lqa.
From S2P Require Import Prelude.
From S2P Require Import GoStrings.
From S2P Require Import Float.
From S2P Require Import Store.
From S2P Require Import Redis.
From S2P Require Import RedisStore.
From S2P Require Import TokenBucket.

#[local] Open Scope Z_scope.

Section worth.
Context (rate burst : Z) (Hrate : 0 < rate <= 2 ^ 53) (Hburst : 0 < burst <= 2 ^ 40).

#[local] Open Scope Q_scope.

(** What a millisecond adds at most. *)
Definition per_ms : Q := inject_Z rate / 1000 * (1 + 3 * eps) + 2 * eps * inject_Z burst.

(** What a level is worth at [now], and with what is added up to [e]. *)
Definition spare (now : Z) (o : level) : Q :=
  match o with
  | Some (n, t) => lua_min (inject_Z burst) (n + inject_Z (now - t) * per_ms)
  | None => inject_Z burst
  end.

Definition worth (e now : Z) (o : level) : Q := spare now o + inject_Z (e - now) * per_ms.

(** A level the script left is a double. *)
Definition exact (o : level) : Prop := forall n t, o = Some (n, t) -> f64 n = n.

Lemma per_ms_nonneg : 0 <= per_ms.
Proof using Hrate Hburst.
  unfold per_ms. pose proof (rate_pos rate Hrate). pose proof (inject_nonneg burst ltac:(lia)).
  assert (inject_Z rate / 1000 == inject_Z rate * (1 # 1000)) as -> by reflexivity. unfold eps. lra.
Qed.

Lemma per_ms_rate d : (0 <= d)%Z -> inject_Z d * inject_Z rate / 1000 * (1 + 3 * eps) <= inject_Z d * per_ms.
Proof using Hburst.
  intros Hd. pose proof (inject_nonneg d Hd). pose proof (inject_nonneg burst ltac:(lia)) as Hb. unfold per_ms.
  assert (inject_Z d * (inject_Z rate / 1000 * (1 + 3 * eps) + 2 * eps * inject_Z burst)
    == inject_Z d * inject_Z rate / 1000 * (1 + 3 * eps) + inject_Z d * (2 * eps * inject_Z burst)) as -> by field.
  assert (0 <= inject_Z d * (2 * eps * inject_Z burst)); [|lra].
  apply Qmult_le_0_compat; [done|]. unfold eps. lra.
Qed.

Lemma lua_min_cases x y : (y < x /\ lua_min x y = y) \/ (x <= y /\ lua_min x y = x).
Proof.
  unfold lua_min. destruct (Qlt_bool y x) eqn:E; [left|right]; (split; [|done]).
  - by apply Qlt_bool_iff.
  - by apply Qlt_bool_false.
Qed.

Lemma spare_nonneg now o : level_ok now o -> 0 <= spare now o.
Proof using Hrate Hburst.
  intros Ho. unfold spare. destruct o as [[n t]|]; [|apply inject_nonneg; lia].
  destruct (Ho n t eq_refl) as [Hn Ht]. apply lua_min_glb; [apply inject_nonneg; lia|].
  pose proof (Qmult_le_0_compat _ _ (inject_nonneg (now - t) ltac:(lia)) per_ms_nonneg). lra.
Qed.

Lemma worth_start e now o : worth e now o <= inject_Z burst + inject_Z (e - now) * per_ms.
Proof. unfold worth, spare. destruct o as [[n t]|]; [|lra]. destruct (lua_min_le (inject_Z burst) (n + inject_Z (now - t) * per_ms)). lra. Qed.

(** Time passing only lowers what is left to grant. *)
Lemma worth_lapse e now now' o :
  level_ok now o -> (now <= now')%Z -> worth e now' (faded rate burst now' o) <= worth e now o.
Proof using Hrate Hburst.
  intros Ho Hle. unfold worth. pose proof per_ms_nonneg as Hp. pose proof (inject_nonneg (now' - now) ltac:(lia)) as HD.
  replace (e - now)%Z with ((e - now') + (now' - now))%Z by lia. rewrite inject_Z_plus.
  set (D := inject_Z (now' - now)) in *. set (E := inject_Z (e - now')).
  pose proof (Qmult_le_0_compat _ _ HD Hp). destruct o as [[n t]|]; cbn [faded spare]; [|lra].
  destruct (Ho n t eq_refl) as [Hn Ht].
  assert (inject_Z (now' - t) == inject_Z (now - t) + D) as Et
    by (unfold D; rewrite <-inject_Z_plus; f_equiv; lia).
  destruct (Z.ltb_spec now' (t + keep_ms rate burst)) as [Hlt|Hge]; cbn [spare].
  - set (d := inject_Z (now - t)) in *.
    destruct (lua_min_cases (inject_Z burst) (n + inject_Z (now' - t) * per_ms)) as [[H1 ->]|[H1 ->]],
      (lua_min_cases (inject_Z burst) (n + d * per_ms)) as [[H2 ->]|[H2 ->]]; rewrite ?Et in *; lra.
  - destruct (keep_bounds rate burst Hrate Hburst) as [_ Hk]. rewrite inject_Z_mult in Hk.
    change (inject_Z 1000) with 1000 in Hk.
    pose proof (inject_le (keep_ms rate burst) (now' - t) ltac:(lia)) as Hd.
    pose proof (per_ms_rate (now' - t) ltac:(lia)) as Hr. pose proof (rate_pos rate Hrate).
    pose proof (inject_nonneg burst ltac:(lia)).
    assert (inject_Z burst * 1000 <= inject_Z (now' - t) * inject_Z rate) as Hfull by nra.
    assert (inject_Z (now' - t) * inject_Z rate / 1000 == inject_Z (now' - t) * inject_Z rate * (1 # 1000))
      as Ed by reflexivity.
    rewrite Ed, Et in Hr. rewrite Et in Hfull. set (d := inject_Z (now - t)) in *.
    assert (inject_Z burst <= (d + D) * per_ms) as Hb.
    { set (m := (d + D) * inject_Z rate) in *. unfold eps in Hr. lra. }
    destruct (lua_min_cases (inject_Z burst) (n + d * per_ms)) as [[H2 ->]|[H2 ->]]; lra.
Qed.

(** A refill adds no more than it is worth. *)
Lemma refilled_spare now o : level_ok now o -> exact o -> refilled rate burst now o <= spare now o.
Proof using Hrate Hburst.
  intros Ho Hex. unfold refilled, spare. destruct o as [[n t]|]; [|apply lua_min_le].
  destruct (Ho n t eq_refl) as [Hn Ht]. specialize (Hex n t eq_refl).
  pose proof (inject_nonneg burst ltac:(lia)) as Hb. pose proof (gain_upper rate Hrate (now - t) ltac:(lia)) as Hg.
  pose proof (gain_nonneg rate Hrate (now - t) ltac:(lia)) as Hg0. unfold gain in Hg, Hg0.
  apply lua_min_glb; [apply lua_min_le|]. set (g := fdiv _ _) in *.
  destruct (lua_min_le (inject_Z burst) (fadd n g)) as [L1 L2].
  destruct (Z.eq_dec now t) as [->|Hne].
  - apply (Qle_trans _ _ _ L2). rewrite Z.sub_diag in *. unfold fadd.
    assert (g == 0) as ->. { change (inject_Z 0) with 0 in Hg. assert (0 * inject_Z rate / 1000 == 0) as E by field. rewrite E in Hg. lra. }
    rewrite (f64_eq (n + 0) n) by ring. rewrite Hex. change (inject_Z 0) with 0. lra.
  - pose proof (inject_le 1 (now - t) ltac:(lia)) as Hd. change (inject_Z 1) with 1 in Hd.
    assert (n + g + 2 * eps * inject_Z burst <= n + inject_Z (now - t) * per_ms) as Hup.
    { unfold per_ms. set (d := inject_Z (now - t)) in *.
      assert (d * (inject_Z rate / 1000 * (1 + 3 * eps) + 2 * eps * inject_Z burst)
        == d * inject_Z rate / 1000 * (1 + 3 * eps) + d * (2 * eps * inject_Z burst)) as -> by field.
      assert (2 * eps * inject_Z burst <= d * (2 * eps * inject_Z burst)); [|lra].
      assert (0 <= 2 * eps * inject_Z burst) by (unfold eps; lra). nra. }
    destruct (Qlt_le_dec (2 * inject_Z burst) (n + g)) as [Hbig|Hsmall]; [unfold eps in *; lra|].
    unfold fadd in *. destruct (f64_error (n + g)) as [_ He]; [lra|]. unfold eps in *. lra.
Qed.

(** A call takes what it grants off it, up to the rounding of the subtraction. *)
Lemma take_step_spare now o :
  level_ok now o -> exact o ->
  let (p, x) := take_step rate burst now o in
  inject_Z (Z.b2z (granted p)) * (1 - eps * inject_Z burst) + spare now (Some (x, now)) <= spare now o /\ f64 x = x.
Proof using Hrate Hburst.
  intros Ho Hex. pose proof (refilled_spare now o Ho Hex) as Hup.
  destruct (refilled_bounds rate burst Hrate Hburst now o Ho) as [H0 H1].
  assert (f64 (refilled rate burst now o) = refilled rate burst now o) as Hdouble.
  { unfold refilled. destruct o as [[n t]|].
    - destruct (Ho n t eq_refl) as [Hn Ht]. pose proof (gain_nonneg rate Hrate (now - t) ltac:(lia)) as Hg. unfold gain in Hg.
      destruct (lua_min_cases (inject_Z burst) (fadd n (fdiv (fmul (inject_Z (now - t)) (inject_Z rate)) 1000)))
        as [[_ ->]|[_ ->]]; [apply f64_idem; lra|apply f64_int_eq; lia].
    - pose proof (gain_nonneg rate Hrate (now - now) ltac:(lia)) as Hg. unfold gain in Hg.
      pose proof (inject_nonneg burst ltac:(lia)).
      destruct (lua_min_cases (inject_Z burst) (fadd (inject_Z burst) (fdiv (fmul (inject_Z (now - now)) (inject_Z rate)) 1000)))
        as [[_ ->]|[_ ->]]; [apply f64_idem; lra|apply f64_int_eq; lia]. }
  unfold take_step. set (y := refilled rate burst now o) in *.
  assert (forall x, spare now (Some (x, now)) <= x) as Hx.
  { intros x. unfold spare. rewrite Z.sub_diag. change (inject_Z 0) with 0.
    destruct (lua_min_le (inject_Z burst) (x + 0 * per_ms)). lra. }
  destruct (Qle_bool 1 y) eqn:E; cbn [granted Z.b2z].
  - apply Qle_bool_iff in E. split; [|apply f64_idem; lra]. specialize (Hx (fsub y 1)). change (inject_Z 1) with 1.
    unfold fsub in *. destruct (f64_error (y - 1)) as [_ He]; [lra|]. unfold eps in *. lra.
  - split; [|done]. specialize (Hx y). change (inject_Z 0) with 0. lra.
Qed.

End worth.
