(* ===== verification/NetIP.v ===== *)
(** * The part of package [net] the keyers use

    [net.ParseIP], [IP.To4], [net.CIDRMask], [IP.Mask] and [IP.String], on addresses
    as lists of bytes (each a [Z] below 256): four of them or sixteen. *)
From stdpp Require Import base list strings pretty.
From Stdlib Require Import ZArith Lia Ascii String.
From S2P Require Import Prelude.
From S2P Require Import GoStrings.
From S2P Require Import Request.

#[local] Open Scope string_scope.
#[local] Open Scope Z_scope.

Abbreviation IP := (list Z).

(** ** Parsing *)

(** A decimal field: no leading zero, at most 255. *)
Fixpoint decimal_from (acc : Z) (s : string) : option Z :=
  match s with
  | EmptyString => Some acc
  | String c s' =>
      if is_digit c then
        let acc := acc * 10 + (byte_Z c - 48) in
        if 255 <? acc then None else decimal_from acc s'
      else None
  end.

Definition octet (s : string) : option Z :=
  match s with
  | EmptyString => None
  | String "0" (String _ _) => None
  | _ => decimal_from 0 s
  end.

(** [parseIPv4Fields] *)
Definition parse_IPv4 (s : string) : option IP :=
  match Split s "." with
  | [a; b; c; d] =>
      match octet a, octet b, octet c, octet d with
      | Some a, Some b, Some c, Some d => Some [a; b; c; d]
      | _, _, _, _ => None
      end
  | _ => None
  end.

(** At most four hexadecimal digits: their value, how many, and the rest. *)
Fixpoint hex_group (fuel : nat) (acc : Z) (off : Z) (s : string) : option (Z * Z * string) :=
  match s with
  | EmptyString => Some (acc, off, s)
  | String c s' =>
      match unhex c with
      | None => Some (acc, off, s)
      | Some x =>
          match fuel with
          | O => None
          | S fuel => hex_group fuel (acc * 16 + x) (off + 1) s'
          end
      end
  end.

(** The loop of [parseIPv6]: the bytes read so far and where the ellipsis was.
    Each turn reads two bytes at least, so eight turns are enough. *)
Fixpoint parse_groups (fuel : nat) (ip : IP) (ellipsis : option nat) (s : string)
  : option (IP * option nat * string) :=
  match fuel with
  | O => Some (ip, ellipsis, s)
  | S fuel =>
      match hex_group 4 0 0 s with
      | None => None
      | Some (acc, off, rest) =>
          if off =? 0 then None
          else
            match rest with
            | String "." _ =>
                if match ellipsis with None => negb (Nat.eqb (List.length ip) 12) | Some _ => false end then None
                else if (12 <? Z.of_nat (List.length ip)) then None
                else match parse_IPv4 s with
                     | None => None
                     | Some v4 => Some ((ip ++ v4)%list, ellipsis, "")
                     end
            | EmptyString => Some ((ip ++ [acc / 256; acc mod 256])%list, ellipsis, "")
            | String ":" EmptyString => None
            | String ":" (String ":" rest) =>
                let ip := (ip ++ [acc / 256; acc mod 256])%list in
                match ellipsis with
                | Some _ => None
                | None =>
                    if String.eqb rest "" then Some (ip, Some (List.length ip), "")
                    else parse_groups fuel ip (Some (List.length ip)) rest
                end
            | String ":" rest => parse_groups fuel (ip ++ [acc / 256; acc mod 256])%list ellipsis rest
            | _ => None
            end
      end
  end.

Definition parse_IPv6 (s : string) : option IP :=
  let '(ellipsis, s) :=
    match s with String ":" (String ":" rest) => (Some O, rest) | _ => (None, s) end in
  match (match ellipsis with
         | Some _ => if String.eqb s "" then Some ([], ellipsis, "") else parse_groups 8 [] ellipsis s
         | None => parse_groups 8 [] ellipsis s
         end) with
  | None => None
  | Some (ip, ellipsis, rest) =>
      if negb (String.eqb rest "") then None
      else match ellipsis with
           | None => if Nat.eqb (List.length ip) 16 then Some ip else None
           | Some at_byte =>
               if Nat.ltb (List.length ip) 16
               then Some (List.firstn at_byte ip ++ repeat 0 (16 - List.length ip)
                          ++ List.skipn at_byte ip)%list
               else None
           end
  end.

(** The first of [.] and [:] decides; a zone makes [ParseIP] return nil. *)
Fixpoint address_kind (s : string) : option ascii :=
  match s with
  | EmptyString => None
  | String c s' =>
      if Ascii.eqb c "." || Ascii.eqb c ":" || Ascii.eqb c "%" then Some c else address_kind s'
  end.

Definition v4_in_v6 (v4 : IP) : IP := ([0; 0; 0; 0; 0; 0; 0; 0; 0; 0; 255; 255] ++ v4)%list.

Definition ParseIP (s : string) : option IP :=
  if ContainsByte s "%" then None
  else match address_kind s with
       | Some "."%char => match parse_IPv4 s with Some v4 => Some (v4_in_v6 v4) | None => None end
       | Some ":"%char => parse_IPv6 s
       | _ => None
       end.

Definition To4 (ip : IP) : option IP :=
  if Nat.eqb (List.length ip) 4 then Some ip
  else if Nat.eqb (List.length ip) 16 && bool_decide (List.firstn 12 ip = v4_in_v6 [])
  then Some (List.skipn 12 ip)
  else None.

(** ** Masking *)

(** The first [n] of a byte's bits. *)
Definition mask_byte (n : Z) : Z := 256 - 2 ^ (8 - n).

Fixpoint mask_bytes (count : nat) (ones : Z) : list Z :=
  match count with
  | O => []
  | S count => mask_byte (Z.max 0 (Z.min 8 ones)) :: mask_bytes count (ones - 8)
  end.

(** [net.CIDRMask], for [0 <= ones <= bits] and [bits] 32 or 128. *)
Definition CIDRMask (ones bits : Z) : list Z := mask_bytes (Z.to_nat (bits / 8)) ones.

(** [IP.Mask] for an address and a mask of one length. *)
Definition Mask (ip mask : list Z) : IP := zip_with Z.land ip mask.

(** ** Printing *)
Definition dotted (v4 : IP) : string := Join (map Itoa v4) ".".

Definition hex_digit (x : Z) : ascii :=
  ascii_of_N (Z.to_N (if x <? 10 then 48 + x else 87 + x)).

Fixpoint skip_zeros (l : list Z) : list Z :=
  match l with
  | [] => []
  | d :: l' => match l' with [] => l | _ => if d =? 0 then skip_zeros l' else l end
  end.

(** A 16-bit group without leading zeros. *)
Definition hex16 (x : Z) : string :=
  string_of_list_ascii
    (map hex_digit (skip_zeros [x / 4096; (x / 256) mod 16; (x / 16) mod 16; x mod 16])).

Fixpoint groups (ip : IP) : list Z :=
  match ip with a :: b :: ip => 256 * a + b :: groups ip | _ => [] end.

Fixpoint zero_run (l : list Z) : nat :=
  match l with 0 :: l => S (zero_run l) | _ => O end.

(** The first longest run of at least two zero groups: where, and how long. *)
Fixpoint longest_run (i : nat) (l : list Z) (best : nat * nat) : nat * nat :=
  match l with
  | [] => best
  | _ :: l' =>
      let n := zero_run l in
      longest_run (S i) l' (if Nat.leb 2 n && Nat.ltb best.2 n then (i, n) else best)
  end.

Definition print_IPv6 (ip : IP) : string :=
  let g := groups ip in
  let '(i, n) := longest_run 0 g (O, O) in
  if Nat.eqb n 0 then Join (map hex16 g) ":"
  else (Join (map hex16 (List.firstn i g)) ":" ++ "::" ++ Join (map hex16 (List.skipn (i + n) g)) ":").

Definition IP_String (ip : IP) : string :=
  match To4 ip with Some v4 => dotted v4 | None => print_IPv6 ip end.

(** ** Against the package's own behaviour *)
Example parse_examples :
  map ParseIP ["192.0.2.1"; "192.0.2.01"; "1.2.3"; "256.1.1.1"; "::"; "2001:db8::1"; "1:2:3:4:5:6:7:8";
               "::ffff:192.0.2.1"; "1::2::3"; "fe80::1%eth0"; "12345::"; "1:2:3:4:5:6:7::"; "x"]
  = [Some [0;0;0;0;0;0;0;0;0;0;255;255;192;0;2;1]; None; None; None; Some (repeat 0 16);
     Some [32;1;13;184;0;0;0;0;0;0;0;0;0;0;0;1]; Some [0;1;0;2;0;3;0;4;0;5;0;6;0;7;0;8];
     Some [0;0;0;0;0;0;0;0;0;0;255;255;192;0;2;1]; None; None; None;
     Some [0;1;0;2;0;3;0;4;0;5;0;6;0;7;0;0]; None].
Proof. vm_compute. reflexivity. Qed.

Example print_examples :
  map (fun s => match ParseIP s with Some ip => IP_String ip | None => "" end)
    ["192.0.2.1"; "2001:DB8:0:0:1:0:0:1"; "::"; "::ffff:1.2.3.4"; "1:0:3:4:5:6:7:8"; "1::"; "0:0:0:1::"]
  = ["192.0.2.1"; "2001:db8::1:0:0:1"; "::"; "1.2.3.4"; "1:0:3:4:5:6:7:8"; "1::"; "0:0:0:1::"].
Proof. vm_compute. reflexivity. Qed.

(** ** What masking an IPv4 address keeps *)
Definition byte_ok (x : Z) : Prop := 0 <= x < 256.

Definition num4 (v4 : IP) : Z :=
  match v4 with [a; b; c; d] => ((a * 256 + b) * 256 + c) * 256 + d | _ => 0 end.

Lemma land_mask_byte x n :
  byte_ok x -> 0 <= n <= 8 -> Z.land x (mask_byte n) = x / 2 ^ (8 - n) * 2 ^ (8 - n).
Proof.
  intros Hx Hn.
  assert (forallb (fun x => forallb (fun n =>
            Z.land x (mask_byte n) =? x / 2 ^ (8 - n) * 2 ^ (8 - n))
            (map Z.of_nat (seq 0 9))) (map Z.of_nat (seq 0 256)) = true) as Hall
    by (vm_compute; reflexivity).
  rewrite forallb_forall in Hall. specialize (Hall x). rewrite forallb_forall in Hall.
  unfold byte_ok in Hx. apply Z.eqb_eq, Hall; apply in_map_iff.
  - exists (Z.to_nat x). split; [lia|]. apply in_seq. lia.
  - exists (Z.to_nat n). split; [lia|]. apply in_seq. lia.
Qed.

Lemma Mask_v4 a b c d bits :
  byte_ok a -> byte_ok b -> byte_ok c -> byte_ok d ->
  let keep i x := x / 2 ^ (8 - Z.max 0 (Z.min 8 (bits - 8 * i)))
                    * 2 ^ (8 - Z.max 0 (Z.min 8 (bits - 8 * i))) in
  Mask [a; b; c; d] (CIDRMask bits 32) = [keep 0 a; keep 1 b; keep 2 c; keep 3 d].
Proof.
  intros Ha Hb Hc Hd. unfold Mask, CIDRMask. change (Z.to_nat (32 / 8)) with 4%nat.
  cbn [mask_bytes zip_with]. rewrite !land_mask_byte by (done || lia). cbv zeta.
  replace (bits - 8 * 0) with bits by lia. replace (bits - 8 * 1) with (bits - 8) by lia.
  replace (bits - 8 * 2) with (bits - 8 - 8) by lia.
  by replace (bits - 8 * 3) with (bits - 8 - 8 - 8) by lia.
Qed.

Lemma list4_eq (a b c d a' b' c' d' : Z) :
  a = a' -> b = b' -> c = c' -> d = d' -> [a; b; c; d] = [a'; b'; c'; d'].
Proof. by intros -> -> -> ->. Qed.

(** Evaluate closed powers of two. *)
Ltac compute_pow :=
  repeat match goal with
  | |- context [2 ^ ?e] =>
      let v := eval vm_compute in (2 ^ e) in
      lazymatch v with Zpos _ => change (2 ^ e) with v end
  end.

(** Two addresses have the same network exactly when their first [bits] bits are
    the same. *)
Lemma Mask_v4_iff a b c d a' b' c' d' bits :
  byte_ok a -> byte_ok b -> byte_ok c -> byte_ok d ->
  byte_ok a' -> byte_ok b' -> byte_ok c' -> byte_ok d' -> 0 <= bits <= 32 ->
  Mask [a; b; c; d] (CIDRMask bits 32) = Mask [a'; b'; c'; d'] (CIDRMask bits 32) <->
  num4 [a; b; c; d] / 2 ^ (32 - bits) = num4 [a'; b'; c'; d'] / 2 ^ (32 - bits).
Proof.
  intros Ha Hb Hc Hd Ha' Hb' Hc' Hd' Hbits. rewrite !Mask_v4 by done. unfold byte_ok, num4 in *.
  assert (exists n, (n < 33)%nat /\ bits = Z.of_nat n) as (n & Hn & ->).
  { exists (Z.to_nat bits). lia. }
  clear Hbits. do 33 (destruct n as [|n]; [compute_pow;
    split; intros E; [injection E as ????|apply list4_eq]; Z.to_euclidean_division_equations; lia|]). lia.
Qed.
