(* ===== verification/Keyer.v ===== *)
(** * Bucket extractors ([internal/limiter/keyer])

    A keyer is a computation over the request ([Limiter.Keyer]), so the sources
    [BodyField], [Header] and [QueryParam] and the combinators [First] and
    [Composite] are functions that build one.  HMAC-SHA256 is a parameter. *)
From stdpp Require Import base list gmap strings pretty.
From Stdlib Require Import ZArith Lia Ascii String.
From S2P Require Import Prelude.
From S2P Require Import GoStrings.
From S2P Require Import Store.
From S2P Require Import Request.
From S2P Require Import Limiter.
From S2P Require Import Engine.
From S2P Require Import NetIP.

#[local] Open Scope string_scope.
#[local] Open Scope Z_scope.

(** ** Hashers *)

(** [Hasher]: [(_, false)] disables the limiter. *)
Definition Hasher : Type := string -> string * bool.

(** [hmac.New(sha256.New, secret)] fed with the value: 32 bytes. *)
Class HMAC256 : Type := {
  hmac_sha256 : string -> string -> string;
  hmac_sha256_length secret v : String.length (hmac_sha256 secret v) = 32%nat;
}.

(** [hex.EncodeToString] *)
Fixpoint EncodeToString (s : string) : string :=
  match s with
  | EmptyString => EmptyString
  | String c s' =>
      String (hex_digit (byte_Z c / 16)) (String (hex_digit (byte_Z c mod 16)) (EncodeToString s'))
  end.

(** [HMAC.Available] *)
Definition Available (secret : string) : bool := negb (String.eqb secret "").

(** [HMAC.Hash] *)
Definition HMAC_Hash `{HMAC256} (secret : string) : Hasher := fun v =>
  if String.eqb secret "" then ("", false)
  else (EncodeToString (hmac_sha256 secret v), true).

(** [Plain.Hash] *)
Definition Plain_Hash : Hasher := fun v => if String.eqb v "" then ("", false) else (v, true).

(** [hasher]: nil means [Plain]. *)
Definition hasher (h : option Hasher) : Hasher := match h with None => Plain_Hash | Some h => h end.

(** ** Normalisers *)

(** [Normaliser]; nil means none. *)
Definition Normaliser : Type := string -> string.

Definition normalise (n : option Normaliser) (s : string) : string :=
  match n with None => s | Some f => f s end.

Definition Digits (s : string) : string := sfilter is_digit s.

Definition Lower `{Unicode} (s : string) : string := ToLower s.

(** [keyer.TrimSpace] is [strings.TrimSpace]. *)
Definition Trim (s : string) : string := GoStrings.TrimSpace s.

Definition IPSubnet (v4Bits v6Bits : Z) : Normaliser := fun s =>
  match ParseIP (GoStrings.TrimSpace s) with
  | None => s
  | Some addr =>
      let '(addr, bits) :=
        match To4 addr with Some v4 => (v4, v4Bits) | None => (addr, v6Bits) end in
      let size := Z.of_nat (List.length addr) * 8 in
      if (bits <? 0) || (size <? bits) then s
      else IP_String (Mask addr (CIDRMask bits size)) ++ "/" ++ Itoa bits
  end.

(** ** Keyers *)
Section keyers.
Context {J : JSONDecoder} {M : MapRange} {U : Unicode}.

(** What the three sources do with the raw value they found. *)
Definition finish_key (n : option Normaliser) (h : option Hasher) (v : string * bool) : string * bool :=
  let '(raw, ok) := v in
  if negb ok then ("", false)
  else
    let raw := normalise n raw in
    if String.eqb raw "" then ("", false) else hasher h raw.

Definition BodyField_Key (field : string) (n : option Normaliser) (h : option Hasher) : Keyer :=
  let! v := Field field in gret (finish_key n h v).

Definition Header_Key (names : list string) (n : option Normaliser) (h : option Hasher) : Keyer :=
  let! v := HeaderValue names in gret (finish_key n h v).

Definition QueryParam_Key (names : list string) (n : option Normaliser) (h : option Hasher) : Keyer :=
  let! v := QueryValue names in gret (finish_key n h v).

(** [First.Key] *)
Fixpoint First_Key (parts : list Keyer) (n : option Normaliser) (h : option Hasher) : Keyer :=
  match parts with
  | [] => gret ("", false)
  | p :: ps =>
      let! (v, ok) := p in
      if negb ok then First_Key ps n h
      else
        let v := normalise n v in
        if String.eqb v "" then First_Key ps n h else gret (hasher h v)
  end.

(** The loop of [Composite.Key]: every part, or nothing. *)
Fixpoint all_parts (parts : list Keyer) : GoM Request (option (list string)) :=
  match parts with
  | [] => gret (Some [])
  | p :: ps =>
      let! (v, ok) := p in
      if negb ok then gret None
      else
        let! vs := all_parts ps in
        gret (match vs with Some vs => Some (v :: vs) | None => None end)
  end.

Definition Composite_Key (parts : list Keyer) (sep : string) (n : option Normaliser)
    (h : option Hasher) : Keyer :=
  match parts with
  | [] => gret ("", false)
  | _ =>
      let sep := if String.eqb sep "" then ":" else sep in
      let! vs := all_parts parts in
      match vs with
      | None => gret ("", false)
      | Some vs =>
          let joined := normalise n (Join vs sep) in
          if String.eqb joined "" then gret ("", false) else gret (hasher h joined)
      end
  end.

End keyers.

(** ** What a keyer computes

    [computes k f]: on every request whose caches are coherent [k] returns what [f]
    says of its inputs, and only fills caches. *)
Definition stable {A} (f : Request -> A) : Prop := forall r r', same_input r r' -> f r' = f r.

Definition computes `{JSONDecoder} (k : Keyer) (f : Request -> string * bool) : Prop :=
  stable f /\ forall r, coherent r -> reads k r (f r).

(** The first part that applies with a usable value. *)
Fixpoint first_of (fs : list (Request -> string * bool)) (n : option Normaliser)
    (h : option Hasher) (r : Request) : string * bool :=
  match fs with
  | [] => ("", false)
  | f :: fs =>
      let '(v, ok) := f r in
      if (ok : bool) && negb (String.eqb (normalise n v) "") then hasher h (normalise n v)
      else first_of fs n h r
  end.

(** Every part's value, if all of them apply. *)
Fixpoint parts_of (fs : list (Request -> string * bool)) (r : Request) : option (list string) :=
  match fs with
  | [] => Some []
  | f :: fs =>
      let '(v, ok) := f r in
      if (ok : bool) then match parts_of fs r with Some vs => Some (v :: vs) | None => None end
      else None
  end.

Definition composite_of (fs : list (Request -> string * bool)) (sep : string)
    (n : option Normaliser) (h : option Hasher) (r : Request) : string * bool :=
  match fs with
  | [] => ("", false)
  | _ =>
      match parts_of fs r with
      | None => ("", false)
      | Some vs => finish_key n h (Join vs (if String.eqb sep "" then ":" else sep), true)
      end
  end.

(** The keyers the configuration can build. *)
Inductive built `{JSONDecoder} `{MapRange} `{Unicode} : Keyer -> (Request -> string * bool) -> Prop :=
| built_body field n h :
    built (BodyField_Key field n h) (fun r => finish_key n h (field_of (Body r) field))
| built_header names n h :
    built (Header_Key names n h) (fun r => finish_key n h (header_value (Header r) names))
| built_query names n h :
    built (QueryParam_Key names n h) (fun r => finish_key n h (query_value_of (RawQuery r) names))
| built_first ks fs n h :
    all_built ks fs -> built (First_Key ks n h) (first_of fs n h)
| built_composite ks fs sep n h :
    all_built ks fs -> built (Composite_Key ks sep n h) (composite_of fs sep n h)
with all_built `{JSONDecoder} `{MapRange} `{Unicode}
  : list Keyer -> list (Request -> string * bool) -> Prop :=
| all_built_nil : all_built [] []
| all_built_cons k f ks fs : built k f -> all_built ks fs -> all_built (k :: ks) (f :: fs).

Scheme built_ind2 := Induction for built Sort Prop
  with all_built_ind2 := Induction for all_built Sort Prop.
Combined Scheme built_mutind from built_ind2, all_built_ind2.

Section lemmas.
Context {J : JSONDecoder} {M : MapRange} {U : Unicode}.

Lemma reads_finish (m : GoM Request (string * bool)) r v n h :
  reads m r v -> reads (let! v := m in gret (finish_key n h v)) r (finish_key n h v).
Proof. intros Hm. eapply reads_bind; [done|]. intros r' Hc _. by apply reads_ret. Qed.

Lemma stable_first fs n h : Forall stable fs -> stable (first_of fs n h).
Proof.
  intros Hfs r r' Hs. induction Hfs as [|f fs Hf _ IH]; simpl; [done|].
  by rewrite (Hf _ _ Hs), IH.
Qed.

Lemma stable_parts fs : Forall stable fs -> stable (parts_of fs).
Proof.
  intros Hfs r r' Hs. induction Hfs as [|f fs Hf _ IH]; simpl; [done|].
  by rewrite (Hf _ _ Hs), IH.
Qed.

Lemma computes_stable ks fs : Forall2 computes ks fs -> Forall stable fs.
Proof. induction 1 as [|k f ks fs [Hf _]]; by constructor. Qed.

Lemma computes_first ks fs n h :
  Forall2 computes ks fs -> computes (First_Key ks n h) (first_of fs n h).
Proof.
  intros Hall. split; [by eapply stable_first, computes_stable|].
  induction Hall as [|k f ks fs [Hf Hk] Hall IH]; intros r Hc; simpl; [by apply reads_ret|].
  eapply reads_bind; [by apply Hk|]. intros r' Hc' Hs.
  assert (reads (First_Key ks n h) r' (first_of fs n h r)) as Hrest.
  { rewrite <-(stable_first fs n h (computes_stable _ _ Hall) _ _ Hs). by apply IH. }
  destruct (f r) as [v []]; simpl; [|done]. destruct (String.eqb _ ""); simpl; [done|].
  by apply reads_ret.
Qed.

Lemma all_parts_reads ks fs r :
  Forall2 computes ks fs -> coherent r -> reads (all_parts ks) r (parts_of fs r).
Proof.
  intros Hall. revert r. induction Hall as [|k f ks fs [Hf Hk] Hall IH]; intros r Hc; simpl;
    [by apply reads_ret|].
  eapply reads_bind; [by apply Hk|]. intros r' Hc' Hs.
  destruct (f r) as [v []]; simpl; [|by apply reads_ret].
  eapply reads_bind; [by apply IH|]. intros r2 Hc2 Hs2.
  rewrite (stable_parts fs (computes_stable _ _ Hall) _ _ Hs).
  destruct (parts_of fs r); by apply reads_ret.
Qed.

Lemma computes_composite ks fs sep n h :
  Forall2 computes ks fs -> computes (Composite_Key ks sep n h) (composite_of fs sep n h).
Proof.
  intros Hall. pose proof (stable_parts fs (computes_stable _ _ Hall)) as Hst.
  destruct Hall as [|k f ks fs Hkf Hall].
  { split; [done|]. intros r Hc. by apply reads_ret. }
  assert (Forall2 computes (k :: ks) (f :: fs)) as Hall' by by constructor.
  split.
  - intros r r' Hs. unfold composite_of. by rewrite (Hst _ _ Hs).
  - intros r Hc. unfold Composite_Key, composite_of.
    eapply reads_bind; [by apply (all_parts_reads _ _ _ Hall')|]. intros r' Hc' _.
    destruct (parts_of (f :: fs) r) as [vs|]; [|by apply reads_ret].
    unfold finish_key. simpl negb. cbn iota. destruct (String.eqb (normalise n _) ""); by apply reads_ret.
Qed.

Lemma built_computes :
  (forall k f, built k f -> computes k f) /\
  (forall ks fs, all_built ks fs -> Forall2 computes ks fs).
Proof.
  apply built_mutind.
  - intros field n h. split.
    + intros r r' (_ & _ & _ & Eb & _). by rewrite Eb.
    + intros r Hc. by apply reads_finish, Field_reads.
  - intros names n h. split.
    + intros r r' (_ & _ & Eh & _). by rewrite Eh.
    + intros r Hc. by apply reads_finish, HeaderValue_reads.
  - intros names n h. split.
    + intros r r' (_ & _ & _ & _ & Eq). by rewrite Eq.
    + intros r Hc. by apply reads_finish, QueryValue_reads.
  - intros. by apply computes_first.
  - intros. by apply computes_composite.
  - constructor.
  - by constructor.
Qed.

Lemma computes_settled k f : computes k f -> settled k.
Proof.
  intros [Hf Hk] r Hc. destruct (Hk r Hc) as (r1 & E & Hc1 & Hs1). rewrite E. simpl.
  split_and!; [done|done|]. intros r' Hc' Hs. destruct (Hk r' Hc') as (r2 & E2 & _ & _).
  by rewrite E2, (Hf _ _ Hs).
Qed.


End lemmas.

(** ** Buckets that are hashes *)
Definition is_hex (c : ascii) : bool := is_digit c || (97 <=? byte_Z c) && (byte_Z c <=? 102).

Lemma hex_digit_hex x : 0 <= x < 16 -> is_hex (hex_digit x) = true.
Proof.
  intros Hx. assert (forallb (fun n => is_hex (hex_digit (Z.of_nat n))) (seq 0 16) = true) as Hall
    by (vm_compute; reflexivity).
  rewrite forallb_forall in Hall. rewrite <-(Z2Nat.id x) by lia. apply Hall, in_seq. lia.
Qed.

Lemma byte_Z_range c : 0 <= byte_Z c < 256.
Proof. destruct c as [[] [] [] [] [] [] [] []]; vm_compute; split; congruence. Qed.

Lemma EncodeToString_hex s : sforall is_hex (EncodeToString s) = true.
Proof.
  induction s as [|c s IH]; [done|]. pose proof (byte_Z_range c). simpl.
  rewrite !hex_digit_hex, IH; [done| |].
  - apply Z.mod_pos_bound. lia.
  - split; [apply Z.div_pos; lia|apply Z.div_lt_upper_bound; lia].
Qed.

Lemma EncodeToString_length s : String.length (EncodeToString s) = (2 * String.length s)%nat.
Proof. induction s as [|c s IH]; simpl; [done|]. rewrite IH. lia. Qed.

Lemma sforall_impl p q s : (forall c, p c = true -> q c = true) -> sforall p s = true -> sforall q s = true.
Proof.
  intros Hpq. induction s as [|c s IH]; simpl; [done|].
  intros [Hc Hs]%andb_true_iff. by rewrite (Hpq _ Hc), (IH Hs).
Qed.

Lemma hex_not_brace c : is_hex c = true -> negb (is_brace c) = true.
Proof. destruct c as [[] [] [] [] [] [] [] []]; by vm_compute. Qed.

(** The text of a hash: 64 hexadecimal digits, which the store keeps as they are. *)
Definition hex64 (b : string) : Prop :=
  String.length b = 64%nat /\ sforall is_hex b = true /\ SanitizeBucket b = b.

Lemma HMAC_Hash_hex64 `{HMAC256} secret v b : HMAC_Hash secret v = (b, true) -> hex64 b.
Proof.
  unfold HMAC_Hash. destruct (String.eqb secret ""); intros [= <-]. split; [|split].
  - by rewrite EncodeToString_length, hmac_sha256_length.
  - apply EncodeToString_hex.
  - apply SanitizeBucket_id. unfold contains_brace. rewrite negb_false_iff.
    eapply sforall_impl; [apply hex_not_brace|apply EncodeToString_hex].
Qed.

(** A hashed bucket is safe to store.  With a secret the bucket is exactly 64
    lowercase hexadecimal digits whatever the value, so it is never empty, holds
    no brace and reaches the store unchanged; without one there is no bucket at
    all, and the limiter does not apply. *)
Theorem hashed_bucket_safe `{HMAC256} secret v b ok :
  HMAC_Hash secret v = (b, ok) ->
  ok = Available secret /\
  (ok = false -> b = "") /\
  (ok = true -> hex64 b).
Proof.
  intros E. split_and!.
  - revert E. unfold HMAC_Hash, Available. by destruct (String.eqb secret ""); intros [= _ <-].
  - intros ->. revert E. unfold HMAC_Hash. by destruct (String.eqb secret ""); intros [= <-].
  - intros ->. by eapply HMAC_Hash_hex64.
Qed.

(** ** Networks *)
Definition no_dot (s : string) : Prop := ContainsByte s "." = false.

Lemma Itoa_byte x : byte_ok x -> no_dot (Itoa x) /\ ContainsByte (Itoa x) "/" = false.
Proof.
  intros Hx.
  assert (forallb (fun n => negb (ContainsByte (Itoa (Z.of_nat n)) ".")
            && negb (ContainsByte (Itoa (Z.of_nat n)) "/")) (seq 0 256) = true) as Hall
    by (vm_compute; reflexivity).
  rewrite forallb_forall in Hall. unfold byte_ok in Hx.
  specialize (Hall (Z.to_nat x)). rewrite Z2Nat.id in Hall by lia.
  assert (In (Z.to_nat x) (seq 0 256)) as Hin by (apply in_seq; lia).
  apply Hall, andb_true_iff in Hin as [H1 H2]. by rewrite !negb_true_iff in H1, H2.
Qed.

Lemma Itoa_inj x y : Itoa x = Itoa y -> x = y.
Proof. apply (inj pretty). Qed.

Lemma dotted_inj a b c d a' b' c' d' t t' :
  byte_ok a -> byte_ok b -> byte_ok c -> byte_ok d ->
  byte_ok a' -> byte_ok b' -> byte_ok c' -> byte_ok d' ->
  dotted [a; b; c; d] ++ "/" ++ t = dotted [a'; b'; c'; d'] ++ "/" ++ t' ->
  [a; b; c; d] = [a'; b'; c'; d'] /\ t = t'.
Proof.
  intros [Ha _]%Itoa_byte [Hb _]%Itoa_byte [Hc _]%Itoa_byte [_ Hd]%Itoa_byte
    [Ha' _]%Itoa_byte [Hb' _]%Itoa_byte [Hc' _]%Itoa_byte [_ Hd']%Itoa_byte.
  unfold dotted, Join. cbn [map String.concat]. rewrite !app_assoc_s.
  intros E. apply app_sep_inj in E as [E1 E]; [|done..].
  apply app_sep_inj in E as [E2 E]; [|done..]. apply app_sep_inj in E as [E3 E]; [|done..].
  apply app_sep_inj in E as [E4 E]; [|done..].
  by rewrite (Itoa_inj _ _ E1), (Itoa_inj _ _ E2), (Itoa_inj _ _ E3), (Itoa_inj _ _ E4).
Qed.

Lemma land_byte x n : byte_ok x -> byte_ok (Z.land x (mask_byte (Z.max 0 (Z.min 8 n)))).
Proof.
  intros Hx. rewrite land_mask_byte by (done || lia). unfold byte_ok in *.
  set (k := 8 - _). assert (0 < 2 ^ k) by (apply Z.pow_pos_nonneg; lia).
  pose proof (Z.div_mod x (2 ^ k)). pose proof (Z.mod_pos_bound x (2 ^ k)).
  pose proof (Z.div_pos x (2 ^ k)). nia.
Qed.

(** An address string that names an IPv4 address, directly or mapped into IPv6. *)
Definition names_v4 (s : string) (v4 : IP) : Prop :=
  exists ip, ParseIP (GoStrings.TrimSpace s) = Some ip /\ To4 ip = Some v4 /\
    List.length v4 = 4%nat /\ Forall byte_ok v4.

Lemma IPSubnet_v4 v4Bits v6Bits s v4 :
  0 <= v4Bits <= 32 -> names_v4 s v4 ->
  IPSubnet v4Bits v6Bits s = dotted (Mask v4 (CIDRMask v4Bits 32)) ++ "/" ++ Itoa v4Bits.
Proof.
  intros Hb (ip & Hp & H4 & Hl & _). unfold IPSubnet. rewrite Hp, H4, Hl.
  change (Z.of_nat 4 * 8) with 32.
  destruct (Z.ltb_spec v4Bits 0), (Z.ltb_spec 32 v4Bits); try lia. simpl orb. cbn iota.
  destruct v4 as [|a [|b [|c [|d []]]]]; try done.
Qed.

(** [IPSubnet] limits networks.  Two IPv4 addresses share a bucket exactly when
    their first [v4Bits] bits are the same, and a value that is not an address is
    its own bucket. *)
Theorem IPSubnet_networks v4Bits v6Bits s s' v4 v4' :
  0 <= v4Bits <= 32 -> names_v4 s v4 -> names_v4 s' v4' ->
  IPSubnet v4Bits v6Bits s = IPSubnet v4Bits v6Bits s' <->
  num4 v4 / 2 ^ (32 - v4Bits) = num4 v4' / 2 ^ (32 - v4Bits).
Proof.
  intros Hb Hs Hs'. rewrite (IPSubnet_v4 _ _ _ _ Hb Hs), (IPSubnet_v4 _ _ _ _ Hb Hs').
  destruct Hs as (_ & _ & _ & Hl & Hok), Hs' as (_ & _ & _ & Hl' & Hok').
  destruct v4 as [|a [|b [|c [|d []]]]]; try done. destruct v4' as [|a' [|b' [|c' [|d' []]]]]; try done.
  repeat (apply Forall_cons in Hok as [? Hok]). repeat (apply Forall_cons in Hok' as [? Hok']).
  rewrite <-Mask_v4_iff by done. split; [|by intros ->]. intros E.
  apply dotted_inj in E as [E _]; [exact E|apply land_byte; done..].
Qed.

(** ** Composite values *)

Lemma Join_injective sep vs vs' :
  List.length vs = List.length vs' ->
  Forall (fun v => ContainsByte v sep = false) vs -> Forall (fun v => ContainsByte v sep = false) vs' ->
  Join vs (String sep "") = Join vs' (String sep "") -> vs = vs'.
Proof.
  unfold Join. revert vs'. induction vs as [|v vs IH]; intros [|v' vs'] Hl Hvs Hvs' E; simpl in Hl; try lia;
    [done|]. apply Forall_cons in Hvs as [Hv Hvs]. apply Forall_cons in Hvs' as [Hv' Hvs'].
  destruct vs as [|w vs], vs' as [|w' vs']; simpl in Hl; try lia; [by simpl in E; subst|].
  cbn [String.concat] in E. apply app_sep_inj in E as [-> E]; [|done..]. f_equal. by apply IH; [simpl; lia|..].
Qed.

Lemma parts_of_length fs r vs : parts_of fs r = Some vs -> List.length vs = List.length fs.
Proof.
  revert vs. induction fs as [|f fs IH]; intros vs; simpl; [by intros [= <-]|].
  destruct (f r) as [v []]; [|done]. destruct (parts_of fs r) as [ws|]; [|done].
  intros [= <-]. simpl. by rewrite (IH ws).
Qed.

Lemma composite_plain fs sep r vs :
  fs <> [] -> parts_of fs r = Some vs ->
  composite_of fs (String sep "") None None r
    = if String.eqb (Join vs (String sep "")) "" then ("", false) else (Join vs (String sep ""), true).
Proof.
  intros Hne E. unfold composite_of. destruct fs as [|f fs]; [done|]. rewrite E.
  simpl String.eqb. unfold finish_key. simpl negb. cbn iota beta. unfold normalise, hasher, Plain_Hash.
  by destruct (String.eqb (Join vs (String sep "")) "").
Qed.

(** An unhashed composite bucket tells two requests apart when their parts do
    not hold the separator: if the keyer applies to both with the same bucket,
    every part has the same value in both. *)
Theorem composite_tells_apart fs sep r r' vs vs' b :
  parts_of fs r = Some vs -> parts_of fs r' = Some vs' ->
  Forall (fun v => ContainsByte v sep = false) vs -> Forall (fun v => ContainsByte v sep = false) vs' ->
  composite_of fs (String sep "") None None r = (b, true) ->
  composite_of fs (String sep "") None None r' = (b, true) -> vs = vs'.
Proof.
  intros Hvs Hvs' Hs Hs' E E'. assert (fs <> []) as Hne by (by intros ->).
  rewrite (composite_plain _ _ _ _ Hne Hvs) in E. rewrite (composite_plain _ _ _ _ Hne Hvs') in E'.
  apply (Join_injective sep); [|done|done|].
  - by rewrite (parts_of_length _ _ _ Hvs), (parts_of_length _ _ _ Hvs').
  - destruct (String.eqb (Join vs _) ""); [done|]. destruct (String.eqb (Join vs' _) ""); [done|].
    by simplify_eq.
Qed.

(** ** Instances of the theorems *)
Section examples.

#[local] Existing Instances one_body range_forward ascii_only.

Definition ip_keyer : Keyer := Header_Key ["x-real-ip"; "x-forwarded-for"] (Some (IPSubnet 24 64)) None.
Definition user_keyer : Keyer := BodyField_Key "user.email" (Some Lower) None.


Program Instance zero_hmac : HMAC256 :=
  {| hmac_sha256 := fun _ _ => string_of_list_ascii (repeat "000"%char 32) |}.
Next Obligation. done. Qed.

Lemma hashed_bucket_safe_witness :
  exists b, HMAC_Hash "s3cret" "{}" = (b, true) /\ true = Available "s3cret" /\ (true = false -> b = "") /\
    (true = true -> hex64 b).
Proof.
  destruct (HMAC_Hash "s3cret" "{}") as [b ok] eqn:E.
  assert (ok = true) as -> by (revert E; vm_compute; congruence).
  exists b. split; [reflexivity|]. exact (hashed_bucket_safe _ _ _ _ E).
Defined.

Lemma names_v4_example s a b c d :
  ParseIP (GoStrings.TrimSpace s) = Some (v4_in_v6 [a; b; c; d]) ->
  byte_ok a -> byte_ok b -> byte_ok c -> byte_ok d -> names_v4 s [a; b; c; d].
Proof. intros E ????. exists (v4_in_v6 [a; b; c; d]). split_and!; try done. by repeat (apply Forall_cons; split). Qed.

Lemma IPSubnet_networks_witness :
  IPSubnet 24 64 " 203.0.113.9" = "203.0.113.0/24" /\
  (IPSubnet 24 64 " 203.0.113.9" = IPSubnet 24 64 "::ffff:203.0.113.200" <->
   num4 [203; 0; 113; 9] / 2 ^ (32 - 24) = num4 [203; 0; 113; 200] / 2 ^ (32 - 24)).
Proof.
  split; [vm_compute; reflexivity|].
  apply (IPSubnet_networks 24 64); [lia|apply names_v4_example..];
    try (vm_compute; reflexivity); split; lia.
Defined.

Definition plain_header (name : string) (r : Request) : string * bool :=
  header_value (Header r) [name].

Definition tenant_request (tenant user : string) : Request :=
  mkRequest "GET" "/" {["Tenant" := [tenant]; "User" := [user]]} "" "" None None.

Lemma composite_tells_apart_witness :
  composite_of [plain_header "tenant"; plain_header "user"] ":" None None (tenant_request "a" "b")
    = ("a:b", true) /\ ["a"; "b"] = ["a"; "b"].
Proof.
  split; [vm_compute; reflexivity|].
  apply (composite_tells_apart [plain_header "tenant"; plain_header "user"] ":"%char
           (tenant_request "a" "b") (tenant_request " a" "b") _ _ "a:b");
    try (vm_compute; reflexivity); repeat constructor.
Defined.

(** A part that holds the separator is not told apart. *)
Example composite_collides :
  composite_of [plain_header "tenant"; plain_header "user"] "" None None (tenant_request "a:b" "c") =
  composite_of [plain_header "tenant"; plain_header "user"] "" None None (tenant_request "a" "b:c").
Proof. vm_compute. reflexivity. Qed.

End examples.
