(* ===== verification/HttpApi.v ===== *)
(** * The ForwardAuth endpoint ([internal/httpapi])

    [/check] over a handler's configuration, the engine and a store of any state [S]:
    the response being written, the log and the metrics are the handler's own
    state.  [Mux] has the routes. *)
From stdpp Require Import base list gmap strings.
From Stdlib Require Import ZArith Lia Ascii String.
From S2P Require Import Prelude.
From S2P Require Import GoStrings.
From S2P Require Import Float.
From S2P Require Import Store.
From S2P Require Import Request.
From S2P Require Import Limiter.
From S2P Require Import Engine.

#[local] Open Scope string_scope.
#[local] Open Scope Z_scope.

(** ** Data *)
Record Response : Type := mkResponse {
  Response_Status : Z;
  Response_ContentType : string;
  Response_Body : string;
}.

(** A request body: what it delivers, and the error that may follow it. *)
Record body_reader : Type := mkReader {
  content : string;
  read_error : option error;
}.

(** What of a received [http.Request] the handler reads. *)
Record http_request : Type := mkHttpRequest {
  hr_Method : string;
  hr_Path : string;
  hr_RawQuery : string;
  hr_Header : HeaderMap;
  hr_Body : option body_reader;
}.

(** The response as it stands: [sent] is the status line once it has gone out. *)
Record response_writer : Type := mkWriter {
  sent : option Z;
  fields : HeaderMap;
  payload : string;
}.
Definition no_response : response_writer := mkWriter None ∅ "".

Inductive http_log : Type :=
| LogEngine (line : log_line)
| LogBodyTruncated (max_body : Z) (path : string)
| LogBodyError (e : error)
| LogBlocked (dry_run : bool) (limiter path : string) (count : Z) (retry_after : Duration)
| LogPanic (v : string).

Inductive metric : Type :=
| RecordDecision (limiter decision : string)
| RecordStoreError
| ObserveCheck (d : Duration).

(** The handler's own state: [aw] is [allowWriter.wrote]. *)
Record exchange : Type := mkExchange {
  ex_writer : response_writer;
  ex_wrote : bool;
  ex_log : list http_log;
  ex_metrics : list metric;
}.
Definition fresh_exchange : exchange := mkExchange no_response false [] [].

(** [Handler]; [h_metrics] says whether metrics are configured. *)
Record Handler : Type := mkHandler {
  h_limiters : list Limiter;
  h_metrics : bool;
  h_maxBody : Z;
  h_response : Response;
  h_responses : gmap string Response;
}.

Record Options : Type := mkOptions {
  Options_Limiters : list Limiter;
  Options_Metrics : bool;
  Options_Response : Response;
  Options_Responses : gmap string Response;
  Options_MaxBodyBytes : Z;
}.

(** A quoted JSON string. *)
Definition quoted (s : string) : string := String "034" (s ++ String "034" "").

Definition rate_limited_body : string := "{" ++ quoted "error" ++ ":" ++ quoted "rate_limited" ++ "}".

(** [New]; the routes it registers are in [Mux]. *)
Definition New (opts : Options) : Handler :=
  let maxBody := if Options_MaxBodyBytes opts <=? 0 then 262144 else Options_MaxBodyBytes opts in
  let r := Options_Response opts in
  let r := if Response_Status r =? 0
           then mkResponse 429 (Response_ContentType r) (Response_Body r) else r in
  let r := if String.eqb (Response_Body r) ""
           then mkResponse (Response_Status r)
                  (if String.eqb (Response_ContentType r) "" then "application/json"
                   else Response_ContentType r) rate_limited_body
           else r in
  mkHandler (Options_Limiters opts) (Options_Metrics opts) maxBody r (Options_Responses opts).

(** ** The original request *)
Definition headerForwardedURI : string := "X-Forwarded-Uri".
Definition headerForwardedMethod : string := "X-Forwarded-Method".

Definition originalPath (r : http_request) : string :=
  let uri := Header_Get (hr_Header r) headerForwardedURI in
  if String.eqb uri "" then hr_Path r
  else let '(path, _, found) := Cut uri "?" in if (found : bool) then path else uri.

Definition originalQuery (r : http_request) : string :=
  let uri := Header_Get (hr_Header r) headerForwardedURI in
  if String.eqb uri "" then hr_RawQuery r
  else let '(_, query, found) := Cut uri "?" in if (found : bool) then query else "".

Definition originalMethod (r : http_request) : string :=
  let m := Header_Get (hr_Header r) headerForwardedMethod in
  if negb (String.eqb m "") then m else hr_Method r.

Definition retryAfterSeconds (d : Duration) : Z := if d <=? 0 then 1 else ceil_seconds d.

(** [io.ReadAll(io.LimitReader(body, n))]: the error of the body is met only if its
    content ends before the limit. *)
Definition read_limited (b : body_reader) (n : Z) : string * option error :=
  if Z.of_nat (String.length (content b)) <? n then (content b, read_error b)
  else (String.substring 0 (Z.to_nat n) (content b), None).

(** Status codes as [net/http] has them: a code of the wrong size makes
    [WriteHeader] panic, an informational one does not end the headers, and some
    take no body. *)
Definition valid_code (code : Z) : bool := (100 <=? code) && (code <=? 999).
Definition informational (code : Z) : bool := (100 <=? code) && (code <=? 199) && negb (code =? 101).
Definition body_allowed (code : Z) : bool :=
  negb ((100 <=? code) && (code <=? 199)) && negb (code =? 204) && negb (code =? 304).

(** A status a rejection can be given. *)
Definition carries_body (code : Z) : bool := valid_code code && body_allowed code.

(** [m], then [d] however it ended. *)
Definition gdefer {S A} (m : GoM S A) (d : GoM S unit) : GoM S A :=
  fun s =>
    let '(o, s1) := m s in
    match d s1 with
    | (Returns _, s2) => (o, s2)
    | (Panics v, s2) => (Panics v, s2)
    end.

Section handler.
Context {U : Unicode} {S : Type} `{Clock S}.
Context (st : Store S) (h : Handler).

Abbreviation HandlerM := (GoM (exchange * S)).

Definition log (line : http_log) : HandlerM unit :=
  on_own (fun x => (tt, mkExchange (ex_writer x) (ex_wrote x) (ex_log x ++ [line]) (ex_metrics x))).

Definition metric_event (m : metric) : HandlerM unit :=
  on_own (fun x => (tt, mkExchange (ex_writer x) (ex_wrote x) (ex_log x) (ex_metrics x ++ [m]))).

(** A metric, when metrics are configured. *)
Definition measure (m : metric) : HandlerM unit := if h_metrics h then metric_event m else gret tt.

(** [w.Header().Set] *)
Definition set_header (k v : string) : HandlerM unit :=
  on_own (fun x =>
    let w := ex_writer x in
    (tt, mkExchange (mkWriter (sent w) (<[CanonicalMIMEHeaderKey k := [v]]> (fields w)) (payload w))
           (ex_wrote x) (ex_log x) (ex_metrics x))).

(** [http.ResponseWriter.WriteHeader]: only the first final one counts. *)
Definition inner_WriteHeader (code : Z) : HandlerM unit :=
  fun '(x, s) =>
    let w := ex_writer x in
    match sent w with
    | Some _ => (Returns tt, (x, s))
    | None =>
        if informational code then (Returns tt, (x, s))
        else if valid_code code
        then (Returns tt, (mkExchange (mkWriter (Some code) (fields w) (payload w))
                             (ex_wrote x) (ex_log x) (ex_metrics x), s))
        else (Panics "invalid WriteHeader code", (x, s))
    end.

Definition mark_wrote : HandlerM unit :=
  on_own (fun x => (tt, mkExchange (ex_writer x) true (ex_log x) (ex_metrics x))).

(** [allowWriter.WriteHeader] and [allowWriter.Write]. *)
Definition WriteHeader (code : Z) : HandlerM unit :=
  let! _ := mark_wrote in inner_WriteHeader code.

Definition Write (b : string) : HandlerM unit :=
  let! _ := mark_wrote in
  on_own (fun x =>
    let w := ex_writer x in
    let c := match sent w with Some c => c | None => 200 end in
    (tt, mkExchange (mkWriter (Some c) (fields w)
                       (if body_allowed c then payload w ++ b else payload w))
           (ex_wrote x) (ex_log x) (ex_metrics x))).

(** [recoverAndAllow] around a handler. *)
Definition recoverAndAllow (next : HandlerM unit) : HandlerM unit :=
  grecover next (fun v =>
    let! _ := log (LogPanic v) in
    let! _ := if h_metrics h then
        let! _ := metric_event (RecordDecision "panic" (Verdict_string VerdictFailedOpen)) in
        metric_event RecordStoreError
      else gret tt in
    let! x := get_own in
    if negb (ex_wrote x) then inner_WriteHeader 200 else gret tt).

Definition readBody (r : http_request) : HandlerM (string * bool) :=
  match hr_Body r with
  | None => gret ("", false)
  | Some body =>
      let (b, err) := read_limited body (wrap64 (h_maxBody h + 1)) in
      match err with
      | Some e => let! _ := log (LogBodyError e) in gret ("", false)
      | None =>
          if h_maxBody h <? Z.of_nat (String.length b)
          then gret (String.substring 0 (Z.to_nat (h_maxBody h)) b, true)
          else gret (b, false)
      end
  end.

(** [record] *)
Fixpoint record_each (evs : list Evaluation) : HandlerM unit :=
  match evs with
  | [] => gret tt
  | e :: evs =>
      let! _ := metric_event (RecordDecision (Evaluation_Limiter e) (Verdict_string (Evaluation_Verdict e))) in
      let! _ := if bool_decide (Evaluation_Verdict e = VerdictFailedOpen)
                then metric_event RecordStoreError else gret tt in
      record_each evs
  end.

Definition record (d : Decision) : HandlerM unit :=
  if negb (h_metrics h) then gret tt
  else match Decision_Evaluations d with
       | [] => metric_event (RecordDecision "" (Verdict_string VerdictAllowed))
       | evs => record_each evs
       end.

Definition response_for (d : Decision) : Response :=
  match h_responses h !! Decision_Limiter d with Some o => o | None => h_response h end.

Definition writeBlocked (d : Decision) : HandlerM unit :=
  let resp := response_for d in
  let! _ := if negb (String.eqb (Response_ContentType resp) "")
            then set_header "Content-Type" (Response_ContentType resp) else gret tt in
  let! _ := if Decision_AdviseRetryAfter d
            then set_header "Retry-After" (Itoa (retryAfterSeconds (Decision_RetryAfter d)))
            else gret tt in
  let! _ := WriteHeader (Response_Status resp) in
  Write (Response_Body resp).

(** [h.engine.Evaluate]: the engine logs to the handler's logger. *)
Definition evaluate (req : Request) : HandlerM Decision :=
  fun '(x, s) =>
    let '(o, (f, s')) := Evaluate st (h_limiters h) (mkFrame req [], s) in
    (o, (mkExchange (ex_writer x) (ex_wrote x) (ex_log x ++ map LogEngine (frame_log f)) (ex_metrics x), s')).

Definition check_request (r : http_request) (body : string) : Request :=
  mkRequest (originalMethod r) (originalPath r) (hr_Header r) body (originalQuery r) None None.

Definition check_body (r : http_request) : HandlerM unit :=
  let! (body, truncated) := readBody r in
  let! _ := if (truncated : bool) then
      let! _ := log (LogBodyTruncated (h_maxBody h) (originalPath r)) in
      measure (RecordDecision "body" (Verdict_string VerdictFailedOpen))
    else gret tt in
  let req := check_request r body in
  let! d := evaluate req in
  let! _ := record d in
  let! _ := if Decision_Blocked d
    then log (LogBlocked (Decision_DryRun d) (Decision_Limiter d) (Path req) (Decision_Count d)
                (Decision_RetryAfter d))
    else gret tt in
  if Rejected d then writeBlocked d else WriteHeader 200.

(** [handleCheck]: the duration is observed however the check ends. *)
Definition handleCheck (r : http_request) : HandlerM unit :=
  let! start := now in
  gdefer (check_body r)
    (let! stop := now in measure (ObserveCheck (Time.Sub stop start))).

(** [handleHealth]: never looks at the store. *)
Definition handleHealth : HandlerM unit :=
  let! _ := set_header "Content-Type" "text/plain; charset=utf-8" in
  let! _ := WriteHeader 200 in
  Write "ok".

(** A request to [/check], and the status the proxy sees: a handler that wrote none
    is answered 200 by the server. *)
Definition serve_check (r : http_request) : exchange * S -> outcome unit * (exchange * S) :=
  recoverAndAllow (handleCheck r).

End handler.

Definition status_of (w : response_writer) : Z := match sent w with Some c => c | None => 200 end.

(** ** What a check amounts to *)
Section specification.
Context {U : Unicode} {S : Type} `{Clock S}.
Context (st : Store S) (h : Handler).

(** The body the limiters see, and whether it was cut. *)
Definition body_seen (r : http_request) : string * bool :=
  match hr_Body r with
  | None => ("", false)
  | Some body =>
      match read_limited body (wrap64 (h_maxBody h + 1)) with
      | (_, Some _) => ("", false)
      | (b, None) =>
          if h_maxBody h <? Z.of_nat (String.length b)
          then (String.substring 0 (Z.to_nat (h_maxBody h)) b, true)
          else (b, false)
      end
  end.

(** The headers of a rejection, and there are no others. *)
Definition rejection_fields (d : Decision) : HeaderMap :=
  let resp := response_for h d in
  let m := if String.eqb (Response_ContentType resp) "" then ∅
           else {["Content-Type" := [Response_ContentType resp]]} in
  if Decision_AdviseRetryAfter d
  then <["Retry-After" := [Itoa (retryAfterSeconds (Decision_RetryAfter d))]]> m else m.

(** The response a decision stands for. *)
Definition reply_to (d : Decision) : response_writer :=
  if Rejected d
  then mkWriter (Some (Response_Status (response_for h d))) (rejection_fields d)
         (Response_Body (response_for h d))
  else mkWriter (Some 200) ∅ "".

Lemma readBody_run r x (s : S) : exists lines,
  readBody h r (x, s) = (Returns (body_seen r),
    (mkExchange (ex_writer x) (ex_wrote x) (ex_log x ++ lines) (ex_metrics x), s)).
Proof.
  assert (x = mkExchange (ex_writer x) (ex_wrote x) (ex_log x ++ []) (ex_metrics x)) as Ex
    by (rewrite app_nil_r; by destruct x).
  unfold readBody, body_seen. destruct (hr_Body r) as [body|]; [|exists []; by rewrite <-Ex].
  destruct (read_limited body _) as [b [e|]]; [by eexists|].
  exists []. rewrite <-Ex. by destruct (_ <? _).
Qed.

(** Nothing but the writer's own methods touch the response. *)
Definition same_writer (x x' : exchange) : Prop :=
  ex_writer x' = ex_writer x /\ ex_wrote x' = ex_wrote x.

Lemma metric_event_run m x (s : S) :
  metric_event m (x, s)
  = (Returns tt, (mkExchange (ex_writer x) (ex_wrote x) (ex_log x) (ex_metrics x ++ [m]), s)).
Proof. done. Qed.

Lemma record_each_run evs x (s : S) :
  exists x', record_each evs (x, s) = (Returns tt, (x', s)) /\ same_writer x x'.
Proof.
  revert x. induction evs as [|e evs IH]; intros x; [by exists x|]. cbn [record_each].
  rewrite (gbind_returns _ _ _ _ _ (metric_event_run _ _ _)). case_bool_decide.
  - rewrite (gbind_returns _ _ _ _ _ (metric_event_run _ _ _)).
    edestruct IH as (x' & -> & ? & ?). by exists x'.
  - rewrite (gbind_returns (gret tt) (fun _ => record_each evs) _ tt _ eq_refl).
    edestruct IH as (x' & -> & ? & ?). by exists x'.
Qed.

Lemma record_run d x (s : S) :
  exists x', record h d (x, s) = (Returns tt, (x', s)) /\ same_writer x x'.
Proof.
  unfold record. destruct (h_metrics h); cbn [negb]; [|by exists x].
  destruct (Decision_Evaluations d) as [|e evs]; [by eexists|apply (record_each_run (e :: evs))].
Qed.

Lemma carries_body_final code :
  carries_body code = true ->
  informational code = false /\ valid_code code = true /\ body_allowed code = true.
Proof.
  unfold carries_body, valid_code, informational, body_allowed. intros Hc.
  destruct ((100 <=? code) && (code <=? 199)); simpl in *; [by rewrite andb_false_r in Hc|].
  by rewrite andb_true_iff in Hc.
Qed.

Lemma writeBlocked_run d x (s : S) :
  carries_body (Response_Status (response_for h d)) = true -> ex_writer x = no_response ->
  exists x', writeBlocked h d (x, s) = (Returns tt, (x', s)) /\
    ex_writer x' = mkWriter (Some (Response_Status (response_for h d))) (rejection_fields d)
                     (Response_Body (response_for h d)).
Proof.
  intros (Hi & Hv & Hb)%carries_body_final Hw. destruct x as [w wr lg me]. simpl in Hw. subst w.
  unfold writeBlocked, rejection_fields.
  destruct (String.eqb (Response_ContentType (response_for h d)) ""); cbn [negb];
    destruct (Decision_AdviseRetryAfter d);
    unfold WriteHeader, inner_WriteHeader, Write, mark_wrote, set_header; go_unfold;
    simpl; rewrite Hi, Hv; eexists; (split; [reflexivity|]); simpl; by rewrite Hb.
Qed.

Lemma recoverAndAllow_returns next (x x' : exchange) (s s' : S) :
  next (x, s) = (Returns tt, (x', s')) -> recoverAndAllow h next (x, s) = (Returns tt, (x', s')).
Proof. intros E. unfold recoverAndAllow, grecover. by rewrite E. Qed.

(** Every response the handler may send takes a body. *)
Definition responses_ok : Prop :=
  (forall name resp, h_responses h !! name = Some resp -> carries_body (Response_Status resp) = true) /\
  carries_body (Response_Status (h_response h)) = true.

Lemma response_for_ok d : responses_ok -> carries_body (Response_Status (response_for h d)) = true.
Proof.
  intros [Hvs Hv]. unfold response_for.
  destruct (h_responses h !! _) as [resp|] eqn:El; [by eapply Hvs|done].
Qed.

(** [m] ends in state [s'] having written nothing. *)
Definition writes_nothing {A} (m : GoM (exchange * S) A) (x : exchange) (s : S) (a : A) (s' : S) : Prop :=
  exists x', m (x, s) = (Returns a, (x', s')) /\ ex_writer x' = ex_writer x.

Lemma writes_nothing_bind {A B} (m : GoM (exchange * S) A) (k : A -> GoM (exchange * S) B) x s a s' P :
  writes_nothing m x s a s' ->
  (forall x', ex_writer x' = ex_writer x -> exists x2 s2 b, k a (x', s') = (Returns b, (x2, s2)) /\ P x2 s2 b) ->
  exists x2 s2 b, gbind m k (x, s) = (Returns b, (x2, s2)) /\ P x2 s2 b.
Proof. intros (x' & E & W) Hk. rewrite (gbind_returns _ _ _ _ _ E). by apply Hk. Qed.

Lemma truncation_writes_nothing r truncated x (s : S) :
  writes_nothing (if (truncated : bool)
    then let! _ := log (LogBodyTruncated (h_maxBody h) (originalPath r)) in
         measure h (RecordDecision "body" (Verdict_string VerdictFailedOpen))
    else gret tt) x s tt s.
Proof. destruct truncated; [|by exists x]. unfold measure. by destruct (h_metrics h); eexists. Qed.

Lemma evaluate_writes_nothing req x (s s' : S) d f :
  Evaluate st (h_limiters h) (mkFrame req [], s) = (Returns d, (f, s')) ->
  writes_nothing (evaluate st h req) x s d s'.
Proof. intros E. unfold writes_nothing, evaluate. rewrite E. by eexists. Qed.

(** The body of the check writes the reply the decision stands for. *)
Lemma check_body_run r x (s s' : S) d f :
  responses_ok -> ex_writer x = no_response ->
  Evaluate st (h_limiters h) (mkFrame (check_request r (body_seen r).1) [], s) = (Returns d, (f, s')) ->
  exists x', check_body st h r (x, s) = (Returns tt, (x', s')) /\ ex_writer x' = reply_to d.
Proof.
  intros Hok Hx E.
  enough (exists x2 s2 u, check_body st h r (x, s) = (Returns u, (x2, s2)) /\
            (s2 = s' /\ ex_writer x2 = reply_to d)) as (x2 & s2 & [] & E2 & -> & W) by by exists x2.
  unfold check_body. destruct (readBody_run r x s) as (lines & Er).
  eapply writes_nothing_bind; [eexists; split; [exact Er|done]|]. intros x1 W1. cbn [ex_writer] in W1.
  destruct (body_seen r) as [b truncated]. cbn [fst] in E.
  eapply writes_nothing_bind; [apply truncation_writes_nothing|]. intros x2 W2. cbv zeta.
  eapply writes_nothing_bind; [by eapply evaluate_writes_nothing|]. intros x3 W3.
  destruct (record_run d x3 s') as (x4' & E4 & W4' & _).
  eapply writes_nothing_bind; [by exists x4'|]. intros x4 W4.
  eapply (writes_nothing_bind _ _ _ _ tt s'); [by destruct (Decision_Blocked d); eexists|]. intros x5 W5.
  assert (ex_writer x5 = no_response) as Hw5 by congruence.
  unfold reply_to. destruct (Rejected d).
  - destruct (writeBlocked_run d x5 s') as (x6 & E6 & W6); [by apply response_for_ok|done|].
    by exists x6, s', tt.
  - destruct x5 as [w wr lg me]. simpl in Hw5. subst w. by eexists _, s', tt.
Qed.

(** The check's one answer is the decision's, whatever the store. *)
Lemma check_replies r s :
  responses_ok ->
  exists d f s2 x' s',
    Evaluate st (h_limiters h) (mkFrame (check_request r (body_seen r).1) [], (clock_now s).2)
      = (Returns d, (f, s2)) /\
    serve_check st h r (fresh_exchange, s) = (Returns tt, (x', s')) /\
    ex_writer x' = reply_to d.
Proof.
  intros Hok. destruct (clock_now s) as [t0 s1] eqn:Et. cbn [snd].
  destruct (Evaluate_consults st (h_limiters h) (mkFrame (check_request r (body_seen r).1) [], s1))
    as (tr & [f s2] & _ & E).
  destruct (clock_now s2) as [t1 s3] eqn:Et1.
  destruct (check_body_run r fresh_exchange s1 s2 _ f Hok eq_refl E) as (x' & Ec & Ew).
  exists (summary tr), f, s2.
  assert (exists x2, handleCheck st h r (fresh_exchange, s) = (Returns tt, (x2, s3)) /\
            ex_writer x2 = reply_to (summary tr)) as (x2 & E2 & W2).
  { unfold handleCheck. rewrite (gbind_returns _ _ _ _ _ (now_layer fresh_exchange s t0 s1 Et)).
    unfold gdefer. rewrite Ec, (gbind_returns _ _ _ _ _ (now_layer x' s2 t1 s3 Et1)).
    unfold measure. destruct (h_metrics h); by eexists. }
  exists x2, s3. split_and!; [done| |done]. by apply recoverAndAllow_returns.
Qed.

(** A panic is an allow.  Whatever the wrapped handler does, the wrapper
    returns; if it panicked the panic is logged, and the status is the one that
    had already gone out, or else 200. *)
Theorem panic_is_allow next (x : exchange) (s : S) :
  exists x' s', recoverAndAllow h next (x, s) = (Returns tt, (x', s')) /\
    status_of (ex_writer x') = status_of (ex_writer (next (x, s)).2.1) /\
    match (next (x, s)).1 with
    | Returns _ => x' = (next (x, s)).2.1
    | Panics v => LogPanic v ∈ ex_log x'
    end.
Proof.
  unfold recoverAndAllow, grecover. destruct (next (x, s)) as [[[]|v] [[w wr lg me] s1]]; simpl.
  { by eexists _, s1. }
  assert (LogPanic v ∈ (lg ++ [LogPanic v])%list) as Hin by (apply elem_of_app; right; by left).
  unfold log, metric_event, inner_WriteHeader; go_unfold. destruct (h_metrics h), wr, w as [[c|] fs p]; simpl;
    eexists _, s1; (split; [reflexivity|]); (split; [done|]); exact Hin.
Qed.

End specification.

(** ** The body *)

Lemma substring_cut m n s : (n <= m)%nat -> (m <= String.length s)%nat ->
  String.length (String.substring 0 m s) = m /\
  String.substring 0 n (String.substring 0 m s) = String.substring 0 n s.
Proof.
  revert n s. induction m as [|m IH]; intros [|n] [|c s] Hn Hm; simpl in *; try lia; try done.
  - split; [|done]. f_equal. apply (IH O s); lia.
  - destruct (IH n s) as [-> ->]; [lia..|]. done.
Qed.

(** C40: the body the limiters see.  Below the largest integer, a body that can be
    read is passed on whole when it has at most [MaxBodyBytes] bytes, and otherwise cut to
    that many and reported as cut.  At the largest integer the limit overflows: every
    body is read as empty, and not reported. *)
Theorem readBody_spec {S} h r b (x : exchange) (s : S) :
  hr_Body r = Some (mkReader b None) -> 0 < h_maxBody h <= max_int64 ->
  readBody h r (x, s) =
    (Returns (if h_maxBody h =? max_int64 then ("", false)
              else if Z.of_nat (String.length b) <=? h_maxBody h then (b, false)
              else (String.substring 0 (Z.to_nat (h_maxBody h)) b, true)), (x, s)).
Proof.
  intros Hb Hm. unfold readBody, read_limited. rewrite Hb. cbn [content read_error].
  destruct (Z.eqb_spec (h_maxBody h) max_int64) as [E|E].
  - rewrite E. change (wrap64 (max_int64 + 1)) with min_int64.
    destruct (Z.ltb_spec (Z.of_nat (String.length b)) min_int64); [unfold min_int64 in *; lia|].
    change (Z.to_nat min_int64) with O. by destruct b.
  - rewrite wrap64_id by (unfold in_int64, min_int64, max_int64 in *; lia).
    destruct (Z.ltb_spec (Z.of_nat (String.length b)) (h_maxBody h + 1)) as [Hlt|Hge].
    + destruct (Z.ltb_spec (h_maxBody h) (Z.of_nat (String.length b))); [lia|].
      by destruct (Z.leb_spec (Z.of_nat (String.length b)) (h_maxBody h)); [|lia].
    + destruct (substring_cut (Z.to_nat (h_maxBody h + 1)) (Z.to_nat (h_maxBody h)) b) as [-> ->];
        [lia..|].
      destruct (Z.ltb_spec (h_maxBody h) (Z.of_nat (Z.to_nat (h_maxBody h + 1)))); [|lia].
      by destruct (Z.leb_spec (Z.of_nat (String.length b)) (h_maxBody h)); [lia|].
Qed.

(** ** The forwarded request *)
Lemma Cut_spec s c a b found :
  Cut s c = (a, b, found) ->
  ContainsByte a c = false /\ if (found : bool) then s = a ++ String c b else s = a /\ b = "".
Proof.
  revert a b found. induction s as [|d s IH]; intros a b found; simpl; [by intros [= <- <- <-]|].
  destruct (Ascii.eqb_spec d c) as [->|Hne]; [by intros [= <- <- <-]|].
  destruct (Cut s c) as [[a' b'] f]. intros [= <- <- <-]. destruct (IH _ _ _ eq_refl) as [Ha Hs].
  split; [simpl; rewrite Ha; by destruct (Ascii.eqb_spec d c)|].
  destruct f; [by rewrite Hs|]. by destruct Hs as [-> ->].
Qed.

(** The path and the query are the forwarded URI's.  When the proxy forwards a
    URI the path is what precedes the first question mark - so a limiter's path
    scope never sees a query - and the query is all that follows it. *)
Theorem forwarded_uri_split r :
  Header_Get (hr_Header r) headerForwardedURI <> "" ->
  ContainsByte (originalPath r) "?" = false /\
  (Header_Get (hr_Header r) headerForwardedURI = originalPath r ++ "?" ++ originalQuery r \/
   Header_Get (hr_Header r) headerForwardedURI = originalPath r /\ originalQuery r = "").
Proof.
  intros Hne. unfold originalPath, originalQuery.
  set (uri := Header_Get (hr_Header r) headerForwardedURI) in *.
  destruct (String.eqb_spec uri ""); [done|].
  destruct (Cut uri "?") as [[a b] found] eqn:E. apply Cut_spec in E as [Ha Hs].
  destruct found; [split; [done|by left]|]. destruct Hs as [-> _]. split; [done|by right].
Qed.

(** ** Instances of the theorems *)
Section examples.

#[local] Existing Instance ascii_only.

(** A store that blocks everything. *)
Definition always_blocked : Store sim_clock :=
  mkStore (fun _ _ => gret (mkResult true 3 Hour, None))
          (fun _ _ => gret (mkTakeResult false 0 (2500 * Millisecond), None))
          (gret None).

Definition capacity : Limiter :=
  mkLimiter "capacity" Rule_zero (mkBucket 10 20) (gret ("all", true)) ["/v1/*"] [] false true.

Definition api : Handler :=
  New (mkOptions [capacity] true (mkResponse 0 "" "") {["capacity" := mkResponse 503 "text/plain" "busy"]} 0).

Definition incoming : http_request :=
  mkHttpRequest "GET" "/check" ""
    {["X-Forwarded-Uri" := ["/v1/orders?page=2?x"]; "X-Forwarded-Method" := ["POST"]]}
    (Some (mkReader "{}" None)).

Example incoming_refused :
  ex_writer (serve_check always_blocked api incoming (fresh_exchange, SimClock 5 1)).2.1 =
    mkWriter (Some 503) {["Content-Type" := ["text/plain"]; "Retry-After" := ["3"]]} "busy".
Proof. vm_compute. reflexivity. Qed.

Definition small : Handler := New (mkOptions [] false (mkResponse 0 "" "") ∅ 4).

Definition long_body : http_request := mkHttpRequest "POST" "/" "" ∅ (Some (mkReader "abcdef" None)).

Lemma readBody_spec_witness :
  readBody small long_body (fresh_exchange, tt) = (Returns ("abcd", true), (fresh_exchange, tt)) /\
  readBody small long_body (fresh_exchange, tt) =
    (Returns (if h_maxBody small =? max_int64 then ("", false)
              else if Z.of_nat (String.length "abcdef") <=? h_maxBody small then ("abcdef", false)
              else (String.substring 0 (Z.to_nat (h_maxBody small)) "abcdef", true)), (fresh_exchange, tt)).
Proof.
  split; [vm_compute; reflexivity|]. apply readBody_spec; [reflexivity|].
  vm_compute. split; congruence.
Defined.

Lemma forwarded_uri_split_witness :
  originalPath incoming = "/v1/orders" /\ originalQuery incoming = "page=2?x" /\
  ContainsByte (originalPath incoming) "?" = false /\
  (Header_Get (hr_Header incoming) headerForwardedURI
     = originalPath incoming ++ "?" ++ originalQuery incoming \/
   Header_Get (hr_Header incoming) headerForwardedURI = originalPath incoming /\
   originalQuery incoming = "").
Proof.
  split; [vm_compute; reflexivity|]. split; [vm_compute; reflexivity|].
  apply (forwarded_uri_split incoming). vm_compute. congruence.
Defined.

End examples.
