(* ===== verification/Mux.v ===== *)
(** * Routing ([internal/httpapi], [Handler.ServeHTTP])

    The three routes [New] registers on its [http.ServeMux], as that multiplexer takes
    them: the path is cleaned, segments are unescaped, GET stands for HEAD too.  The
    page of metrics and the redirection's bytes are parameters. *)
From stdpp Require Import base list gmap strings.
From Stdlib Require Import ZArith Lia Ascii String.
From S2P Require Import Prelude.
From S2P Require Import GoStrings.
From S2P Require Import Store.
From S2P Require Import Request.
From S2P Require Import Limiter.
From S2P Require Import Engine.
From S2P Require Import HttpApi.

#[local] Open Scope string_scope.
#[local] Open Scope Z_scope.

(** ** Paths *)

(** The elements [path.Clean] keeps of a rooted path, the last first. *)
Fixpoint clean_elements (kept : list string) (elements : list string) : list string :=
  match elements with
  | [] => kept
  | e :: elements =>
      if String.eqb e "" || String.eqb e "." then clean_elements kept elements
      else if String.eqb e ".." then clean_elements (tail kept) elements
      else clean_elements (e :: kept) elements
  end.

Definition rooted (p : string) : string := if HasPrefix p "/" then p else "/" ++ p.

(** [cleanPath]: [path.Clean] from the root, the slash at the end kept. *)
Definition cleanPath (p : string) : string :=
  if String.eqb p "" then "/"
  else
    let p := rooted p in
    let np := "/" ++ Join (rev (clean_elements [] (Split p "/"))) "/" in
    if HasSuffix p "/" && negb (String.eqb np "/") then np ++ "/" else np.

(** [url.PathUnescape]: [None] is an error. *)
Fixpoint PathUnescape (s : string) : option string :=
  match s with
  | EmptyString => Some EmptyString
  | String "%" (String a (String b s')) =>
      match unhex a, unhex b, PathUnescape s' with
      | Some x, Some y, Some r => Some (String (ascii_of_N (Z.to_N (16 * x + y))) r)
      | _, _, _ => None
      end
  | String "%" _ => None
  | String c s' => match PathUnescape s' with Some r => Some (String c r) | None => None end
  end.

Definition unescaped (s : string) : string := match PathUnescape s with Some r => r | None => s end.

(** Whether a path is one segment, the literal of a pattern; paths begin with a slash. *)
Definition is_segment (literal path : string) : bool :=
  match path with
  | EmptyString => false
  | String c seg =>
      Ascii.eqb c "/" && negb (String.eqb seg "") && negb (ContainsByte seg "/") && String.eqb (unescaped seg) literal
  end.

(** ** Requests and routes *)

(** What of a received request the multiplexer reads, beside the request: the request
    line's target, whether it is of HTTP/1.1 or later, and the path as it was escaped. *)
Record incoming : Type := mkIncoming {
  in_RequestURI : string;
  in_HTTP11 : bool;
  in_EscapedPath : string;
  in_request : http_request;
}.

Inductive route : Type :=
| ToCheck
| ToHealth
| ToMetrics
| Redirected (path : string)
| MethodNotAllowed
| NotFound
| BadRequest.

#[global] Instance route_eq_dec : EqDecision route.
Proof. solve_decision. Defined.

(** The patterns [New] registers: the one without a method takes them all. *)
Definition pattern_for (metrics : bool) (method path : string) : option route :=
  let get := String.eqb method "GET" || String.eqb method "HEAD" in
  if get && is_segment "healthz" path then Some ToHealth
  else if get && metrics && is_segment "metrics" path then Some ToMetrics
  else if is_segment "check" path then Some ToCheck
  else None.

(** Without a match for the method: whether there is one for GET. *)
Definition no_pattern (metrics : bool) (path : string) : route :=
  match pattern_for metrics "GET" path with Some _ => MethodNotAllowed | None => NotFound end.

Definition route_of (metrics : bool) (i : incoming) : route :=
  let method := hr_Method (in_request i) in
  let escaped := in_EscapedPath i in
  if String.eqb (in_RequestURI i) "*" then BadRequest
  else if String.eqb method "CONNECT" then
    match pattern_for metrics method escaped with Some r => r | None => no_pattern metrics escaped end
  else
    let path := cleanPath escaped in
    if negb (String.eqb path escaped) then Redirected path
    else match pattern_for metrics method path with Some r => r | None => no_pattern metrics path end.

(** ** Answers *)

(** [http.Error] *)
Definition Error_response (fs : HeaderMap) (code : Z) (message : string) : response_writer :=
  mkWriter (Some code)
    (<["X-Content-Type-Options" := ["nosniff"]]> (<["Content-Type" := ["text/plain; charset=utf-8"]]> fs))
    (message ++ String "010" "").

(** [http.Redirect]'s answer and [promhttp]'s page. *)
Class Pages : Type := {
  moved : string -> http_request -> response_writer;
  page : http_request -> response_writer;
  moved_redirects path r : exists code, sent (moved path r) = Some code /\ 300 <= code < 400;
}.

Section mux.
Context {U : Unicode} {S : Type} `{Clock S} {P : Pages}.
Context (st : Store S) (h : Handler).

Definition respond (w : response_writer) : GoM (exchange * S) unit :=
  on_own (fun x => (tt, mkExchange w (ex_wrote x) (ex_log x) (ex_metrics x))).

(** [Handler.ServeHTTP]: the request goes to what its route names. *)
Definition ServeHTTP (i : incoming) : GoM (exchange * S) unit :=
  match route_of (h_metrics h) i with
  | ToCheck => serve_check st h (in_request i)
  | ToHealth => handleHealth
  | ToMetrics => respond (page (in_request i))
  | Redirected path => respond (moved path (in_request i))
  | MethodNotAllowed => respond (Error_response {["Allow" := ["GET, HEAD"]]} 405 "Method Not Allowed")
  | NotFound => respond (Error_response ∅ 404 "404 page not found")
  | BadRequest =>
      respond (mkWriter (Some 400) (if in_HTTP11 i then {["Connection" := ["close"]]} else ∅) "")
  end.

(** The answer of a health check. *)
Definition healthy : response_writer :=
  mkWriter (Some 200) {["Content-Type" := ["text/plain; charset=utf-8"]]} "ok".

(** What a request is answered, but for a check. *)
Definition fixed_answer (i : incoming) : option response_writer :=
  match route_of (h_metrics h) i with
  | ToCheck => None
  | ToHealth => Some healthy
  | ToMetrics => Some (page (in_request i))
  | Redirected path => Some (moved path (in_request i))
  | MethodNotAllowed => Some (Error_response {["Allow" := ["GET, HEAD"]]} 405 "Method Not Allowed")
  | NotFound => Some (Error_response ∅ 404 "404 page not found")
  | BadRequest => Some (mkWriter (Some 400) (if in_HTTP11 i then {["Connection" := ["close"]]} else ∅) "")
  end.

(** A request that is not a check is answered without the store. *)
Lemma fixed_answer_run i w s :
  fixed_answer i = Some w ->
  exists wrote, ServeHTTP i (fresh_exchange, s) = (Returns tt, (mkExchange w wrote [] [], s)).
Proof.
  unfold fixed_answer, ServeHTTP. destruct (route_of (h_metrics h) i); intros [= <-]; by eexists.
Qed.

Lemma check_answer i : fixed_answer i = None <-> route_of (h_metrics h) i = ToCheck.
Proof. unfold fixed_answer. by destruct (route_of (h_metrics h) i). Qed.

End mux.

(** ** What is routed where *)

(** The path is one segment, which may be escaped. *)
Definition names (literal : string) (i : incoming) : Prop :=
  in_RequestURI i <> "*" /\
  exists seg, in_EscapedPath i = "/" ++ seg /\ seg <> "" /\ ContainsByte seg "/" = false /\ unescaped seg = literal.

Definition gets (i : incoming) : Prop := hr_Method (in_request i) = "GET" \/ hr_Method (in_request i) = "HEAD".

Lemma is_segment_iff literal path :
  is_segment literal path = true <->
  exists seg, path = "/" ++ seg /\ seg <> "" /\ ContainsByte seg "/" = false /\ unescaped seg = literal.
Proof.
  destruct path as [|c seg]; simpl; [split; [done|by intros (? & ? & _)]|].
  rewrite !andb_true_iff, !negb_true_iff, String.eqb_eq, String.eqb_neq, Ascii.eqb_eq. split.
  - intros [[[-> ?] ?] ?]. by exists seg.
  - intros (seg' & [= -> ->] & ? & ? & ?). done.
Qed.

Lemma Split_whole s c : ContainsByte s c = false -> Split s c = [s].
Proof.
  induction s as [|d s IH]; [done|]. simpl. intros [Hd Hs]%orb_false_iff. by rewrite Hd, (IH Hs).
Qed.

(** A path of one ordinary segment is clean. *)
Lemma cleanPath_segment seg :
  seg <> "" -> seg <> "." -> seg <> ".." -> ContainsByte seg "/" = false -> cleanPath ("/" ++ seg) = "/" ++ seg.
Proof.
  intros H0 H1 H2 Hs. unfold cleanPath. change (String.eqb ("/" ++ seg) "") with false. cbn iota zeta.
  change (rooted ("/" ++ seg)) with (if HasPrefix ("/" ++ seg) "/" then "/" ++ seg else "/" ++ ("/" ++ seg)).
  assert (HasPrefix ("/" ++ seg) "/" = true) as -> by (by destruct seg).
  change (Split ("/" ++ seg) "/") with ("" :: Split seg "/"). rewrite (Split_whole _ _ Hs). cbn [clean_elements].
  rewrite (proj2 (String.eqb_neq _ _) H0), (proj2 (String.eqb_neq _ _) H1), (proj2 (String.eqb_neq _ _) H2).
  change (Join (rev [seg]) "/") with seg.
  assert (HasSuffix ("/" ++ seg) "/" = false) as ->; [|done].
  destruct (HasSuffix ("/" ++ seg) "/") eqn:E; [|done]. apply HasSuffix_true in E as [[|c b] E]; [by destruct seg|].
  injection E as _ ->. rewrite ContainsByte_app, orb_false_iff in Hs. by destruct Hs.
Qed.

Lemma segment_clean literal path :
  literal <> "." -> literal <> ".." -> is_segment literal path = true -> cleanPath path = path.
Proof.
  intros H1 H2 (seg & -> & H0 & Hs & Hl)%is_segment_iff.
  apply cleanPath_segment; [done| | |done]; intros ->; by subst literal.
Qed.

Lemma is_segment_inj l l' path : is_segment l path = true -> is_segment l' path = true -> l = l'.
Proof. intros (seg & -> & _ & _ & <-)%is_segment_iff (seg' & [= <-] & _ & _ & <-)%is_segment_iff. done. Qed.

(** A pattern takes the paths of its segment. *)
Lemma pattern_for_iff metrics method path r :
  pattern_for metrics method path = Some r <->
  (r = ToCheck /\ is_segment "check" path = true) \/
  (r = ToHealth /\ (method = "GET" \/ method = "HEAD") /\ is_segment "healthz" path = true) \/
  (r = ToMetrics /\ (method = "GET" \/ method = "HEAD") /\ metrics = true /\ is_segment "metrics" path = true).
Proof.
  unfold pattern_for.
  assert (String.eqb method "GET" || String.eqb method "HEAD" = true <-> method = "GET" \/ method = "HEAD") as Hm
    by (rewrite orb_true_iff, !String.eqb_eq; done).
  rewrite <-Hm. pose proof (is_segment_inj "check" "healthz" path) as H1.
  pose proof (is_segment_inj "check" "metrics" path) as H2. pose proof (is_segment_inj "healthz" "metrics" path) as H3.
  destruct (_ || _), metrics, (is_segment "healthz" path), (is_segment "metrics" path), (is_segment "check" path);
    cbn [andb]; try (by specialize (H1 eq_refl eq_refl)); try (by specialize (H2 eq_refl eq_refl));
    try (by specialize (H3 eq_refl eq_refl)); naive_solver.
Qed.

Lemma no_pattern_refuses metrics path : no_pattern metrics path = MethodNotAllowed \/ no_pattern metrics path = NotFound.
Proof. unfold no_pattern. destruct (pattern_for _ _ _); auto. Qed.

(** A route that a pattern names. *)
Lemma route_of_iff metrics i r :
  r = ToCheck \/ r = ToHealth \/ r = ToMetrics ->
  route_of metrics i = r <->
  in_RequestURI i <> "*" /\ pattern_for metrics (hr_Method (in_request i)) (in_EscapedPath i) = Some r.
Proof.
  intros Hr. unfold route_of. destruct (String.eqb_spec (in_RequestURI i) "*"); [naive_solver|].
  set (method := hr_Method (in_request i)). set (path := in_EscapedPath i).
  assert (forall p, match pattern_for metrics method p with Some r => r | None => no_pattern metrics p end = r <->
                    pattern_for metrics method p = Some r) as Hp.
  { intros p. pose proof (no_pattern_refuses metrics p). destruct (pattern_for metrics method p); [naive_solver|].
    split; [|done]. intros E. by destruct H as [H|H], Hr as [Hr|[Hr|Hr]]; rewrite H, Hr in E. }
  destruct (String.eqb method "CONNECT"); [rewrite Hp; naive_solver|].
  destruct (String.eqb_spec (cleanPath path) path) as [E|E]; cbn [negb]; [rewrite E, Hp; naive_solver|].
  split; [naive_solver|]. intros [_ Hs]. destruct E.
  apply pattern_for_iff in Hs as [(_ & Hs)|[(_ & _ & Hs)|(_ & _ & _ & Hs)]]; (eapply segment_clean; [| |exact Hs]; done).
Qed.

Lemma names_iff literal i :
  names literal i <-> in_RequestURI i <> "*" /\ is_segment literal (in_EscapedPath i) = true.
Proof. unfold names. by rewrite is_segment_iff. Qed.

Lemma route_check metrics i : route_of metrics i = ToCheck <-> names "check" i.
Proof.
  rewrite names_iff, (route_of_iff metrics i ToCheck), pattern_for_iff by auto. split.
  - intros [Hu [(_ & Hs)|[(? & _)|(? & _)]]]; done.
  - intros [Hu Hs]. split; [done|]. by left.
Qed.

Lemma route_health metrics i : route_of metrics i = ToHealth <-> gets i /\ names "healthz" i.
Proof.
  rewrite names_iff, (route_of_iff metrics i ToHealth), pattern_for_iff by auto. split.
  - intros [Hu [(? & _)|[(_ & Hg & Hs)|(? & _)]]]; done.
  - intros (Hg & Hu & Hs). split; [done|]. by right; left.
Qed.

Lemma route_metrics metrics i : route_of metrics i = ToMetrics <-> gets i /\ names "metrics" i /\ metrics = true.
Proof.
  rewrite names_iff, (route_of_iff metrics i ToMetrics), pattern_for_iff by auto. split.
  - intros [Hu [(? & _)|[(? & _)|(_ & Hg & Hm & Hs)]]]; done.
  - intros (Hg & (Hu & Hs) & Hm). split; [done|]. by right; right.
Qed.

(** C35: only a check reaches the store.  A request whose path is the one segment [check] -
    spelt or escaped in any way, whatever its method - goes to the recovered check.  Any
    other is answered at once with a fixed response: the store is left as it was, nothing
    is logged or counted, and the response says success only to a GET of the health check
    or of the metrics, the former always. *)
Theorem only_check_reaches_store {U : Unicode} {S : Type} `{Clock S} {P : Pages} (st : Store S) h i s :
  (names "check" i -> ServeHTTP st h i (fresh_exchange, s) = serve_check st h (in_request i) (fresh_exchange, s)) /\
  (~ names "check" i -> exists w wrote,
     ServeHTTP st h i (fresh_exchange, s) = (Returns tt, (mkExchange w wrote [] [], s)) /\
     (gets i -> names "healthz" i -> w = healthy) /\
     (sent w = Some 200 ->
      gets i /\ (names "healthz" i \/ names "metrics" i /\ h_metrics h = true /\ w = page (in_request i)))).
Proof.
  pose proof (route_check (h_metrics h) i) as Hc. pose proof (route_health (h_metrics h) i) as Hh.
  pose proof (route_metrics (h_metrics h) i) as Hm. split.
  - intros Hn%Hc. unfold ServeHTTP. by rewrite Hn.
  - intros Hnc. destruct (fixed_answer h i) as [w|] eqn:Ef.
    2: { exfalso. apply Hnc, Hc. unfold fixed_answer in Ef. by destruct (route_of (h_metrics h) i). }
    destruct (fixed_answer_run st h i w s Ef) as [wrote E]. exists w, wrote. split; [done|].
    unfold fixed_answer in Ef. split.
    + intros Hg Hn. rewrite (proj2 Hh (conj Hg Hn)) in Ef. congruence.
    + intros Hs. destruct (route_of (h_metrics h) i) as [| | |path| | |]; try discriminate Ef; injection Ef as <-; try done.
      * destruct (proj1 Hh eq_refl) as [Hg Hn]. split; [done|by left].
      * destruct (proj1 Hm eq_refl) as (Hg & Hn & Hon). split; [done|by right].
      * destruct (moved_redirects path (in_request i)) as (c & Ec & Hr). rewrite Ec in Hs.
        injection Hs as ->. lia.
Qed.

(** ** Instances of the theorems *)
Section examples.

#[local] Existing Instance ascii_only.

#[local] Program Instance plain_pages : Pages :=
  {| moved path _ := mkWriter (Some 301) {["Location" := [path]]} ""; page _ := mkWriter (Some 200) ∅ "# HELP" |}.
Next Obligation. intros path r. by exists 301. Qed.

Definition get_of (method path : string) : incoming :=
  mkIncoming path true path (mkHttpRequest method path "" ∅ None).

Example routes :
  map (fun '(method, path) => route_of true (get_of method path))
    [("POST", "/check"); ("GET", "/%63heck"); ("GET", "//check"); ("GET", "/check/"); ("HEAD", "/healthz");
     ("POST", "/healthz"); ("GET", "/a/../metrics"); ("GET", "*"); ("GET", "")]
  = [ToCheck; ToCheck; Redirected "/check"; NotFound; ToHealth;
     MethodNotAllowed; Redirected "/metrics"; BadRequest; Redirected "/"].
Proof. vm_compute. reflexivity. Qed.

Lemma only_check_reaches_store_witness :
  let probe := get_of "GET" "/healthz" in
  exists w wrote,
    ServeHTTP always_blocked api probe (fresh_exchange, SimClock 5 1) =
      (Returns tt, (mkExchange w wrote [] [], SimClock 5 1)) /\ w = healthy /\
    ServeHTTP always_blocked api (get_of "POST" "/check") (fresh_exchange, SimClock 5 1) =
      serve_check always_blocked api (in_request (get_of "POST" "/check")) (fresh_exchange, SimClock 5 1).
Proof.
  intros probe.
  destruct (only_check_reaches_store always_blocked api probe (SimClock 5 1)) as [_ Hother].
  destruct (only_check_reaches_store always_blocked api (get_of "POST" "/check") (SimClock 5 1)) as [Hcheck _].
  destruct Hother as (w & wrote & E & Hw & _).
  { intros (_ & seg & [= <-] & _ & _ & Hs). discriminate. }
  exists w, wrote. split; [exact E|]. split.
  - apply Hw; [by left|]. split; [discriminate|]. by exists "healthz".
  - apply Hcheck. split; [discriminate|]. by exists "check".
Defined.

End examples.
