(* ===== verification/Observability.v ===== *)
(** * Logger and metrics ([internal/observability])

    [NewLogger]'s choice of level and format, the namespace of the metrics, and the
    collectors as the calls the service makes of them: what the client library does
    with a call is its own, so [Metrics] holds the calls in order. *)
From stdpp Require Import base list gmap strings.
From Stdlib Require Import ZArith Lia QArith Ascii String.
From S2P Require Import Prelude.
From S2P Require Import GoStrings.
From S2P Require Import Float.
From S2P Require Import Store.
From S2P Require Import Request.
From S2P Require Import Limiter.
From S2P Require Import Engine.
From S2P Require Import HttpApi.

#[local] Open Scope string_scope.
#[local] Open Scope Z_scope.

Definition DefaultNamespace : string := "forwardlimit".

(** ** The logger *)
Inductive log_level : Type := LevelDebug | LevelInfo | LevelWarn | LevelError.
Inductive log_format : Type := JSONHandler | TextHandler.
Inductive logger_error : Type := UnknownLevel (level : string) | UnknownFormat (format : string).

#[global] Instance log_level_eq_dec : EqDecision log_level.
Proof. solve_decision. Defined.

Section logger.
Context {U : Unicode}.

Definition level_of_name (level : string) : option log_level :=
  let s := ToLower (TrimSpace level) in
  if String.eqb s "debug" then Some LevelDebug
  else if String.eqb s "" || String.eqb s "info" then Some LevelInfo
  else if String.eqb s "warn" || String.eqb s "warning" then Some LevelWarn
  else if String.eqb s "error" then Some LevelError
  else None.

Definition format_of_name (format : string) : option log_format :=
  let s := ToLower (TrimSpace format) in
  if String.eqb s "" || String.eqb s "json" then Some JSONHandler
  else if String.eqb s "text" then Some TextHandler
  else None.

(** The logger is what it filters at and how it prints. *)
Definition NewLogger (level format : string) : (log_level * log_format) + logger_error :=
  match level_of_name level with
  | None => inr (UnknownLevel level)
  | Some lvl =>
      match format_of_name format with
      | None => inr (UnknownFormat format)
      | Some h => inl (lvl, h)
      end
  end.
End logger.

(** ** Runes

    The width of the rune a string that does not begin with an ASCII byte begins
    with; a malformed encoding is one byte of width. *)
Definition between (lo hi : Z) (c : ascii) : bool := (lo <=? byte_Z c) && (byte_Z c <=? hi).

(** The second byte a lead byte allows, and how many bytes the rune has. *)
Definition lead (c : ascii) : option (Z * Z * nat) :=
  if between 0xC2 0xDF c then Some (0x80, 0xBF, 2%nat)
  else if between 0xE0 0xE0 c then Some (0xA0, 0xBF, 3%nat)
  else if between 0xED 0xED c then Some (0x80, 0x9F, 3%nat)
  else if between 0xE1 0xEF c then Some (0x80, 0xBF, 3%nat)
  else if between 0xF0 0xF0 c then Some (0x90, 0xBF, 4%nat)
  else if between 0xF1 0xF3 c then Some (0x80, 0xBF, 4%nat)
  else if between 0xF4 0xF4 c then Some (0x80, 0x8F, 4%nat)
  else None.

Definition continues (s : string) (n : nat) : bool :=
  (n <=? String.length s)%nat && sforall (between 0x80 0xBF) (String.substring 0 n s).

Definition rune_width (c : ascii) (rest : string) : nat :=
  match lead c, rest with
  | Some (lo, hi, w), String d rest' =>
      if between lo hi d && continues rest' (w - 2) then w else 1
  | _, _ => 1
  end.

(** ** The namespace *)
Definition name_start (c : ascii) : bool :=
  is_lower c || is_upper c || Ascii.eqb c "_" || Ascii.eqb c ":".

(** The loop of [sanitiseNamespace] at byte [i], with [skip] bytes of the rune just
    read still to pass. *)
Fixpoint sanitise_from (i : Z) (skip : nat) (s : string) : string :=
  match s with
  | EmptyString => EmptyString
  | String c rest =>
      match skip with
      | Datatypes.S skip => sanitise_from (i + 1) skip rest
      | O =>
          if name_start c then String c (sanitise_from (i + 1) 0 rest)
          else if is_digit c && (0 <? i) then String c (sanitise_from (i + 1) 0 rest)
          else String "_" (sanitise_from (i + 1)
                 (if is_rune_self c then 0 else rune_width c rest - 1) rest)
      end
  end.

Definition sanitiseNamespace (ns : string) : string := sanitise_from 0 0 (TrimSpace ns).

(** ** The collectors *)
Inductive runtime_collector : Type := GoCollector | ProcessCollector.

(** What is registered: a collector under its namespace, with its labels or buckets, or
    one of the library's own under a prefix. *)
Inductive collector : Type :=
| Counter (namespace name : string) (labels : list string)
| Gauge (namespace name : string)
| Histogram (namespace name : string) (buckets : list Q)
| Prefixed (prefix : string) (c : runtime_collector).

(** A call of the client library on one collector, by its name. *)
Inductive collector_call : Type :=
| Inc (name : string) (labels : list string)
| SetTo (name : string) (v : Q)
| Observe (name : string) (v : Q).

Record Metrics : Type := mkMetrics {
  m_namespace : string;
  m_registered : list collector;
  m_calls : list collector_call;
}.

(** The histogram's buckets, in seconds. *)
Definition duration_buckets : list Q :=
  [5 # 10000; 1 # 1000; 25 # 10000; 5 # 1000; 1 # 100; 25 # 1000; 5 # 100; 1 # 10; 25 # 100; 5 # 10; 1 # 1]%Q.

Definition NewMetrics (namespace : string) : Metrics :=
  let ns := sanitiseNamespace namespace in
  let ns := if String.eqb ns "" then DefaultNamespace else ns in
  mkMetrics ns
    [Counter ns "decisions_total" ["limiter"; "decision"]; Counter ns "store_errors_total" [];
     Gauge ns "block_cache_hits"; Gauge ns "store_breaker_open";
     Histogram ns "check_duration_seconds" duration_buckets;
     Prefixed (ns ++ "_") GoCollector; Prefixed (ns ++ "_") ProcessCollector] [].

Definition Namespace (m : Metrics) : string := m_namespace m.

(** The registry: what is registered on it. *)
Definition Registry (m : Metrics) : list collector := m_registered m.

Definition call_collector (c : collector_call) (m : Metrics) : Metrics :=
  mkMetrics (m_namespace m) (m_registered m) (m_calls m ++ [c]).

Definition RecordDecision (limiterName decision : string) (m : Metrics) : Metrics :=
  let limiterName := if String.eqb limiterName "" then "none" else limiterName in
  call_collector (Inc "decisions_total" [limiterName; decision]) m.

Definition RecordStoreError (m : Metrics) : Metrics := call_collector (Inc "store_errors_total" []) m.

Definition ObserveCheck (d : Duration) (m : Metrics) : Metrics :=
  call_collector (Observe "check_duration_seconds" (Duration_Seconds d)) m.

Definition SetBlockCacheHits (n : Z) (m : Metrics) : Metrics :=
  call_collector (SetTo "block_cache_hits" (of_int n)) m.

Definition SetBreakerOpen (open : bool) (m : Metrics) : Metrics :=
  call_collector (SetTo "store_breaker_open" (if open then 1%Q else 0%Q)) m.

(** What the handler's metric events make of the collectors. *)
Definition record_metric (e : metric) : Metrics -> Metrics :=
  match e with
  | HttpApi.RecordDecision l d => RecordDecision l d
  | HttpApi.RecordStoreError => RecordStoreError
  | HttpApi.ObserveCheck d => ObserveCheck d
  end.

Definition record_metrics (es : list metric) (m : Metrics) : Metrics := fold_left (fun m e => record_metric e m) es m.

(** ** The namespace is a metric name *)
Definition name_char (c : ascii) : bool := name_start c || is_digit c.

(** What Prometheus accepts as the name of a metric. *)
Definition metric_name (s : string) : bool :=
  match s with EmptyString => false | String c rest => name_start c && sforall name_char rest end.

Lemma sanitise_from_chars s : forall i skip, 0 <= i ->
  match sanitise_from i skip s with
  | EmptyString => True
  | String c rest => (if i =? 0 then name_start c || negb (Nat.eqb skip 0) else name_char c) = true /\
                     sforall name_char rest = true
  end.
Proof.
  assert (forall i skip s, 0 < i ->
    match sanitise_from i skip s with
    | EmptyString => True
    | String c rest => (if i =? 0 then name_start c || negb (Nat.eqb skip 0) else name_char c) = true /\
                       sforall name_char rest = true
    end -> sforall name_char (sanitise_from i skip s) = true) as Hall.
  { intros i skip s' Hi Hs. destruct (sanitise_from i skip s') as [|c rest]; [done|].
    destruct (Z.eqb_spec i 0); [lia|]. destruct Hs as [Hc Hr]. simpl. by rewrite Hc. }
  induction s as [|c s IH]; intros i skip Hi; [done|]. cbn [sanitise_from].
  assert (forall skip', sforall name_char (sanitise_from (i + 1) skip' s) = true) as Hrest
    by (intros; apply Hall; [lia|apply IH; lia]).
  destruct skip as [|skip].
  - destruct (name_start c) eqn:Ec; [split; [|done]; unfold name_char; rewrite Ec; by destruct (i =? 0)|].
    destruct (is_digit c && (0 <? i)) eqn:Ed.
    + apply andb_true_iff in Ed as [Ed Hpos]. split; [|done]. unfold name_char. rewrite Ed.
      destruct (Z.eqb_spec i 0); [lia|]. apply orb_true_r.
    + split; [|done]. by destruct (i =? 0).
  - specialize (Hrest skip). destruct (sanitise_from (i + 1) skip s) as [|d rest]; [done|].
    simpl in Hrest. apply andb_true_iff in Hrest as [Hd Hr]. split; [|done].
    destruct (i =? 0); [by rewrite orb_true_r|done].
Qed.

Lemma sanitise_from_id s : forall i, 0 < i -> sforall name_char s = true -> sanitise_from i 0 s = s.
Proof.
  induction s as [|c s IH]; intros i Hi Hs; [done|]. simpl in *. apply andb_true_iff in Hs as [Hc Hs].
  rewrite IH by (done || lia). unfold name_char in Hc. destruct (name_start c); [done|]. simpl in Hc.
  rewrite Hc. by replace (0 <? i) with true by (symmetry; by apply Z.ltb_lt).
Qed.

Lemma name_char_visible c : name_char c = true -> visible c = true.
Proof.
  unfold name_char, name_start, visible, is_lower, is_upper, is_digit.
  destruct (Ascii.eqb_spec c "_"); [by subst|]. destruct (Ascii.eqb_spec c ":"); [by subst|]. lia.
Qed.

Lemma sforall_mono (f g : ascii -> bool) s :
  (forall c, f c = true -> g c = true) -> sforall f s = true -> sforall g s = true.
Proof.
  intros Hfg. induction s as [|c s IH]; [done|]. simpl. rewrite !andb_true_iff. intros [? ?]. split; auto.
Qed.

Lemma metric_name_chars s : metric_name s = true -> sforall name_char s = true.
Proof.
  destruct s as [|c s]; [done|]. simpl. rewrite !andb_true_iff. intros [Hc Hs]. split; [|done].
  unfold name_char. by rewrite Hc.
Qed.

(** Whatever [METRICS_NAMESPACE] holds - spaces, dashes, digits, text in any script,
    bytes that are not text - the namespace of the metrics is a name Prometheus
    accepts, so registering them cannot panic on it; and a name it would accept is kept
    as it is. *)
Theorem namespace_accepted ns :
  metric_name (Namespace (NewMetrics ns)) = true /\
  (metric_name ns = true -> Namespace (NewMetrics ns) = ns).
Proof.
  unfold NewMetrics, Namespace, sanitiseNamespace. cbn [m_namespace]. split.
  - pose proof (sanitise_from_chars (TrimSpace ns) 0 0 ltac:(lia)) as Hs.
    destruct (sanitise_from 0 0 (TrimSpace ns)) as [|c rest]; [done|]. cbn [String.eqb].
    cbn [Z.eqb Nat.eqb negb] in Hs. rewrite orb_false_r in Hs. unfold metric_name.
    by destruct Hs as [-> ->].
  - intros Hn. pose proof (metric_name_chars ns Hn) as Hc.
    rewrite TrimSpace_visible by (eapply sforall_mono; [apply name_char_visible|done]).
    destruct ns as [|c s]; [done|]. simpl in Hn, Hc |- *. apply andb_true_iff in Hn as [Hn Hs].
    rewrite Hn. by rewrite sanitise_from_id.
Qed.

(** ** The levels and formats a configuration may name *)
Section logger_lemmas.
Context {U : Unicode}.

Lemma NewLogger_accepts level format :
  TrimSpace level = level -> ToLower level ∈ ["debug"; "info"; "warn"; "warning"; "error"] ->
  TrimSpace format = format -> ToLower format ∈ ["json"; "text"] ->
  exists logger, NewLogger level format = inl logger.
Proof.
  intros El Hl Ef Hf. unfold NewLogger, level_of_name, format_of_name. rewrite El, Ef.
  repeat (apply elem_of_cons in Hl as [->|Hl]);
    [| | | | |by apply elem_of_nil in Hl];
    (repeat (apply elem_of_cons in Hf as [->|Hf]); [| |by apply elem_of_nil in Hf]); by eexists.
Qed.

End logger_lemmas.

(** ** What a check makes the collectors count *)
Section check_metrics.
Context {U : Unicode} {S : Type} `{Clock S}.
Context (st : Store S) (h : Handler).

(** [m] gives [a] in the state [s'] and records [ms]. *)
Definition records {A} (m : GoM (exchange * S) A) (x : exchange) (s : S) (a : A) (s' : S)
    (ms : list metric) (x' : exchange) : Prop :=
  m (x, s) = (Returns a, (x', s')) /\ ex_metrics x' = (ex_metrics x ++ ms)%list.

Lemma records_bind {A B} (m : GoM (exchange * S) A) (k : A -> GoM (exchange * S) B) x s a s' ms x1 b s2 ns x2 :
  records m x s a s' ms x1 -> records (k a) x1 s' b s2 ns x2 ->
  records (gbind m k) x s b s2 (ms ++ ns)%list x2.
Proof.
  intros [E1 M1] [E2 M2]. split; [by rewrite (gbind_returns _ _ _ _ _ E1)|].
  by rewrite M2, M1, <-(assoc_L (++)).
Qed.

(** The events of one evaluation. *)
Definition evaluation_metrics (e : Evaluation) : list metric :=
  HttpApi.RecordDecision (Evaluation_Limiter e) (Verdict_string (Evaluation_Verdict e)) ::
  (if bool_decide (Evaluation_Verdict e = VerdictFailedOpen) then [HttpApi.RecordStoreError] else []).

(** The events of a decision: one per limiter that was consulted, or the denominator's. *)
Definition decision_metrics (d : Decision) : list metric :=
  match Decision_Evaluations d with
  | [] => [HttpApi.RecordDecision "" (Verdict_string VerdictAllowed)]
  | evs => List.concat (map evaluation_metrics evs)
  end.

Lemma metric_event_records m x s : exists x', records (metric_event m) x s tt s [m] x'.
Proof. by eexists. Qed.

Lemma records_ret {A} (a : A) x s : records (gret a) x s a s [] x.
Proof. split; [done|by rewrite app_nil_r]. Qed.

Lemma record_each_records evs : forall x s,
  exists x', records (record_each evs) x s tt s (List.concat (map evaluation_metrics evs)) x'.
Proof.
  induction evs as [|e evs IH]; intros x s; [exists x; apply records_ret|].
  cbn [record_each map List.concat]. unfold evaluation_metrics at 1.
  destruct (metric_event_records (HttpApi.RecordDecision (Evaluation_Limiter e)
    (Verdict_string (Evaluation_Verdict e))) x s) as (x1 & R1).
  case_bool_decide.
  - destruct (metric_event_records HttpApi.RecordStoreError x1 s) as (x2 & R2).
    destruct (IH x2 s) as (x3 & R3). exists x3.
    exact (records_bind _ _ _ _ _ _ _ _ _ _ _ _ R1 (records_bind _ _ _ _ _ _ _ _ _ _ _ _ R2 R3)).
  - destruct (IH x1 s) as (x3 & R3). exists x3.
    exact (records_bind _ _ _ _ _ _ _ _ _ _ _ _ R1
             (records_bind (gret tt) (fun _ => record_each evs) _ _ _ _ _ _ _ _ _ _ (records_ret tt x1 s) R3)).
Qed.

Lemma record_records d x s :
  h_metrics h = true -> exists x', records (record h d) x s tt s (decision_metrics d) x'.
Proof.
  intros Hm. unfold record, decision_metrics. rewrite Hm. cbn [negb].
  destruct (Decision_Evaluations d) as [|e evs]; [apply metric_event_records|apply (record_each_records (e :: evs))].
Qed.

Lemma readBody_records r x s : exists x', records (readBody h r) x s (body_seen h r) s [] x'.
Proof.
  destruct (readBody_run h r x s) as (lines & E). eexists. split; [exact E|]. by rewrite app_nil_r.
Qed.

Lemma log_records line x s : exists x', records (log line) x s tt s [] x'.
Proof. eexists. split; [reflexivity|]. by rewrite app_nil_r. Qed.

Lemma evaluate_records req x s d f s' :
  Evaluate st (h_limiters h) (mkFrame req [], s) = (Returns d, (f, s')) ->
  exists x', records (evaluate st h req) x s d s' [] x'.
Proof.
  intros E. unfold evaluate, records. rewrite E. eexists. split; [reflexivity|]. by rewrite app_nil_r.
Qed.

Lemma writeBlocked_records d x s :
  carries_body (Response_Status (response_for h d)) = true ->
  exists x', records (writeBlocked h d) x s tt s [] x'.
Proof.
  intros (Hi & Hv & Hb)%carries_body_final. destruct x as [[[c|] fs p] wr lg me]. all:
    unfold writeBlocked, records;
    destruct (String.eqb (Response_ContentType (response_for h d)) ""); cbn [negb];
    destruct (Decision_AdviseRetryAfter d);
    unfold WriteHeader, inner_WriteHeader, Write, mark_wrote, set_header; go_unfold;
    simpl; rewrite ?Hi, ?Hv; eexists; (split; [reflexivity|]); simpl; by rewrite app_nil_r.
Qed.

Lemma answer_records d x s :
  responses_ok h ->
  exists x', records (if Rejected d then writeBlocked h d else WriteHeader 200) x s tt s [] x'.
Proof.
  intros Hok. destruct (Rejected d); [by apply writeBlocked_records, response_for_ok|].
  destruct x as [[[c|] fs p] wr lg me]; eexists; (split; [reflexivity|]); by rewrite app_nil_r.
Qed.

(** The event of a body that was cut. *)
Definition body_metrics (truncated : bool) : list metric :=
  if truncated then [HttpApi.RecordDecision "body" (Verdict_string VerdictFailedOpen)] else [].

Lemma truncation_records r truncated x s :
  h_metrics h = true ->
  exists x', records (if (truncated : bool)
    then let! _ := log (LogBodyTruncated (h_maxBody h) (originalPath r)) in
         measure h (HttpApi.RecordDecision "body" (Verdict_string VerdictFailedOpen))
    else gret tt) x s tt s (body_metrics truncated) x'.
Proof.
  intros Hm. destruct truncated; [|exists x; apply records_ret]. unfold measure. rewrite Hm.
  destruct (log_records (LogBodyTruncated (h_maxBody h) (originalPath r)) x s) as (x1 & R1).
  destruct (metric_event_records (HttpApi.RecordDecision "body" (Verdict_string VerdictFailedOpen)) x1 s)
    as (x2 & R2).
  exists x2. exact (records_bind _ _ _ _ _ _ _ _ _ _ _ _ R1 R2).
Qed.

Lemma blocked_log_records d path x s :
  exists x', records (if Decision_Blocked d
    then log (LogBlocked (Decision_DryRun d) (Decision_Limiter d) path (Decision_Count d) (Decision_RetryAfter d))
    else gret tt) x s tt s [] x'.
Proof. destruct (Decision_Blocked d); [apply log_records|exists x; apply records_ret]. Qed.

Lemma check_body_records r x s s' d f :
  h_metrics h = true -> responses_ok h ->
  Evaluate st (h_limiters h) (mkFrame (check_request r (body_seen h r).1) [], s) = (Returns d, (f, s')) ->
  exists x', records (check_body st h r) x s tt s' (body_metrics (body_seen h r).2 ++ decision_metrics d)%list x'.
Proof.
  intros Hm Hok E. unfold check_body. destruct (readBody_records r x s) as (x1 & R1).
  destruct (body_seen h r) as [b truncated]. cbn [fst snd] in *.
  destruct (truncation_records r truncated x1 s Hm) as (x2 & R2).
  destruct (evaluate_records _ x2 s d f s' E) as (x3 & R3).
  destruct (record_records d x3 s' Hm) as (x4 & R4).
  destruct (blocked_log_records d (Path (check_request r b)) x4 s') as (x5 & R5).
  destruct (answer_records d x5 s' Hok) as (x6 & R6).
  exists x6.
  replace (body_metrics truncated ++ decision_metrics d)%list
    with ([] ++ body_metrics truncated ++ [] ++ decision_metrics d ++ [] ++ [])%list
    by (cbn [app]; by rewrite app_nil_r).
  eapply records_bind; [exact R1|]. eapply records_bind; [exact R2|].
  eapply records_bind; [exact R3|]. eapply records_bind; [exact R4|].
  eapply records_bind; [exact R5|exact R6].
Qed.

Lemma check_records r s :
  h_metrics h = true -> responses_ok h ->
  exists d f s2 x' s' elapsed,
    Evaluate st (h_limiters h) (mkFrame (check_request r (body_seen h r).1) [], (clock_now s).2)
      = (Returns d, (f, s2)) /\
    serve_check st h r (fresh_exchange, s) = (Returns tt, (x', s')) /\
    ex_metrics x' = (body_metrics (body_seen h r).2 ++ decision_metrics d ++ [HttpApi.ObserveCheck elapsed])%list.
Proof.
  intros Hm Hok. destruct (clock_now s) as [t0 s1] eqn:Et. cbn [snd].
  destruct (Evaluate_consults st (h_limiters h) (mkFrame (check_request r (body_seen h r).1) [], s1))
    as (tr & [f s2] & _ & E).
  destruct (clock_now s2) as [t1 s3] eqn:Et1.
  destruct (check_body_records r fresh_exchange s1 s2 _ f Hm Hok E) as (x1 & Ec & Em).
  eexists _, f, s2, _, s3, (Time.Sub t1 t0). split_and!; [exact E| |].
  - apply recoverAndAllow_returns. unfold handleCheck.
    rewrite (gbind_returns _ _ _ _ _ (now_layer fresh_exchange s t0 s1 Et)).
    unfold gdefer. rewrite Ec, (gbind_returns _ _ _ _ _ (now_layer x1 s2 t1 s3 Et1)).
    unfold measure. rewrite Hm. reflexivity.
  - cbn [ex_metrics]. rewrite Em. cbn [app fresh_exchange ex_metrics]. by rewrite <-(assoc_L (++)).
Qed.

End check_metrics.

(** ** Counting *)
Definition is_inc (name : string) (labels : list string) (c : collector_call) : bool :=
  match c with
  | Inc n ls => String.eqb n name && bool_decide (ls = labels)
  | _ => false
  end.

(** What a counter stands at after those calls. *)
Definition increments (name : string) (labels : list string) (calls : list collector_call) : nat :=
  List.length (List.filter (is_inc name labels) calls).

Definition count_evaluations (p : Evaluation -> bool) (d : Decision) : nat :=
  List.length (List.filter p (Decision_Evaluations d)).

Lemma increments_app name labels c1 c2 :
  increments name labels (c1 ++ c2) = (increments name labels c1 + increments name labels c2)%nat.
Proof. unfold increments. by rewrite List.filter_app, List.length_app. Qed.

(** The calls behind the handler's events. *)
Definition calls_of (es : list metric) : list collector_call := m_calls (record_metrics es (NewMetrics "")).

Lemma record_metric_calls e m : exists c, forall m', m_calls (record_metric e m') = (m_calls m' ++ [c])%list /\
  m_calls (record_metric e m) = (m_calls m ++ [c])%list.
Proof. destruct e as [l v| |d]; by eexists. Qed.

Lemma record_metrics_app es : forall m, m_calls (record_metrics es m) = (m_calls m ++ calls_of es)%list.
Proof.
  unfold calls_of, record_metrics. induction es as [|e es IH]; intros m; simpl; [by rewrite app_nil_r|].
  rewrite IH, (IH (record_metric e (NewMetrics ""))).
  destruct (record_metric_calls e m) as (c & Hc). destruct (Hc (NewMetrics "")) as [-> ->].
  simpl. by rewrite <-(assoc_L (++)).
Qed.

Lemma calls_of_app es1 es2 : calls_of (es1 ++ es2) = (calls_of es1 ++ calls_of es2)%list.
Proof.
  unfold calls_of at 1, record_metrics. rewrite fold_left_app. fold (record_metrics es1 (NewMetrics "")).
  fold (record_metrics es2 (record_metrics es1 (NewMetrics ""))). by rewrite !record_metrics_app.
Qed.

Lemma evaluations_counted evs name labels :
  increments name labels (calls_of (List.concat (map evaluation_metrics evs))) =
  (List.length (List.filter (fun e => is_inc name labels
      (Inc "decisions_total" [if String.eqb (Evaluation_Limiter e) "" then "none" else Evaluation_Limiter e;
                              Verdict_string (Evaluation_Verdict e)])) evs)
   + if is_inc name labels (Inc "store_errors_total" [])
     then List.length (List.filter (fun e => bool_decide (Evaluation_Verdict e = VerdictFailedOpen)) evs)
     else 0)%nat.
Proof.
  induction evs as [|e evs IH]; [by destruct (is_inc _ _ _)|]. cbn [map List.concat List.filter].
  rewrite calls_of_app, increments_app, IH. clear IH. unfold evaluation_metrics.
  set (dec := Inc "decisions_total" _).
  assert (calls_of [HttpApi.RecordDecision (Evaluation_Limiter e) (Verdict_string (Evaluation_Verdict e))] = [dec])
    as Ed by done.
  case_bool_decide.
  - change (_ :: [HttpApi.RecordStoreError]) with ([HttpApi.RecordDecision (Evaluation_Limiter e)
      (Verdict_string (Evaluation_Verdict e))] ++ [HttpApi.RecordStoreError])%list.
    rewrite calls_of_app, increments_app, Ed.
    change (calls_of [HttpApi.RecordStoreError]) with [Inc "store_errors_total" []].
    unfold increments. cbn [List.filter]. destruct (is_inc name labels dec), (is_inc name labels (Inc "store_errors_total" []));
      cbn [List.length]; lia.
  - rewrite Ed. unfold increments. cbn [List.filter].
    destruct (is_inc name labels dec), (is_inc name labels (Inc "store_errors_total" [])); cbn [List.length]; lia.
Qed.

(** The label of a limiter's own series: every name a file may give but the ones the
    handler uses for itself. *)
Definition own_label (l : string) : Prop := l <> "" /\ l <> "none" /\ l <> "body".

Lemma decision_counted d l v :
  own_label l ->
  increments "decisions_total" [l; v] (calls_of (decision_metrics d)) =
    count_evaluations (fun e => String.eqb (Evaluation_Limiter e) l &&
                                String.eqb (Verdict_string (Evaluation_Verdict e)) v) d.
Proof.
  intros (H1 & H2 & _). unfold decision_metrics, count_evaluations.
  destruct (Decision_Evaluations d) as [|e evs] eqn:Ev.
  - change (calls_of _) with [Inc "decisions_total" ["none"; "allowed"]]. unfold increments, is_inc. simpl.
    rewrite bool_decide_eq_false_2; [done|congruence].
  - rewrite evaluations_counted. change (is_inc "decisions_total" [l; v] (Inc "store_errors_total" [])) with false.
    rewrite Nat.add_0_r. f_equal. apply List.filter_ext. intros e'. unfold is_inc. cbn [String.eqb Ascii.eqb Bool.eqb].
    change (String.eqb "decisions_total" "decisions_total") with true. rewrite andb_true_l.
    destruct (String.eqb_spec (Evaluation_Limiter e') "") as [E|E].
    + rewrite E. rewrite bool_decide_eq_false_2 by congruence. by destruct (String.eqb_spec "" l); [subst l|].
    + destruct (String.eqb_spec (Evaluation_Limiter e') l) as [->|El];
        [|rewrite bool_decide_eq_false_2; [done|congruence]].
      destruct (String.eqb_spec (Verdict_string (Evaluation_Verdict e')) v) as [->|Ev'];
        [by rewrite bool_decide_eq_true_2|rewrite bool_decide_eq_false_2; [done|congruence]].
Qed.

Lemma store_errors_counted d :
  increments "store_errors_total" [] (calls_of (decision_metrics d)) =
    count_evaluations (fun e => bool_decide (Evaluation_Verdict e = VerdictFailedOpen)) d.
Proof.
  unfold decision_metrics, count_evaluations. destruct (Decision_Evaluations d) as [|e evs]; [done|].
  rewrite evaluations_counted. change (is_inc "store_errors_total" [] (Inc "store_errors_total" [])) with true.
  cbn iota. by replace (List.filter _ _) with (@nil Evaluation) at 1
    by (symmetry; clear; induction (e :: evs) as [|e' l IH]; [done|exact IH]).
Qed.

Section check_counted.
Context {U : Unicode} {S : Type} `{Clock S}.
Context (st : Store S) (h : Handler).

(** What a check counts.  Over any store, once the check is answered the collectors
    have been told: for every limiter, one decision under its name and verdict for each
    evaluation the decision lists and nothing else; one store error for each evaluation
    that failed open; and one duration, last. *)
Theorem check_counted r s ns :
  h_metrics h = true -> responses_ok h ->
  exists d f s2 x' s' calls elapsed,
    Evaluate st (h_limiters h) (mkFrame (check_request r (body_seen h r).1) [], (clock_now s).2)
      = (Returns d, (f, s2)) /\
    serve_check st h r (fresh_exchange, s) = (Returns tt, (x', s')) /\
    m_calls (record_metrics (ex_metrics x') (NewMetrics ns))
      = (calls ++ [Observe "check_duration_seconds" (Duration_Seconds elapsed)])%list /\
    (forall l v, own_label l ->
       increments "decisions_total" [l; v] calls =
         count_evaluations (fun e => String.eqb (Evaluation_Limiter e) l &&
                                     String.eqb (Verdict_string (Evaluation_Verdict e)) v) d) /\
    increments "store_errors_total" [] calls =
      count_evaluations (fun e => bool_decide (Evaluation_Verdict e = VerdictFailedOpen)) d.
Proof.
  intros Hm Hok. destruct (check_records st h r s Hm Hok) as (d & f & s2 & x' & s' & elapsed & E & Es & Em).
  exists d, f, s2, x', s', (calls_of (body_metrics (body_seen h r).2 ++ decision_metrics d)), elapsed.
  split; [exact E|]. split; [exact Es|]. rewrite Em, record_metrics_app, !calls_of_app.
  split; [by rewrite <-(assoc_L (++))|].
  assert (forall name labels, (forall v, labels <> ["body"; v]) -> increments name labels (calls_of (body_metrics (body_seen h r).2)) = O) as Hbody.
  { intros name labels Hl. destruct (body_seen h r).2; [|done].
    change (calls_of (body_metrics true)) with [Inc "decisions_total" ["body"; "failed_open"]].
    unfold increments. cbn [List.filter is_inc]. specialize (Hl "failed_open").
    rewrite bool_decide_eq_false_2 by congruence. by rewrite andb_false_r. }
  split.
  - intros l v Hl. rewrite increments_app, Hbody; [by apply decision_counted|].
    intros v' [= El _]. by destruct Hl as (_ & _ & ?).
  - rewrite increments_app, Hbody; [apply store_errors_counted|done].
Qed.

End check_counted.

(** ** Instances of the theorems *)
Section examples.

#[local] Existing Instance ascii_only.

Lemma namespace_accepted_witness :
  Namespace (NewMetrics " 1-edge limité ") = "__edge_limit_" /\
  metric_name (Namespace (NewMetrics " 1-edge limité ")) = true /\
  Namespace (NewMetrics "edge:limits_2") = "edge:limits_2".
Proof.
  split; [vm_compute; reflexivity|]. split; [apply namespace_accepted|].
  apply namespace_accepted. vm_compute. reflexivity.
Defined.

Lemma api_responses : responses_ok api.
Proof.
  split; [|vm_compute; reflexivity]. intros name resp.
  change (h_responses api) with ({["capacity" := mkResponse 503 "text/plain" "busy"]} : gmap string Response).
  intros [<- <-]%lookup_singleton_Some. vm_compute. reflexivity.
Qed.

(** One capacity limiter, which refuses: one decision, no error, one duration. *)
Lemma check_counted_witness :
  increments "decisions_total" ["capacity"; "blocked"]
    (m_calls (record_metrics (ex_metrics (serve_check always_blocked api incoming (fresh_exchange, SimClock 5 1)).2.1)
                (NewMetrics ""))) = 1%nat /\
  exists d f s2 x' s' calls elapsed,
    Evaluate always_blocked (h_limiters api)
        (mkFrame (check_request incoming (body_seen api incoming).1) [], (clock_now (SimClock 5 1)).2)
      = (Returns d, (f, s2)) /\
    serve_check always_blocked api incoming (fresh_exchange, SimClock 5 1) = (Returns tt, (x', s')) /\
    m_calls (record_metrics (ex_metrics x') (NewMetrics ""))
      = (calls ++ [Observe "check_duration_seconds" (Duration_Seconds elapsed)])%list /\
    (forall l v, own_label l ->
       increments "decisions_total" [l; v] calls =
         count_evaluations (fun e => String.eqb (Evaluation_Limiter e) l &&
                                     String.eqb (Verdict_string (Evaluation_Verdict e)) v) d) /\
    increments "store_errors_total" [] calls =
      count_evaluations (fun e => bool_decide (Evaluation_Verdict e = VerdictFailedOpen)) d.
Proof.
  split; [vm_compute; reflexivity|].
  exact (check_counted always_blocked api incoming (SimClock 5 1) "" eq_refl api_responses).
Defined.

End examples.
