(* ===== verification/ConfigEnv.v ===== *)
(** * The environment configuration ([internal/config/config.go])

    [Load] over a [getenv] function: the loader's methods are computations over the
    list of problems found so far, [loader.errs].  A problem is a value of
    [env_problem], one constructor per message and with its arguments.  Whether a
    file exists is asked of [stat]. *)
From stdpp Require Import base list gmap strings.
From Stdlib Require Import ZArith Lia Ascii String.
From S2P Require Import Prelude.
From S2P Require Import GoStrings.
From S2P Require Import GoParse.
From S2P Require Import Store.

#[local] Open Scope string_scope.
#[local] Open Scope Z_scope.

(** ** Data *)
Definition DefaultKeyPrefix : string := "forwardlimit:".
Definition DefaultConfigPath : string := "/etc/forwardlimit/config.yaml".

(** [redisstore.Mode] *)
Definition ModeSingle : string := "single".
Definition ModeCluster : string := "cluster".

Record RedisConfig : Type := mkRedisConfig {
  rc_Enabled : bool;
  rc_Addrs : list string;
  rc_Mode : string;
  rc_TLSEnabled : bool;
  rc_TLSSkipVerify : bool;
  rc_TLSCAFile : string;
  rc_TLSCertFile : string;
  rc_TLSKeyFile : string;
  rc_PoolSize : Z;
  rc_MaxRetries : Z;
  rc_DialTimeout : Duration;
  rc_ReadTimeout : Duration;
  rc_WriteTimeout : Duration;
  rc_KeyPrefix : string;
}.

Record BlockCacheConfig : Type := mkBlockCacheConfig {
  bc_Enabled : bool;
  bc_MaxEntries : Z;
  bc_MaxTTL : Duration;
}.

Record BreakerConfig : Type := mkBreakerConfig {
  br_Threshold : Z;
  br_Cooldown : Duration;
}.

Record Config : Type := mkConfig {
  ConfigPath : string;
  ListenAddr : string;
  LogLevel : string;
  LogFormat : string;
  MaxBodyBytes : Z;
  ShutdownTimeout : Duration;
  MetricsNamespace : string;
  HashSecret : string;
  Config_Redis : RedisConfig;
  Config_BlockCache : BlockCacheConfig;
  Config_Breaker : BreakerConfig;
}.

Inductive env_problem : Type :=
| NotABoolean (key v : string)
| NotAnInteger (key v : string)
| NotADuration (key v : string)
| EmptyListenAddr
| EmptyConfigPath
| MaxBodyNotPositive (got : Z)
| ShutdownNotPositive (got : Duration)
| EmptyNamespace
| UnknownLogLevel (got : string)
| UnknownLogFormat (got : string)
| UnknownMode (got : string)
| NoAddresses
| TLSFileUnused (key : string)
| TLSFileMissing (key : string) (e : error)
| TLSPairIncomplete
| NegativeRetries (got : Z)
| PoolNotPositive (got : Z)
| TimeoutNotPositive (key : string) (got : Duration)
| CacheEntriesNotPositive (got : Z)
| CacheTTLNotPositive (got : Duration)
| CooldownNotPositive.

(** A loader method. *)
Abbreviation Loader := (GoM (list env_problem)).

(** [normalisePrefix] *)
Definition normalisePrefix (p : string) : string :=
  if String.eqb p "" || HasSuffix p ":" then p else p ++ ":".

Section load.
Context {U : Unicode} (getenv : string -> string) (stat : string -> option error).

(** [loader.fail], [loader.raw] *)
Definition fail (p : env_problem) : Loader unit := fun errs => (Returns tt, (errs ++ [p])%list).

Definition raw (key : string) : string * bool :=
  let v := TrimSpace (getenv key) in (v, negb (String.eqb v "")).

Definition str (key def : string) : Loader string :=
  let '(v, ok) := raw key in if (ok : bool) then gret v else gret def.

Definition boolean (key : string) (def : bool) : Loader bool :=
  let '(v, ok) := raw key in
  if negb ok then gret def
  else match ParseBool v with
       | None => let! _ := fail (NotABoolean key v) in gret def
       | Some b => gret b
       end.

Definition int64 (key : string) (def : Z) : Loader Z :=
  let '(v, ok) := raw key in
  if negb ok then gret def
  else match ParseInt v with
       | None => let! _ := fail (NotAnInteger key v) in gret def
       | Some n => gret n
       end.

(** [int(l.int64(...))]: [int] has 64 bits. *)
Definition integer (key : string) (def : Z) : Loader Z := int64 key def.

Definition dur (key : string) (def : Duration) : Loader Duration :=
  let '(v, ok) := raw key in
  if negb ok then gret def
  else match ParseDuration v with
       | None => let! _ := fail (NotADuration key v) in gret def
       | Some d => gret d
       end.

(** [loader.list]; nil and the empty slice are the same list. *)
Definition list_ (key : string) (def : list string) : Loader (list string) :=
  let '(v, ok) := raw key in
  if negb ok then gret def
  else gret (List.filter (fun p => negb (String.eqb p "")) (map TrimSpace (Split v ","))).

(** ** Validation *)
Definition when (c : bool) (p : env_problem) : Loader unit := if c then fail p else gret tt.

Definition validateService (c : Config) : Loader unit :=
  let! _ := when (String.eqb (ListenAddr c) "") EmptyListenAddr in
  let! _ := when (String.eqb (ConfigPath c) "") EmptyConfigPath in
  let! _ := when (MaxBodyBytes c <=? 0) (MaxBodyNotPositive (MaxBodyBytes c)) in
  let! _ := when (ShutdownTimeout c <=? 0) (ShutdownNotPositive (ShutdownTimeout c)) in
  let! _ := when (String.eqb (MetricsNamespace c) "") EmptyNamespace in
  let! _ := when (negb (existsb (String.eqb (ToLower (LogLevel c))) ["debug"; "info"; "warn"; "warning"; "error"]))
              (UnknownLogLevel (LogLevel c)) in
  when (negb (existsb (String.eqb (ToLower (LogFormat c))) ["json"; "text"])) (UnknownLogFormat (LogFormat c)).

(** The loop over the TLS files. *)
Fixpoint validateTLSFiles (enabled : bool) (files : list (string * string)) : Loader unit :=
  match files with
  | [] => gret tt
  | (key, path) :: files =>
      if String.eqb path "" then validateTLSFiles enabled files
      else
        let! _ := when (negb enabled) (TLSFileUnused key) in
        let! _ := match stat path with Some e => fail (TLSFileMissing key e) | None => gret tt end in
        validateTLSFiles enabled files
  end.

Fixpoint validateTimeouts (timeouts : list (string * Duration)) : Loader unit :=
  match timeouts with
  | [] => gret tt
  | (key, d) :: timeouts =>
      let! _ := when (d <=? 0) (TimeoutNotPositive key d) in validateTimeouts timeouts
  end.

Definition tls_files (r : RedisConfig) : list (string * string) :=
  [("REDIS_TLS_CA_FILE", rc_TLSCAFile r); ("REDIS_TLS_CERT_FILE", rc_TLSCertFile r);
   ("REDIS_TLS_KEY_FILE", rc_TLSKeyFile r)].

Definition timeouts (r : RedisConfig) : list (string * Duration) :=
  [("REDIS_DIAL_TIMEOUT", rc_DialTimeout r); ("REDIS_READ_TIMEOUT", rc_ReadTimeout r);
   ("REDIS_WRITE_TIMEOUT", rc_WriteTimeout r)].

Definition validateStore (c : Config) : Loader unit :=
  let r := Config_Redis c in
  let! _ := when (negb (String.eqb (rc_Mode r) ModeSingle || String.eqb (rc_Mode r) ModeCluster))
              (UnknownMode (rc_Mode r)) in
  let! _ := when (Z.of_nat (List.length (rc_Addrs r)) =? 0) NoAddresses in
  let! _ := validateTLSFiles (rc_TLSEnabled r) (tls_files r) in
  let! _ := when (xorb (String.eqb (rc_TLSCertFile r) "") (String.eqb (rc_TLSKeyFile r) "")) TLSPairIncomplete in
  let! _ := when (rc_MaxRetries r <? 0) (NegativeRetries (rc_MaxRetries r)) in
  let! _ := when (rc_PoolSize r <=? 0) (PoolNotPositive (rc_PoolSize r)) in
  validateTimeouts (timeouts r).

Definition validateDecorators (c : Config) : Loader unit :=
  let bc := Config_BlockCache c in
  let br := Config_Breaker c in
  let! _ := if bc_Enabled bc then
      let! _ := when (bc_MaxEntries bc <=? 0) (CacheEntriesNotPositive (bc_MaxEntries bc)) in
      when (bc_MaxTTL bc <=? 0) (CacheTTLNotPositive (bc_MaxTTL bc))
    else gret tt in
  when ((0 <? br_Threshold br) && (br_Cooldown br <=? 0)) CooldownNotPositive.

Definition validate (c : Config) : Loader unit :=
  let! _ := validateService c in
  if negb (rc_Enabled (Config_Redis c)) then gret tt
  else
    let! _ := validateStore c in
    validateDecorators c.

(** ** Loading *)
Definition load_redis : Loader RedisConfig :=
  let! enabled := boolean "REDIS_ENABLED" true in
  let! addrs := list_ "REDIS_ADDRS" ["127.0.0.1:6379"] in
  let! mode := str "REDIS_MODE" ModeSingle in
  let! tls := boolean "REDIS_TLS_ENABLED" false in
  let! skip := boolean "REDIS_TLS_SKIP_VERIFY" false in
  let! ca := str "REDIS_TLS_CA_FILE" "" in
  let! cert := str "REDIS_TLS_CERT_FILE" "" in
  let! key := str "REDIS_TLS_KEY_FILE" "" in
  let! pool := integer "REDIS_POOL_SIZE" 32 in
  let! retries := integer "REDIS_MAX_RETRIES" 1 in
  let! dial := dur "REDIS_DIAL_TIMEOUT" (200 * Millisecond) in
  let! read := dur "REDIS_READ_TIMEOUT" (500 * Millisecond) in
  let! write := dur "REDIS_WRITE_TIMEOUT" (500 * Millisecond) in
  let! prefix := str "REDIS_KEY_PREFIX" DefaultKeyPrefix in
  gret (mkRedisConfig enabled addrs mode tls skip ca cert key pool retries dial read write
          (normalisePrefix prefix)).

Definition load_block_cache : Loader BlockCacheConfig :=
  let! enabled := boolean "BLOCK_CACHE_ENABLED" true in
  let! entries := integer "BLOCK_CACHE_MAX_ENTRIES" 200000 in
  let! ttl := dur "BLOCK_CACHE_MAX_TTL" (60 * Second) in
  gret (mkBlockCacheConfig enabled entries ttl).

Definition load_breaker : Loader BreakerConfig :=
  let! threshold := integer "STORE_BREAKER_THRESHOLD" 3 in
  let! cooldown := dur "STORE_BREAKER_COOLDOWN" (5 * Second) in
  gret (mkBreakerConfig threshold cooldown).

Definition load_config : Loader Config :=
  let! path := str "CONFIG_PATH" DefaultConfigPath in
  let! listen := str "LISTEN_ADDR" ":8080" in
  let! level := str "LOG_LEVEL" "info" in
  let! format := str "LOG_FORMAT" "json" in
  let! body := int64 "MAX_BODY_BYTES" 262144 in
  let! shutdown := dur "SHUTDOWN_TIMEOUT" (10 * Second) in
  let! namespace := str "METRICS_NAMESPACE" "forwardlimit" in
  let! redis := load_redis in
  let! cache := load_block_cache in
  let! breaker := load_breaker in
  gret (mkConfig path listen level format body shutdown namespace (getenv "HASH_SECRET") redis cache breaker).

(** [Load]: the configuration, or every problem in order. *)
Definition Load : Config + list env_problem :=
  match (let! c := load_config in let! _ := validate c in gret c) [] with
  | (Returns c, []) => inl c
  | (_, errs) => inr errs
  end.

End load.

(** [Config.Warnings] *)
Definition Warnings (c : Config) : list string :=
  (if negb (rc_Enabled (Config_Redis c))
   then ["REDIS_ENABLED=false: all rate limiting is disabled and every request will be allowed"] else []) ++
  (if bc_Enabled (Config_BlockCache c) && (5 * Minute <? bc_MaxTTL (Config_BlockCache c))
   then ["BLOCK_CACHE_MAX_TTL is large: a manual unblock may take that long to take effect on every replica"]
   else []) ++
  (if rc_TLSSkipVerify (Config_Redis c)
   then [("REDIS_TLS_SKIP_VERIFY=true: the store's certificate is not verified" ++
          (if negb (String.eqb (rc_TLSCAFile (Config_Redis c)) "")
           then " - REDIS_TLS_CA_FILE is set and is being ignored, so remove one of them" else ""))%string]
   else []).

(** ** What the environment says *)
Section values.
Context {U : Unicode} (getenv : string -> string) (stat : string -> option error).

Definition set_value (key : string) : option string :=
  let v := TrimSpace (getenv key) in if String.eqb v "" then None else Some v.

(** A variable's value under a parser: unset or unparsable is the default. *)
Definition value_of {A} (parse : string -> option A) (key : string) (def : A) : A :=
  match set_value key with
  | None => def
  | Some v => match parse v with None => def | Some a => a end
  end.

Definition parses {A} (parse : string -> option A) (key : string) : Prop :=
  forall v, set_value key = Some v -> parse v <> None.

Definition list_value (v : string) : option (list string) :=
  Some (List.filter (fun p => negb (String.eqb p "")) (map TrimSpace (Split v ","))).

Definition bool_keys : list string :=
  ["REDIS_ENABLED"; "REDIS_TLS_ENABLED"; "REDIS_TLS_SKIP_VERIFY"; "BLOCK_CACHE_ENABLED"].
Definition int_keys : list string :=
  ["MAX_BODY_BYTES"; "REDIS_POOL_SIZE"; "REDIS_MAX_RETRIES"; "BLOCK_CACHE_MAX_ENTRIES";
   "STORE_BREAKER_THRESHOLD"].
Definition dur_keys : list string :=
  ["SHUTDOWN_TIMEOUT"; "REDIS_DIAL_TIMEOUT"; "REDIS_READ_TIMEOUT"; "REDIS_WRITE_TIMEOUT";
   "BLOCK_CACHE_MAX_TTL"; "STORE_BREAKER_COOLDOWN"].

(** Every variable that is set is of its type. *)
Definition well_typed : Prop :=
  Forall (parses ParseBool) bool_keys /\ Forall (parses ParseInt) int_keys /\
  Forall (parses ParseDuration) dur_keys.

Definition config_of : Config :=
  let s := value_of (@Some string) in
  let b := value_of ParseBool in
  let n := value_of ParseInt in
  let d := value_of ParseDuration in
  mkConfig (s "CONFIG_PATH" DefaultConfigPath) (s "LISTEN_ADDR" ":8080") (s "LOG_LEVEL" "info")
    (s "LOG_FORMAT" "json") (n "MAX_BODY_BYTES" 262144) (d "SHUTDOWN_TIMEOUT" (10 * Second))
    (s "METRICS_NAMESPACE" "forwardlimit") (getenv "HASH_SECRET")
    (mkRedisConfig (b "REDIS_ENABLED" true) (value_of list_value "REDIS_ADDRS" ["127.0.0.1:6379"])
       (s "REDIS_MODE" ModeSingle) (b "REDIS_TLS_ENABLED" false) (b "REDIS_TLS_SKIP_VERIFY" false)
       (s "REDIS_TLS_CA_FILE" "") (s "REDIS_TLS_CERT_FILE" "") (s "REDIS_TLS_KEY_FILE" "")
       (n "REDIS_POOL_SIZE" 32) (n "REDIS_MAX_RETRIES" 1) (d "REDIS_DIAL_TIMEOUT" (200 * Millisecond))
       (d "REDIS_READ_TIMEOUT" (500 * Millisecond)) (d "REDIS_WRITE_TIMEOUT" (500 * Millisecond))
       (normalisePrefix (s "REDIS_KEY_PREFIX" DefaultKeyPrefix)))
    (mkBlockCacheConfig (b "BLOCK_CACHE_ENABLED" true) (n "BLOCK_CACHE_MAX_ENTRIES" 200000)
       (d "BLOCK_CACHE_MAX_TTL" (60 * Second)))
    (mkBreakerConfig (n "STORE_BREAKER_THRESHOLD" 3) (d "STORE_BREAKER_COOLDOWN" (5 * Second))).

(** A configuration the service can start on. *)
Record service_ok (c : Config) : Prop := {
  ok_listen : ListenAddr c <> "";
  ok_path : ConfigPath c <> "";
  ok_body : 0 < MaxBodyBytes c;
  ok_shutdown : 0 < ShutdownTimeout c;
  ok_namespace : MetricsNamespace c <> "";
  ok_level : ToLower (LogLevel c) ∈ ["debug"; "info"; "warn"; "warning"; "error"];
  ok_format : ToLower (LogFormat c) ∈ ["json"; "text"];
}.

Record redis_ok (r : RedisConfig) : Prop := {
  ok_mode : rc_Mode r = ModeSingle \/ rc_Mode r = ModeCluster;
  ok_addrs : rc_Addrs r <> [];
  ok_tls : forall key path, (key, path) ∈ tls_files r -> path <> "" -> rc_TLSEnabled r = true /\ stat path = None;
  ok_pair : rc_TLSCertFile r = "" <-> rc_TLSKeyFile r = "";
  ok_retries : 0 <= rc_MaxRetries r;
  ok_pool : 0 < rc_PoolSize r;
  ok_timeouts : 0 < rc_DialTimeout r /\ 0 < rc_ReadTimeout r /\ 0 < rc_WriteTimeout r;
}.

Definition decorators_ok (c : Config) : Prop :=
  (bc_Enabled (Config_BlockCache c) = true ->
   0 < bc_MaxEntries (Config_BlockCache c) /\ 0 < bc_MaxTTL (Config_BlockCache c)) /\
  (0 < br_Threshold (Config_Breaker c) -> 0 < br_Cooldown (Config_Breaker c)).

Definition config_ok (c : Config) : Prop :=
  service_ok c /\ (rc_Enabled (Config_Redis c) = true -> redis_ok (Config_Redis c) /\ decorators_ok c).

(** ** Loading is reading and checking *)

(** [m] gives [v] and finds the problems [ps]. *)
Definition emits {A} (m : Loader A) (v : A) (ps : list env_problem) : Prop :=
  forall errs, m errs = (Returns v, (errs ++ ps)%list).

Lemma emits_ret {A} (v : A) : emits (gret v) v [].
Proof. intros errs. by rewrite app_nil_r. Qed.

Lemma emits_bind {A B} (m : Loader A) (k : A -> Loader B) v ps w qs :
  emits m v ps -> emits (k v) w qs -> emits (gbind m k) w (ps ++ qs)%list.
Proof. intros Hm Hk errs. unfold gbind. by rewrite Hm, Hk, app_assoc. Qed.

Lemma emits_when c p : emits (when c p) tt (if c then [p] else []).
Proof. destruct c; [done|apply emits_ret]. Qed.

(** The problem of a typed variable. *)
Definition bad {A} (parse : string -> option A) (p : string -> string -> env_problem) (key : string)
  : list env_problem :=
  match set_value key with
  | None => []
  | Some v => match parse v with None => [p key v] | Some _ => [] end
  end.

Lemma bad_nil {A} (parse : string -> option A) p key : bad parse p key = [] <-> parses parse key.
Proof.
  unfold bad, parses. destruct (set_value key) as [v|]; [|naive_solver].
  destruct (parse v) eqn:E; naive_solver.
Qed.

Lemma str_emits key def : emits (str getenv key def) (value_of (@Some string) key def) [].
Proof.
  unfold str, raw, value_of, set_value. destruct (String.eqb _ ""); apply emits_ret.
Qed.

Lemma list_emits key def : emits (list_ getenv key def) (value_of list_value key def) [].
Proof.
  unfold list_, raw, value_of, set_value. destruct (String.eqb _ ""); apply emits_ret.
Qed.

Lemma boolean_emits key def :
  emits (boolean getenv key def) (value_of ParseBool key def) (bad ParseBool NotABoolean key).
Proof.
  unfold boolean, raw, value_of, bad, set_value. destruct (String.eqb _ ""); [apply emits_ret|].
  simpl negb. cbn iota. destruct (ParseBool _); [apply emits_ret|done].
Qed.

Lemma int64_emits key def :
  emits (int64 getenv key def) (value_of ParseInt key def) (bad ParseInt NotAnInteger key).
Proof.
  unfold int64, raw, value_of, bad, set_value. destruct (String.eqb _ ""); [apply emits_ret|].
  simpl negb. cbn iota. destruct (ParseInt _); [apply emits_ret|done].
Qed.

Lemma dur_emits key def :
  emits (dur getenv key def) (value_of ParseDuration key def) (bad ParseDuration NotADuration key).
Proof.
  unfold dur, raw, value_of, bad, set_value. destruct (String.eqb _ ""); [apply emits_ret|].
  simpl negb. cbn iota. destruct (ParseDuration _); [apply emits_ret|done].
Qed.

(** The problems of the types, in the order the variables are read. *)
Definition type_problems : list env_problem :=
  List.concat [bad ParseInt NotAnInteger "MAX_BODY_BYTES"; bad ParseDuration NotADuration "SHUTDOWN_TIMEOUT";
    bad ParseBool NotABoolean "REDIS_ENABLED"; bad ParseBool NotABoolean "REDIS_TLS_ENABLED";
    bad ParseBool NotABoolean "REDIS_TLS_SKIP_VERIFY"; bad ParseInt NotAnInteger "REDIS_POOL_SIZE";
    bad ParseInt NotAnInteger "REDIS_MAX_RETRIES"; bad ParseDuration NotADuration "REDIS_DIAL_TIMEOUT";
    bad ParseDuration NotADuration "REDIS_READ_TIMEOUT"; bad ParseDuration NotADuration "REDIS_WRITE_TIMEOUT";
    bad ParseBool NotABoolean "BLOCK_CACHE_ENABLED"; bad ParseInt NotAnInteger "BLOCK_CACHE_MAX_ENTRIES";
    bad ParseDuration NotADuration "BLOCK_CACHE_MAX_TTL"; bad ParseInt NotAnInteger "STORE_BREAKER_THRESHOLD";
    bad ParseDuration NotADuration "STORE_BREAKER_COOLDOWN"].

Ltac emit_step :=
  first [apply emits_ret | apply str_emits | apply list_emits | apply boolean_emits | apply int64_emits
        | apply dur_emits | apply emits_when | eapply emits_bind].

Lemma load_config_emits : emits (load_config getenv) config_of type_problems.
Proof.
  enough (exists ps, emits (load_config getenv) config_of ps /\ ps = type_problems) as (ps & He & ->) by done.
  eexists. split.
  - unfold load_config, load_redis, load_block_cache, load_breaker, integer. repeat emit_step.
  - unfold type_problems. cbn [List.concat]. by rewrite ?app_nil_l, ?app_nil_r, <-?app_assoc.
Qed.

Lemma type_problems_nil : type_problems = [] <-> well_typed.
Proof.
  unfold type_problems, well_typed, bool_keys, int_keys, dur_keys. cbn [List.concat].
  rewrite !app_nil, !bad_nil, !Forall_cons, !Forall_nil. tauto.
Qed.

(** [m] finds nothing exactly when [P]. *)
Definition checks (m : Loader unit) (P : Prop) : Prop :=
  exists ps, emits m tt ps /\ (ps = [] <-> P).

Lemma checks_iff m P Q : (P <-> Q) -> checks m P -> checks m Q.
Proof. intros HPQ (ps & Hm & Hps). exists ps. by rewrite Hps. Qed.

Lemma checks_ret : checks (gret tt) True.
Proof. exists []. split; [apply emits_ret|done]. Qed.

Lemma checks_when c p : checks (when c p) (c = false).
Proof. exists (if c then [p] else []). split; [apply emits_when|by destruct c]. Qed.

Lemma checks_bind m k P Q : checks m P -> checks k Q -> checks (let! _ := m in k) (P /\ Q).
Proof.
  intros (ps & Hm & Hps) (qs & Hk & Hqs). exists (ps ++ qs)%list. split; [by eapply emits_bind|].
  by rewrite app_nil, Hps, Hqs.
Qed.

Lemma elem_of_eqb (x : string) xs : negb (existsb (String.eqb x) xs) = false <-> x ∈ xs.
Proof.
  rewrite negb_false_iff, existsb_exists. setoid_rewrite String.eqb_eq.
  rewrite list_elem_of_In. naive_solver.
Qed.

Lemma empty_eqb (x : string) : String.eqb x "" = false <-> x <> "".
Proof. apply String.eqb_neq. Qed.

#[local] Hint Resolve checks_ret checks_when checks_bind : core.

Lemma validateService_checks c : checks (validateService c) (service_ok c).
Proof.
  eapply checks_iff; [|unfold validateService; eauto 10].
  rewrite !elem_of_eqb, !empty_eqb, !Z.leb_gt. split; [intros (?&?&?&?&?&?&?); by constructor|by intros []].
Qed.

Lemma validateTLSFiles_checks enabled files :
  checks (validateTLSFiles stat enabled files)
    (forall key path, (key, path) ∈ files -> path <> "" -> enabled = true /\ stat path = None).
Proof.
  induction files as [|[key path] files IH]; simpl.
  { eapply checks_iff; [|apply checks_ret]. split; [|done]. by intros _ key path ?%elem_of_nil. }
  destruct (String.eqb_spec path "") as [->|Hne].
  - eapply checks_iff; [|exact IH]. set_solver.
  - assert (checks match stat path with Some e => fail (TLSFileMissing key e) | None => gret tt end
              (stat path = None)) as Hstat.
    { destruct (stat path) as [e|]; [|by eapply checks_iff; [|apply checks_ret]].
      exists [TLSFileMissing key e]. by split. }
    eapply checks_iff; [|eauto]. rewrite negb_false_iff. set_solver.
Qed.

Lemma validateTimeouts_checks ts :
  checks (validateTimeouts ts) (Forall (fun kd => 0 < kd.2) ts).
Proof.
  induction ts as [|[key d] ts IH]; simpl; [eapply checks_iff; [|apply checks_ret]; done|].
  eapply checks_iff; [|eauto]. by rewrite Forall_cons, Z.leb_gt.
Qed.

Lemma xorb_empty a b : xorb (String.eqb a "") (String.eqb b "") = false <-> (a = "" <-> b = "").
Proof. destruct (String.eqb_spec a ""), (String.eqb_spec b ""); simpl; naive_solver. Qed.

Lemma validateStore_checks c : checks (validateStore stat c) (redis_ok (Config_Redis c)).
Proof.
  eapply checks_iff; [|unfold validateStore; eauto 10 using validateTLSFiles_checks, validateTimeouts_checks].
  unfold timeouts. rewrite negb_false_iff, orb_true_iff, !String.eqb_eq, Z.eqb_neq, xorb_empty, Z.ltb_ge, Z.leb_gt.
  rewrite !Forall_cons, Forall_nil. cbn [snd].
  assert (Z.of_nat (List.length (rc_Addrs (Config_Redis c))) <> 0 <-> rc_Addrs (Config_Redis c) <> []) as ->
    by (destruct (rc_Addrs (Config_Redis c)); simpl; split; try done; lia).
  split; [intros (?&?&?&?&?&?&?&?&?&_); by constructor|intros []; tauto].
Qed.

Lemma validateDecorators_checks c : checks (validateDecorators c) (decorators_ok c).
Proof.
  unfold validateDecorators, decorators_ok. eapply checks_iff; [|apply checks_bind; [|apply checks_when]].
  2: { instantiate (1 := bc_Enabled (Config_BlockCache c) = true ->
         0 < bc_MaxEntries (Config_BlockCache c) /\ 0 < bc_MaxTTL (Config_BlockCache c)).
       destruct (bc_Enabled (Config_BlockCache c)); [|by eapply checks_iff; [|apply checks_ret]].
       eapply checks_iff; [|eauto]. rewrite !Z.leb_gt. tauto. }
  rewrite andb_false_iff, Z.ltb_ge, Z.leb_gt. intuition lia.
Qed.

Lemma validate_checks c : checks (validate stat c) (config_ok c).
Proof.
  unfold validate, config_ok. apply checks_bind; [apply validateService_checks|].
  destruct (rc_Enabled (Config_Redis c)); simpl.
  - eapply checks_iff; [|eauto using validateStore_checks, validateDecorators_checks]. tauto.
  - by eapply checks_iff; [|apply checks_ret].
Qed.

Lemma Load_loaded c : Load getenv stat = inl c <-> c = config_of /\ well_typed /\ config_ok c.
Proof.
  unfold Load. destruct (validate_checks config_of) as (qs & Hv & Hqs).
  assert (emits (let! c := load_config getenv in let! _ := validate stat c in gret c) config_of
            (type_problems ++ qs)) as He.
  { eapply emits_bind; [apply load_config_emits|]. rewrite <-(app_nil_r qs).
    eapply emits_bind; [exact Hv|apply emits_ret]. }
  rewrite He. cbn [app]. rewrite <-type_problems_nil.
  destruct (type_problems ++ qs)%list eqn:E.
  - apply app_nil in E as [Et Eq]. rewrite Hqs in Eq. split; [intros [= <-]; done|by intros (-> & _)].
  - split; [done|]. intros (-> & Et & Ec). apply Hqs in Ec. by rewrite Et, Ec in E.
Qed.

(** C26: the environment is accepted exactly when every variable that is set is of its
    type and the configuration it says can be started on - limits positive, a known
    level, format and mode, addresses to dial, TLS files that exist and come in
    pairs - and then it is that configuration. *)
Theorem Load_iff c : Load getenv stat = inl c <-> c = config_of /\ well_typed /\ config_ok c.
Proof. apply Load_loaded. Qed.

End values.

(** ** Consequences *)

(** The prefix separates the keys from other services' whatever it is set to, and a
    trailing colon makes no difference. *)
Lemma normalisePrefix_colon p : p <> "" -> HasSuffix (normalisePrefix p) ":" = true.
Proof.
  intros Hne. unfold normalisePrefix. destruct (String.eqb_spec p ""); [done|].
  destruct (HasSuffix p ":") eqn:E; simpl; [done|]. apply HasSuffix_true. by exists p.
Qed.

Lemma normalisePrefix_idemp p : normalisePrefix (normalisePrefix p) = normalisePrefix p.
Proof.
  destruct (String.eqb_spec p "") as [->|Hne]; [done|].
  unfold normalisePrefix at 1. by rewrite (normalisePrefix_colon p Hne), orb_true_r.
Qed.

(** Some checks never fire: a variable that is blank has its default. *)
Lemma strings_never_empty getenv :
  ListenAddr (config_of getenv) <> "" /\ ConfigPath (config_of getenv) <> "" /\
  MetricsNamespace (config_of getenv) <> "".
Proof.
  unfold config_of, value_of, set_value. cbn [ListenAddr ConfigPath MetricsNamespace].
  split_and!; by match goal with |- context [String.eqb ?v ""] => destruct (String.eqb_spec v "") end.
Qed.

Section examples.
#[local] Existing Instance ascii_only.

(** An environment, as a list of variables. *)
Fixpoint env (vars : list (string * string)) (key : string) : string :=
  match vars with
  | [] => ""
  | (k, v) :: vars => if String.eqb k key then v else env vars key
  end.

(** Nothing set is a valid configuration. *)
Example defaults_load :
  match Load (env []) (fun _ => None) with
  | inl c => (ListenAddr c, MaxBodyBytes c, rc_KeyPrefix (Config_Redis c), br_Threshold (Config_Breaker c))
  | inr _ => ("", 0, "", 0)
  end = (":8080", 262144, "forwardlimit:", 3).
Proof. vm_compute. reflexivity. Qed.

Definition defaults : Config := config_of (env []).

Lemma defaults_loaded : Load (env []) (fun _ => None) = inl defaults.
Proof. vm_compute. reflexivity. Qed.

Lemma defaults_ok : config_ok (fun _ => None) defaults.
Proof. by apply (Load_loaded (env []) (fun _ => None)), defaults_loaded. Qed.

(** Every problem is reported, in order. *)
Example env_problems_collected :
  Load (env [("MAX_BODY_BYTES", "-1"); ("SHUTDOWN_TIMEOUT", "10"); ("REDIS_TLS_CA_FILE", "ca.pem");
             ("REDIS_ADDRS", " , "); ("LOG_LEVEL", "loud")]) (fun _ => Some "stat: no such file")
  = inr [NotADuration "SHUTDOWN_TIMEOUT" "10"; MaxBodyNotPositive (-1); UnknownLogLevel "loud"; NoAddresses;
         TLSFileUnused "REDIS_TLS_CA_FILE"; TLSFileMissing "REDIS_TLS_CA_FILE" "stat: no such file"].
Proof. vm_compute. reflexivity. Qed.

(** The secret is the one variable that is not trimmed: a blank one is a secret. *)
Lemma blank_secret_is_used :
  match Load (env [("HASH_SECRET", " ")]) (fun _ => None) with
  | inl c => HashSecret c
  | inr _ => ""
  end = " ".
Proof. vm_compute. reflexivity. Qed.

(** A disabled store's settings must still be of their type. *)
Lemma disabled_store_typed :
  Load (env [("REDIS_ENABLED", "false"); ("REDIS_POOL_SIZE", "many")]) (fun _ => None)
  = inr [NotAnInteger "REDIS_POOL_SIZE" "many"].
Proof. vm_compute. reflexivity. Qed.

(** The largest body limit is accepted; adding one to it overflows. *)
Lemma largest_body_limit_loads :
  match Load (env [("MAX_BODY_BYTES", "9223372036854775807")]) (fun _ => None) with
  | inl c => wrap64 (MaxBodyBytes c + 1)
  | inr _ => 0
  end = min_int64.
Proof. vm_compute. reflexivity. Qed.

(** No retries is accepted, and handed to the client as [0]. *)
Lemma zero_retries_load :
  match Load (env [("REDIS_MAX_RETRIES", "0")]) (fun _ => None) with
  | inl c => Some (rc_MaxRetries (Config_Redis c))
  | inr _ => None
  end = Some 0.
Proof. vm_compute. reflexivity. Qed.

End examples.
