(* ===== verification/ConfigFile.v ===== *)
(** * The configuration file ([internal/config/file.go])

    The data of a configuration file and [File.Validate].  A problem is a value of
    [problem], one constructor per message of the source and with the message's
    arguments, so the order and the number of the errors joined are kept but not
    their wording.  Whether a body file exists is asked of [stat]. *)
From stdpp Require Import base list gmap strings.
From Stdlib Require Import ZArith Lia Ascii String.
From S2P Require Import Prelude.
From S2P Require Import GoStrings.
From S2P Require Import GoParse.
From S2P Require Import Store.

#[local] Open Scope string_scope.
#[local] Open Scope Z_scope.

(** ** Bounds ([config.go]) *)
Definition MinLimit : Z := 1.
Definition MaxLimit : Z := 10000.
Definition MinWindow : Duration := Second.
Definition MaxWindow : Duration := Hour.
Definition MinBlock : Duration := Second.
Definition MaxBlock : Duration := 24 * Hour.
Definition MinRate : Z := 1.
Definition MaxRate : Z := 1000000.
Definition MinBurst : Z := 1.
Definition MaxBurst : Z := 1000000.

(** ** Data *)
Record ResponseSpec : Type := mkResponseSpec {
  rs_Status : Z;
  rs_ContentType : string;
  rs_Body : string;
  rs_BodyFile : string;
}.

Record WindowSpec : Type := mkWindowSpec {
  ws_Limit : Z;
  ws_Window : Duration;
  ws_Block : Duration;
}.

Record BucketSpec : Type := mkBucketSpec {
  bs_Rate : Z;
  bs_Burst : Z;
}.

Inductive KeySpec : Type := mkKeySpec {
  ks_Body : string;
  ks_Header : list string;
  ks_Query : list string;
  ks_First : list KeySpec;
  ks_Composite : list KeySpec;
  ks_Separator : string;
  ks_Normalise : string;
  ks_Hash : bool;
}.

(** A nil pointer is [None]. *)
Record LimiterSpec : Type := mkLimiterSpec {
  ls_Name : string;
  ls_Key : option KeySpec;
  ls_Window : option WindowSpec;
  ls_Bucket : option BucketSpec;
  ls_Paths : list string;
  ls_Methods : list string;
  ls_DryRun : bool;
  ls_RetryAfter : bool;
  ls_Response : option ResponseSpec;
}.

Record File : Type := mkFile {
  File_Response : option ResponseSpec;
  File_Limiters : list LimiterSpec;
}.

(** [KeySpec.sources] *)
Definition sources (k : KeySpec) : list string :=
  (if negb (String.eqb (ks_Body k) "") then ["body"] else []) ++
  (match ks_Header k with [] => [] | _ => ["header"] end) ++
  (match ks_Query k with [] => [] | _ => ["query"] end) ++
  (match ks_First k with [] => [] | _ => ["first"] end) ++
  (match ks_Composite k with [] => [] | _ => ["composite"] end).

(** ** Names and methods

    The regular expressions [nameRe] and [methodRe]. *)
Definition name_byte (c : ascii) : bool :=
  is_lower c || is_digit c || Ascii.eqb c "_" || Ascii.eqb c "-".

Definition nameRe (s : string) : bool :=
  match s with
  | EmptyString => false
  | String c s' => (is_lower c || is_digit c) && sforall name_byte s'
  end.

Definition token_byte (c : ascii) : bool :=
  is_lower c || is_upper c || is_digit c ||
  existsb (Ascii.eqb c)
    ["!"; "#"; "$"; "%"; "&"; "'"; "*"; "+"; "-"; "."; "^"; "_"; "`"; "|"; "~"]%char.

Definition methodRe (s : string) : bool :=
  match s with EmptyString => false | _ => sforall token_byte s end.

(** ** Normaliser names *)

(** [normaliserKind]: the empty name means none. *)
Record normaliserKind : Type := mkNormaliserKind {
  nk_name : string;
  nk_v4 : Z;
  nk_v6 : Z;
}.
Definition no_normaliser : normaliserKind := mkNormaliserKind "" 0 0.

Inductive normaliser_error : Type :=
| TakesNoArgument (base : string)
| TooManyLengths (arg : string)
| NotALength (part : string)
| V4OutOfRange (n : Z)
| V6OutOfRange (n : Z)
| UnknownNormaliser (base : string).

Definition ipsubnet_kind (v4 v6 : Z) : normaliserKind + normaliser_error :=
  if (v4 <? 0) || (32 <? v4) then inr (V4OutOfRange v4)
  else if (v6 <? 0) || (128 <? v6) then inr (V6OutOfRange v6)
  else inl (mkNormaliserKind "ipsubnet" v4 v6).

Definition parse_ipsubnet (arg : string) (hasArg : bool) : normaliserKind + normaliser_error :=
  if negb hasArg then ipsubnet_kind 24 64
  else
    match Split arg "," with
    | [p4] =>
        match Atoi (TrimSpace p4) with
        | None => inr (NotALength p4)
        | Some v4 => ipsubnet_kind v4 64
        end
    | [p4; p6] =>
        match Atoi (TrimSpace p4) with
        | None => inr (NotALength p4)
        | Some v4 =>
            match Atoi (TrimSpace p6) with
            | None => inr (NotALength p6)
            | Some v6 => ipsubnet_kind v4 v6
            end
        end
    | _ => inr (TooManyLengths arg)
    end.

Definition parseNormaliser (name : string) : normaliserKind + normaliser_error :=
  let '(base, arg, hasArg) := Cut (TrimSpace name) "/" in
  if String.eqb base "" || String.eqb base "none" then
    (if (hasArg : bool) then inr (TakesNoArgument base) else inl no_normaliser)
  else if String.eqb base "digits" || String.eqb base "lower" || String.eqb base "trim" then
    (if (hasArg : bool) then inr (TakesNoArgument base) else inl (mkNormaliserKind base 0 0))
  else if String.eqb base "ipsubnet" then parse_ipsubnet arg hasArg
  else inr (UnknownNormaliser base).

(** ** Validation *)
Inductive problem : Type :=
| NoLimiters
| NameRequired (at_ : string)
| NameSyntax (at_ : string)
| NameDuplicate (at_ : string)
| NoAlgorithm (at_ : string)
| TwoAlgorithms (at_ : string)
| KeyRequired (at_ : string)
| KeyNoSource (at_ : string)
| KeyManySources (at_ : string) (names : string)
| SeparatorUnused (at_ : string)
| BadNormaliser (at_ : string) (e : normaliser_error)
| CompositeOfOne (at_ : string)
| PathEmpty (at_ : string)
| PathRelative (at_ path : string)
| PathStar (at_ path : string)
| MethodEmpty (at_ : string)
| MethodSyntax (at_ method : string)
| MethodDuplicate (at_ method : string)
| LimitRange (at_ : string) (got : Z)
| WindowRange (at_ : string) (got : Duration)
| BlockRange (at_ : string) (got : Duration)
| RateRange (at_ : string) (got : Z)
| BurstRange (at_ : string) (got : Z)
| StatusRange (at_ : string) (got : Z)
| TwoBodies (at_ : string)
| NoBodyFile (at_ : string) (e : error).

(** [fail], under a condition. *)
Definition fail_if (c : bool) (p : problem) : list problem := if c then [p] else [].

Definition indexed (where_ field : string) (i : Z) : string :=
  where_ ++ field ++ "[" ++ Itoa i ++ "]".

(** [for i, x := range xs]: the problems of each element, in order. *)
Section each.
Context {A : Type} (f : Z -> A -> list problem).
Fixpoint each_from (i : Z) (xs : list A) : list problem :=
  match xs with
  | [] => []
  | x :: xs => (f i x ++ each_from (i + 1) xs)%list
  end.
End each.

Definition validatePath (at_ : string) (p : string) : list problem :=
  if String.eqb p "" then [PathEmpty at_]
  else if negb (HasPrefix p "/") then [PathRelative at_ p]
  else if ContainsByte (TrimSuffix p "/*") "*" then [PathStar at_ p]
  else [].

Definition validatePaths (where_ : string) (paths : list string) : list problem :=
  each_from (fun i p => validatePath (indexed where_ ".paths" i) p) 0 paths.

Section validate.
Context {U : Unicode} (stat : string -> option error).

(** [seen] holds the methods met so far, in upper case. *)
Fixpoint methods_from (where_ : string) (i : Z) (seen : gset string) (methods : list string)
  : list problem :=
  match methods with
  | [] => []
  | m :: ms =>
      let at_ := indexed where_ ".methods" i in
      if String.eqb m "" then MethodEmpty at_ :: methods_from where_ (i + 1) seen ms
      else if negb (methodRe m) then MethodSyntax at_ m :: methods_from where_ (i + 1) seen ms
      else
        let up := ToUpper m in
        if bool_decide (up ∈ seen) then MethodDuplicate at_ m :: methods_from where_ (i + 1) seen ms
        else methods_from where_ (i + 1) ({[up]} ∪ seen) ms
  end.

Definition validateMethods (where_ : string) (methods : list string) : list problem :=
  methods_from where_ 0 ∅ methods.

Definition outside (lo hi x : Z) : bool := (x <? lo) || (hi <? x).

Definition validateWindow (where_ : string) (w : WindowSpec) : list problem :=
  fail_if (outside MinLimit MaxLimit (ws_Limit w)) (LimitRange where_ (ws_Limit w)) ++
  fail_if (outside MinWindow MaxWindow (ws_Window w)) (WindowRange where_ (ws_Window w)) ++
  fail_if (outside MinBlock MaxBlock (ws_Block w)) (BlockRange where_ (ws_Block w)).

Definition validateBucket (where_ : string) (b : BucketSpec) : list problem :=
  fail_if (outside MinRate MaxRate (bs_Rate b)) (RateRange where_ (bs_Rate b)) ++
  fail_if (outside MinBurst MaxBurst (bs_Burst b)) (BurstRange where_ (bs_Burst b)).

Definition validateResponse (where_ : string) (r : ResponseSpec) : list problem :=
  fail_if (negb (rs_Status r =? 0) && outside 400 599 (rs_Status r)) (StatusRange where_ (rs_Status r)) ++
  fail_if (negb (String.eqb (rs_Body r) "") && negb (String.eqb (rs_BodyFile r) "")) (TwoBodies where_) ++
  (if String.eqb (rs_BodyFile r) "" then []
   else match stat (rs_BodyFile r) with None => [] | Some e => [NoBodyFile where_ e] end).

Fixpoint validateKey (where_ : string) (k : KeySpec) {struct k} : list problem :=
  (match sources k with
   | [] => [KeyNoSource where_]
   | [_] => []
   | src => [KeyManySources where_ (Join src ", ")]
   end ++
   fail_if (negb (String.eqb (ks_Separator k) "") && (Z.of_nat (List.length (ks_Composite k)) =? 0))
     (SeparatorUnused where_) ++
   (match parseNormaliser (ks_Normalise k) with
    | inl _ => []
    | inr e => [BadNormaliser where_ e]
    end) ++
   each_from (fun i child => validateKey (indexed where_ ".first" i) child) 0 (ks_First k) ++
   each_from (fun i child => validateKey (indexed where_ ".composite" i) child) 0 (ks_Composite k) ++
   fail_if (Z.of_nat (List.length (ks_Composite k)) =? 1) (CompositeOfOne where_))%list.

(** The name check, and the names it leaves seen. *)
Definition validateName (where_ name : string) (seen : gset string) : list problem * gset string :=
  if String.eqb name "" then ([NameRequired where_], seen)
  else if negb (nameRe name) then ([NameSyntax where_], seen)
  else if bool_decide (name ∈ seen) then ([NameDuplicate where_], seen)
  else ([], {[name]} ∪ seen).

Definition validateAlgorithm (where_ : string) (l : LimiterSpec) : list problem :=
  match ls_Window l, ls_Bucket l with
  | None, None => [NoAlgorithm where_]
  | Some _, Some _ => [TwoAlgorithms where_]
  | Some w, None => validateWindow where_ w
  | None, Some b => validateBucket where_ b
  end.

(** [where]: the entry's index, and its name if it has one. *)
Definition entry (i : Z) (name : string) : string :=
  if String.eqb name "" then "limiters[" ++ Itoa i ++ "]"
  else "limiters[" ++ Itoa i ++ "] (" ++ name ++ ")".

Definition validateLimiter (i : Z) (l : LimiterSpec) (seen : gset string)
  : list problem * gset string :=
  let where_ := entry i (ls_Name l) in
  let '(bad_name, seen) := validateName where_ (ls_Name l) seen in
  ((bad_name ++ validateAlgorithm where_ l ++
    match ls_Key l with
    | None => [KeyRequired where_]
    | Some k => validateKey (where_ ++ ".key") k
    end ++
    validatePaths where_ (ls_Paths l) ++
    validateMethods where_ (ls_Methods l) ++
    match ls_Response l with None => [] | Some r => validateResponse (where_ ++ ".response") r end)%list,
   seen).

Fixpoint limiters_from (i : Z) (seen : gset string) (ls : list LimiterSpec) : list problem :=
  match ls with
  | [] => []
  | l :: ls =>
      let '(problems, seen) := validateLimiter i l seen in
      (problems ++ limiters_from (i + 1) seen ls)%list
  end.

(** [File.Validate]: every problem, in order; nil is no problem. *)
Definition Validate (f : File) : list problem :=
  (match File_Limiters f with [] => [NoLimiters] | _ => [] end ++
   match File_Response f with None => [] | Some r => validateResponse "response" r end ++
   limiters_from 0 ∅ (File_Limiters f))%list.

End validate.

(** ** What a valid file is *)

(** Induction on a key, through both lists of children. *)
Lemma KeySpec_tree_ind (P : KeySpec -> Prop) :
  (forall k, Forall P (ks_First k) -> Forall P (ks_Composite k) -> P k) -> forall k, P k.
Proof.
  intros HP. fix IH 1. intros k. apply HP; destruct k as [b h q fs cs sep n ha]; simpl.
  - clear -IH. induction fs as [|f fs IHfs]; constructor; [apply IH|exact IHfs].
  - clear -IH. induction cs as [|c cs IHcs]; constructor; [apply IH|exact IHcs].
Qed.

Definition within (lo hi x : Z) : Prop := lo <= x <= hi.

(** A key has exactly one source, and so has every key under it. *)
Inductive key_ok : KeySpec -> Prop :=
| key_ok_node k :
    List.length (sources k) = 1%nat ->
    (ks_Separator k = "" \/ ks_Composite k <> []) ->
    (exists nk, parseNormaliser (ks_Normalise k) = inl nk) ->
    Forall key_ok (ks_First k) -> Forall key_ok (ks_Composite k) ->
    List.length (ks_Composite k) <> 1%nat ->
    key_ok k.

(** A star may only be the last of two characters. *)
Definition path_ok (p : string) : Prop :=
  HasPrefix p "/" = true /\
  exists base, ContainsByte base "*" = false /\ (p = base \/ p = base ++ "/*").

Section specification.
Context {U : Unicode} (stat : string -> option error).

(** No method is listed twice, in any case. *)
Definition methods_ok (ms : list string) : Prop :=
  Forall (fun m => methodRe m = true) ms /\ NoDup (map ToUpper ms).

Definition response_ok (r : ResponseSpec) : Prop :=
  (rs_Status r = 0 \/ within 400 599 (rs_Status r)) /\
  (rs_Body r = "" \/ rs_BodyFile r = "") /\
  (rs_BodyFile r <> "" -> stat (rs_BodyFile r) = None).

(** One algorithm, within its bounds. *)
Definition algorithm_ok (l : LimiterSpec) : Prop :=
  (exists w, ls_Window l = Some w /\ ls_Bucket l = None /\
     within MinLimit MaxLimit (ws_Limit w) /\ within MinWindow MaxWindow (ws_Window w) /\
     within MinBlock MaxBlock (ws_Block w)) \/
  (exists b, ls_Window l = None /\ ls_Bucket l = Some b /\
     within MinRate MaxRate (bs_Rate b) /\ within MinBurst MaxBurst (bs_Burst b)).

Definition limiter_ok (l : LimiterSpec) : Prop :=
  algorithm_ok l /\ (exists k, ls_Key l = Some k /\ key_ok k) /\
  Forall path_ok (ls_Paths l) /\ methods_ok (ls_Methods l) /\
  (forall r, ls_Response l = Some r -> response_ok r).

Definition file_ok (f : File) : Prop :=
  File_Limiters f <> [] /\
  (forall r, File_Response f = Some r -> response_ok r) /\
  Forall (fun l => nameRe (ls_Name l) = true) (File_Limiters f) /\
  NoDup (map ls_Name (File_Limiters f)) /\
  Forall limiter_ok (File_Limiters f).

(** ** [Validate] decides it *)
Lemma fail_if_nil c p : fail_if c p = [] <-> c = false.
Proof. destruct c; simpl; naive_solver. Qed.

Lemma outside_false lo hi x : outside lo hi x = false <-> within lo hi x.
Proof. unfold outside, within. rewrite orb_false_iff, !Z.ltb_ge. tauto. Qed.

Lemma each_from_nil {A} (f : Z -> A -> list problem) (P : A -> Prop) i xs :
  Forall (fun x => forall j, f j x = [] <-> P x) xs -> each_from f i xs = [] <-> Forall P xs.
Proof.
  intros Hf. revert i. induction Hf as [|x xs Hx _ IH]; intros i; simpl; [done|].
  by rewrite app_nil, Hx, IH, Forall_cons.
Qed.

Lemma validatePath_nil at_ p : validatePath at_ p = [] <-> path_ok p.
Proof.
  unfold validatePath, path_ok. destruct (String.eqb_spec p "") as [->|Hne]; [by split; [|intros [? _]]|].
  destruct (HasPrefix p "/"); cbn [negb]; [|by split; [|intros [? _]]].
  unfold TrimSuffix. destruct (CutSuffix p "/*") as [b|] eqn:E.
  - apply CutSuffix_Some in E as ->. destruct (ContainsByte b "*") eqn:Eb.
    + split; [done|]. intros [_ (base & Hb & [<-|E])].
      * rewrite ContainsByte_app in Hb. by rewrite Eb in Hb.
      * apply app_inj_r_s in E. congruence.
    + split; [|done]. intros _. split; [done|]. exists b. split; [done|by right].
  - destruct (ContainsByte p "*") eqn:Ep.
    + split; [done|]. intros [_ (base & Hb & [<-| ->])]; [congruence|].
      assert (CutSuffix (base ++ "/*") "/*" = Some base) as Es by by apply CutSuffix_Some.
      congruence.
    + split; [|done]. intros _. split; [done|]. exists p. split; [done|by left].
Qed.

Lemma validatePaths_nil where_ ps : validatePaths where_ ps = [] <-> Forall path_ok ps.
Proof.
  apply each_from_nil, Forall_forall. intros p _ j. apply validatePath_nil.
Qed.

Lemma methods_from_nil where_ i seen ms :
  methods_from where_ i seen ms = [] <->
  Forall (fun m => methodRe m = true) ms /\ NoDup (map ToUpper ms) /\
  forall m, m ∈ map ToUpper ms -> m ∉ seen.
Proof.
  revert i seen. induction ms as [|m ms IH]; intros i seen; simpl.
  { split; [|done]. intros _. split_and!; [done|constructor|]. by intros m Hm%elem_of_nil. }
  rewrite Forall_cons, NoDup_cons.
  destruct (String.eqb_spec m "") as [->|_]; [by split; [|intros [[? _] _]]|].
  destruct (methodRe m) eqn:Em; cbn [negb]; [|by split; [|intros [[? _] _]]].
  case_bool_decide as Hs.
  { split; [done|]. intros (_ & _ & H). destruct (H (ToUpper m)); [by left|done]. }
  rewrite IH. set_solver.
Qed.

Lemma validateMethods_nil where_ ms : validateMethods where_ ms = [] <-> methods_ok ms.
Proof. unfold validateMethods, methods_ok. rewrite methods_from_nil. set_solver. Qed.

Lemma validateResponse_nil where_ r : validateResponse stat where_ r = [] <-> response_ok r.
Proof.
  unfold validateResponse, response_ok. rewrite !app_nil, !fail_if_nil, !andb_false_iff, outside_false.
  rewrite !negb_false_iff, Z.eqb_eq, !String.eqb_eq.
  destruct (String.eqb_spec (rs_BodyFile r) "") as [->|Hne]; [naive_solver|].
  destruct (stat (rs_BodyFile r)); naive_solver.
Qed.

Lemma validateKey_eq where_ k :
  validateKey where_ k =
  (match sources k with
   | [] => [KeyNoSource where_]
   | [_] => []
   | src => [KeyManySources where_ (Join src ", ")]
   end ++
   fail_if (negb (String.eqb (ks_Separator k) "") && (Z.of_nat (List.length (ks_Composite k)) =? 0))
     (SeparatorUnused where_) ++
   match parseNormaliser (ks_Normalise k) with inl _ => [] | inr e => [BadNormaliser where_ e] end ++
   each_from (fun i child => validateKey (indexed where_ ".first" i) child) 0 (ks_First k) ++
   each_from (fun i child => validateKey (indexed where_ ".composite" i) child) 0 (ks_Composite k) ++
   fail_if (Z.of_nat (List.length (ks_Composite k)) =? 1) (CompositeOfOne where_))%list.
Proof. by destruct k. Qed.

Lemma validateKey_nil k : forall where_, validateKey where_ k = [] <-> key_ok k.
Proof.
  induction k as [k Hf Hc] using KeySpec_tree_ind. intros where_. rewrite validateKey_eq.
  rewrite !app_nil, !fail_if_nil, andb_false_iff, negb_false_iff, String.eqb_eq, Z.eqb_neq.
  rewrite (each_from_nil _ key_ok) by (eapply Forall_impl; [exact Hf|]; intros x Hx j; apply Hx).
  rewrite (each_from_nil _ key_ok) by (eapply Forall_impl; [exact Hc|]; intros x Hx j; apply Hx).
  rewrite Z.eqb_neq. split.
  - intros (Hs & Hsep & Hn & H1 & H2 & H3). constructor; [| | |done|done|lia].
    + by destruct (sources k) as [|? []].
    + destruct Hsep as [?|Hl]; [by left|right]. by destruct (ks_Composite k).
    + destruct (parseNormaliser _) as [nk|]; [by exists nk|done].
  - inversion_clear 1 as [? Hs Hsep [nk Hn] H1 H2 H3]. rewrite Hn. split_and!; [| |done|done|done|lia].
    + by destruct (sources k) as [|? []].
    + destruct Hsep as [?|Hl]; [by left|right]. destruct (ks_Composite k); [done|simpl; lia].
Qed.

Lemma validateAlgorithm_nil where_ l : validateAlgorithm where_ l = [] <-> algorithm_ok l.
Proof.
  unfold validateAlgorithm, algorithm_ok, validateWindow, validateBucket.
  destruct (ls_Window l), (ls_Bucket l); rewrite ?app_nil, ?fail_if_nil, ?outside_false; naive_solver.
Qed.

Lemma validateLimiter_nil i l seen :
  (validateLimiter stat i l seen).1 = [] <->
  (nameRe (ls_Name l) = true /\ ls_Name l ∉ seen) /\ limiter_ok l.
Proof.
  unfold validateLimiter, limiter_ok, validateName.
  destruct (String.eqb_spec (ls_Name l) "") as [->|_]; [by split; [|intros [[? _] _]]|].
  destruct (nameRe (ls_Name l)); cbn [negb]; [|by split; [|intros [[? _] _]]].
  case_bool_decide; cbn [fst app]; [by split; [|intros [[_ ?] _]]|].
  rewrite !app_nil, validateAlgorithm_nil, validatePaths_nil, validateMethods_nil.
  destruct (ls_Key l) as [k|], (ls_Response l) as [r|]; rewrite ?validateKey_nil, ?validateResponse_nil;
    naive_solver.
Qed.

Lemma validateLimiter_seen i l seen :
  (validateLimiter stat i l seen).1 = [] -> (validateLimiter stat i l seen).2 = {[ls_Name l]} ∪ seen.
Proof.
  unfold validateLimiter, validateName. destruct (String.eqb _ _); [done|].
  destruct (nameRe (ls_Name l)); cbn [negb]; [|done]. by case_bool_decide.
Qed.

Lemma limiters_from_nil i seen ls :
  limiters_from stat i seen ls = [] <->
  Forall (fun l => nameRe (ls_Name l) = true) ls /\ NoDup (map ls_Name ls) /\
  (forall n, n ∈ map ls_Name ls -> n ∉ seen) /\ Forall limiter_ok ls.
Proof.
  revert i seen. induction ls as [|l ls IH]; intros i seen; simpl.
  { split; [|done]. intros _. split_and!; try constructor. by intros n Hn%elem_of_nil. }
  pose proof (validateLimiter_nil i l seen) as Hl. pose proof (validateLimiter_seen i l seen) as Hseen.
  destruct (validateLimiter stat i l seen) as [ps seen']. cbn [fst snd] in *.
  rewrite app_nil, !Forall_cons, NoDup_cons. split.
  - intros [Eps Els]. rewrite (Hseen Eps) in Els. apply IH in Els as (H1 & H2 & H3 & H4).
    apply Hl in Eps as [[Hn Hs] Hok]. set_solver.
  - intros ((Hn & Hns) & (Hni & Hnd) & Hseen' & Hok & Hoks).
    assert (ps = []) as Eps by (apply Hl; set_solver). split; [done|].
    rewrite (Hseen Eps). apply IH. set_solver.
Qed.

(** Nothing is reported exactly for a file that is well formed. *)
Lemma Validate_iff f : Validate stat f = [] <-> file_ok f.
Proof.
  unfold Validate, file_ok. rewrite !app_nil, limiters_from_nil.
  destruct (File_Limiters f), (File_Response f) as [r|]; rewrite ?validateResponse_nil;
    set_solver.
Qed.

End specification.

(** ** What a normaliser name resolves to *)
Inductive known_normaliser : normaliserKind -> Prop :=
| known_none : known_normaliser no_normaliser
| known_digits : known_normaliser (mkNormaliserKind "digits" 0 0)
| known_lower : known_normaliser (mkNormaliserKind "lower" 0 0)
| known_trim : known_normaliser (mkNormaliserKind "trim" 0 0)
| known_ipsubnet v4 v6 :
    within 0 32 v4 -> within 0 128 v6 -> known_normaliser (mkNormaliserKind "ipsubnet" v4 v6).

Lemma ipsubnet_kind_known v4 v6 nk : ipsubnet_kind v4 v6 = inl nk -> known_normaliser nk.
Proof.
  unfold ipsubnet_kind. fold (outside 0 32 v4) (outside 0 128 v6).
  destruct (outside 0 32 v4) eqn:E4; [done|]. destruct (outside 0 128 v6) eqn:E6; [done|].
  intros [= <-]. by constructor; apply outside_false.
Qed.

Lemma parseNormaliser_known name nk : parseNormaliser name = inl nk -> known_normaliser nk.
Proof.
  unfold parseNormaliser, parse_ipsubnet. destruct (Cut (TrimSpace name) "/") as [[base arg] hasArg].
  destruct (String.eqb base "" || String.eqb base "none"); [destruct hasArg; [done|intros [= <-]; constructor]|].
  destruct (String.eqb_spec base "digits") as [->|_];
    [cbn [orb]; destruct hasArg; [done|intros [= <-]; constructor]|].
  destruct (String.eqb_spec base "lower") as [->|_];
    [cbn [orb]; destruct hasArg; [done|intros [= <-]; constructor]|].
  destruct (String.eqb_spec base "trim") as [->|_];
    [cbn [orb]; destruct hasArg; [done|intros [= <-]; constructor]|]. cbn [orb].
  destruct (String.eqb base "ipsubnet"); [|done]. destruct hasArg; cbn [negb]; [|apply ipsubnet_kind_known].
  destruct (Split arg ",") as [|p4 [|p6 []]]; try done; destruct (Atoi (TrimSpace p4)); try done.
  - apply ipsubnet_kind_known.
  - destruct (Atoi (TrimSpace p6)); [apply ipsubnet_kind_known|done].
Qed.

(** ** A file *)
Section examples.
#[local] Existing Instance ascii_only.

(** A key with one header, and nothing else. *)
Definition header_key (names : list string) (normalise : string) (hash : bool) : KeySpec :=
  mkKeySpec "" names [] [] [] "" normalise hash.

Definition login_spec : LimiterSpec :=
  mkLimiterSpec "login" (Some (header_key ["X-Real-Ip"] "ipsubnet/24,48" false))
    (Some (mkWindowSpec 5 Minute (15 * Minute))) None ["/login"; "/v1/*"] ["POST"] false false None.

Definition token_spec : LimiterSpec :=
  mkLimiterSpec "api-token"
    (Some (mkKeySpec "" [] [] [header_key ["Authorization"] "" true; mkKeySpec "" [] ["token"] [] [] "" "trim" true]
             [] "" "" false))
    None (Some (mkBucketSpec 10 20)) [] [] true true
    (Some (mkResponseSpec 503 "text/plain" "busy" "")).

Definition sample_file : File := mkFile None [login_spec; token_spec].

Example sample_file_valid : Validate (fun _ => None) sample_file = [].
Proof. vm_compute. reflexivity. Qed.

(** Every problem is reported, in order. *)
Example problems_collected :
  Validate (fun _ => None) (mkFile None
    [mkLimiterSpec "Login" None (Some (mkWindowSpec 0 0 Minute)) None ["v1"; "/a*b"] ["get"; "GET"]
       false false None;
     mkLimiterSpec "x" (Some (header_key [] "digits/2" false)) None None [] [] false false None])
  = [NameSyntax "limiters[0] (Login)"; LimitRange "limiters[0] (Login)" 0;
     WindowRange "limiters[0] (Login)" 0; KeyRequired "limiters[0] (Login)";
     PathRelative "limiters[0] (Login).paths[0]" "v1"; PathStar "limiters[0] (Login).paths[1]" "/a*b";
     MethodDuplicate "limiters[0] (Login).methods[1]" "GET";
     NoAlgorithm "limiters[1] (x)"; KeyNoSource "limiters[1] (x).key";
     BadNormaliser "limiters[1] (x).key" (TakesNoArgument "digits")].
Proof. vm_compute. reflexivity. Qed.

End examples.
