(* ===== verification/ConfigBuild.v ===== *)
(** * From the file to limiters ([internal/config/build.go])

    [LoadFile], [File.Build] and what they call.  The file system and the YAML
    decoder are parameters; a nil dereference is a panic. *)
From stdpp Require Import base list gmap strings.
From Stdlib Require Import ZArith Lia Ascii String.
From S2P Require Import Prelude.
From S2P Require Import GoStrings.
From S2P Require Import Store.
From S2P Require Import Request.
From S2P Require Import Limiter.
From S2P Require Import Engine.
From S2P Require Import RedisStore.
From S2P Require Import TokenBucket.
From S2P Require Import Keyer.
From S2P Require Import ConfigFile.
From S2P Require Import HttpApi.

#[local] Open Scope string_scope.
#[local] Open Scope Z_scope.

(** [os.Stat] and [os.ReadFile]. *)
Class FileSystem : Type := {
  Stat : string -> option error;
  ReadFile : string -> string + error;
}.

(** [yaml.Decoder.Decode] with [KnownFields(true)]. *)
Class YAMLDecoder : Type := yaml_decode : string -> File + error.

(** ** Data *)
Record Built : Type := mkBuilt {
  Built_Limiters : list Limiter;
  Built_Responses : gmap string Response;
  Built_Default : Response;
  Built_Warnings : list string;
}.

Definition DefaultResponse : Response := mkResponse 429 "application/json" rate_limited_body.

Inductive load_error : Type :=
| ReadError (e : error)
| ParseError (path : string) (e : error)
| Invalid (path : string) (problems : list problem).

Inductive build_error : Type :=
| BadNormaliserName (e : normaliser_error)
| NoKeySource
| BodyFileError (e : error)
| InLimiter (name : string) (e : build_error).

(** The message about a limiter left out. *)
Definition hash_warning (name : string) : string :=
  "limiter " ++ quoted name ++ " needs hashing but HASH_SECRET is empty: it is disabled and will not limit anything".

Definition no_limiters_warning : string := "no limiters are active: every request will be allowed".

Section build.
Context {U : Unicode} {J : JSONDecoder} {M : MapRange} {HM : HMAC256} {FS : FileSystem} {Y : YAMLDecoder}.

(** [LoadFile] *)
Definition LoadFile (path : string) : File + load_error :=
  match ReadFile path with
  | inr e => inr (ReadError e)
  | inl raw =>
      match yaml_decode raw with
      | inr e => inr (ParseError path e)
      | inl f =>
          match Validate Stat f with
          | [] => inl f
          | problems => inr (Invalid path problems)
          end
      end
  end.

(** [normaliserKind.fn] *)
Definition fn (nk : normaliserKind) : option Normaliser :=
  let name := nk_name nk in
  if String.eqb name "digits" then Some Digits
  else if String.eqb name "lower" then Some Lower
  else if String.eqb name "trim" then Some Trim
  else if String.eqb name "ipsubnet" then Some (IPSubnet (nk_v4 nk) (nk_v6 nk))
  else None.

(** [buildChildren], over the builder of one child. *)
Section children.
Context (build : KeySpec -> (Keyer * bool) + build_error).
Fixpoint buildChildren (specs : list KeySpec) : (list Keyer * bool) + build_error :=
  match specs with
  | [] => inl ([], false)
  | s :: specs =>
      match build s with
      | inr e => inr e
      | inl (k, needsHash) =>
          match buildChildren specs with
          | inr e => inr e
          | inl (parts, anyHash) => inl (k :: parts, needsHash || anyHash)
          end
      end
  end.
End children.

Fixpoint buildKeyer (secret : string) (spec : KeySpec) {struct spec} : (Keyer * bool) + build_error :=
  match parseNormaliser (ks_Normalise spec) with
  | inr e => inr (BadNormaliserName e)
  | inl norm =>
      let n := fn norm in
      let h := if ks_Hash spec then Some (HMAC_Hash secret) else None in
      if negb (String.eqb (ks_Body spec) "") then inl (BodyField_Key (ks_Body spec) n h, ks_Hash spec)
      else if negb (Z.of_nat (List.length (ks_Header spec)) =? 0)
        then inl (Header_Key (ks_Header spec) n h, ks_Hash spec)
      else if negb (Z.of_nat (List.length (ks_Query spec)) =? 0)
        then inl (QueryParam_Key (ks_Query spec) n h, ks_Hash spec)
      else if negb (Z.of_nat (List.length (ks_First spec)) =? 0) then
        match buildChildren (buildKeyer secret) (ks_First spec) with
        | inr e => inr e
        | inl (parts, needsHash) => inl (First_Key parts n h, needsHash || ks_Hash spec)
        end
      else if negb (Z.of_nat (List.length (ks_Composite spec)) =? 0) then
        match buildChildren (buildKeyer secret) (ks_Composite spec) with
        | inr e => inr e
        | inl (parts, needsHash) =>
            inl (Composite_Key parts (ks_Separator spec) n h, needsHash || ks_Hash spec)
        end
      else inr NoKeySource
  end.

Definition resolveResponse (spec : ResponseSpec) (base : Response) : Response + build_error :=
  let status := if negb (rs_Status spec =? 0) then rs_Status spec else Response_Status base in
  let contentType :=
    if negb (String.eqb (rs_ContentType spec) "") then rs_ContentType spec
    else Response_ContentType base in
  if negb (String.eqb (rs_BodyFile spec) "") then
    match ReadFile (rs_BodyFile spec) with
    | inr e => inr (BodyFileError e)
    | inl body => inl (mkResponse status contentType body)
    end
  else inl (mkResponse status contentType
              (if negb (String.eqb (rs_Body spec) "") then rs_Body spec else Response_Body base)).

(** The limiter of one entry, once its keyer is built; a missing bucket is a nil
    dereference. *)
Definition build_limiter (spec : LimiterSpec) (k : Keyer) : outcome Limiter :=
  let l rule bucket :=
    mkLimiter (ls_Name spec) rule bucket k (ls_Paths spec) (ls_Methods spec)
      (ls_DryRun spec) (ls_RetryAfter spec) in
  match ls_Window spec with
  | Some w => Returns (l (mkRule (ws_Limit w) (ws_Window w) (ws_Block w)) Bucket_zero)
  | None =>
      match ls_Bucket spec with
      | Some b => Returns (l Rule_zero (mkBucket (bs_Rate b) (bs_Burst b)))
      | None => Panics "nil pointer dereference"
      end
  end.

Definition warn (b : Built) (w : string) : Built :=
  mkBuilt (Built_Limiters b) (Built_Responses b) (Built_Default b) (Built_Warnings b ++ [w])%list.

Definition add_limiter (b : Built) (l : Limiter) : Built :=
  mkBuilt (Built_Limiters b ++ [l])%list (Built_Responses b) (Built_Default b) (Built_Warnings b).

Definition add_response (b : Built) (name : string) (r : Response) : Built :=
  mkBuilt (Built_Limiters b) (<[name := r]> (Built_Responses b)) (Built_Default b) (Built_Warnings b).

(** The body of the loop over [f.Limiters]. *)
Definition build_one (secret : string) (spec : LimiterSpec) (b : Built) : outcome (Built + build_error) :=
  match ls_Key spec with
  | None => Panics "nil pointer dereference"
  | Some key =>
      match buildKeyer secret key with
      | inr e => Returns (inr (InLimiter (ls_Name spec) e))
      | inl (k, needsHash) =>
          if needsHash && negb (Available secret)
          then Returns (inl (warn b (hash_warning (ls_Name spec))))
          else
            match build_limiter spec k with
            | Panics v => Panics v
            | Returns l =>
                let b := add_limiter b l in
                match ls_Response spec with
                | None => Returns (inl b)
                | Some rs =>
                    match resolveResponse rs (Built_Default b) with
                    | inr e => Returns (inr (InLimiter (ls_Name spec) e))
                    | inl r => Returns (inl (add_response b (ls_Name spec) r))
                    end
                end
            end
      end
  end.

Fixpoint build_from (secret : string) (specs : list LimiterSpec) (b : Built)
  : outcome (Built + build_error) :=
  match specs with
  | [] => Returns (inl b)
  | spec :: specs =>
      match build_one secret spec b with
      | Returns (inl b) => build_from secret specs b
      | o => o
      end
  end.

(** [File.Build] *)
Definition Build (f : File) (secret : string) : outcome (Built + build_error) :=
  match
    match File_Response f with
    | None => inl DefaultResponse
    | Some rs => resolveResponse rs DefaultResponse
    end
  with
  | inr e => Returns (inr e)
  | inl default =>
      match build_from secret (File_Limiters f) (mkBuilt [] ∅ default []) with
      | Returns (inl b) =>
          Returns (inl (match Built_Limiters b with [] => warn b no_limiters_warning | _ => b end))
      | o => o
      end
  end.

(** [Built.DryRunNames], [Built.Names] *)
Definition DryRunNames (b : Built) : list string :=
  map Limiter_Name (List.filter Limiter_DryRun (Built_Limiters b)).

Definition Names (b : Built) : list string := map Limiter_Name (Built_Limiters b).

End build.

(** ** What a key means *)
Section meaning.
Context {U : Unicode} {J : JSONDecoder} {M : MapRange} {HM : HMAC256} {FS : FileSystem} {Y : YAMLDecoder}.

Definition normaliser_of (k : KeySpec) : option Normaliser :=
  match parseNormaliser (ks_Normalise k) with inl nk => fn nk | inr _ => None end.

Definition hasher_of (secret : string) (k : KeySpec) : option Hasher :=
  if ks_Hash k then Some (HMAC_Hash secret) else None.

(** The bucket a key gives a request, without the caches. *)
Fixpoint key_value (secret : string) (k : KeySpec) : Request -> string * bool :=
  let n := normaliser_of k in
  let h := hasher_of secret k in
  match ks_Header k, ks_Query k, ks_First k, ks_Composite k with
  | (_ :: _) as names, _, _, _ => fun r => finish_key n h (header_value (Header r) names)
  | [], (_ :: _) as names, _, _ => fun r => finish_key n h (query_value_of (RawQuery r) names)
  | [], [], (_ :: _) as ks, _ => first_of (map (key_value secret) ks) n h
  | [], [], [], (_ :: _) as ks => composite_of (map (key_value secret) ks) (ks_Separator k) n h
  | [], [], [], [] => fun r => finish_key n h (field_of (Body r) (ks_Body k))
  end.

(** Whether some node of the tree is hashed. *)
Fixpoint needs_hash (k : KeySpec) : bool :=
  ks_Hash k || existsb needs_hash (ks_First k) || existsb needs_hash (ks_Composite k).

(** A node of a valid key has one source. *)
Lemma one_source k :
  List.length (sources k) = 1%nat ->
  (ks_Body k <> "" /\ ks_Header k = [] /\ ks_Query k = [] /\ ks_First k = [] /\ ks_Composite k = []) \/
  (ks_Body k = "" /\ ks_Header k <> [] /\ ks_Query k = [] /\ ks_First k = [] /\ ks_Composite k = []) \/
  (ks_Body k = "" /\ ks_Header k = [] /\ ks_Query k <> [] /\ ks_First k = [] /\ ks_Composite k = []) \/
  (ks_Body k = "" /\ ks_Header k = [] /\ ks_Query k = [] /\ ks_First k <> [] /\ ks_Composite k = []) \/
  (ks_Body k = "" /\ ks_Header k = [] /\ ks_Query k = [] /\ ks_First k = [] /\ ks_Composite k <> []).
Proof.
  unfold sources. destruct (String.eqb_spec (ks_Body k) ""), (ks_Header k), (ks_Query k), (ks_First k),
    (ks_Composite k); simpl; intros E; try lia; naive_solver.
Qed.

Definition built_as (secret : string) (k : KeySpec) : Prop :=
  exists kr, buildKeyer secret k = inl (kr, needs_hash k) /\ built kr (key_value secret k).

Lemma buildChildren_built secret ks :
  Forall (built_as secret) ks ->
  exists parts, buildChildren (buildKeyer secret) ks = inl (parts, existsb needs_hash ks) /\
    all_built parts (map (key_value secret) ks).
Proof.
  induction 1 as [|k ks (kr & E & Hb) _ (parts & Es & Hbs)]; simpl; [exists []; by split; [|constructor]|].
  rewrite E, Es. exists (kr :: parts). split; [done|by constructor].
Qed.

Lemma length_cons_eqb {A} (x : A) xs : (Z.of_nat (List.length (x :: xs)) =? 0) = false.
Proof. simpl. lia. Qed.

(** A valid key is built, and computes what it means. *)
Lemma buildKeyer_built secret k : key_ok k -> built_as secret k.
Proof.
  induction k as [k IHf IHc] using KeySpec_tree_ind.
  inversion_clear 1 as [? Hs _ [nk Hn] Hf Hc _].
  assert (Forall (built_as secret) (ks_First k)) as Bf.
  { apply Forall_forall. intros c Hin. by eapply (proj1 (Forall_forall _ _) IHf), (proj1 (Forall_forall _ _) Hf). }
  assert (Forall (built_as secret) (ks_Composite k)) as Bc.
  { apply Forall_forall. intros c Hin. by eapply (proj1 (Forall_forall _ _) IHc), (proj1 (Forall_forall _ _) Hc). }
  clear IHf IHc Hf Hc.
  assert (normaliser_of k = fn nk) as En by (unfold normaliser_of; by rewrite Hn).
  destruct k as [body hs qs fs cs sep nm ha]. unfold built_as.
  cbn [buildKeyer ks_Body ks_Header ks_Query ks_First ks_Composite ks_Separator ks_Normalise ks_Hash] in *.
  rewrite Hn. cbn [key_value needs_hash ks_Body ks_Header ks_Query ks_First ks_Composite ks_Separator ks_Hash].
  rewrite En. fold (hasher_of secret (mkKeySpec body hs qs fs cs sep nm ha)).
  unfold hasher_of. cbn [ks_Hash].
  apply one_source in Hs. cbn [ks_Body ks_Header ks_Query ks_First ks_Composite] in Hs.
  destruct Hs as [(Hb & -> & -> & -> & ->)|[(-> & Hh & -> & -> & ->)|[(-> & -> & Hq & -> & ->)|
    [(-> & -> & -> & Hf & ->)|(-> & -> & -> & -> & Hc)]]]].
  - destruct (String.eqb_spec body ""); [done|]. simpl. rewrite !orb_false_r. eexists. split; [done|constructor].
  - destruct hs as [|x hs]; [done|]. rewrite length_cons_eqb. simpl. rewrite !orb_false_r.
    eexists. split; [done|constructor].
  - destruct qs as [|x qs]; [done|]. rewrite length_cons_eqb. simpl. rewrite !orb_false_r.
    eexists. split; [done|constructor].
  - destruct (buildChildren_built _ _ Bf) as (parts & -> & Hparts).
    destruct fs as [|x fs]; [done|]. rewrite length_cons_eqb. simpl negb. cbn iota.
    eexists. split; [|by constructor]. rewrite orb_false_r. simpl existsb. by rewrite orb_comm.
  - destruct (buildChildren_built _ _ Bc) as (parts & -> & Hparts).
    destruct cs as [|x cs]; [done|]. rewrite length_cons_eqb. simpl negb. cbn iota.
    eexists. split; [|by constructor]. rewrite orb_false_r. simpl existsb. by rewrite orb_comm.
Qed.

(** ** What a file builds *)

(** An entry that is not left out for want of a secret. *)
Definition runs (secret : string) (spec : LimiterSpec) : bool :=
  match ls_Key spec with
  | Some k => negb (needs_hash k) || Available secret
  | None => false
  end.

Definition rule_of (spec : LimiterSpec) : Rule :=
  match ls_Window spec with
  | Some w => mkRule (ws_Limit w) (ws_Window w) (ws_Block w)
  | None => Rule_zero
  end.

Definition bucket_of (spec : LimiterSpec) : Bucket :=
  match ls_Window spec, ls_Bucket spec with
  | None, Some b => mkBucket (bs_Rate b) (bs_Burst b)
  | _, _ => Bucket_zero
  end.

(** The limiter an entry stands for. *)
Record implements (secret : string) (spec : LimiterSpec) (l : Limiter) : Prop := {
  implements_name : Limiter_Name l = ls_Name spec;
  implements_rule : Limiter_Rule l = rule_of spec;
  implements_bucket : Limiter_Bucket l = bucket_of spec;
  implements_key : exists k, ls_Key spec = Some k /\ built (Limiter_Keyer l) (key_value secret k);
  implements_paths : Limiter_Paths l = ls_Paths spec;
  implements_methods : Limiter_Methods l = ls_Methods spec;
  implements_dry_run : Limiter_DryRun l = ls_DryRun spec;
  implements_advice : Limiter_AdviseRetryAfter l = ls_RetryAfter spec;
}.

(** A response that refuses. *)
Definition refuses (r : Response) : Prop := within 400 599 (Response_Status r).

(** The body files are there to be read. *)
Definition body_readable (rs : ResponseSpec) : Prop :=
  rs_BodyFile rs <> "" -> exists body, ReadFile (rs_BodyFile rs) = inl body.

Definition bodies_readable (f : File) : Prop :=
  (forall rs, File_Response f = Some rs -> body_readable rs) /\
  Forall (fun spec => forall rs, ls_Response spec = Some rs -> body_readable rs) (File_Limiters f).

Lemma resolveResponse_refuses rs base :
  response_ok Stat rs -> body_readable rs -> refuses base ->
  exists r, resolveResponse rs base = inl r /\ refuses r.
Proof.
  intros ([Hs|Hs] & _) Hr Hb; unfold resolveResponse, refuses in *.
  - rewrite Hs. simpl. destruct (String.eqb_spec (rs_BodyFile rs) "") as [_|Hne]; simpl; [by eexists|].
    destruct (Hr Hne) as [body ->]. by eexists.
  - assert ((rs_Status rs =? 0) = false) as -> by (unfold within in Hs; lia). simpl.
    destruct (String.eqb_spec (rs_BodyFile rs) "") as [_|Hne]; simpl; [by eexists|].
    destruct (Hr Hne) as [body ->]. by eexists.
Qed.

(** What one entry adds to what is built. *)
Definition extends (secret : string) (spec : LimiterSpec) (b b' : Built) : Prop :=
  Built_Default b' = Built_Default b /\
  (refuses (Built_Default b) -> map_Forall (fun _ => refuses) (Built_Responses b) ->
   map_Forall (fun _ => refuses) (Built_Responses b')) /\
  if runs secret spec
  then (exists l, Built_Limiters b' = (Built_Limiters b ++ [l])%list /\ implements secret spec l) /\
       Built_Warnings b' = Built_Warnings b
  else Built_Limiters b' = Built_Limiters b /\
       Built_Warnings b' = (Built_Warnings b ++ [hash_warning (ls_Name spec)])%list.

Lemma build_limiter_implements secret spec k kr :
  algorithm_ok spec -> ls_Key spec = Some k -> built kr (key_value secret k) ->
  exists l, build_limiter spec kr = Returns l /\ implements secret spec l.
Proof.
  intros Ha Hk Hb. unfold build_limiter.
  destruct Ha as [(w & Hw & _)|(w & Hw & Hbk & _)]; rewrite Hw; [|rewrite Hbk];
    eexists; (split; [done|]); split; try done;
    unfold rule_of, bucket_of; rewrite ?Hw, ?Hbk; try done; by exists k.
Qed.

Lemma build_one_extends secret spec b :
  limiter_ok Stat spec -> (forall rs, ls_Response spec = Some rs -> body_readable rs) ->
  refuses (Built_Default b) ->
  exists b', build_one secret spec b = Returns (inl b') /\ extends secret spec b b'.
Proof.
  intros (Ha & (k & Hk & Hok) & _ & _ & Hresp) Hread Hd. unfold build_one, extends, runs. rewrite Hk.
  destruct (buildKeyer_built secret k Hok) as (kr & -> & Hb).
  destruct (needs_hash k), (Available secret); cbn [andb negb orb];
    try (eexists; (split; [done|]); split_and!; done);
    destruct (build_limiter_implements secret spec k kr Ha Hk Hb) as (l & -> & Hl);
    (destruct (ls_Response spec) as [rs|];
      [destruct (resolveResponse_refuses rs (Built_Default b) (Hresp _ eq_refl) (Hread _ eq_refl) Hd)
         as (r & Er & Hr); cbn [Built_Default add_limiter]; rewrite Er|]);
    eexists; (split; [done|]); simpl; split_and!; try done; try (by exists l);
    intros _ Hm; by apply map_Forall_insert_2.
Qed.

(** The rest of the file, entry by entry. *)
Lemma build_from_extends secret specs : forall b,
  Forall (limiter_ok Stat) specs ->
  Forall (fun spec => forall rs, ls_Response spec = Some rs -> body_readable rs) specs ->
  refuses (Built_Default b) -> map_Forall (fun _ => refuses) (Built_Responses b) ->
  exists b' ls, build_from secret specs b = Returns (inl b') /\
    Built_Default b' = Built_Default b /\ map_Forall (fun _ => refuses) (Built_Responses b') /\
    Built_Limiters b' = (Built_Limiters b ++ ls)%list /\
    Forall2 (implements secret) (List.filter (runs secret) specs) ls /\
    Built_Warnings b' = (Built_Warnings b ++
      map (fun spec => hash_warning (ls_Name spec))
          (List.filter (fun spec => negb (runs secret spec)) specs))%list.
Proof.
  induction specs as [|spec specs IH]; intros b Hok Hread Hd Hm.
  { exists b, []. simpl. by rewrite !app_nil_r. }
  apply Forall_cons in Hok as [Hok1 Hok]. apply Forall_cons in Hread as [Hread1 Hread].
  destruct (build_one_extends secret spec b Hok1 Hread1 Hd) as (b1 & E1 & Ed & Hm1 & H1).
  destruct (IH b1 Hok Hread) as (b' & ls & E & Ed' & Hm' & El & Hall & Ew);
    [by rewrite Ed|by apply Hm1|]. cbn [build_from]. rewrite E1, E. cbn [List.filter].
  destruct (runs secret spec); cbn [negb map].
  - destruct H1 as [(l & El1 & Hl) Ew1]. exists b', (l :: ls). rewrite El, El1, Ew, Ew1, <-app_assoc.
    split_and!; [done|congruence|done|done|by constructor|done].
  - destruct H1 as [El1 Ew1]. exists b', ls. rewrite El, El1, Ew, Ew1, <-app_assoc.
    split_and!; [done|congruence|done|done|done|done].
Qed.

(** A valid file builds. *)
Lemma Build_runs f secret :
  file_ok Stat f -> bodies_readable f ->
  exists b, Build f secret = Returns (inl b) /\
    Forall2 (implements secret) (List.filter (runs secret) (File_Limiters f)) (Built_Limiters b) /\
    refuses (Built_Default b) /\ map_Forall (fun _ => refuses) (Built_Responses b) /\
    Built_Warnings b =
      (map (fun spec => hash_warning (ls_Name spec))
         (List.filter (fun spec => negb (runs secret spec)) (File_Limiters f)) ++
       match Built_Limiters b with [] => [no_limiters_warning] | _ => [] end)%list.
Proof.
  intros (_ & Hresp & _ & _ & Hok) [Hread0 Hread]. unfold Build.
  assert (exists d, match File_Response f with
            | None => inl DefaultResponse
            | Some rs => resolveResponse rs DefaultResponse
            end = inl d /\ refuses d) as (d & -> & Hd).
  { destruct (File_Response f) as [rs|]; [|by exists DefaultResponse].
    apply resolveResponse_refuses; [by apply Hresp|by apply Hread0|done]. }
  destruct (build_from_extends secret (File_Limiters f) (mkBuilt [] ∅ d []) Hok Hread Hd)
    as (b & ls & -> & Ed & Hm & El & Hall & Ew); [by apply map_Forall_empty|].
  cbn [Built_Limiters Built_Default Built_Warnings app] in Ed, El, Ew. rewrite <-El in Hall.
  eexists. split; [done|].
  destruct (Built_Limiters b) as [|l ls'] eqn:Els; simpl; rewrite ?Els, ?Ed, ?Ew, ?app_nil_r; by split_and!.
Qed.

Lemma LoadFile_inv path f : LoadFile path = inl f -> file_ok Stat f.
Proof.
  unfold LoadFile. destruct (ReadFile path) as [raw|]; [|done]. destruct (yaml_decode raw) as [f'|]; [|done].
  destruct (Validate Stat f') eqn:E; [|done]. intros [= ->]. by apply Validate_iff.
Qed.

(** C24: a file is loaded exactly when it can be read and decoded and is well formed:
    at least one limiter, distinct names fit for a label, one algorithm each within
    its bounds, a key with one source at every node and a known normaliser, paths
    and methods that can match, and responses that refuse. *)
Theorem LoadFile_iff path f :
  LoadFile path = inl f <->
  exists raw, ReadFile path = inl raw /\ yaml_decode raw = inl f /\ file_ok Stat f.
Proof.
  split.
  - intros E. pose proof (LoadFile_inv _ _ E) as Hok. revert E. unfold LoadFile.
    destruct (ReadFile path) as [raw|] eqn:Er; [|done]. destruct (yaml_decode raw) as [f'|] eqn:Ed; [|done].
    destruct (Validate Stat f'); [|done]. intros [= ->]. by exists raw.
  - intros (raw & Er & Ed & Hok%Validate_iff). unfold LoadFile. by rewrite Er, Ed, Hok.
Qed.


(** ** Limiters the other parts can rely on *)

(** What a limiter must be for the engine and the Redis store to promise anything. *)
Definition ready (l : Limiter) : Prop :=
  Active l = true /\ settled (Limiter_Keyer l) /\
  Rule_in_range (Limiter_Rule l) /\ Bucket_in_range (Limiter_Bucket l).

Lemma implements_ready secret spec l : limiter_ok Stat spec -> implements secret spec l -> ready l.
Proof.
  intros (Ha & _) [_ Er Eb (k & _ & Hb) _ _ _ _]. unfold ready, Active.
  rewrite Er, Eb. unfold rule_of, bucket_of.
  assert (settled (Limiter_Keyer l)) as Hs by by eapply computes_settled, built_computes.
  destruct Ha as [(w & -> & _ & Hl & Hw & Hk)|(b & -> & -> & Hr & Hbu)];
    unfold within, MinLimit, MaxLimit, MinWindow, MaxWindow, MinBlock, MaxBlock, MinRate, MaxRate,
      MinBurst, MaxBurst, Hour, Minute, Second in *;
    unfold Rule_in_range, Bucket_in_range, Rule_Valid, Bucket_Valid; simpl; (split; [|split; [done|]]); lia.
Qed.

Lemma Forall2_names secret specs ls :
  Forall2 (implements secret) specs ls -> map Limiter_Name ls = map ls_Name specs.
Proof. induction 1 as [|spec l specs ls [E _ _ _ _ _ _ _] _ IH]; simpl; [done|]. by rewrite E, IH. Qed.

Lemma filter_sublist {A} (f : A -> bool) xs : List.filter f xs `sublist_of` xs.
Proof. induction xs as [|x xs IH]; simpl; [done|]. destruct (f x); by constructor. Qed.

(** Whatever a loaded file builds is fit to run: every limiter has an algorithm, its
    keyer is a function of the request, its rule or bucket is within what the Redis
    store computes exactly, no two limiters share a name, and responses refuse. *)
Lemma loaded_ready path f secret :
  LoadFile path = inl f -> bodies_readable f ->
  exists b, Build f secret = Returns (inl b) /\ Forall ready (Built_Limiters b) /\ NoDup (Names b) /\
    Names b `sublist_of` map ls_Name (File_Limiters f) /\
    refuses (Built_Default b) /\ map_Forall (fun _ => refuses) (Built_Responses b).
Proof.
  intros E%LoadFile_inv Hread. pose proof E as (_ & _ & _ & Hnd & Hok).
  destruct (Build_runs f secret E Hread) as (b & Eb & Hall & Hd & Hm & _). exists b. split; [done|].
  assert (Names b `sublist_of` map ls_Name (File_Limiters f)) as Hsub.
  { unfold Names. rewrite (Forall2_names _ _ _ Hall).
    apply (fmap_sublist ls_Name), filter_sublist. }
  split_and!; [|by eapply sublist_NoDup|done..].
  eapply Forall2_Forall_r; [exact Hall|]. apply Forall_forall. intros spec Hspec l.
  apply implements_ready, (proj1 (Forall_forall _ _) Hok). by eapply elem_of_sublist, filter_sublist.
Qed.

(** ** Hashed keys *)

(** Every value the key yields is hashed: at its root, or in every alternative
    when nothing is done to them after. *)
Fixpoint sealed (k : KeySpec) : bool :=
  ks_Hash k ||
  match ks_First k with
  | [] => false
  | ks => match normaliser_of k with None => forallb sealed ks | Some _ => false end
  end.

Lemma hasher_hex64 secret raw v : hasher (Some (HMAC_Hash secret)) raw = (v, true) -> hex64 v.
Proof. apply HMAC_Hash_hex64. Qed.

Lemma finish_hex64 secret n raw v : finish_key n (Some (HMAC_Hash secret)) raw = (v, true) -> hex64 v.
Proof.
  destruct raw as [raw []]; simpl; [|done]. destruct (String.eqb _ ""); [done|apply HMAC_Hash_hex64].
Qed.

Lemma first_hex64 secret fs n r v : first_of fs n (Some (HMAC_Hash secret)) r = (v, true) -> hex64 v.
Proof.
  induction fs as [|f fs IH]; simpl; [done|]. destruct (f r) as [w []]; simpl; [|done].
  destruct (String.eqb _ ""); simpl; [done|apply HMAC_Hash_hex64].
Qed.

(** An alternative that is not touched afterwards is a child's own value. *)
Lemma first_plain fs r v :
  first_of fs None None r = (v, true) -> exists f, f ∈ fs /\ f r = (v, true).
Proof.
  induction fs as [|f fs IH]; simpl; [done|]. destruct (f r) as [w []] eqn:E; simpl.
  - destruct (String.eqb w ""); simpl.
    + intros (g & Hg & Eg)%IH. exists g. split; [by right|done].
    + unfold Plain_Hash. destruct (String.eqb w ""); intros [= ->]. exists f. split; [by left|done].
  - intros (g & Hg & Eg)%IH. exists g. split; [by right|done].
Qed.

Lemma sealed_hex64 secret k r v :
  key_ok k -> sealed k = true -> key_value secret k r = (v, true) -> hex64 v.
Proof.
  revert v. induction k as [k IHf _] using KeySpec_tree_ind. intros v.
  inversion_clear 1 as [? Hs _ _ Hf _ _]. apply one_source in Hs.
  destruct k as [body hs qs fs cs sep nm ha].
  cbn [sealed key_value ks_Body ks_Header ks_Query ks_First ks_Composite ks_Separator ks_Hash] in *.
  set (k := mkKeySpec body hs qs fs cs sep nm ha) in *.
  destruct ha; cbn [orb].
  - intros _. change (hasher_of secret k) with (Some (HMAC_Hash secret)).
    destruct hs; [|apply finish_hex64]. destruct qs; [|apply finish_hex64].
    destruct fs; [|apply first_hex64]. destruct cs as [|c cs]; [apply finish_hex64|].
    unfold composite_of. cbn [map]. destruct (parts_of _ r); [apply finish_hex64|done].
  - destruct Hs as [(_ & _ & _ & -> & _)|[(_ & _ & _ & -> & _)|[(_ & _ & _ & -> & _)|
      [(_ & -> & -> & Hne & ->)|(_ & _ & _ & -> & _)]]]]; try done.
    destruct fs as [|c fs]; [done|]. destruct (normaliser_of k); [done|].
    change (hasher_of secret k) with (@None Hasher). intros Hall.
    intros (f & Hin & E)%first_plain. apply list_elem_of_fmap in Hin as (c' & -> & Hc').
    eapply (proj1 (Forall_forall _ _) IHf); [exact Hc'| | |exact E].
    + by apply (proj1 (Forall_forall _ _) Hf).
    + apply (proj1 (forallb_forall _ _) Hall). by apply list_elem_of_In.
Qed.

Lemma sealed_needs_hash k : sealed k = true -> needs_hash k = true.
Proof.
  induction k as [k IHf _] using KeySpec_tree_ind. destruct k as [body hs qs fs cs sep nm ha].
  cbn [sealed needs_hash ks_First ks_Composite ks_Hash] in *. destruct ha; [done|]. cbn [orb].
  destruct fs as [|c fs]; [done|]. destruct (normaliser_of _); [done|]. simpl.
  intros [Hc _]%andb_true_iff. apply Forall_cons in IHf as [IH _]. by rewrite IH.
Qed.

(** The entry a built limiter comes from. *)
Lemma Forall2_elem_r {A B} (R : A -> B -> Prop) xs ys y :
  Forall2 R xs ys -> y ∈ ys -> exists x, x ∈ xs /\ R x y.
Proof. intros Hall. induction Hall; set_solver. Qed.

Lemma NoDup_map_inj {A B} (g : A -> B) xs x y :
  NoDup (map g xs) -> x ∈ xs -> y ∈ xs -> g x = g y -> x = y.
Proof.
  induction xs as [|z xs IH]; simpl; [set_solver|]. rewrite NoDup_cons.
  intros [Hz Hnd]. assert (forall w, w ∈ xs -> g w <> g z) as Hne.
  { intros w Hw Ew. apply Hz. rewrite <-Ew. by apply list_elem_of_fmap_2. }
  set_solver.
Qed.

Lemma built_from_entry f secret spec l b :
  NoDup (map ls_Name (File_Limiters f)) -> spec ∈ File_Limiters f ->
  Forall2 (implements secret) (List.filter (runs secret) (File_Limiters f)) (Built_Limiters b) ->
  l ∈ Built_Limiters b -> Limiter_Name l = ls_Name spec -> implements secret spec l /\ runs secret spec = true.
Proof.
  intros Hnd Hspec Hall Hl En. destruct (Forall2_elem_r _ _ _ _ Hall Hl) as (spec' & Hin & Himp).
  apply list_elem_of_In, filter_In in Hin as [Hin%list_elem_of_In Hr].
  assert (spec' = spec) as ->; [|done]. eapply NoDup_map_inj; [exact Hnd|done..|].
  by rewrite <-(implements_name _ _ _ Himp).
Qed.

(** C23: what is configured to be hashed is never stored raw.  If the key of an entry
    is hashed - at its root, or in every alternative it chooses from - then without a
    secret the entry is left out, and with one every bucket its limiter ever gives the
    store is 64 hexadecimal digits. *)
Theorem hashed_keys_never_raw path f secret spec k :
  LoadFile path = inl f -> bodies_readable f -> spec ∈ File_Limiters f -> ls_Key spec = Some k ->
  sealed k = true ->
  exists b, Build f secret = Returns (inl b) /\
    (Available secret = false -> ls_Name spec ∉ Names b) /\
    forall l r, l ∈ Built_Limiters b -> Limiter_Name l = ls_Name spec -> coherent r ->
      exists v ok r', Limiter_Keyer l r = (Returns (v, ok), r') /\ (ok = true -> hex64 v).
Proof.
  intros E%LoadFile_inv Hread Hspec Hk Hse. pose proof E as (_ & _ & _ & Hnd & Hok).
  destruct (Build_runs f secret E Hread) as (b & Eb & Hall & _). exists b. split; [done|]. split.
  - intros Ha (l & En & Hl)%list_elem_of_fmap.
    destruct (built_from_entry f secret spec l b Hnd Hspec Hall Hl (eq_sym En)) as [_ Hr].
    unfold runs in Hr. by rewrite Hk, (sealed_needs_hash k Hse), Ha in Hr.
  - intros l r Hl En Hc.
    destruct (built_from_entry f secret spec l b Hnd Hspec Hall Hl En) as [[_ _ _ (k' & Hk' & Hb) _ _ _ _] _].
    assert (k' = k) as -> by congruence.
    destruct (proj2 (proj1 built_computes _ _ Hb) r Hc) as (r' & -> & _).
    destruct (key_value secret k r) as [v ok] eqn:Ev. exists v, ok, r'. split; [done|]. intros ->.
    eapply sealed_hex64; [|exact Hse|exact Ev].
    destruct (proj1 (Forall_forall _ _) Hok _ Hspec) as (_ & (k' & Hk2 & Hkok) & _). congruence.
Qed.

End meaning.

(** ** Instances of the theorems *)
Section examples.

#[local] Existing Instances ascii_only one_body range_forward zero_hmac.

(** A disk with one file on it, and a decoder that knows its text. *)
#[local] Instance one_file : FileSystem := {|
  Stat := fun _ => None;
  ReadFile := fun path => if String.eqb path "/etc/forwardlimit/config.yaml" then inl "limiters: ..."
                          else inr "no such file";
|}.
#[local] Instance sample_decoder : YAMLDecoder :=
  fun raw => if String.eqb raw "limiters: ..." then inl sample_file else inr "yaml: unknown field".

Lemma sample_loaded : LoadFile "/etc/forwardlimit/config.yaml" = inl sample_file.
Proof. vm_compute. reflexivity. Qed.

Lemma sample_readable : bodies_readable sample_file.
Proof.
  split; [done|]. apply Forall_cons. split; [done|]. apply Forall_singleton.
  intros rs [= <-]. unfold body_readable. done.
Qed.


Lemma hashed_keys_never_raw_witness :
  exists k b, ls_Key token_spec = Some k /\ Build sample_file "k" = Returns (inl b) /\
    (Available "k" = false -> ls_Name token_spec ∉ Names b) /\
    forall l r, l ∈ Built_Limiters b -> Limiter_Name l = ls_Name token_spec -> coherent r ->
      exists v ok r', Limiter_Keyer l r = (Returns (v, ok), r') /\ (ok = true -> hex64 v).
Proof.
  destruct (ls_Key token_spec) as [k|] eqn:Ek; [|discriminate]. exists k.
  destruct (hashed_keys_never_raw "/etc/forwardlimit/config.yaml" sample_file "k" token_spec k)
    as (b & Hb).
  - exact sample_loaded.
  - exact sample_readable.
  - right. left.
  - exact Ek.
  - injection Ek as <-. vm_compute. reflexivity.
  - exists b. split; [reflexivity|exact Hb].
Defined.

(** Both limiters run with a secret; one is left out without. *)
Example sample_built_names :
  match Build sample_file "k", Build sample_file "" with
  | Returns (inl b), Returns (inl b') => (Names b, DryRunNames b, Names b')
  | _, _ => ([], [], [])
  end = (["login"; "api-token"], ["api-token"], ["login"]).
Proof. vm_compute. reflexivity. Qed.

End examples.
