(* ===== verification/Wiring.v ===== *)
(** * The engine over the Redis store

    The Redis store discharges the interface [Isolated] the engine's dry-run
    theorem is proved against, and what a failing Redis makes the engine log. *)
From stdpp Require Import base list gmap strings.
From Stdlib Require Import ZArith Lia Ascii String.
From S2P Require Import Prelude.
From S2P Require Import GoStrings.
From S2P Require Import Store.
From S2P Require Import Request.
From S2P Require Import Limiter.
From S2P Require Import Engine.
From S2P Require Import Guarantees.
From S2P Require Import Redis.
From S2P Require Import RedisStore.
From S2P Require Import TokenBucket.

#[local] Obligation Tactic := idtac.

(** Every script that is sent runs and is answered. *)
Class Reliable (R : Type) `{Redis R} : Prop :=
  reliable : forall r : R, (transport r).1 = Delivered.

(** ** The store is per limiter *)
Section isolation.
Context {R : Type} `{RedisCommands R} {Rel : Reliable R}.
Context (fmt_Rule : Rule -> string) (fmt_Bucket : Bucket -> string) (prefix : string).

Abbreviation redis_store := (NewWithClient fmt_Rule fmt_Bucket prefix).

(** The same clock and, for the limiters of [N], the same windows and levels. *)
Definition redis_agree (N : string -> Prop) (r1 r2 : R) : Prop :=
  ms r1 = ms r2 /\
  forall k, N (Key_Limiter k) ->
    window_of prefix r1 k = window_of prefix r2 k /\ level_of prefix r1 k = level_of prefix r2 k.

#[global] Instance redis_agree_equiv N : Equivalence (redis_agree N).
Proof.
  unfold redis_agree. split; red.
  - done.
  - intros r1 r2 [E Hk]. split; [done|]. intros k HN. by destruct (Hk k HN) as [-> ->].
  - intros r1 r2 r3 [E1 H12] [E2 H23]. split; [congruence|]. intros k HN.
    destruct (H12 k HN) as [-> ->]. by apply H23.
Qed.

Lemma same_bucket_limiter k k' : same_bucket k k' -> Key_Limiter k' = Key_Limiter k.
Proof. by intros [E _]. Qed.

Lemma window_of_same r k k' : same_bucket k k' -> window_of prefix r k' = window_of prefix r k.
Proof. intros Hs. unfold window_of. by rewrite !(key_of_same prefix _ _ _ Hs). Qed.

Lemma level_of_key r r' k :
  keys r' !! key_of prefix KTokens k = keys r !! key_of prefix KTokens k ->
  level_of prefix r' k = level_of prefix r k.
Proof. unfold level_of. by intros ->. Qed.

(** A step of one window moves two states it agrees on alike. *)
Lemma stepped_agree N k rule r1 r2 r1' r2' :
  redis_agree N r1 r2 -> N (Key_Limiter k) ->
  stepped prefix r1 k rule r1' -> stepped prefix r2 k rule r2' -> redis_agree N r1' r2'.
Proof.
  intros [Et Ha] HN (_ & Et1 & Ew1 & Eo1 & Etok1) (_ & Et2 & Ew2 & Eo2 & Etok2).
  split; [congruence|]. intros k' HN'. destruct (Ha k' HN') as [Hw Hl]. split.
  - destruct (stdpp.base.decide (same_bucket k k')) as [Hs|Hs].
    + rewrite !(window_of_same _ _ _ Hs), Ew1, Ew2, Et. by destruct (Ha k HN) as [-> _].
    + by rewrite Eo1, Eo2.
  - by rewrite (level_of_key _ _ _ (Etok1 k')), (level_of_key _ _ _ (Etok2 k')).
Qed.

Lemma stepped_other N k rule r r' :
  ~ N (Key_Limiter k) -> stepped prefix r k rule r' -> redis_agree N r r'.
Proof.
  intros HN (_ & Et & _ & Eo & Etok). split; [done|]. intros k' HN'.
  rewrite Eo, (level_of_key _ _ _ (Etok k')); [done|].
  intros Hs. apply same_bucket_limiter in Hs. congruence.
Qed.

Lemma level_of_took r k b r' k' :
  took prefix r k b r' -> same_bucket k k' ->
  level_of prefix r' k' = Some ((bucket_step b (ms r) (level_of prefix r k)).2, ms r).
Proof.
  intros (_ & _ & Hl & _) Hs. unfold level_of at 1. rewrite <-(key_of_same prefix _ _ _ Hs).
  by apply (left_at_level _ _ _ _ _ Hl).
Qed.

Lemma took_agree N k b r1 r2 r1' r2' :
  redis_agree N r1 r2 -> N (Key_Limiter k) ->
  took prefix r1 k b r1' -> took prefix r2 k b r2' -> redis_agree N r1' r2'.
Proof.
  intros [Et Ha] HN H1' H2'. pose proof H1' as (_ & Et1 & _ & Eo1 & Ew1).
  pose proof H2' as (_ & Et2 & _ & Eo2 & Ew2).
  split; [congruence|]. intros k' HN'. destruct (Ha k' HN') as [Hw Hl]. split; [by rewrite Ew1, Ew2|].
  destruct (stdpp.base.decide (same_bucket k k')) as [Hs|Hs].
  - rewrite (level_of_took _ _ _ _ _ H1' Hs), (level_of_took _ _ _ _ _ H2' Hs), Et.
    by destruct (Ha k HN) as [_ ->].
  - by rewrite (level_of_key _ _ _ (Eo1 k' Hs)), (level_of_key _ _ _ (Eo2 k' Hs)).
Qed.

Lemma took_other N k b r r' : ~ N (Key_Limiter k) -> took prefix r k b r' -> redis_agree N r r'.
Proof.
  intros HN (_ & Et & _ & Eo & Ew). split; [done|]. intros k' HN'.
  rewrite Ew, (level_of_key r r' k'); [done|]. apply Eo.
  intros Hs. apply same_bucket_limiter in Hs. congruence.
Qed.

(** What a call gives and leaves, for a reliable Redis. *)
Lemma Consume_reliable k rule r :
  Rule_in_range rule -> store_ok prefix r ->
  (exists e, Rule_Valid rule = false /\
     Store.Consume redis_store k rule r = (Returns (Result_zero, Some e), r) /\
     e = ("redisstore: invalid rule " ++ fmt_Rule rule)%string) \/
  exists r', Store.Consume redis_store k rule r
      = (Returns (result_of (rule_step rule (ms r) (window_of prefix r k)).1, None), r') /\
    stepped prefix r k rule r'.
Proof.
  intros Hr Hok. cbn [Store.Consume NewWithClient]. destruct (Rule_Valid rule) eqn:Hv.
  - right. destruct (Consume_refines fmt_Rule prefix r k rule Hok Hv Hr) as (res & err & r' & E & Hm).
    rewrite reliable in Hm. destruct Hm as (-> & -> & Hst). by exists r'.
  - left. eexists. split; [done|]. unfold Redis_Consume. rewrite Hv. by split.
Qed.

Lemma Take_reliable k b r :
  Bucket_in_range b -> store_ok prefix r ->
  (exists e, Bucket_Valid b = false /\
     Store.Take redis_store k b r = (Returns (TakeResult_zero, Some e), r) /\
     e = ("redisstore: invalid bucket " ++ fmt_Bucket b)%string) \/
  exists r', Store.Take redis_store k b r
      = (Returns (take_result (bucket_step b (ms r) (level_of prefix r k)).1, None), r') /\
    took prefix r k b r'.
Proof.
  intros Hr Hok. cbn [Store.Take NewWithClient]. destruct (Bucket_Valid b) eqn:Hv.
  - right. destruct (Take_refines fmt_Bucket prefix r k b Hok Hv Hr) as (res & err & r' & E & _ & Hm).
    rewrite reliable in Hm. destruct Hm as (-> & -> & Hst). by exists r'.
  - left. eexists. split; [done|]. unfold Redis_Take. rewrite Hv. by split.
Qed.

#[global] Program Instance redis_isolated :
  Isolated Rule_in_range Bucket_in_range (store_ok prefix) redis_store := {| agree := redis_agree |}.
Next Obligation.
  intros k r s Hr Hs. destruct (Consume_reliable k r s Hr Hs) as [(e & _ & -> & _)|(s' & -> & Hst)];
    [done|apply Hst].
Qed.
Next Obligation.
  intros k b s Hr Hs. destruct (Take_reliable k b s Hr Hs) as [(e & _ & -> & _)|(s' & -> & Hst)];
    [done|apply Hst].
Qed.
Next Obligation.
  intros N k r s1 s2 Hr H1' H2' HN Ha. pose proof Ha as [Et Hk]. destruct (Hk k HN) as [Ew _].
  destruct (Consume_reliable k r s1 Hr H1') as [(e & Hv & -> & ->)|(s1' & E1 & Hs1)],
    (Consume_reliable k r s2 Hr H2') as [(e' & Hv' & -> & ->)|(s2' & E2 & Hs2)].
  - done.
  - revert E2. cbn [Store.Consume NewWithClient]. unfold Redis_Consume. by rewrite Hv.
  - revert E1. cbn [Store.Consume NewWithClient]. unfold Redis_Consume. by rewrite Hv'.
  - rewrite E1, E2, Et, Ew. split; [done|]. by eapply stepped_agree.
Qed.
Next Obligation.
  intros N k r s Hr Hs HN. destruct (Consume_reliable k r s Hr Hs) as [(e & _ & -> & _)|(s' & -> & Hst)];
    [done|by eapply stepped_other].
Qed.
Next Obligation.
  intros N k b s1 s2 Hr H1' H2' HN Ha. pose proof Ha as [Et Hk]. destruct (Hk k HN) as [_ El].
  destruct (Take_reliable k b s1 Hr H1') as [(e & Hv & -> & ->)|(s1' & E1 & Hs1)],
    (Take_reliable k b s2 Hr H2') as [(e' & Hv' & -> & ->)|(s2' & E2 & Hs2)].
  - done.
  - revert E2. cbn [Store.Take NewWithClient]. unfold Redis_Take. by rewrite Hv.
  - revert E1. cbn [Store.Take NewWithClient]. unfold Redis_Take. by rewrite Hv'.
  - rewrite E1, E2, Et, El. split; [done|]. by eapply took_agree.
Qed.
Next Obligation.
  intros N k b s Hr Hs HN. destruct (Take_reliable k b s Hr Hs) as [(e & _ & -> & _)|(s' & -> & Hst)];
    [done|by eapply took_other].
Qed.

End isolation.

(** ** What a failing Redis makes the engine log *)
Section logging.
Context {U : Unicode} {R : Type} `{Redis R}.
Context (fmt_Rule : Rule -> string) (fmt_Bucket : Bucket -> string) (prefix : string).

(** C39: the log gets the whole bucket.  When Redis cannot be reached the engine cuts
    the bucket in the line's bucket field, but the error it logs beside it is the
    store's, which names the key in full: limiter, colon, bucket. *)
Theorem store_error_names_bucket l f r b f1 e :
  in_scope l f = true -> keyed l f = (Some b, f1) -> (transport r).1 = NotSent e ->
  exists f' r' call,
    Evaluate (NewWithClient fmt_Rule fmt_Bucket prefix) [l] (f, r)
      = (Returns (mkDecision false false "" 0 0 false
                    [mkEvaluation (Limiter_Name l) VerdictFailedOpen]), (f', r')) /\
    frame_log f' = frame_log f1 ++
      [LogStoreError (Limiter_Name l) (truncate b)
         ("redisstore: " ++ call ++ (Limiter_Name l ++ ":" ++ b) ++ ": " ++ e)%string].
Proof.
  intros Hs Hk Ht. set (st := NewWithClient fmt_Rule fmt_Bucket prefix).
  pose proof (consult_run st l f r) as Ec. rewrite Hs, Hk in Ec.
  assert (exists res call r', store_call st l b r = ((res, Some
    ("redisstore: " ++ call ++ (Limiter_Name l ++ ":" ++ b) ++ ": " ++ e)%string), r'))
    as (res & call & r' & Ecall).
  { unfold store_call. destruct (Bucket_Valid (Limiter_Bucket l)) eqn:Hb.
    - cbn [Store.Take st NewWithClient]. unfold Redis_Take. rewrite Hb. cbn [negb].
      unfold gbind, run. destruct (transport r) as [d r0]. simpl in Ht. subst d.
      exists Outcome_zero, "take "%string, r0. unfold gret, Key_String. simpl.
      by rewrite !app_assoc_s.
    - assert (Rule_Valid (Limiter_Rule l) = true) as Hv.
      { unfold in_scope, Active in Hs. rewrite Hb, orb_false_r in Hs.
        by apply andb_true_iff in Hs as [_ ?]. }
      cbn [Store.Consume st NewWithClient]. unfold Redis_Consume. rewrite Hv. cbn [negb].
      unfold gbind, run. destruct (transport r) as [d r0]. simpl in Ht. subst d.
      exists Outcome_zero, "consume "%string, r0. unfold gret, Key_String. simpl.
      by rewrite !app_assoc_s. }
  rewrite Ecall in Ec. eexists _, r', call. split.
  - unfold Evaluate. rewrite evaluate_from_cons, Ec. reflexivity.
  - done.
Qed.

End logging.

(** ** Instances of the theorems *)
Section examples.

#[local] Existing Instances ascii_only no_decoder range_forward.
#[local] Open Scope string_scope.
#[local] Open Scope Z_scope.

#[local] Instance sim_reliable : Reliable sim_redis.
Proof. done. Qed.

Abbreviation sim_store := (NewWithClient no_fmt_Rule no_fmt_Bucket "fl:").

(** The enforced limiter's third call in the minute, behind a dry-run limiter. *)
Definition third : sim_redis :=
  (Redis_Consume no_fmt_Rule "fl:" visitor (Limiter_Rule login)
    (Redis_Consume no_fmt_Rule "fl:" visitor (Limiter_Rule login) empty_redis).2).2.

Lemma login_in_range : Rule_in_range (Limiter_Rule login) /\ Rule_in_range (Limiter_Rule probe) /\
  Bucket_in_range Bucket_zero.
Proof. unfold Rule_in_range, Bucket_in_range. split_and!; vm_compute; congruence. Qed.

Lemma third_ok : store_ok "fl:" third.
Proof.
  assert (forall r, store_ok "fl:" r ->
    store_ok "fl:" (Redis_Consume no_fmt_Rule "fl:" visitor (Limiter_Rule login) r).2) as Hs.
  { intros r Hr. apply (Consume_keeps (st := sim_store) visitor (Limiter_Rule login) r); [|done].
    apply login_in_range. }
  unfold third. apply Hs, Hs, empty_ok.
Qed.

Lemma dry_run_transparent_on_redis :
  exists d d' fs' fs'', Evaluate sim_store [probe; login] (start, third) = (Returns d, fs') /\
    Evaluate sim_store (enforced [probe; login]) (start, third) = (Returns d', fs'') /\
    Rejected d = true /\ Rejected d = Rejected d' /\
    (Rejected d = true ->
     Decision_Limiter d = Decision_Limiter d' /\ Decision_Count d = Decision_Count d' /\
     Decision_RetryAfter d = Decision_RetryAfter d' /\
     Decision_AdviseRetryAfter d = Decision_AdviseRetryAfter d').
Proof.
  destruct (Evaluate sim_store [probe; login] (start, third)) as [[d|v] fs'] eqn:E;
    [|exfalso; revert E; vm_compute; discriminate].
  destruct (Evaluate sim_store (enforced [probe; login]) (start, third)) as [[d'|v] fs''] eqn:E';
    [|exfalso; revert E'; vm_compute; discriminate].
  exists d, d', fs', fs''. split; [done|]. split; [done|].
  split; [by revert E; vm_compute; intros [= <- _]|].
  eapply (dry_run_transparent Rule_in_range Bucket_in_range (store_ok "fl:") sim_store [probe; login]);
    [| | | |exact E|exact E'].
  - destruct login_in_range as (Hl & Hp & Hb). apply Forall_cons. split; [|apply Forall_singleton];
      (split; [apply settled_HeaderValue|by split]).
  - intros l Hl Hd (l' & Hl' & Hd' & En).
    apply elem_of_cons in Hl as [->|Hl]; [|apply list_elem_of_singleton in Hl as ->; done].
    apply elem_of_cons in Hl' as [->|Hl']; [done|apply list_elem_of_singleton in Hl' as ->; done].
  - by split; left.
  - apply third_ok.
Defined.

(** A Redis that cannot be dialled. *)
Definition unreachable : Redis sim_redis := {|
  TTL := TTL; INCR := INCR; EXPIRE := EXPIRE; SET_EX := SET_EX; DEL := DEL; TIME := TIME;
  HMGET := HMGET; HSET := HSET; PEXPIRE := PEXPIRE;
  transport := fun r => (NotSent "dial tcp 10.0.0.7:6379: i/o timeout", r);
  client_Ping := client_Ping; client_Close := client_Close |}.

(** The request's bucket is a hash of forty bytes here. *)
Definition secret : string := "9f86d081884c7d659a2feaa0c55ad015a3bf4f1b".
Definition hashed : Limiter :=
  mkLimiter "api-key" (mkRule 2 Minute Hour) Bucket_zero (gret (secret, true)) [] [] false false.

Lemma store_error_names_bucket_witness :
  exists f' r' call,
    Evaluate (@NewWithClient sim_redis unreachable no_fmt_Rule no_fmt_Bucket "fl:") [hashed]
        (start, empty_redis)
      = (Returns (mkDecision false false "" 0 0 false [mkEvaluation "api-key" VerdictFailedOpen]),
         (f', r')) /\
    frame_log f' = ([] ++
      [LogStoreError "api-key" "9f86d081884c..."
         ("redisstore: " ++ call ++ ("api-key" ++ ":" ++ secret) ++ ": "
            ++ "dial tcp 10.0.0.7:6379: i/o timeout")])%list.
Proof.
  exact (store_error_names_bucket (H := unreachable) no_fmt_Rule no_fmt_Bucket "fl:" hashed start
           empty_redis secret start "dial tcp 10.0.0.7:6379: i/o timeout" eq_refl eq_refl eq_refl).
Defined.

End examples.
