(* ===== verification/Service.v ===== *)
(** * The service a configuration file starts ([cmd/forwardlimit])

    [run]'s composition of the loaded file, the engine and the handler, and what
    the parts guarantee together, with no hypothesis left about the limiters: a
    loaded file discharges them. *)
From stdpp Require Import base list gmap strings.
From Stdlib Require Import ZArith Lia Ascii String.
From S2P Require Import Prelude.
From S2P Require Import GoStrings.
From S2P Require Import Store.
From S2P Require Import Request.
From S2P Require Import Limiter.
From S2P Require Import Engine.
From S2P Require Import Guarantees.
From S2P Require Import Redis.
From S2P Require Import RedisStore.
From S2P Require Import TokenBucket.
From S2P Require Import Keyer.
From S2P Require Import HttpApi.
From S2P Require Import ConfigFile.
From S2P Require Import ConfigBuild.
From S2P Require Import Wiring.

#[local] Open Scope string_scope.
#[local] Open Scope Z_scope.

(** The handler [run] installs for what a file built; metrics are always on. *)
Definition service (b : Built) (MaxBodyBytes : Z) : Handler :=
  HttpApi.New (mkOptions (Built_Limiters b) true (Built_Default b) (Built_Responses b) MaxBodyBytes).

(** The same service without its dry-run limiters. *)
Definition without_dry_run (b : Built) : Built :=
  mkBuilt (enforced (Built_Limiters b)) (Built_Responses b) (Built_Default b) (Built_Warnings b).

Section service.
Context {U : Unicode} {J : JSONDecoder} {M : MapRange} {HM : HMAC256} {FS : FileSystem} {Y : YAMLDecoder}.

Lemma refuses_carries_body r : refuses r -> carries_body (Response_Status r) = true.
Proof. unfold refuses, within, carries_body, valid_code, body_allowed. lia. Qed.

Lemma service_responses_ok b MaxBodyBytes :
  refuses (Built_Default b) -> map_Forall (fun _ => refuses) (Built_Responses b) ->
  responses_ok (service b MaxBodyBytes).
Proof.
  intros Hd Hm. split.
  - intros name resp Hr. by eapply refuses_carries_body, Hm.
  - unfold service, HttpApi.New. cbn [h_response Options_Response].
    pose proof (refuses_carries_body _ Hd) as Hc. unfold refuses, within in Hd.
    destruct (Z.eqb_spec (Response_Status (Built_Default b)) 0); [lia|].
    by destruct (String.eqb _ "").
Qed.

(** C10: what the proxy is told.  For every loaded file, request, store and secret
    the check answers exactly once: 200 with nothing else unless the engine's
    decision is an enforced block, and then the limiter's response - its status, its
    body, its content type and, only if the limiter advises it, a Retry-After - and
    not a header more.  The decision is the engine's on the forwarded request. *)
Theorem check_answers_decision {S} `{Clock S} (st : Store S) path f secret MaxBodyBytes r s :
  LoadFile path = inl f -> bodies_readable f ->
  exists b d fr s2 x' s',
    Build f secret = Returns (inl b) /\
    Evaluate st (Built_Limiters b)
        (mkFrame (check_request r (body_seen (service b MaxBodyBytes) r).1) [], (clock_now s).2)
      = (Returns d, (fr, s2)) /\
    serve_check st (service b MaxBodyBytes) r (fresh_exchange, s) = (Returns tt, (x', s')) /\
    ex_writer x' = reply_to (service b MaxBodyBytes) d.
Proof.
  intros Hok%LoadFile_inv Hread. destruct (Build_runs f secret Hok Hread) as (b & Eb & _ & Hd & Hm & _).
  destruct (check_replies st (service b MaxBodyBytes) r s) as (d & fr & s2 & x' & s' & E);
    [by apply service_responses_ok|].
  by exists b, d, fr, s2, x', s'.
Qed.

End service.

Section redis_service.
Context {U : Unicode} {J : JSONDecoder} {M : MapRange} {HM : HMAC256} {FS : FileSystem} {Y : YAMLDecoder}.
Context {R : Type} `{RedisCommands R} {Rel : Reliable R} `{Clock R}.
Context (fmt_Rule : Rule -> string) (fmt_Bucket : Bucket -> string) (prefix : string).

Abbreviation redis_store := (NewWithClient fmt_Rule fmt_Bucket prefix).

Lemma ready_accepted ls :
  Forall ready ls ->
  Forall (fun l => settled (Limiter_Keyer l) /\ accepted Rule_in_range Bucket_in_range l) ls.
Proof. intros Hls. eapply Forall_impl; [exact Hls|]. intros l (_ & Hs & Hr & Hb). by split. Qed.

Lemma distinct_dry_run ls :
  NoDup (map Limiter_Name ls) ->
  forall l, l ∈ ls -> Limiter_DryRun l = true -> ~ enforced_name ls (Limiter_Name l).
Proof.
  intros Hnd l Hl Hd (l' & Hl' & Hd' & En).
  assert (l' = l) as -> by (by eapply NoDup_map_inj). congruence.
Qed.

(** Two decisions that reject alike are answered alike. *)
Lemma reply_to_alike b MaxBodyBytes d d' :
  Rejected d = Rejected d' ->
  (Rejected d = true ->
   Decision_Limiter d = Decision_Limiter d' /\ Decision_Count d = Decision_Count d' /\
   Decision_RetryAfter d = Decision_RetryAfter d' /\
   Decision_AdviseRetryAfter d = Decision_AdviseRetryAfter d') ->
  reply_to (service b MaxBodyBytes) d = reply_to (service (without_dry_run b) MaxBodyBytes) d'.
Proof.
  intros Er Hd. unfold reply_to. rewrite <-Er. destruct (Rejected d); [|done].
  destruct (Hd eq_refl) as (El & _ & Ea & Ev).
  unfold rejection_fields, response_for. by rewrite El, Ea, Ev.
Qed.


End redis_service.

(** ** Instances of the theorems *)
Section examples.

#[local] Existing Instances ascii_only one_body range_forward zero_hmac one_file sample_decoder
  sim_reliable.

(** The host's clock is Redis's here. *)
#[local] Instance sim_redis_clock : Clock sim_redis := fun r => (ms r * Millisecond, r).

Definition sample_path : string := "/etc/forwardlimit/config.yaml".

(** A login attempt that came through the proxy. *)
Definition attempt : http_request :=
  mkHttpRequest "GET" "/check" ""
    {["X-Forwarded-Uri" := ["/login?next=/"]; "X-Forwarded-Method" := ["POST"];
      "X-Real-Ip" := ["203.0.113.9"]; "Authorization" := ["Bearer abc"]]} None.

Lemma check_answers_decision_witness :
  exists b d fr s2 x' s',
    Build sample_file "k" = Returns (inl b) /\
    Evaluate always_blocked (Built_Limiters b)
        (mkFrame (check_request attempt (body_seen (service b 0) attempt).1) [], (clock_now (SimClock 5 1)).2)
      = (Returns d, (fr, s2)) /\
    serve_check always_blocked (service b 0) attempt (fresh_exchange, SimClock 5 1) = (Returns tt, (x', s')) /\
    ex_writer x' = reply_to (service b 0) d.
Proof.
  apply (check_answers_decision always_blocked sample_path sample_file "k" 0 attempt (SimClock 5 1));
    [exact sample_loaded|exact sample_readable].
Defined.


End examples.
