(* ===== verification/Breaker.v ===== *)
(** * The circuit breaker ([internal/store/breaker])

    [State] is the mutex-protected part of [breaker.Store]; [allow] and [record]
    are its two critical sections, [Consume] and [Take] the decorated calls.  The
    second half is the concurrent view: calls are admitted and recorded at
    separate moments, so in-flight calls interleave ([step]). *)
From stdpp Require Import base list gmap strings relations.
From Stdlib Require Import ZArith Lia.
From S2P Require Import Prelude.
From S2P Require Import GoStrings.
From S2P Require Import Store.

Definition ErrOpen : error := "breaker: circuit open, store calls suppressed"%string.

Record Options : Type := mkOptions {
  Threshold : Z;
  Cooldown : Duration;
}.

Record State : Type := mkState {
  failures : Z;
  openUntil : Time;
  probing : bool;
}.

#[global] Instance State_eq_dec : EqDecision State.
Proof. solve_decision. Defined.

(** The state [breaker.New] leaves: Go's zero values. *)
Definition New : State := mkState 0 Time.zero false.

Definition isOpenLocked (b : State) : bool := negb (Time.IsZero (openUntil b)).

Section breaker.
Context (opts : Options).
Context {S : Type} `{Clock S}.

Definition allow : GoM (State * S) bool :=
  if Threshold opts <=? 0 then gret true
  else
    let! b := get_own in
    if negb (isOpenLocked b) then gret true
    else if probing b then gret false
    else
      let! t := now in
      if Time.Before t (openUntil b) then gret false
      else
        let! _ := put_own (mkState (failures b) (openUntil b) true) in
        gret true.

Definition record (success : bool) : GoM (State * S) unit :=
  if Threshold opts <=? 0 then gret tt
  else
    let! b := get_own in
    if success then put_own (mkState 0 Time.zero false)
    else
      let n := wrap64 (failures b + 1) in
      if Threshold opts <=? n
      then
        let! t := now in
        put_own (mkState n (Time.Add t (Cooldown opts)) false)
      else put_own (mkState n (openUntil b) false).

(** The body [Consume] and [Take] share: ask, call the inner store, record
    whether it failed. *)
Definition through {A : Type} (zero : A) (call : GoM S (A * option error)) :
    GoM (State * S) (A * option error) :=
  let! ok := allow in
  if negb ok then gret (zero, Some ErrOpen)
  else
    let! (res, err) := on_inner call in
    let! _ := record (match err with None => true | Some _ => false end) in
    gret (res, err).

Definition Consume (inner : Store S) (key : Key) (rule : Rule) :
    GoM (State * S) (Result * option error) :=
  through Result_zero (Store.Consume inner key rule).

Definition Take (inner : Store S) (key : Key) (bucket : Bucket) :
    GoM (State * S) (TakeResult * option error) :=
  through TakeResult_zero (Store.Take inner key bucket).

Definition Close (inner : Store S) : GoM (State * S) (option error) :=
  on_inner (Store.Close inner).

Definition Open : GoM (State * S) bool :=
  let! b := get_own in gret (isOpenLocked b).

(** The decorated store. *)
Definition decorate (inner : Store S) : Store (State * S) :=
  mkStore (Consume inner) (Take inner) (Close inner).

End breaker.

(** ** The circuit as an abstract automaton

    What the package comment promises of sequential calls: [Closed n] after [n]
    consecutive failures, [Opened u] while calls are refused until [u]. *)
Inductive circuit : Type :=
| Closed (n : Z)
| Opened (u : Time).

Definition circuit_of (b : State) : circuit :=
  if isOpenLocked b then Opened (openUntil b) else Closed (failures b).

Definition circuit_admits (c : circuit) (t : Time) : bool :=
  match c with Closed _ => true | Opened u => u <=? t end.

Definition circuit_after (opts : Options) (c : circuit) (success : bool) (t : Time) : circuit :=
  if success then Closed 0
  else match c with
       | Closed n =>
           if Threshold opts <=? n + 1 then Opened (t + Cooldown opts) else Closed (n + 1)
       | Opened _ => Opened (t + Cooldown opts)
       end.

(** The state between sequential calls: no probe is out, and an open circuit has
    seen [Threshold] failures. *)
Definition quiescent (opts : Options) (b : State) : Prop :=
  probing b = false /\ 0 <= failures b /\
  (isOpenLocked b = true -> Threshold opts <= failures b) /\
  (isOpenLocked b = false -> failures b < Threshold opts).

(** ** Interleaved calls *)

(** One critical section each: a call asks to be admitted at clock reading [t], a
    call in flight records its outcome at [t], or a call in flight dies of a
    panic, which unwinds past [record]. *)
Inductive event : Type :=
| Call (id : nat) (t : Time)
| Done (id : nat) (success : bool) (t : Time)
| Crash (id : nat).

(** The shared state and the calls that are past [allow] but not past [record];
    the flag marks a call admitted while the circuit was open. *)
Record conf : Type := mkConf {
  breaker_state : State;
  in_flight : gmap nat bool;
}.

Definition start : conf := mkConf New ∅.

(** A critical section run at one clock reading. *)
Definition at_reading {A} (m : GoM (State * sim_clock) A) (b : State) (t : Time) :
    outcome A * State :=
  let '(o, (b', _)) := m (b, SimClock t 0) in (o, b').

Section interleaving.
Context (opts : Options).

Inductive step : conf -> event -> conf -> Prop :=
| step_admit c id t b' :
    in_flight c !! id = None ->
    at_reading (allow opts) (breaker_state c) t = (Returns true, b') ->
    step c (Call id t)
      (mkConf b' (<[id := isOpenLocked (breaker_state c)]> (in_flight c)))
| step_refuse c id t b' :
    in_flight c !! id = None ->
    at_reading (allow opts) (breaker_state c) t = (Returns false, b') ->
    step c (Call id t) (mkConf b' (in_flight c))
| step_done c id p success t b' :
    in_flight c !! id = Some p ->
    at_reading (record opts success) (breaker_state c) t = (Returns tt, b') ->
    step c (Done id success t) (mkConf b' (delete id (in_flight c)))
| step_crash c id p :
    in_flight c !! id = Some p ->
    step c (Crash id) (mkConf (breaker_state c) (delete id (in_flight c))).

Inductive trace : conf -> list event -> conf -> Prop :=
| trace_nil c : trace c [] c
| trace_cons c e c' es c'' : step c e c' -> trace c' es c'' -> trace c (e :: es) c''.

(** The same transitions as a function, to run examples with. *)
Definition exec (c : conf) (e : event) : option conf :=
  match e with
  | Call id t =>
      match in_flight c !! id, at_reading (allow opts) (breaker_state c) t with
      | None, (Returns true, b') =>
          Some (mkConf b' (<[id := isOpenLocked (breaker_state c)]> (in_flight c)))
      | None, (Returns false, b') => Some (mkConf b' (in_flight c))
      | _, _ => None
      end
  | Done id success t =>
      match in_flight c !! id, at_reading (record opts success) (breaker_state c) t with
      | Some _, (Returns _, b') => Some (mkConf b' (delete id (in_flight c)))
      | _, _ => None
      end
  | Crash id =>
      match in_flight c !! id with
      | Some _ => Some (mkConf (breaker_state c) (delete id (in_flight c)))
      | None => None
      end
  end.

Fixpoint exec_all (c : conf) (es : list event) : option conf :=
  match es with
  | [] => Some c
  | e :: es => match exec c e with Some c' => exec_all c' es | None => None end
  end.

(** How many of the calls of a run were admitted. *)
Fixpoint admissions (c : conf) (es : list event) : nat :=
  match es with
  | [] => 0
  | e :: es =>
      match exec c e with
      | Some c' =>
          (match e with
           | Call id _ => match in_flight c' !! id with Some _ => 1 | None => 0 end
           | _ => 0
           end + admissions c' es)%nat
      | None => 0
      end
  end.

End interleaving.

Definition is_done (e : event) : bool := match e with Done _ _ _ => true | _ => false end.
Definition is_crash (e : event) : bool := match e with Crash _ => true | _ => false end.

(** ** Lemmas: single calls *)
Section calls.
Context (opts : Options).
Context {S : Type} `{LawfulClock S}.

Lemma isOpenLocked_true (b : State) : isOpenLocked b = true <-> openUntil b <> 0.
Proof.
  unfold isOpenLocked, Time.IsZero. rewrite negb_true_iff, Z.eqb_neq. done.
Qed.

#[global] Instance total_allow : Total (S:=State * S) (allow opts).
Proof. unfold allow. solve_total. Qed.

#[global] Instance total_record success : Total (S:=State * S) (record opts success).
Proof. unfold record. solve_total. Qed.

(** The critical sections, branch by branch. *)
Lemma allow_disabled (bs : State * S) :
  Threshold opts <= 0 -> allow opts bs = (Returns true, bs).
Proof. intros Ht. unfold allow. by rewrite (proj2 (Z.leb_le _ _) Ht). Qed.

Lemma record_disabled success (bs : State * S) :
  Threshold opts <= 0 -> record opts success bs = (Returns tt, bs).
Proof. intros Ht. unfold record. by rewrite (proj2 (Z.leb_le _ _) Ht). Qed.

Context (Hth : 0 < Threshold opts).

Lemma threshold_leb : (Threshold opts <=? 0) = false.
Proof using Hth. by apply Z.leb_gt. Qed.

Lemma allow_closed b (s : S) :
  isOpenLocked b = false -> allow opts (b, s) = (Returns true, (b, s)).
Proof using Hth. intros E. unfold allow. rewrite threshold_leb. go_unfold. by rewrite E. Qed.

Lemma allow_probing b (s : S) :
  isOpenLocked b = true -> probing b = true -> allow opts (b, s) = (Returns false, (b, s)).
Proof using Hth.
  intros E Ep. unfold allow. rewrite threshold_leb. go_unfold. by rewrite E, Ep.
Qed.

Lemma allow_open b (s : S) t s' :
  isOpenLocked b = true -> probing b = false -> clock_now s = (t, s') ->
  allow opts (b, s) =
    if t <? openUntil b then (Returns false, (b, s'))
    else (Returns true, (mkState (failures b) (openUntil b) true, s')).
Proof using Hth.
  intros E Ep En. unfold allow. rewrite threshold_leb. go_unfold.
  rewrite E, Ep. simpl. rewrite (now_layer _ _ _ _ En). unfold Time.Before.
  by destruct (t <? openUntil b).
Qed.

Lemma record_success b (s : S) : record opts true (b, s) = (Returns tt, (New, s)).
Proof using Hth. unfold record. by rewrite threshold_leb. Qed.

Lemma record_failure b (s : S) t s' :
  in_int64 (failures b + 1) -> clock_now s = (t, s') ->
  record opts false (b, s) =
    if Threshold opts <=? failures b + 1
    then (Returns tt, (mkState (failures b + 1) (t + Cooldown opts) false, s'))
    else (Returns tt, (mkState (failures b + 1) (openUntil b) false, s)).
Proof using Hth.
  intros Hr En. unfold record. rewrite threshold_leb. go_unfold.
  rewrite wrap64_id by done. destruct (Threshold opts <=? failures b + 1); [|done].
  by rewrite (now_layer _ _ _ _ En).
Qed.

End calls.

(** ** Sequential calls follow the circuit *)
Section refinement.
Context (opts : Options) (Hth : 0 < Threshold opts) (Hcd : 0 <= Cooldown opts).
Context {S : Type} `{LawfulClock S}.

Lemma quiescent_New : quiescent opts New.
Proof using Hth. by repeat split. Qed.

Lemma record_circuit b (s : S) success :
  0 <= failures b < max_int64 -> clock_ok s ->
  (isOpenLocked b = true -> Threshold opts <= failures b) ->
  (isOpenLocked b = false -> failures b < Threshold opts) ->
  exists b' s' t, record opts success (b, s) = (Returns tt, (b', s')) /\
    quiescent opts b' /\ instant s <= t <= instant s' /\ clock_ok s' /\ failures b' <= failures b + 1 /\
    circuit_of b' = circuit_after opts (circuit_of b) success t.
Proof using Hth Hcd.
  intros Hr Hok Hopen Hclosed. destruct success.
  { exists New, s, (instant s). rewrite record_success by done.
    split_and!; [done | apply quiescent_New | done | done | done | simpl; lia | done]. }
  destruct (clock_now s) as [t s'] eqn:En.
  destruct (clock_reading s t s' Hok En) as [Ht Hok'].
  pose proof (instant_pos s Hok) as Hpos.
  rewrite (record_failure opts Hth b s t s') by (done || (unfold in_int64, min_int64; lia)).
  destruct (Z.leb_spec (Threshold opts) (failures b + 1)) as [Hle|Hgt].
  - exists (mkState (failures b + 1) (t + Cooldown opts) false), s', t.
    assert (isOpenLocked (mkState (failures b + 1) (t + Cooldown opts) false) = true) as Eo.
    { apply isOpenLocked_true. simpl. lia. }
    split_and!; [done | | lia | lia | done | simpl; lia | ].
    + split_and!; simpl; [done | lia | lia | congruence].
    + unfold circuit_of at 1. rewrite Eo. unfold circuit_of. destruct (isOpenLocked b); [done|].
      simpl. by rewrite (proj2 (Z.leb_le _ _) Hle).
  - assert (isOpenLocked b = false) as Ec.
    { destruct (isOpenLocked b); [specialize (Hopen eq_refl); lia | done]. }
    exists (mkState (failures b + 1) (openUntil b) false), s, (instant s).
    assert (isOpenLocked (mkState (failures b + 1) (openUntil b) false) = false) as Eo by done.
    split_and!; [done | | lia | lia | done | simpl; lia | ].
    + split_and!; simpl; [done | lia | congruence | lia].
    + unfold circuit_of. rewrite Eo, Ec. simpl.
      by rewrite (proj2 (Z.leb_gt _ _) Hgt).
Qed.

(** What one decorated call does to the state, in the automaton's terms. *)
Definition follows_circuit {A} (zero : A) (call : GoM S (A * option error))
    (b : State) (s : S) (r : outcome (A * option error) * (State * S)) : Prop :=
  exists t s1, (clock_now s = (t, s1) \/ (t = instant s /\ s1 = s)) /\
    if circuit_admits (circuit_of b) t then
      match call s1 with
      | (Returns (res, err), s2) =>
          exists b' s3 t', r = (Returns (res, err), (b', s3)) /\
            quiescent opts b' /\ instant s2 <= t' <= instant s3 /\ clock_ok s3 /\
            failures b' <= failures b + 1 /\
            circuit_of b' = circuit_after opts (circuit_of b) (bool_decide (err = None)) t'
      | (Panics v, s2) => exists b', r = (Panics v, (b', s2))
      end
    else r = (Returns (zero, Some ErrOpen), (b, s1)).

Lemma circuit_admits_open b t :
  isOpenLocked b = true -> circuit_admits (circuit_of b) t = negb (t <? openUntil b).
Proof. unfold circuit_of, circuit_admits. intros ->. by rewrite Z.leb_antisym. Qed.

Lemma circuit_admits_closed b t :
  isOpenLocked b = false -> circuit_admits (circuit_of b) t = true.
Proof. unfold circuit_of, circuit_admits. by intros ->. Qed.

Lemma through_admitted {A} (zero : A) (call : GoM S (A * option error)) b b1 (s s1 : S) :
  allow opts (b, s) = (Returns true, (b1, s1)) ->
  circuit_of b1 = circuit_of b -> failures b1 = failures b ->
  0 <= failures b1 < max_int64 ->
  (isOpenLocked b1 = true -> Threshold opts <= failures b1) ->
  (isOpenLocked b1 = false -> failures b1 < Threshold opts) ->
  (forall s', clock_ok s' -> clock_ok (snd (call s'))) -> clock_ok s1 ->
  match call s1 with
  | (Returns (res, err), s2) =>
      exists b' s3 t', through opts zero call (b, s) = (Returns (res, err), (b', s3)) /\
        quiescent opts b' /\ instant s2 <= t' <= instant s3 /\ clock_ok s3 /\
        failures b' <= failures b + 1 /\
        circuit_of b' = circuit_after opts (circuit_of b) (bool_decide (err = None)) t'
  | (Panics v, s2) => exists b', through opts zero call (b, s) = (Panics v, (b', s2))
  end.
Proof using Hth Hcd.
  intros Ha Hc Efb Hf Hopen Hclosed Hcall Hok.
  unfold through. rewrite (gbind_returns _ _ _ _ _ Ha). simpl.
  specialize (Hcall s1 Hok). destruct (call s1) as [[[res err]|v] s2] eqn:Ecall; simpl in *.
  - destruct (record_circuit b1 s2 (match err with None => true | Some _ => false end))
      as (b' & s3 & t' & Er & Hq & Ht' & Hok3 & Hfb & Hcirc); [done..|].
    exists b', s3, t'. rewrite (gbind_returns _ _ _ (res, err) (b1, s2)).
    + rewrite (gbind_returns _ _ _ _ _ Er). split_and!; [done|done|lia|lia|done|lia|].
      rewrite Hcirc, Hc. by destruct err.
    + simpl. by rewrite Ecall.
  - exists b1. apply gbind_panics. simpl. by rewrite Ecall.
Qed.

Lemma through_follows {A} (zero : A) (call : GoM S (A * option error)) b (s : S) :
  quiescent opts b -> failures b < max_int64 -> clock_ok s ->
  (forall s', clock_ok s' -> clock_ok (snd (call s'))) ->
  follows_circuit zero call b s (through opts zero call (b, s)).
Proof using Hth Hcd.
  intros (Hp & Hf0 & Hopen & Hclosed) Hf Hok Hcall. unfold follows_circuit.
  destruct (isOpenLocked b) eqn:Eo.
  - destruct (clock_now s) as [t s1] eqn:En. exists t, s1. split; [by left|].
    destruct (clock_reading s t s1 Hok En) as [_ Hok1].
    pose proof (allow_open opts Hth b s t s1 Eo Hp En) as Ha.
    rewrite (circuit_admits_open b t Eo).
    destruct (t <? openUntil b); simpl.
    + unfold through. by rewrite (gbind_returns _ _ _ _ _ Ha).
    + apply (through_admitted zero call b (mkState (failures b) (openUntil b) true)); auto. intros E. change (isOpenLocked b = false) in E. congruence.
  - exists (instant s), s. split; [by right|].
    rewrite (circuit_admits_closed b _ Eo).
    apply (through_admitted zero call b b); auto; [by apply allow_closed | congruence].
Qed.

(** C8: between panics a decorated call follows the circuit automaton.  From a
    quiescent state it is refused with [ErrOpen], without reaching the inner
    store, exactly when the circuit is open and the clock is before [openUntil];
    otherwise the inner call runs, its result is handed back verbatim, and the
    circuit moves on its success or failure - opening for [Cooldown] at the
    [Threshold]-th consecutive failure or a failed probe, closing on a success. *)
Theorem through_refines_circuit {A} (zero : A) (call : GoM S (A * option error)) b (s : S) :
  quiescent opts b -> failures b < max_int64 -> clock_ok s ->
  (forall s', clock_ok s' -> clock_ok (snd (call s'))) ->
  follows_circuit zero call b s (through opts zero call (b, s)).
Proof using Hth Hcd. apply through_follows. Qed.

End refinement.

(** ** What an outage costs *)
Section outage.
Context (opts : Options) (Hth : 0 < Threshold opts) (Hcd : 0 < Cooldown opts).
Context {S : Type} `{LawfulClock S}.

(** Decorated calls, one after another. *)
Fixpoint through_all {A} (zero : A) (calls : list (GoM S (A * option error))) :
    GoM (State * S) (list (A * option error)) :=
  match calls with
  | [] => gret []
  | call :: calls =>
      let! r := through opts zero call in
      let! rs := through_all zero calls in
      gret (r :: rs)
  end.

(** A call on a store that is down: an error, some time later. *)
Definition down {A} (call : GoM S (A * option error)) : Prop :=
  forall s, clock_ok s -> exists res e s', call s = (Returns (res, Some e), s') /\
    e <> ErrOpen /\ clock_ok s' /\ instant s <= instant s'.

(** The calls that reached the store. *)
Definition attempts {A} (rs : list (A * option error)) : Z :=
  Z.of_nat (List.length (List.filter (fun r => negb (bool_decide (r.2 = Some ErrOpen))) rs)).

(** How many more calls of a store that is down the circuit lets through between [t]
    and [e]. *)
Definition budget (c : circuit) (t e : Time) : Z :=
  match c with
  | Closed n => Threshold opts - n + (e - t) / Cooldown opts
  | Opened u => Z.max 0 ((e - u) / Cooldown opts + 1)
  end.

Lemma budget_later c t t' e : t <= t' -> budget c t' e <= budget c t e.
Proof using Hcd.
  intros Ht. unfold budget. destruct c; [|lia].
  assert ((e - t') / Cooldown opts <= (e - t) / Cooldown opts) by (apply Z.div_le_mono; lia). lia.
Qed.

Lemma budget_nonneg c t e :
  t <= e -> (forall n, c = Closed n -> n < Threshold opts) -> 0 <= budget c t e.
Proof using Hcd.
  intros Ht Hc. unfold budget. destruct c as [n|u]; [|lia].
  specialize (Hc n eq_refl). assert (0 <= (e - t) / Cooldown opts) by (apply Z.div_pos; lia). lia.
Qed.

(** A failed call takes one off the budget. *)
Lemma budget_spent c t t' e :
  t <= t' <= e -> circuit_admits c t' = true -> (forall n, c = Closed n -> n < Threshold opts) ->
  1 + budget (circuit_after opts c false t') t' e <= budget c t e.
Proof using Hcd.
  intros Ht Ha Hc.
  assert (forall x y, y + Cooldown opts <= x -> (e - x) / Cooldown opts + 1 <= (e - y) / Cooldown opts) as Hd.
  { intros x y Hxy. rewrite <-(Z.div_add _ 1) by lia. apply Z.div_le_mono; lia. }
  assert (0 <= (e - t) / Cooldown opts) by (apply Z.div_pos; lia).
  destruct c as [n|u]; simpl in *.
  - specialize (Hc n eq_refl). destruct (Z.leb_spec (Threshold opts) (n + 1)); simpl.
    + specialize (Hd (t' + Cooldown opts) t). lia.
    + assert ((e - t') / Cooldown opts <= (e - t) / Cooldown opts) by (apply Z.div_le_mono; lia). lia.
  - apply Z.leb_le in Ha. specialize (Hd (t' + Cooldown opts) u).
    assert (0 <= (e - u) / Cooldown opts) by (apply Z.div_pos; lia). lia.
Qed.

(** One call of a store that is down, through the circuit. *)
Lemma down_step {A} (zero : A) call b (s : S) :
  down call -> quiescent opts b -> failures b < max_int64 -> clock_ok s ->
  exists r b' s', through opts zero call (b, s) = (Returns r, (b', s')) /\
    quiescent opts b' /\ failures b' <= failures b + 1 /\ clock_ok s' /\ instant s <= instant s' /\
    forall e, instant s' <= e ->
      attempts [r] + budget (circuit_of b') (instant s') e <= budget (circuit_of b) (instant s) e.
Proof using Hth Hcd.
  intros Hdown Hq Hf Hok.
  destruct (through_follows opts Hth (Z.lt_le_incl _ _ Hcd) zero call b s Hq Hf Hok) as (t & s1 & Ht & Hr).
  { intros s0 Hs0. by destruct (Hdown s0 Hs0) as (? & ? & ? & -> & _ & ? & _). }
  assert (instant s <= t <= instant s1 /\ clock_ok s1) as [Ht1 Hok1].
  { destruct Ht as [En|[-> ->]]; [by eapply clock_reading|split; [lia|done]]. }
  destruct (circuit_admits (circuit_of b) t) eqn:Ea.
  - destruct (Hdown s1 Hok1) as (res & err & s2 & Ec & Hne & Hok2 & Hle). rewrite Ec in Hr.
    destruct Hr as (b' & s3 & t' & Er & Hq' & Ht' & Hok3 & Hf' & Ecirc).
    exists (res, Some err), b', s3. split; [done|]. split; [done|]. split; [done|]. split; [done|].
    split; [lia|]. intros e He. rewrite Ecirc.
    assert (attempts [(res, Some err)] = 1) as ->
      by (unfold attempts; cbn [List.filter snd]; rewrite bool_decide_eq_false_2; [done|congruence]).
    change (bool_decide (Some err = None)) with false.
    assert (circuit_admits (circuit_of b) t' = true) as Ha'.
    { destruct (circuit_of b); [done|]. simpl in *. apply Z.leb_le in Ea. apply Z.leb_le. lia. }
    etransitivity; [|apply (budget_spent _ (instant s) t' e); [lia|done|]].
    + pose proof (budget_later (circuit_after opts (circuit_of b) false t') t' (instant s3) e). lia.
    + intros n. unfold circuit_of. destruct (isOpenLocked b) eqn:Eo; [done|intros [= <-]]. by apply Hq.
  - exists (zero, Some ErrOpen), b, s1. split; [done|]. split; [done|]. split; [lia|]. split; [done|].
    split; [lia|]. intros e He.
    assert (attempts [(zero, Some ErrOpen)] = 0) as ->
      by (unfold attempts; cbn [List.filter snd]; by rewrite bool_decide_eq_true_2).
    by apply budget_later; lia.
Qed.

Lemma attempts_cons {A} (r : A * option error) rs : attempts (r :: rs) = attempts [r] + attempts rs.
Proof. unfold attempts. cbn [List.filter]. destruct (negb _); cbn [List.length]; lia. Qed.

Lemma down_run {A} (zero : A) calls : forall b (s : S),
  Forall down calls -> quiescent opts b -> failures b + Z.of_nat (List.length calls) < max_int64 ->
  clock_ok s ->
  exists rs b' s', through_all zero calls (b, s) = (Returns rs, (b', s')) /\
    List.length rs = List.length calls /\ instant s <= instant s' /\
    attempts rs <= budget (circuit_of b) (instant s) (instant s').
Proof using Hth Hcd.
  induction calls as [|call calls IH]; intros b s Hall Hq Hf Hok.
  { exists [], b, s. split; [done|]. split; [done|]. split; [lia|]. apply budget_nonneg; [lia|].
    intros n. unfold circuit_of. destruct (isOpenLocked b) eqn:Eo; [done|intros [= <-]]. by apply Hq. }
  apply Forall_cons in Hall as [Hc Hall]. simpl in Hf.
  destruct (down_step zero call b s Hc Hq) as (r & b1 & s1 & E1 & Hq1 & Hf1 & Hok1 & Hle1 & Hb1); [lia|done|].
  destruct (IH b1 s1 Hall Hq1) as (rs & b2 & s2 & E2 & Hlen & Hle2 & Hb2); [lia|done|].
  exists (r :: rs), b2, s2. split; [|split; [simpl; congruence|split; [lia|]]].
  - cbn [through_all]. rewrite (gbind_returns _ _ _ _ _ E1). by rewrite (gbind_returns _ _ _ _ _ E2).
  - rewrite attempts_cons. specialize (Hb1 (instant s2) Hle2). lia.
Qed.

(** An outage costs little.  While the store is down, of any number of calls made
    one after another through a fresh circuit at most [Threshold] reach it, and one
    more for every [Cooldown] that goes by; the others are refused on the spot. *)
Lemma outage_cost {A} (zero : A) calls (s : S) :
  Forall down calls -> Z.of_nat (List.length calls) < max_int64 -> clock_ok s ->
  exists rs b' s', through_all zero calls (New, s) = (Returns rs, (b', s')) /\
    List.length rs = List.length calls /\
    attempts rs <= Threshold opts + (instant s' - instant s) / Cooldown opts.
Proof using Hth Hcd.
  intros Hall Hl Hok.
  destruct (down_run zero calls New s Hall (quiescent_New opts Hth)) as (rs & b' & s' & E & Hlen & _ & Hb);
    [done|done|].
  change (circuit_of New) with (Closed 0) in Hb. unfold budget in Hb.
  exists rs, b', s'. split; [done|]. split; [done|lia].
Qed.

End outage.

Definition failing_call : GoM sim_clock (Result * option error) :=
  fun c => (Returns (Result_zero, Some "dial timeout"%string), SimClock (sim_instant c + 7) 1).

Lemma through_refines_circuit_witness :
  let opts := mkOptions 1 5 in
  let s := SimClock 10 1 in
  through opts Result_zero failing_call (New, s) =
    (Returns (Result_zero, Some "dial timeout"%string), (mkState 1 22 false, SimClock 18 1)) /\
  follows_circuit opts Result_zero failing_call New s
    (through opts Result_zero failing_call (New, s)).
Proof.
  split; [by vm_compute|].
  apply (through_refines_circuit (mkOptions 1 5)); [done | done | by apply quiescent_New | done | done |].
  intros [i d] [? ?]. simpl in *. lia.
Defined.

(** Two failures open the circuit for ten; of eight calls three reach the store. *)
Lemma outage_cost_witness :
  let calls := List.repeat failing_call 8 in
  exists rs b' s', through_all (mkOptions 2 40) Result_zero calls (New, SimClock 10 1) = (Returns rs, (b', s')) /\
    List.length rs = List.length calls /\
    attempts rs <= 2 + (instant s' - instant (SimClock 10 1)) / 40.
Proof.
  intros calls. apply (outage_cost (mkOptions 2 40)); [done|done| |done|done].
  apply Forall_forall. intros c Hc%list_elem_of_In%repeat_spec. subst c.
  intros [i d] [Hi Hd]. exists Result_zero, "dial timeout"%string, (SimClock (i + 7) 1).
  simpl in *. split; [reflexivity|]. split; [discriminate|lia].
Defined.

(** ** Interleaved calls: invariants *)
Section interleaving_lemmas.
Context (opts : Options).

Lemma exec_step c e c' : exec opts c e = Some c' <-> step opts c e c'.
Proof.
  split.
  - destruct e as [id t|id success t|id]; simpl; intros E.
    + destruct (in_flight c !! id) eqn:Ei; [done|].
      destruct (at_reading _ _ _) as [[[]|v] b'] eqn:Ea; simplify_eq.
      * by apply step_admit.
      * by apply step_refuse.
    + destruct (in_flight c !! id) eqn:Ei; [|done].
      destruct (at_reading _ _ _) as [[[]|v] b'] eqn:Ea; simplify_eq.
      by eapply step_done.
    + destruct (in_flight c !! id) eqn:Ei; [|done]. simplify_eq. by eapply step_crash.
  - destruct 1 as [c id t b' Ei Ea|c id t b' Ei Ea|c id p success t b' Ei Ea|c id p Ei];
      simpl; rewrite Ei, ?Ea; done.
Qed.

Lemma exec_all_trace c es c' : exec_all opts c es = Some c' <-> trace opts c es c'.
Proof.
  split.
  - revert c. induction es as [|e es IH]; intros c E; simpl in E; [simplify_eq; constructor|].
    destruct (exec opts c e) as [c1|] eqn:E1; [|done].
    apply exec_step in E1. econstructor; eauto.
  - induction 1 as [|c e c1 es c2 Hs Ht IH]; simpl; [done|].
    apply exec_step in Hs. by rewrite Hs.
Qed.

(** The three answers of [allow] at a fixed reading. *)
Lemma at_reading_allow b t :
  0 < Threshold opts ->
  at_reading (allow opts) b t =
    if negb (isOpenLocked b) then (Returns true, b)
    else if probing b || (t <? openUntil b) then (Returns false, b)
    else (Returns true, mkState (failures b) (openUntil b) true).
Proof.
  intros Hth. unfold at_reading.
  destruct (isOpenLocked b) eqn:Eo; simpl.
  - destruct (probing b) eqn:Ep; simpl.
    + by rewrite (allow_probing opts Hth b _ Eo Ep).
    + rewrite (allow_open opts Hth b (SimClock t 0) t (SimClock (t + 0) 0) Eo Ep) by done.
      by destruct (t <? openUntil b).
  - by rewrite (allow_closed opts Hth b _ Eo).
Qed.

Lemma at_reading_record b success t o b' :
  0 < Threshold opts -> at_reading (record opts success) b t = (o, b') -> probing b' = false.
Proof.
  intros Hth. unfold at_reading, record. rewrite (threshold_leb opts Hth).
  go_unfold. unfold now. simpl. destruct success; [by intros [= <- <-]|].
  by destruct (Threshold opts <=? wrap64 (failures b + 1)); intros [= <- <-].
Qed.

(** A probe is out only while the circuit is open. *)
Definition probe_guarded (c : conf) : Prop :=
  probing (breaker_state c) = true -> isOpenLocked (breaker_state c) = true.

(** Unless a call died, a probe that is out is in flight. *)
Definition probe_in_flight (c : conf) : Prop :=
  probing (breaker_state c) = true -> exists id, in_flight c !! id = Some true.

Lemma step_probe_guarded c e c' :
  0 < Threshold opts -> step opts c e c' -> probe_guarded c -> probe_guarded c'.
Proof.
  intros Hth Hs Hc. unfold probe_guarded in *.
  destruct Hs as [c id t b' Ei Ea|c id t b' Ei Ea|c id p success t b' Ei Ea|c id p Ei];
    simpl in *.
  - rewrite at_reading_allow in Ea by done.
    destruct (isOpenLocked _) eqn:Eo; simpl in Ea; [|simplify_eq; by rewrite Eo].
    destruct (probing _ || _); simplify_eq. by intros _.
  - rewrite at_reading_allow in Ea by done.
    destruct (isOpenLocked _) eqn:Eo; simpl in Ea; [|simplify_eq].
    destruct (probing _ || _); simplify_eq. by rewrite Eo.
  - apply at_reading_record in Ea; [|done]. congruence.
  - done.
Qed.

Lemma step_probe_in_flight c e c' :
  0 < Threshold opts -> step opts c e c' -> is_crash e = false ->
  probe_in_flight c -> probe_in_flight c'.
Proof.
  intros Hth Hs He Hc. unfold probe_in_flight in *.
  destruct Hs as [c id t b' Ei Ea|c id t b' Ei Ea|c id p success t b' Ei Ea|c id p Ei];
    simpl in *; [| | |done].
  - rewrite at_reading_allow in Ea by done.
    destruct (isOpenLocked _) eqn:Eo; simpl in Ea.
    + intros _. exists id. by rewrite lookup_insert_eq.
    + simplify_eq. intros Hp. destruct (Hc Hp) as [id' Hid'].
      exists id'. rewrite lookup_insert_ne by congruence. done.
  - rewrite at_reading_allow in Ea by done.
    destruct (isOpenLocked _) eqn:Eo; simpl in Ea; [|simplify_eq].
    by destruct (probing _ || _); simplify_eq.
  - apply at_reading_record in Ea; [|done]. congruence.
Qed.

Lemma trace_invariant (P : conf -> Prop) (ok : event -> bool) c es c' :
  (forall c e c', step opts c e c' -> ok e = true -> P c -> P c') ->
  trace opts c es c' -> forallb ok es = true -> P c -> P c'.
Proof.
  intros Hstep. induction 1 as [|c e c1 es c2 Hs Ht IH]; simpl; [done|].
  intros [He Hes]%andb_true_iff Hc. eauto.
Qed.

End interleaving_lemmas.

(** ** Interleaved calls: what holds and what does not *)

Lemma admissions_without_done opts c es :
  0 < Threshold opts -> isOpenLocked (breaker_state c) = true ->
  forallb (fun e => negb (is_done e)) es = true ->
  (admissions opts c es <= if probing (breaker_state c) then 0 else 1)%nat.
Proof.
  intros Hth. revert c. induction es as [|e es IH]; intros c Ho Hes; simpl in *.
  { by destruct (probing _); lia. }
  apply andb_true_iff in Hes as [He Hes].
  destruct e as [id t|id success t|id]; simpl in *; [|done|].
  - destruct (in_flight c !! id) eqn:Ei; [destruct (probing _); lia|].
    rewrite at_reading_allow, Ho by done. simpl.
    destruct (probing (breaker_state c)) eqn:Ep; simpl.
    + rewrite Ei. specialize (IH (mkConf (breaker_state c) (in_flight c)) Ho Hes).
      simpl in IH. by rewrite Ep in IH.
    + destruct (t <? _); simpl.
      * rewrite Ei. specialize (IH (mkConf (breaker_state c) (in_flight c)) Ho Hes).
        simpl in IH. by rewrite Ep in IH.
      * rewrite lookup_insert_eq.
        specialize (IH (mkConf (mkState (failures (breaker_state c))
          (openUntil (breaker_state c)) true) (<[id:=true]> (in_flight c))) Ho Hes).
        simpl in IH. lia.
  - destruct (in_flight c !! id) eqn:Ei; [|destruct (probing _); lia].
    exact (IH (mkConf (breaker_state c) (delete id (in_flight c))) Ho Hes).
Qed.

(** C33: while no call records its outcome, an open circuit admits at most one
    call - the probe - however many ask and whatever the clock says. *)
Theorem one_probe_between_records opts c es :
  0 < Threshold opts -> isOpenLocked (breaker_state c) = true ->
  forallb (fun e => negb (is_done e)) es = true ->
  (admissions opts c es <= 1)%nat.
Proof.
  intros Hth Ho Hes. pose proof (admissions_without_done opts c es Hth Ho Hes).
  destruct (probing _); lia.
Qed.

Definition probe_conf : conf := mkConf (mkState 3 100 false) ∅.

Lemma one_probe_between_records_witness :
  let es := [Call 1 50; Call 2 100; Call 3 100; Call 4 5000] in
  let opts := mkOptions 3 10 in
  admissions opts probe_conf es = 1%nat /\ (admissions opts probe_conf es <= 1)%nat.
Proof.
  split; [by vm_compute|].
  apply (one_probe_between_records (mkOptions 3 10) probe_conf); [done | done | done].
Defined.

(** C34: as long as no call dies of a panic the circuit recovers: in every state
    reached with nothing in flight, a call that asks at or after [openUntil] is
    admitted. *)
Theorem crash_free_recovers opts es c t :
  0 < Threshold opts ->
  trace opts start es c -> forallb (fun e => negb (is_crash e)) es = true ->
  in_flight c = ∅ -> openUntil (breaker_state c) <= t ->
  exists b', at_reading (allow opts) (breaker_state c) t = (Returns true, b').
Proof.
  intros Hth Htr Hes Hempty Ht.
  assert (probe_in_flight c) as Hp.
  { eapply (trace_invariant opts probe_in_flight); [|done|done|done].
    intros c1 e c2 Hs He. eapply step_probe_in_flight; [done..|].
    by apply negb_true_iff in He. }
  rewrite at_reading_allow by done.
  destruct (isOpenLocked _) eqn:Eo; simpl; [|by eexists].
  destruct (probing _) eqn:Epr; simpl.
  - destruct (Hp Epr) as [id Hid]. by rewrite Hempty, lookup_empty in Hid.
  - rewrite (proj2 (Z.ltb_ge _ _) Ht). by eexists.
Qed.

Definition outage_run : list event :=
  [Call 1 10; Done 1 false 11; Call 2 12; Done 2 false 13; Call 3 14; Call 4 18; Done 4 false 19].

Lemma crash_free_recovers_witness :
  exists c, exec_all (mkOptions 2 5) start outage_run = Some c /\
    isOpenLocked (breaker_state c) = true /\
    exists b', at_reading (allow (mkOptions 2 5)) (breaker_state c) 24 = (Returns true, b').
Proof.
  eexists. split; [by vm_compute|]. split; [done|].
  apply (crash_free_recovers (mkOptions 2 5) outage_run); [done| |done|done|done].
  by apply exec_all_trace.
Defined.

Lemma wedged_trace opts b es c2 :
  (forall t, at_reading (allow opts) b t = (Returns false, b)) ->
  trace opts (mkConf b ∅) es c2 -> c2 = mkConf b ∅.
Proof.
  intros Hall Htr. remember (mkConf b ∅) as cw eqn:Ecw.
  induction Htr as [|c e c3 es c4 Hs Ht IH]; [done|].
  enough (c3 = c) as -> by auto. subst c.
  apply exec_step in Hs.
  destruct e as [id t|id success t|id]; simpl in Hs; rewrite lookup_empty in Hs; try done.
  rewrite Hall in Hs. by simplify_eq.
Qed.

(** C37: a panic in the inner store during a probe wedges the circuit.  [record]
    is not deferred, so [probing] stays set; with nothing else in flight every
    later call is refused, for ever, whatever the clock says. *)
Theorem probe_panic_wedges opts c id c1 es c2 :
  0 < Threshold opts ->
  isOpenLocked (breaker_state c) = true -> probing (breaker_state c) = true ->
  in_flight c = {[id := true]} ->
  step opts c (Crash id) c1 -> trace opts c1 es c2 ->
  c2 = c1 /\ forall t, at_reading (allow opts) (breaker_state c2) t
                       = (Returns false, breaker_state c2).
Proof.
  intros Hth Ho Hp Hin Hcr Htr. inversion Hcr as [| | |? ? p Hid]; subst.
  rewrite Hin, delete_singleton_eq in Htr |- *. clear Hin Hid Hcr.
  assert (forall t, at_reading (allow opts) (breaker_state c) t
                    = (Returns false, breaker_state c)) as Hall.
  { intros t. by rewrite at_reading_allow, Ho, Hp. }
  enough (c2 = mkConf (breaker_state c) ∅) as -> by done.
  by eapply wedged_trace.
Qed.

Definition probe_out : conf := mkConf (mkState 1 16 true) {[2%nat := true]}.

Lemma probe_panic_wedges_witness :
  exists c1,
    exec_all (mkOptions 1 5) start [Call 1 10; Done 1 false 11; Call 2 16] = Some probe_out /\
    exec (mkOptions 1 5) probe_out (Crash 2) = Some c1 /\
    forall es c2, trace (mkOptions 1 5) c1 es c2 ->
      c2 = c1 /\ forall t, at_reading (allow (mkOptions 1 5)) (breaker_state c2) t
                           = (Returns false, breaker_state c2).
Proof.
  eexists. split; [by vm_compute|]. split; [reflexivity|].
  intros es c2 Htr. apply (probe_panic_wedges (mkOptions 1 5) probe_out 2 _ es c2);
    [done..| |exact Htr]. by apply exec_step.
Defined.

(** "exactly one probe" is a property of the interval between records, not of
    the cooldown: a call admitted before the circuit opened that fails while the
    probe is out clears [probing], and once the restarted cooldown has passed a
    second probe joins the first. *)
Theorem stale_record_admits_second_probe :
  exists es c, trace (mkOptions 1 5) start es c /\
    in_flight c !! 3%nat = Some true /\ in_flight c !! 4%nat = Some true.
Proof.
  exists [Call 1 10; Call 2 10; Done 2 false 11; Call 3 16; Done 1 false 17; Call 4 22].
  eexists. split; [apply exec_all_trace; by vm_compute | done].
Qed.
