(* ===== verification/BlockCache.v ===== *)
(** * The block cache ([internal/store/blockcache])

    [State] is the mutex-protected map, the hit counter and the stop channel of [blockcache.Store];
    [lookup], [remember] and [sweep] are its critical sections.  The background loop
    ([sweepLoop]) only decides when [sweep] runs, so the theorems hold for every
    schedule of it; it ends after [Close]. *)
From stdpp Require Import base list gmap strings.
From Stdlib Require Import ZArith Lia.
From S2P Require Import Prelude.
From S2P Require Import GoStrings.
From S2P Require Import Store.

Record Options : Type := mkOptions {
  MaxEntries : Z;
  MaxTTL : Duration;
  SweepInterval : Duration;
}.

Record State : Type := mkState {
  entries : gmap string Time;
  hits : Z;
  stopped : bool;
}.

(** The state [blockcache.New] leaves, and the interval it starts the sweeper
    with. *)
Definition New : State := mkState ∅ 0 false.

Definition sweep_interval (opts : Options) : Duration :=
  if SweepInterval opts <=? 0 then 10 * Second else SweepInterval opts.

Section blockcache.
Context (opts : Options).
Context {S : Type} `{Clock S}.

Definition lookup (k : string) : GoM (State * S) (Time * bool) :=
  let! b := get_own in
  match entries b !! k with
  | None => gret (Time.zero, false)
  | Some until =>
      let! t := now in
      if negb (Time.Before t until) then gret (Time.zero, false) else gret (until, true)
  end.

(** [MaxTTL] caps how long an entry is trusted. *)
Definition capped (ttl : Duration) : Duration :=
  if (MaxTTL opts >? 0) && (ttl >? MaxTTL opts) then MaxTTL opts else ttl.

Definition remember (k : string) (ttl : Duration) : GoM (State * S) unit :=
  let ttl := capped ttl in
  let! b := get_own in
  if bool_decide (entries b !! k = None) && (MaxEntries opts >? 0)
     && (Z.of_nat (size (entries b)) >=? MaxEntries opts)
  then gret tt
  else
    let! t := now in
    put_own (mkState (<[k := Time.Add t ttl]> (entries b)) (hits b) (stopped b)).

Definition count_hit : GoM (State * S) unit :=
  let! b := get_own in put_own (mkState (entries b) (wrap64 (hits b + 1)) (stopped b)).

Definition Consume (inner : Store S) (key : Key) (rule : Rule) :
    GoM (State * S) (Result * option error) :=
  let k := Key_String key in
  let! (until, ok) := lookup k in
  if (ok : bool)
  then
    let! _ := count_hit in
    let! t := now in
    gret (mkResult true (-1) (Time.Sub until t), None)
  else
    let! (res, err) := on_inner (Store.Consume inner key rule) in
    match err with
    | Some _ => gret (res, err)
    | None =>
        let! _ := if Result_Blocked res && (Result_RetryAfter res >? 0)
                  then remember k (Result_RetryAfter res) else gret tt in
        gret (res, None)
    end.

Definition Take (inner : Store S) (key : Key) (bucket : Bucket) :
    GoM (State * S) (TakeResult * option error) :=
  on_inner (Store.Take inner key bucket).

(** [stopOnce.Do]: the channel is closed once, however often [Close] is called. *)
Definition close_stop : GoM (State * S) unit :=
  on_own (fun b => (tt, mkState (entries b) (hits b) true)).

Definition Close (inner : Store S) : GoM (State * S) (option error) :=
  let! _ := close_stop in on_inner (Store.Close inner).

Definition Hits : GoM (State * S) Z := let! b := get_own in gret (hits b).

Definition Len : GoM (State * S) Z :=
  let! b := get_own in gret (Z.of_nat (size (entries b))).

Definition sweep : GoM (State * S) unit :=
  let! t := now in
  let! b := get_own in
  put_own (mkState (filter (fun kv => Time.Before t kv.2 = true) (entries b)) (hits b) (stopped b)).

(** What the sweeper's [select] finds ready: a tick, or the channel closed - which it
    cannot find before it is. *)
Inductive wake : Type := Ticked | StopSeen.

(** [sweepLoop] over what it is woken by: whether it has returned. *)
Fixpoint sweepLoop (wakes : list wake) : GoM (State * S) bool :=
  match wakes with
  | [] => gret false
  | Ticked :: wakes => let! _ := sweep in sweepLoop wakes
  | StopSeen :: wakes =>
      let! b := get_own in
      if stopped b then gret true else sweepLoop wakes
  end.

Definition decorate (inner : Store S) : Store (State * S) :=
  mkStore (Consume inner) (Take inner) (Close inner).

End blockcache.

(** ** Invariants *)

(** The cache never outgrows [MaxEntries]. *)
Definition bounded (opts : Options) {S} (bs : State * S) : Prop :=
  0 < MaxEntries opts -> Z.of_nat (size (entries bs.1)) <= MaxEntries opts.

(** No entry is trusted for longer than [MaxTTL] from now. *)
Definition capped_by {S} `{LawfulClock S} (opts : Options) (bs : State * S) : Prop :=
  clock_ok bs.2 /\
  (0 < MaxTTL opts ->
   forall k until, entries bs.1 !! k = Some until -> until <= instant bs.2 + MaxTTL opts).

(** Whether a lookup at reading [t] is served. *)
Definition live (b : State) (k : string) (t : Time) : bool :=
  match entries b !! k with Some until => t <? until | None => false end.

(** Every way the shared state moves under concurrent use: one critical section
    of some request, the sweeper, [Close], or the world behind the cache. *)
Inductive section_step {S} `{LawfulClock S} (opts : Options) :
    State * S -> State * S -> Prop :=
| step_lookup k bs o bs' : lookup k bs = (o, bs') -> section_step opts bs bs'
| step_hit bs o bs' : count_hit bs = (o, bs') -> section_step opts bs bs'
| step_remember k ttl bs o bs' : remember opts k ttl bs = (o, bs') -> section_step opts bs bs'
| step_sweep bs o bs' : sweep bs = (o, bs') -> section_step opts bs bs'
| step_close bs o bs' : close_stop bs = (o, bs') -> section_step opts bs bs'
| step_world b s s' :
    clock_ok s' -> instant s <= instant s' -> section_step opts (b, s) (b, s').

(** ** The critical sections *)
Section lemmas.
Context (opts : Options).
Context {S : Type} `{LawfulClock S}.
Implicit Types (b : State) (s : S).

Lemma lookup_absent b s k :
  entries b !! k = None -> lookup k (b, s) = (Returns (Time.zero, false), (b, s)).
Proof. intros E. unfold lookup. go_unfold. by rewrite E. Qed.

Lemma lookup_present b s k until t s' :
  entries b !! k = Some until -> clock_now s = (t, s') ->
  lookup k (b, s) =
    (Returns (if t <? until then (until, true) else (Time.zero, false)), (b, s')).
Proof.
  intros E En. unfold lookup. go_unfold. rewrite E, (now_layer _ _ _ _ En).
  unfold Time.Before. by destruct (t <? until).
Qed.

Lemma count_hit_run b s :
  count_hit (b, s) = (Returns tt, (mkState (entries b) (wrap64 (hits b + 1)) (stopped b), s)).
Proof. done. Qed.

Lemma capped_le ttl : 0 < MaxTTL opts -> capped opts ttl <= MaxTTL opts.
Proof.
  intros Hm. unfold capped. destruct (Z.gtb_spec (MaxTTL opts) 0); [|lia].
  simpl. destruct (Z.gtb_spec ttl (MaxTTL opts)); lia.
Qed.

(** [remember] either drops the block, at capacity and for a new key only, or
    stores it with the capped lifetime. *)
Lemma remember_cases b s k ttl t s' :
  clock_now s = (t, s') ->
  (remember opts k ttl (b, s) = (Returns tt, (b, s)) /\
   entries b !! k = None /\ 0 < MaxEntries opts <= Z.of_nat (size (entries b))) \/
  (remember opts k ttl (b, s) =
     (Returns tt, (mkState (<[k := t + capped opts ttl]> (entries b)) (hits b) (stopped b), s')) /\
   (entries b !! k = None -> 0 < MaxEntries opts -> Z.of_nat (size (entries b)) < MaxEntries opts)).
Proof.
  intros En. apply (now_layer b) in En. unfold remember. go_unfold.
  destruct (bool_decide_reflect (entries b !! k = None)) as [E|E]; simpl.
  2: { rewrite En. right. split; [done|by intros ?]. }
  destruct (Z.gtb_spec (MaxEntries opts) 0) as [Hm|Hm]; simpl.
  2: { rewrite En. right. split; [done|lia]. }
  rewrite Z.geb_leb. destruct (Z.leb_spec (MaxEntries opts) (Z.of_nat (size (entries b)))).
  - left. split_and!; [done|done|lia..].
  - rewrite En. right. split; [done|lia].
Qed.

(** A decorated [Consume], case by case. *)
Lemma Consume_cases inner key rule b s :
  let k := Key_String key in
  (exists until t1 s1 t2 s2,
     entries b !! k = Some until /\ clock_now s = (t1, s1) /\ t1 < until /\
     clock_now s1 = (t2, s2) /\
     Consume opts inner key rule (b, s) =
       (Returns (mkResult true (-1) (Time.Sub until t2), None),
        (mkState (entries b) (wrap64 (hits b + 1)) (stopped b), s2))) \/
  (exists s1,
     (entries b !! k = None /\ s1 = s \/
      exists until t1, entries b !! k = Some until /\ clock_now s = (t1, s1) /\ until <= t1) /\
     match Store.Consume inner key rule s1 with
     | (Panics v, s2) => Consume opts inner key rule (b, s) = (Panics v, (b, s2))
     | (Returns (res, err), s2) =>
         exists bs', Consume opts inner key rule (b, s) = (Returns (res, err), bs') /\
           (bs' = (b, s2) \/
            err = None /\ Result_Blocked res = true /\ 0 < Result_RetryAfter res /\
            remember opts k (Result_RetryAfter res) (b, s2) = (Returns tt, bs'))
     end).
Proof.
  intros k.
  enough (forall s1, lookup k (b, s) = (Returns (Time.zero, false), (b, s1)) ->
    match Store.Consume inner key rule s1 with
    | (Panics v, s2) => Consume opts inner key rule (b, s) = (Panics v, (b, s2))
    | (Returns (res, err), s2) =>
        exists bs', Consume opts inner key rule (b, s) = (Returns (res, err), bs') /\
          (bs' = (b, s2) \/
           err = None /\ Result_Blocked res = true /\ 0 < Result_RetryAfter res /\
           remember opts k (Result_RetryAfter res) (b, s2) = (Returns tt, bs'))
    end) as Hmiss.
  { destruct (entries b !! k) as [until|] eqn:Ek.
    - unfold Consume at 1. fold k. destruct (clock_now s) as [t1 s1] eqn:En.
      pose proof (lookup_present b s k until t1 s1 Ek En) as El.
      destruct (Z.ltb_spec t1 until).
      + left. destruct (clock_now s1) as [t2 s2] eqn:En2.
        exists until, t1, s1, t2, s2. split_and!; [done..|].
        rewrite (gbind_returns _ _ _ _ _ El). simpl.
        rewrite (gbind_returns _ _ _ _ _ (count_hit_run b s1)).
        by rewrite (gbind_returns _ _ _ _ _ (now_layer _ _ _ _ En2)).
      + right. exists s1. split; [right; by exists until, t1 | by apply Hmiss].
    - right. exists s. split; [by left|]. by apply Hmiss, lookup_absent. }
  intros s1 El. unfold Consume. fold k. rewrite (gbind_returns _ _ _ _ _ El).
  destruct (Store.Consume inner key rule s1) as [[[res err]|v] s2] eqn:Ei;
    apply (on_inner_run _ b) in Ei.
  2: { by rewrite (gbind_panics _ _ _ _ _ Ei). }
  rewrite (gbind_returns _ _ _ _ _ Ei). destruct err as [e|]; [by eauto|].
  destruct (Result_Blocked res) eqn:Eb; simpl; [|by eauto].
  destruct (Z.gtb_spec (Result_RetryAfter res) 0) as [Hr|Hr]; [|by eauto].
  destruct (clock_now s2) as [t s3] eqn:En.
  destruct (remember_cases b s2 k (Result_RetryAfter res) t s3 En) as [[Em _]|[Em _]];
    rewrite (gbind_returns _ _ _ _ _ Em); eauto 10.
Qed.

End lemmas.

(** ** The invariants, section by section *)
Section invariants.
Context (opts : Options).
Context {S : Type} `{LawfulClock S}.
Implicit Types (b : State) (s : S) (bs : State * S).

(** A section other than [remember] and [count_hit] leaves the cache alone or
    shrinks it. *)
Lemma lookup_state k bs o bs' :
  lookup k bs = (o, bs') ->
  bs'.1 = bs.1 /\ (bs' = bs \/ exists t, clock_now bs.2 = (t, bs'.2)).
Proof.
  destruct bs as [b s]. destruct (entries b !! k) as [until|] eqn:Ek.
  - destruct (clock_now s) as [t s'] eqn:En.
    rewrite (lookup_present b s k until t s' Ek En). intros [= _ <-]. eauto.
  - rewrite (lookup_absent b s k Ek). intros [= _ <-]. eauto.
Qed.

Lemma sweep_run b s t s' :
  clock_now s = (t, s') ->
  sweep (b, s) =
    (Returns tt,
     (mkState (filter (fun kv => Time.Before t kv.2 = true) (entries b)) (hits b) (stopped b), s')).
Proof. intros En. unfold sweep. by rewrite (gbind_returns _ _ _ _ _ (now_layer b _ _ _ En)). Qed.

Lemma step_bounded bs bs' : section_step opts bs bs' -> bounded opts bs -> bounded opts bs'.
Proof.
  unfold bounded.
  destruct 1 as [k bs o bs' E|bs o bs' E|k ttl bs o bs' E|bs o bs' E|[b s] o bs' [= <- <-]|b s s' ? ?];
    intros Hb Hm; specialize (Hb Hm).
  - by apply lookup_state in E as [-> _].
  - destruct bs as [b s]. rewrite count_hit_run in E. by simplify_eq/=.
  - destruct bs as [b s]. destruct (clock_now s) as [t s'] eqn:En.
    destruct (remember_cases opts b s k ttl t s' En) as [[Er _]|[Er Hr]];
      rewrite Er in E; simplify_eq/=; [done|].
    destruct (entries b !! k) as [u|] eqn:Ek.
    + rewrite map_size_insert, Ek. done.
    + rewrite map_size_insert_None by done. specialize (Hr eq_refl Hm). lia.
  - destruct bs as [b s]. destruct (clock_now s) as [t s'] eqn:En.
    rewrite (sweep_run b s t s' En) in E. simplify_eq/=.
    etransitivity; [|exact Hb]. apply Nat2Z.inj_le, map_subseteq_size, map_filter_subseteq.
  - done.
  - done.
Qed.

Lemma capped_by_later b s s' :
  capped_by opts (b, s) -> clock_ok s' -> instant s <= instant s' -> capped_by opts (b, s').
Proof.
  intros [_ Hc] Hok Hle. split; [done|]. simpl in *. intros Hm k until Hk.
  specialize (Hc Hm k until Hk). lia.
Qed.

Lemma step_capped bs bs' : section_step opts bs bs' -> capped_by opts bs -> capped_by opts bs'.
Proof.
  destruct 1 as [k bs o bs' E|bs o bs' E|k ttl bs o bs' E|bs o bs' E|[b s] o bs' [= <- <-]|b s s' ? ?]; intros Hc.
  - destruct bs as [b s], bs' as [b' s']. apply lookup_state in E as [Eb Es]. simpl in *.
    subst b'. destruct Es as [[= ->]|[t En]]; [done|].
    destruct Hc as [Hok Hc]. destruct (clock_reading s t s' Hok En) as [? Hok'].
    apply (capped_by_later b s); [done|done|lia].
  - destruct bs as [b s]. rewrite count_hit_run in E. by simplify_eq/=.
  - destruct bs as [b s]. destruct (clock_now s) as [t s'] eqn:En.
    destruct (clock_reading s t s' (proj1 Hc) En) as [? Hok'].
    destruct (remember_cases opts b s k ttl t s' En) as [[Er _]|[Er _]];
      rewrite Er in E; simplify_eq/=; [done|].
    destruct (capped_by_later b s s' Hc Hok' ltac:(lia)) as [_ Hc'].
    split; [done|]. simpl. intros Hm k' until Hk'.
    apply lookup_insert_Some in Hk' as [[_ <-]|[_ Hk']]; [|by eapply Hc'].
    pose proof (capped_le opts ttl Hm). lia.
  - destruct bs as [b s]. destruct (clock_now s) as [t s'] eqn:En.
    destruct (clock_reading s t s' (proj1 Hc) En) as [? Hok'].
    rewrite (sweep_run b s t s' En) in E. simplify_eq/=.
    destruct (capped_by_later b s s' Hc Hok' ltac:(lia)) as [_ Hc'].
    split; [done|]. simpl. intros Hm k until Hk.
    apply map_lookup_filter_Some in Hk as [Hk _]. by eapply Hc'.
  - done.
  - by eapply capped_by_later.
Qed.

(** C12: the cache only ever answers "blocked".  Any answer of a decorated
    [Consume] is either the inner store's own, verbatim, reached because the
    lookup missed, or a block with count -1 served from an entry that had not
    expired; so an allowed request was always counted by the inner store. *)
Theorem cache_answer_origin inner key rule b s res err bs' :
  Consume opts inner key rule (b, s) = (Returns (res, err), bs') ->
  (exists t s1, clock_now s = (t, s1) /\ live b (Key_String key) t = true /\
     Result_Blocked res = true /\ Result_Count res = -1 /\ err = None) \/
  (exists s1 s2, Store.Consume inner key rule s1 = (Returns (res, err), s2) /\
     (s1 = s /\ entries b !! Key_String key = None \/
      exists t, clock_now s = (t, s1) /\ live b (Key_String key) t = false)).
Proof.
  intros E.
  destruct (Consume_cases opts inner key rule b s)
    as [(until & t1 & s1 & t2 & s2 & Ek & En & Hlt & En2 & Er)|(s1 & Hs1 & Hr)].
  - left. rewrite Er in E. simplify_eq/=. exists t1, s1. unfold live. rewrite Ek.
    split_and!; [done|by apply Z.ltb_lt|done..].
  - right. destruct (Store.Consume inner key rule s1) as [[[res' err']|v] s2] eqn:Ei; [|congruence].
    destruct Hr as (bs'' & Er & _). rewrite Er in E. simplify_eq/=.
    exists s1, s2. split; [done|].
    destruct Hs1 as [[Ek ->]|(until & t1 & Ek & En & Hle)]; [by left|].
    right. exists t1. unfold live. rewrite Ek. split; [done|by apply Z.ltb_ge].
Qed.

(** C13: whatever sections run and however they interleave, the cache never holds
    more than [MaxEntries] entries and never trusts one for longer than [MaxTTL]:
    a block lifted by hand is forgotten once that long has passed without a new
    block being remembered. *)
Theorem cache_bounded_and_capped s0 b s :
  clock_ok s0 -> rtc (section_step opts) (New, s0) (b, s) ->
  bounded opts (b, s) /\
  (0 < MaxTTL opts -> forall k t, instant s + MaxTTL opts <= t -> live b k t = false).
Proof.
  intros Hok Hr.
  assert (bounded opts (b, s) /\ capped_by opts (b, s)) as [Hb [_ Hc]].
  { remember (New, s0) as bs0 eqn:E0. remember (b, s) as bs eqn:E1. clear E1.
    assert (bounded opts bs0 /\ capped_by opts bs0) as Hinit.
    { subst bs0. split; [by intros ?; simpl; rewrite map_size_empty; lia|].
      split; [done|]. intros _ k until Hk. simpl in Hk. by rewrite lookup_empty in Hk. }
    clear E0. induction Hr as [|bs1 bs2 bs3 Hs Hr IH]; [done|].
    apply IH. destruct Hinit. split; [by eapply step_bounded|by eapply step_capped]. }
  split; [done|]. intros Hm k t Ht. unfold live.
  destruct (entries b !! k) as [until|] eqn:Ek; [|done].
  apply Z.ltb_ge. specialize (Hc Hm k until Ek). simpl in Hc. lia.
Qed.

(** [Consume] is nothing but those sections: over an inner store that lets the
    clock run forwards, a call is a sequence of them. *)
Theorem Consume_is_sections inner key rule b s :
  (forall s, clock_ok s ->
     clock_ok (Store.Consume inner key rule s).2 /\
     instant s <= instant (Store.Consume inner key rule s).2) ->
  clock_ok s ->
  rtc (section_step opts) (b, s) (Consume opts inner key rule (b, s)).2.
Proof.
  intros Hin Hok.
  assert (forall s t s', clock_ok s -> clock_now s = (t, s') ->
            clock_ok s' /\ rtc (section_step opts) (b, s) (b, s')) as Hread.
  { intros s1 t s' Hok1 En. destruct (clock_reading s1 t s' Hok1 En) as [? Hok'].
    split; [done|]. apply rtc_once, step_world; [done|lia]. }
  destruct (Consume_cases opts inner key rule b s)
    as [(until & t1 & s1 & t2 & s2 & Ek & En & Hlt & En2 & ->)|(s1 & Hs1 & Hr)].
  - simpl. destruct (Hread s t1 s1 Hok En) as [Hok1 Hr1].
    destruct (clock_reading s1 t2 s2 Hok1 En2) as [? Hok2].
    etransitivity; [exact Hr1|].
    eapply rtc_l; [eapply step_hit, count_hit_run|]. apply rtc_once, step_world; [done|lia].
  - assert (clock_ok s1 /\ rtc (section_step opts) (b, s) (b, s1)) as [Hok1 Hr1].
    { destruct Hs1 as [[_ ->]|(until & t1 & _ & En & _)]; [done|by eapply Hread]. }
    etransitivity; [exact Hr1|]. destruct (Hin s1 Hok1) as [Hok2 Hle].
    destruct (Store.Consume inner key rule s1) as [[[res err]|v] s2] eqn:Ei; simpl in *.
    + destruct Hr as (bs' & -> & [->|(_ & _ & _ & Em)]); simpl.
      * by apply rtc_once, step_world.
      * eapply rtc_l; [by apply (step_world opts b s1 s2)|]. by eapply rtc_once, step_remember.
    + rewrite Hr. by apply rtc_once, step_world.
Qed.

(** Sweeping is invisible: at any reading no earlier than the sweep's, a
    lookup is served after it exactly when it would have been without it. *)
Theorem sweep_transparent b s t s' b' k t' :
  clock_now s = (t, s') -> sweep (b, s) = (Returns tt, (b', s')) -> t <= t' ->
  live b' k t' = live b k t'.
Proof.
  intros En E Ht. rewrite (sweep_run b s t s' En) in E. simplify_eq.
  unfold live. simpl. destruct (entries b !! k) as [until|] eqn:Ek.
  - destruct (Z.ltb_spec t until) as [Hlt|Hge].
    + rewrite (proj2 (map_lookup_filter_Some _ _ k until)); [done|].
      split; [done|]. by apply Z.ltb_lt.
    + rewrite (proj2 (map_lookup_filter_None _ _ k)).
      * symmetry. apply Z.ltb_ge. lia.
      * right. intros u Hu Hb. rewrite Ek in Hu. simplify_eq. apply Z.ltb_lt in Hb. simpl in Hb. lia.
  - rewrite (proj2 (map_lookup_filter_None _ _ k)); [done|by left].
Qed.

(** A sweep says nothing about being stopped. *)
Lemma sweep_runs b s : exists b' s', sweep (b, s) = (Returns tt, (b', s')) /\ stopped b' = stopped b.
Proof.
  destruct (clock_now s) as [t s'] eqn:En. rewrite (sweep_run b s t s' En). by eexists _, s'.
Qed.

Lemma sweepLoop_stop ws b s :
  sweepLoop (StopSeen :: ws) (b, s) = if stopped b then (Returns true, (b, s)) else sweepLoop ws (b, s).
Proof. cbn [sweepLoop]. unfold gbind, get_own. by destruct (stopped b). Qed.

Lemma sweepLoop_tick ws b s b1 s1 :
  sweep (b, s) = (Returns tt, (b1, s1)) -> sweepLoop (Ticked :: ws) (b, s) = sweepLoop ws (b1, s1).
Proof. intros E. cbn [sweepLoop]. by rewrite (gbind_returns _ _ _ _ _ E). Qed.

(** The loop turns until it sees the channel closed. *)
Lemma sweepLoop_turns ws1 ws2 b s :
  stopped b = false \/ StopSeen ∉ ws1 ->
  exists b' s', sweepLoop ws1 (b, s) = (Returns false, (b', s')) /\ stopped b' = stopped b /\
    sweepLoop (ws1 ++ ws2) (b, s) = sweepLoop ws2 (b', s').
Proof.
  revert b s. induction ws1 as [|w ws1 IH]; intros b s Hw; [by exists b, s|].
  destruct w; cbn [app].
  - destruct (sweep_runs b s) as (b1 & s1 & E & Eb). rewrite (sweepLoop_tick ws1 _ _ _ _ E), (sweepLoop_tick (ws1 ++ ws2) _ _ _ _ E).
    destruct (IH b1 s1) as (b' & s' & E1 & Eb' & E2).
    { rewrite Eb. destruct Hw as [Hw|Hw]; [by left|right]. intros Hin. apply Hw. by right. }
    exists b', s'. split_and!; [done|congruence|done].
  - destruct Hw as [Hw|Hw]; [|by destruct Hw; left]. rewrite (sweepLoop_stop ws1), (sweepLoop_stop (ws1 ++ ws2)), Hw.
    destruct (IH b s (or_introl Hw)) as (b' & s' & E1 & Eb' & E2). exists b', s'. split_and!; [done|congruence|done].
Qed.

Lemma Close_runs inner b s o bs' :
  Close inner (b, s) = (o, bs') -> stopped bs'.1 = true /\ entries bs'.1 = entries b /\
    (o, bs'.2) = Store.Close inner s.
Proof.
  unfold Close, close_stop, on_own, on_inner, gbind. destruct (Store.Close inner s) as [o' s'].
  by intros [= <- <-].
Qed.

(** The sweeper ends.  Until the cache is closed its goroutine goes on, whatever wakes
    it; once [Close] has run - once or many times, each closing the inner store - it
    returns the first time it finds the channel closed, having swept only on the ticks
    before, and it sweeps no more. *)
Theorem sweeper_ends inner b s ws1 ws2 :
  (stopped b = false -> exists bs', sweepLoop (ws1 ++ ws2) (b, s) = (Returns false, bs')) /\
  (StopSeen ∉ ws1 ->
   let bs1 := (Close inner (b, s)).2 in
   exists bs2, sweepLoop ws1 bs1 = (Returns false, bs2) /\
     sweepLoop (ws1 ++ StopSeen :: ws2) bs1 = (Returns true, bs2)).
Proof.
  split.
  - intros Hb. destruct (sweepLoop_turns (ws1 ++ ws2) [] b s (or_introl Hb)) as (b' & s' & E & _). by eexists.
  - intros Hw bs1. destruct (Close inner (b, s)) as [o [b1 s1]] eqn:Ec.
    apply Close_runs in Ec as (Hst & _ & _). simpl in bs1, Hst.
    destruct (sweepLoop_turns ws1 (StopSeen :: ws2) b1 s1 (or_intror Hw)) as (b' & s' & E1 & Eb & E2).
    exists (b', s'). split; [exact E1|]. subst bs1. by rewrite E2, sweepLoop_stop, Eb, Hst.
Qed.

End invariants.

(** ** Instances of the theorems *)
Section examples.

(** An inner store that blocks every request for 90 seconds. *)
Definition blocking : Store sim_clock :=
  mkStore (fun _ _ => gret (mkResult true 16 (90 * Second), None))
          (fun _ _ => gret (TakeResult_zero, None))
          (gret None).

Definition cache_opts : Options := mkOptions 2 (60 * Second) 0.
Definition login_key : Key := mkKey "login" "user".
Definition login_rule : Rule := mkRule 15 Hour Hour.
Definition at_one : sim_clock := SimClock 1 1.

(** The state after one blocked call from an empty cache. *)
Definition warmed : State := mkState {["login:user" := 1 + 60 * Second]} 0 false.

Lemma cache_answer_origin_witness :
  let r := Consume cache_opts blocking login_key login_rule (warmed, SimClock 5 1) in
  r = (Returns (mkResult true (-1) (60 * Second - 5), None),
       (mkState (entries warmed) 1 false, SimClock 7 1)) /\
  ((exists t s1, clock_now (SimClock 5 1) = (t, s1) /\
     live warmed (Key_String login_key) t = true /\
     true = true /\ -1 = -1 /\ @None error = None) \/
   (exists s1 s2, Store.Consume blocking login_key login_rule s1
        = (Returns (mkResult true (-1) (60 * Second - 5), None), s2) /\
     (s1 = SimClock 5 1 /\ entries warmed !! Key_String login_key = None \/
      exists t, clock_now (SimClock 5 1) = (t, s1) /\
        live warmed (Key_String login_key) t = false))).
Proof.
  intros r. assert (r = (Returns (mkResult true (-1) (60 * Second - 5), None),
       (mkState (entries warmed) 1 false, SimClock 7 1))) as Er by (vm_compute; reflexivity).
  split; [exact Er|].
  exact (cache_answer_origin cache_opts blocking login_key login_rule warmed (SimClock 5 1)
           (mkResult true (-1) (60 * Second - 5)) None _ Er).
Defined.

Lemma cache_bounded_and_capped_witness :
  bounded cache_opts (warmed, SimClock 2 1) /\
  live warmed "login:user" 2 = true /\
  live warmed "login:user" (2 + 60 * Second) = false.
Proof.
  destruct (cache_bounded_and_capped cache_opts at_one warmed (SimClock 2 1)) as [Hb Hl].
  - done.
  - eapply rtc_once, (step_remember cache_opts "login:user" (90 * Second) (New, at_one)).
    vm_compute. reflexivity.
  - split; [exact Hb|]. split; [done|]. apply Hl; [done|]. simpl. lia.
Defined.

Lemma Consume_is_sections_witness :
  (Consume cache_opts blocking login_key login_rule (New, at_one)).2 = (warmed, SimClock 2 1) /\
  rtc (section_step cache_opts) (New, at_one)
    (Consume cache_opts blocking login_key login_rule (New, at_one)).2.
Proof.
  split; [vm_compute; reflexivity|].
  apply Consume_is_sections; [|done]. intros s Hs. split; [exact Hs|]. simpl. lia.
Defined.

Lemma sweep_transparent_witness :
  let b := mkState {["login:user" := 1 + 60 * Second; "login:gone" := 3]} 0 false in
  sweep (b, SimClock 4 1) = (Returns tt, (warmed, SimClock 5 1)) /\
  live warmed "login:user" 9 = live b "login:user" 9 /\
  live warmed "login:gone" 9 = live b "login:gone" 9.
Proof.
  intros b. assert (sweep (b, SimClock 4 1) = (Returns tt, (warmed, SimClock 5 1))) as E
    by (vm_compute; reflexivity).
  split; [exact E|].
  split; (apply (sweep_transparent b (SimClock 4 1) 4 (SimClock 5 1)); [done|exact E|lia]).
Defined.

(** Closed between two ticks: the first sweep drops the entry, the second never runs. *)
Lemma sweeper_ends_witness :
  let bs1 := (Close blocking (warmed, SimClock (2 * Minute) 1)).2 in
  exists bs2, sweepLoop [Ticked] bs1 = (Returns false, bs2) /\ size (entries bs2.1) = 0%nat /\
    sweepLoop ([Ticked] ++ StopSeen :: [Ticked]) bs1 = (Returns true, bs2).
Proof.
  intros bs1.
  destruct (proj2 (sweeper_ends blocking warmed (SimClock (2 * Minute) 1) [Ticked] [Ticked])) as (bs2 & E1 & E2).
  - intros [Hin|Hin]%elem_of_cons; [done|by apply elem_of_nil in Hin].
  - exists bs2. split; [exact E1|]. split; [|exact E2].
    assert (sweepLoop [Ticked] bs1 = (Returns false, bs2)) as E by exact E1.
    vm_compute in E. injection E as <-. vm_compute. reflexivity.
Defined.

End examples.
