(* ===== verification/Blocks.v ===== *)
(** * Blocks, from Redis up to the cache ([internal/store])

    The interface by which a store promises that a block it reports is one the
    backend holds ([BlockReporter]).  The block cache is proved sound against it; the
    Redis store and the circuit breaker discharge it. *)
From stdpp Require Import base list gmap strings.
From Stdlib Require Import ZArith Lia Ascii String.
From S2P Require Import Prelude.
From S2P Require Import GoStrings.
From S2P Require Import Store.
From S2P Require Import Redis.
From S2P Require Import RedisStore.
From S2P Require Import TokenBucket.
From S2P Require Import Quota.
From S2P Require Import Breaker.
From S2P Require Import BlockCache.

#[local] Open Scope Z_scope.
#[local] Obligation Tactic := idtac.

(** ** The interface *)

(** [blocked_until s k u]: the backend holds a block on [k] until [u] at least, or [u]
    is past.  A store's calls and clock readings lose no such fact, and a reported
    block establishes one for the time it says, but for [slack]. *)
Class BlockReporter {S} `{Clock S} (RuleOk : Rule -> Prop) (BucketOk : Bucket -> Prop)
    (P : S -> Prop) (slack : Duration) (st : Store S) : Type := {
  blocked_until : Key -> Time -> S -> Prop;
  blocked_sooner k u v s : v <= u -> blocked_until k u s -> blocked_until k v s;
  reading_keeps s : P s -> P (clock_now s).2;
  reading_blocked k u s : P s -> blocked_until k u s -> blocked_until k u (clock_now s).2;
  consume_keeps k r s : RuleOk r -> P s -> P (Store.Consume st k r s).2;
  consume_blocked k u k' r s :
    RuleOk r -> P s -> blocked_until k u s -> blocked_until k u (Store.Consume st k' r s).2;
  take_keeps k b s : BucketOk b -> P s -> P (Store.Take st k b s).2;
  take_blocked k u k' b s :
    BucketOk b -> P s -> blocked_until k u s -> blocked_until k u (Store.Take st k' b s).2;
  reported k r s res s' :
    RuleOk r -> P s -> Store.Consume st k r s = (Returns (res, None), s') ->
    Result_Blocked res = true ->
    blocked_until k ((clock_now s').1 + Result_RetryAfter res - slack) (clock_now s').2;
}.

(** ** The Redis store reports blocks *)

(** The host's clock against Redis's: a reading and the reply before it take at most
    [lag] milliseconds, and the two clocks are never further apart than [skew]. *)
Class SyncedClock (R : Type) `{LawfulRedis R} `{Clock R} (lag : Z) (skew : Duration) : Prop := {
  reading_idle r : redis_ok r -> idle r (clock_now r).2;
  reading_lag r : redis_ok r -> ms (clock_now r).2 <= ms r + lag;
  reading_skew r : redis_ok r -> (clock_now r).1 <= ms (clock_now r).2 * Millisecond + skew;
}.

Section redis_reports.
Context {R : Type} `{RedisCommands R} `{!Clock R} (lag : Z) (skew : Duration) `{!SyncedClock R lag skew}.
Context (fmt_Rule : Rule -> string) (fmt_Bucket : Bucket -> string) (prefix : string).

Abbreviation redis_store := (NewWithClient fmt_Rule fmt_Bucket prefix).
Abbreviation store_ok := (store_ok prefix).
Abbreviation window_of := (window_of prefix).

Definition redis_blocked (k : Key) (v : Time) (r : R) : Prop :=
  (exists u, held (window_of r k) = Some u /\ v <= u * Millisecond) \/ v <= ms r * Millisecond.

Lemma redis_blocked_idle k v r r' : store_ok r -> idle r r' -> redis_blocked k v r -> redis_blocked k v r'.
Proof.
  intros Hok Hi Hb. pose proof (window_of_idle prefix r r' k Hok Hi) as Ew. destruct Hi as (_ & Hms & _).
  unfold redis_blocked in *. unfold Millisecond in *. destruct Hb as [(u & Eu & Hv)|Hv]; [|right; lia].
  rewrite Ew. unfold lapse. rewrite Eu. cbn [held].
  destruct (Z.ltb_spec (ms r') u); [left; by exists u|right; lia].
Qed.

(** A step replaces a block only by a later one. *)
Lemma rule_step_held rule now w u :
  0 < seconds (Rule_Block rule) -> held w = Some u -> now < u ->
  exists u', held (rule_step rule now w).2 = Some u' /\ u <= u'.
Proof.
  intros Hb Hu Hlt. destruct (ttl_round_near (u - now)) as [_ Hnear]; [lia|].
  unfold rule_step, window_step. rewrite Hu.
  destruct (Z.ltb_spec 0 (ttl_round (u - now))); [exists u; split; [done|lia]|].
  unfold count_step. destruct (counting w) as [[n x]|]; destruct (_ <? _); cbn [held snd];
    (exists u; split; [done|lia]) || (eexists; split; [done|lia]).
Qed.

Lemma stepped_blocked k v k' rule r r' :
  Rule_Valid rule = true -> Rule_in_range rule -> store_ok r ->
  stepped prefix r k' rule r' -> redis_blocked k v r -> redis_blocked k v r'.
Proof.
  intros Hv Hr Hok (Hok' & Ems & Ew & Eo & _) [(u & Eu & Hu)|Hp]; [|right; by rewrite Ems].
  left. destruct (stdpp.base.decide (same_bucket k' k)) as [Hs|Hs].
  - assert (forall r, window_of r k = window_of r k') as Esame
      by (intros; unfold RedisStore.window_of; by rewrite !(key_of_same prefix _ _ _ Hs)).
    rewrite Esame in Eu |- *. rewrite Ew.
    destruct (rule_step_held rule (ms r) (window_of r k') u) as (u' & Eu' & Hle);
      [by apply seconds_bounds; [apply Rule_Valid_spec in Hv as (_ & _ & ?)|apply Hr]
      |done|by eapply held_live|].
    exists u'. split; [done|]. unfold Millisecond in *. lia.
  - rewrite Eo by done. by exists u.
Qed.

Lemma consume_blocked_redis k v k' rule r :
  Rule_in_range rule -> store_ok r -> redis_blocked k v r ->
  redis_blocked k v (Store.Consume redis_store k' rule r).2.
Proof.
  intros Hr Hok Hb. cbn [Store.Consume NewWithClient]. destruct (Rule_Valid rule) eqn:Hv.
  - destruct (Consume_refines fmt_Rule prefix r k' rule Hok Hv Hr) as (res & err & r' & -> & Hm).
    assert (stepped prefix r k' rule r' \/ unchanged prefix r r') as [Hs|(_ & Ems & EK)]
      by (destruct ((transport r).1); destruct Hm as (_ & _ & Hm); auto).
    + by eapply stepped_blocked.
    + unfold redis_blocked, RedisStore.window_of in *. cbn [snd]. by rewrite EK, Ems.
  - unfold Redis_Consume. by rewrite Hv.
Qed.

Lemma take_blocked_redis k v k' b r :
  Bucket_in_range b -> store_ok r -> redis_blocked k v r ->
  redis_blocked k v (Store.Take redis_store k' b r).2.
Proof.
  intros Hr Hok Hb. cbn [Store.Take NewWithClient]. destruct (Bucket_Valid b) eqn:Hv.
  - destruct (Take_refines fmt_Bucket prefix r k' b Hok Hv Hr) as (res & err & r' & -> & _ & Hm).
    assert (took prefix r k' b r' \/ unchanged prefix r r') as [(_ & Ems & _ & _ & Ew)|(_ & Ems & EK)]
      by (destruct ((transport r).1); destruct Hm as (_ & _ & Hm); auto).
    + unfold redis_blocked in *. cbn [snd]. by rewrite Ew, Ems.
    + unfold redis_blocked, RedisStore.window_of in *. cbn [snd]. by rewrite EK, Ems.
  - unfold Redis_Take. by rewrite Hv.
Qed.

Lemma reading_ok r : store_ok r -> store_ok (clock_now r).2.
Proof. intros Hok. eapply store_ok_idle; [done|]. apply reading_idle, Hok. Qed.

(** What a refusal says of the window it leaves. *)
Lemma rule_step_reported rule r k :
  store_ok r -> Rule_Valid rule = true -> Rule_in_range rule ->
  let (h, w') := rule_step rule (ms r) (window_of r k) in
  refused h = true -> exists u, held w' = Some u /\ 1000 * wait h < u - ms r + 1000.
Proof.
  intros Hok Hv Hr. unfold rule_step, window_step. destruct (held (window_of r k)) as [u|] eqn:Eu.
  - pose proof (held_live prefix r k u Hok Eu) as Hlt.
    destruct (ttl_round_near (u - ms r)) as [_ Hnear]; [lia|].
    destruct (0 <? ttl_round (u - ms r)); [intros _; exists u; split; [done|simpl; lia]|].
    unfold count_step. destruct (counting _) as [[n x]|]; destruct (_ <? _); cbn [refused held wait]; try done;
      intros _; eexists; (split; [done|lia]).
  - unfold count_step. destruct (counting _) as [[n x]|]; destruct (_ <? _); cbn [refused held wait]; try done;
      intros _; eexists; (split; [done|lia]).
Qed.

Lemma reported_redis k rule r res r' :
  Rule_in_range rule -> store_ok r ->
  Store.Consume redis_store k rule r = (Returns (res, None), r') -> Result_Blocked res = true ->
  redis_blocked k ((clock_now r').1 + Result_RetryAfter res - (Second + lag * Millisecond + skew))
    (clock_now r').2.
Proof.
  intros Hr Hok E Hb. cbn [Store.Consume NewWithClient] in E. destruct (Rule_Valid rule) eqn:Hv.
  2: { unfold Redis_Consume in E. rewrite Hv in E. done. }
  destruct (Consume_refines fmt_Rule prefix r k rule Hok Hv Hr) as (res0 & err & r0 & E0 & Hm).
  rewrite E in E0. injection E0 as <- <- <-.
  destruct ((transport r).1); [|by destruct Hm as (_ & ? & _)..].
  destruct Hm as (-> & _ & Hok' & Ems & Ew & _).
  pose proof (rule_step_reported rule r k Hok Hv Hr) as Hrep.
  destruct (rule_step rule (ms r) (window_of r k)) as [h w']. cbn [fst snd result_of Result_Blocked Result_RetryAfter] in *.
  destruct (Hrep Hb) as (u & Eu & Hw).
  apply (redis_blocked_idle k _ r'); [done|apply reading_idle, Hok'|].
  left. exists u. split; [by rewrite Ew|].
  pose proof (reading_lag r' (proj1 Hok')). pose proof (reading_skew r' (proj1 Hok')).
  unfold Second, Millisecond in *. lia.
Qed.

#[global] Program Instance redis_reporter :
  BlockReporter Rule_in_range Bucket_in_range store_ok (Second + lag * Millisecond + skew) redis_store :=
  {| blocked_until := redis_blocked |}.
Next Obligation.
  intros k u v r Hle [(x & Ex & Hx)|Hx]; [left; exists x; split; [done|lia]|right; lia].
Qed.
Next Obligation. intros r Hok. by apply reading_ok. Qed.
Next Obligation.
  intros k u r Hok Hb. eapply redis_blocked_idle; [done|apply reading_idle, Hok|done].
Qed.
Next Obligation.
  intros k rule r Hr Hok.
  by destruct (Consume_typed fmt_Rule fmt_Bucket prefix k rule r Hok Hr) as (? & ? & ? & -> & ? & _).
Qed.
Next Obligation. intros. by apply consume_blocked_redis. Qed.
Next Obligation.
  intros k b r Hr Hok.
  by destruct (Take_typed fmt_Rule fmt_Bucket prefix k b r Hok Hr) as (? & ? & ? & -> & ? & _).
Qed.
Next Obligation. intros. by apply take_blocked_redis. Qed.
Next Obligation. intros. by eapply reported_redis. Qed.

End redis_reports.

(** ** Layers that report what their inner store reports *)
Section layers.
Context {B S : Type} `{Clock S}.

(** A predicate of the inner state that readings and a call keep is kept by whatever is
    made of them. *)
Lemma now_inner (I : S -> Prop) :
  (forall s, I s -> I (clock_now s).2) -> Preserves (fun bs : B * S => I bs.2) now.
Proof.
  intros Hr [b s] Hs. unfold now, clock_now at 1, clock_layer. simpl in *.
  specialize (Hr s Hs). by destruct (clock_now s).
Qed.

Lemma on_inner_keeps {A} (I : S -> Prop) (m : GoM S A) :
  (forall s, I s -> I (m s).2) -> Preserves (fun bs : B * S => I bs.2) (on_inner m).
Proof. intros Hm [b s] Hs. simpl in *. specialize (Hm s Hs). by destruct (m s). Qed.

#[global] Instance get_own_keeps (I : S -> Prop) : Preserves (fun bs : B * S => I bs.2) get_own.
Proof. by intros [b s]. Qed.

#[global] Instance put_own_keeps (I : S -> Prop) b : Preserves (fun bs : B * S => I bs.2) (put_own b).
Proof. by intros [b' s]. Qed.

Lemma layer_reading (bs : B * S) :
  clock_now bs = ((clock_now bs.2).1, (bs.1, (clock_now bs.2).2)).
Proof. destruct bs as [b s]. unfold clock_now at 1, clock_layer. simpl. by destruct (clock_now s). Qed.

(** A decorator that is not in use: its state is carried and left alone. *)
Definition pass_through (st : Store S) : Store (B * S) :=
  mkStore (fun k r => on_inner (Store.Consume st k r)) (fun k b => on_inner (Store.Take st k b))
    (on_inner (Store.Close st)).

Context (RuleOk : Rule -> Prop) (BucketOk : Bucket -> Prop) (P : S -> Prop) (slack : Duration).
Context (st : Store S) `{!BlockReporter RuleOk BucketOk P slack st}.

Definition inner_ok (bs : B * S) : Prop := P bs.2.

#[global] Program Instance pass_through_reporter :
  BlockReporter RuleOk BucketOk inner_ok slack (pass_through st) :=
  {| blocked_until k u bs := blocked_until k u bs.2 |}.
Next Obligation. intros. by eapply blocked_sooner. Qed.
Next Obligation. intros bs Hs. rewrite layer_reading. by apply (reading_keeps (st := st)). Qed.
Next Obligation. intros k u bs Hs Hb. rewrite layer_reading. by apply (reading_blocked (st := st)). Qed.
Next Obligation. intros k r bs Hr Hs. apply (on_inner_keeps P); [|done]. intros. by apply (consume_keeps (st := st)). Qed.
Next Obligation.
  intros k u k' r [b s] Hr Hs Hb. simpl in *. pose proof (consume_blocked (st := st) k u k' r s Hr Hs Hb).
  by destruct (Store.Consume st k' r s).
Qed.
Next Obligation. intros k b bs Hr Hs. apply (on_inner_keeps P); [|done]. intros. by apply (take_keeps (st := st)). Qed.
Next Obligation.
  intros k u k' b [l s] Hr Hs Hb. simpl in *. pose proof (take_blocked (st := st) k u k' b s Hr Hs Hb).
  by destruct (Store.Take st k' b s).
Qed.
Next Obligation.
  intros k r [b s] res [b' s'] Hr Hs E Hb. simpl in E.
  destruct (Store.Consume st k r s) as [o s1] eqn:Ei. simplify_eq. rewrite layer_reading.
  by apply (reported (st := st) k r s).
Qed.

End layers.

(** The breaker hands on what it is told, and answers nothing of its own but errors. *)
Section breaker_reports.
Context {S : Type} `{Clock S} (opts : Breaker.Options).
Context (RuleOk : Rule -> Prop) (BucketOk : Bucket -> Prop) (P : S -> Prop) (slack : Duration).
Context (st : Store S) `{!BlockReporter RuleOk BucketOk P slack st}.

Lemma through_keeps {A} (zero : A) (call : GoM S (A * option error)) (I : S -> Prop) :
  (forall s, I s -> I (clock_now s).2) -> (forall s, I s -> I (call s).2) ->
  Preserves (fun bs : Breaker.State * S => I bs.2) (through opts zero call).
Proof.
  intros Hr Hc. pose proof (now_inner (B := Breaker.State) I Hr).
  pose proof (on_inner_keeps (B := Breaker.State) I call Hc).
  assert (Preserves (fun bs : Breaker.State * S => I bs.2) (allow opts)) by (unfold allow; solve_preserves).
  assert (forall ok, Preserves (fun bs : Breaker.State * S => I bs.2) (record opts ok))
    by (intros ok; unfold record; solve_preserves).
  unfold through. solve_preserves.
Qed.

(** An answer without an error is the inner store's, and the circuit is left closed
    without another look at the clock. *)
Lemma through_answers {A} (zero : A) (call : GoM S (A * option error)) b s res bs' :
  (forall s, P s -> P (clock_now s).2) -> P s ->
  through opts zero call (b, s) = (Returns (res, None), bs') ->
  exists s1 b', P s1 /\ call s1 = (Returns (res, None), bs'.2) /\ bs' = (b', bs'.2).
Proof.
  intros Hr Hs. unfold through.
  assert (Preserves (fun bs : Breaker.State * S => P bs.2) (allow opts)) as Ha.
  { pose proof (now_inner (B := Breaker.State) P Hr). unfold allow. solve_preserves. }
  specialize (Ha (b, s) Hs). unfold gbind at 1. destruct (allow opts (b, s)) as [[[|]|v] [b1 s1]]; try done.
  simpl in Ha. cbn [negb]. unfold gbind, on_inner. destruct (call s1) as [[[r [e|]]|v] s2] eqn:Ec.
  - destruct (record opts false (b1, s2)) as [[u|v] bs2]; done.
  - unfold record. destruct (Threshold opts <=? 0); unfold gret, gbind, get_own, put_own; intros [= -> <-];
      exists s1; [exists b1|exists Breaker.New]; done.
  - done.
Qed.

#[global] Program Instance breaker_reporter :
  BlockReporter RuleOk BucketOk (inner_ok P) slack (Breaker.decorate opts st) :=
  {| blocked_until k u bs := blocked_until k u bs.2 |}.
Next Obligation. intros. by eapply blocked_sooner. Qed.
Next Obligation. intros bs Hs. rewrite layer_reading. by apply (reading_keeps (st := st)). Qed.
Next Obligation. intros k u bs Hs Hb. rewrite layer_reading. by apply (reading_blocked (st := st)). Qed.
Next Obligation.
  intros k r bs Hr Hs. apply (through_keeps Result_zero _ P); [| |done]; intros.
  - by apply (reading_keeps (st := st)).
  - by apply (consume_keeps (st := st)).
Qed.
Next Obligation.
  intros k u k' r bs Hr Hs Hb.
  apply (through_keeps Result_zero _ (fun s => P s /\ blocked_until k u s)); [| |done]; intros s [Hs' Hb'].
  - split; [by apply (reading_keeps (st := st))|by apply (reading_blocked (st := st))].
  - split; [by apply (consume_keeps (st := st))|by apply (consume_blocked (st := st))].
Qed.
Next Obligation.
  intros k b bs Hr Hs. apply (through_keeps TakeResult_zero _ P); [| |done]; intros.
  - by apply (reading_keeps (st := st)).
  - by apply (take_keeps (st := st)).
Qed.
Next Obligation.
  intros k u k' b bs Hr Hs Hb.
  apply (through_keeps TakeResult_zero _ (fun s => P s /\ blocked_until k u s)); [| |done]; intros s [Hs' Hb'].
  - split; [by apply (reading_keeps (st := st))|by apply (reading_blocked (st := st))].
  - split; [by apply (take_keeps (st := st))|by apply (take_blocked (st := st))].
Qed.
Next Obligation.
  intros k r [b s] res bs' Hr Hs E Hb.
  destruct (through_answers Result_zero (Store.Consume st k r) b s res bs') as (s1 & b' & Hs1 & Ec & ->);
    [intros; by apply (reading_keeps (st := st))|done|exact E|].
  rewrite layer_reading. by apply (reported (st := st) k r s1).
Qed.

End breaker_reports.

(** ** The cache is sound over any reporter *)
Section cache_sound.
Context {S : Type} `{Clock S} (opts : BlockCache.Options).
Context (RuleOk : Rule -> Prop) (BucketOk : Bucket -> Prop) (P : S -> Prop) (slack : Duration).
Context (st : Store S) `{!BlockReporter RuleOk BucketOk P slack st}.

(** Limiters' names hold no colon, so [Key.String] tells keys apart. *)
Definition plain_name (k : Key) : Prop := ContainsByte (Key_Limiter k) ":"%char = false.

(** Behind the cache other replicas call the same backend, and time passes: nothing
    lifts a block before its end. *)
Definition world (s s' : S) : Prop :=
  P s' /\ forall k u, blocked_until k u s -> blocked_until k u s'.

(** What happens to a cache: calls, sweeps, and the world behind it. *)
Inductive cache_step : BlockCache.State * S -> BlockCache.State * S -> Prop :=
| cache_consume k r bs : plain_name k -> RuleOk r ->
    cache_step bs (BlockCache.Consume opts st k r bs).2
| cache_take k b bs : BucketOk b -> cache_step bs (BlockCache.Take st k b bs).2
| cache_sweep bs : cache_step bs (sweep bs).2
| cache_world b s s' : world s s' -> cache_step (b, s) (b, s').

(** Every entry is of a block the backend held when it was told, or holds still. *)
Definition sound (bs : BlockCache.State * S) : Prop :=
  P bs.2 /\ forall k until, plain_name k -> entries bs.1 !! Key_String k = Some until ->
    blocked_until k (until - slack) bs.2.

Lemma world_reading s : P s -> world s (clock_now s).2.
Proof. intros Hs. split; [by apply (reading_keeps (st := st))|]. intros. by apply (reading_blocked (st := st)). Qed.

Lemma world_consume k r s : RuleOk r -> P s -> world s (Store.Consume st k r s).2.
Proof. intros Hr Hs. split; [by apply consume_keeps|]. intros. by apply consume_blocked. Qed.

Lemma world_take k b s : BucketOk b -> P s -> world s (Store.Take st k b s).2.
Proof. intros Hr Hs. split; [by apply take_keeps|]. intros. by apply take_blocked. Qed.

Lemma world_trans s1 s2 s3 : world s1 s2 -> world s2 s3 -> world s1 s3.
Proof. intros [_ H1] [H2 H3]. split; auto. Qed.

Lemma sound_world b s s' : sound (b, s) -> world s s' -> sound (b, s').
Proof. intros [_ Hb] [Hs Hw]. split; [done|]. intros k until Hk E. by apply Hw, Hb. Qed.

(** Forgetting entries is harmless. *)
Lemma sound_fewer b b' s : sound (b, s) -> entries b' ⊆ entries b -> sound (b', s).
Proof.
  intros [Hs Hb] Hsub. split; [done|]. intros k until Hk E. apply Hb; [done|].
  by eapply lookup_weaken.
Qed.

Lemma capped_at_most ttl : BlockCache.capped opts ttl <= ttl.
Proof.
  unfold BlockCache.capped. destruct (_ && _) eqn:E; [|lia].
  apply andb_true_iff in E as [_ E]. apply Z.gtb_lt in E. lia.
Qed.

Lemma sound_remember k r b s1 res s2 :
  plain_name k -> RuleOk r -> P s1 ->
  Store.Consume st k r s1 = (Returns (res, None), s2) -> Result_Blocked res = true ->
  sound (b, s2) -> sound (remember opts (Key_String k) (Result_RetryAfter res) (b, s2)).2.
Proof.
  intros Hk Hr Hs1 E Hb Hsound.
  pose proof (reported (st := st) k r s1 res s2 Hr Hs1 E Hb) as Hrep.
  pose proof (sound_world b s2 _ Hsound (world_reading s2 (proj1 Hsound))) as Hsound'.
  destruct (clock_now s2) as [t s3] eqn:En.
  destruct (remember_cases opts b s2 (Key_String k) (Result_RetryAfter res) t s3 En) as [[-> _]|[-> _]];
    [exact Hsound|]. cbn [snd fst] in *. destruct Hsound' as [Hs3 Hent].
  split; [done|]. intros k' until Hk' Ek'. cbn [entries fst] in Ek'.
  apply lookup_insert_Some in Ek' as [[Ekk <-]|[_ Ek']].
  - apply Key_String_inj_aux in Ekk as <-; [|done..].
    eapply blocked_sooner; [|exact Hrep]. pose proof (capped_at_most (Result_RetryAfter res)). lia.
  - by apply Hent.
Qed.

Lemma sound_consume k r bs : plain_name k -> RuleOk r -> sound bs ->
  sound (BlockCache.Consume opts st k r bs).2.
Proof.
  destruct bs as [b s]. intros Hk Hr Hsound. pose proof (proj1 Hsound) as Hs. simpl in Hs.
  destruct (Consume_cases opts st k r b s)
    as [(until & t1 & s1 & t2 & s2 & Ek & En & Hlt & En2 & ->)|(s1 & Hs1 & Hcase)].
  - assert (world s s2) as Hw.
    { pose proof (world_reading s Hs) as Hw1. rewrite En in Hw1.
      pose proof (world_reading s1 (proj1 Hw1)) as Hw2. rewrite En2 in Hw2. by apply world_trans with s1. }
    apply (sound_fewer b); [|done]. by apply (sound_world b s).
  - assert (world s s1) as Hw1.
    { destruct Hs1 as [[_ ->]|(until & t1 & _ & En & _)]; [by split|].
      pose proof (world_reading s Hs) as Hw. by rewrite En in Hw. }
    pose proof (world_consume k r s1 Hr (proj1 Hw1)) as Hw2.
    destruct (Store.Consume st k r s1) as [[[res err]|v] s2] eqn:Ei; cbn [snd] in Hw2.
    + assert (sound (b, s2)) as Hsound2 by (eapply sound_world; [done|]; by apply world_trans with s1).
      destruct Hcase as (bs' & -> & [->|(-> & Hb & _ & Em)]); [done|].
      pose proof (sound_remember k r b s1 res s2 Hk Hr (proj1 Hw1) Ei Hb Hsound2) as Hrem.
      by rewrite Em in Hrem.
    + rewrite Hcase. eapply sound_world; [done|]. by apply world_trans with s1.
Qed.

Lemma sound_step bs bs' : cache_step bs bs' -> sound bs -> sound bs'.
Proof.
  destruct 1 as [k r bs Hk Hr|k b [c s] Hb|[b s]|b s s' Hw]; intros Hsound.
  - by apply sound_consume.
  - pose proof (world_take k b s Hb (proj1 Hsound)) as Hw. unfold BlockCache.Take. simpl.
    destruct (Store.Take st k b s) as [o s']. by apply (sound_world c s).
  - pose proof (world_reading s (proj1 Hsound)) as Hw. destruct (clock_now s) as [t s'] eqn:En.
    rewrite (sweep_run b s t s' En). cbn [snd] in *.
    apply (sound_fewer b); [by apply (sound_world b s)|]. apply map_filter_subseteq.
  - by eapply sound_world.
Qed.

Lemma sound_reachable s0 bs : P s0 -> rtc cache_step (BlockCache.New, s0) bs -> sound bs.
Proof.
  intros Hs0 Hr. assert (sound (BlockCache.New, s0)) as H0.
  { split; [done|]. intros k until _ E. cbn [entries fst BlockCache.New] in E. by rewrite lookup_empty in E. }
  remember (BlockCache.New, s0) as bs0 eqn:E0. clear E0.
  induction Hr as [|bs1 bs2 bs3 Hs _ IH]; [done|]. apply IH. by eapply sound_step.
Qed.

(** What a cached answer says of the backend: [t] is a reading of the call. *)
Definition vouched (k : Key) (s : S) (res : Result) (s' : S) : Prop :=
  exists t, (t = (clock_now s).1 \/ t = (clock_now (clock_now s).2).1) /\
    blocked_until k (t + Z.max 0 (Result_RetryAfter res) - slack) s'.

Lemma cached_block_vouched s0 b s k r res err b' s' :
  P s0 -> rtc cache_step (BlockCache.New, s0) (b, s) -> plain_name k ->
  BlockCache.Consume opts st k r (b, s) = (Returns (res, err), (b', s')) -> hits b' <> hits b ->
  Result_Blocked res = true /\ Result_Count res = -1 /\ err = None /\
  s' = (clock_now (clock_now s).2).2 /\ vouched k s res s'.
Proof.
  intros Hs0 Hr Hk E Hhit. pose proof (sound_reachable _ _ Hs0 Hr) as [Hs Hent]. cbn [fst snd] in *.
  destruct (Consume_cases opts st k r b s)
    as [(until & t1 & s1 & t2 & s2 & Ek & En & Hlt & En2 & Ec)|(s1 & Hs1 & Hcase)].
  - rewrite Ec in E. simplify_eq. unfold vouched. rewrite En. cbn [fst snd Result_RetryAfter].
    rewrite En2. split_and!; [done..|]. cbn [fst snd]. pose proof (world_reading s Hs) as Hw. rewrite En in Hw. cbn [snd] in Hw.
    pose proof (world_reading s1 (proj1 Hw)) as Hw2. rewrite En2 in Hw2.
    assert (blocked_until k (until - slack) s') as Hb by (apply Hw2, Hw, Hent; done).
    destruct (Z.le_gt_cases (Time.Sub until t2) 0) as [Hle|Hgt].
    + exists t1. split; [by left|]. eapply blocked_sooner; [|exact Hb]. lia.
    + exists t2. split; [by right|]. eapply blocked_sooner; [|exact Hb].
      unfold Time.Sub, min_int64, max_int64 in *. lia.
  - exfalso. apply Hhit. destruct (Store.Consume st k r s1) as [[[res' err']|v] s2]; [|congruence].
    destruct Hcase as (bs' & Ec & [->|(_ & _ & _ & Em)]); rewrite Ec in E; [by simplify_eq|].
    simplify_eq. destruct (clock_now s2) as [t s3] eqn:En.
    destruct (remember_cases opts b s2 (Key_String k) (Result_RetryAfter res) t s3 En) as [[Er _]|[Er _]];
      rewrite Er in Em; by simplify_eq.
Qed.

End cache_sound.
