(* ===== verification/Chain.v ===== *)
(** * The store chain ([cmd/forwardlimit], [redisstore.New])

    [redisstore.New] and its TLS material, and [buildStore]'s assembly: block cache
    over circuit breaker over Redis, each decorator optional.  The client library and
    the parsing of certificates are classes. *)
From stdpp Require Import base list gmap strings relations.
From Stdlib Require Import ZArith Lia Ascii String.
From S2P Require Import Prelude.
From S2P Require Import GoStrings.
From S2P Require Import Store.
From S2P Require Import Redis.
From S2P Require Import RedisStore.
From S2P Require Import TokenBucket.
From S2P Require Import Quota.
From S2P Require Import HttpApi.
From S2P Require Import Observability.
From S2P Require Import ConfigEnv.
From S2P Require Import ConfigBuild.
From S2P Require Breaker BlockCache.
From S2P Require Import Blocks.

#[local] Open Scope string_scope.
#[local] Open Scope Z_scope.

(** ** Dialling Redis *)

(** [redisstore.Config] *)
Record StoreConfig : Type := mkStoreConfig {
  sc_Addrs : list string;
  sc_Mode : string;
  sc_TLSEnabled : bool;
  sc_TLSSkipVerify : bool;
  sc_TLSCAFile : string;
  sc_TLSCertFile : string;
  sc_TLSKeyFile : string;
  sc_PoolSize : Z;
  sc_MaxRetries : Z;
  sc_DialTimeout : Duration;
  sc_ReadTimeout : Duration;
  sc_WriteTimeout : Duration;
  sc_KeyPrefix : string;
}.

(** Packages crypto/tls and crypto/x509: whether a bundle holds a certificate, and the
    pair read from two files. *)
Class Certificates : Type := {
  certificate : Type;
  AppendCertsFromPEM : string -> bool;
  LoadX509KeyPair : string -> string -> certificate + error;
}.

Definition VersionTLS12 : Z := 0x0303.

(** [tls.Config]; [RootCAs] is the bundle the pool was filled from. *)
Record tls_config `{Certificates} : Type := mkTLS {
  MinVersion : Z;
  InsecureSkipVerify : bool;
  RootCAs : option string;
  tls_Certificates : list certificate;
}.

(** The options of [redis.NewClient] and [redis.NewClusterClient]. *)
Record client_options `{Certificates} : Type := mkOptions {
  co_Addrs : list string;
  co_TLSConfig : option tls_config;
  co_PoolSize : Z;
  co_MaxRetries : Z;
  co_DialTimeout : Duration;
  co_ReadTimeout : Duration;
  co_WriteTimeout : Duration;
}.

(** The client library: a client is the commands it offers on the state [R]. *)
Class GoRedis (R : Type) `{Certificates} : Type := {
  NewClient : client_options -> Redis R;
  NewClusterClient : client_options -> Redis R;
}.

Section dial.
Context {C : Certificates} {FS : FileSystem}.

(** The client certificate. *)
Definition client_certificate (cfg : StoreConfig) : list certificate + error :=
  let cert := sc_TLSCertFile cfg in
  let key := sc_TLSKeyFile cfg in
  if negb (String.eqb cert "") && negb (String.eqb key "") then
    match LoadX509KeyPair cert key with
    | inr e => inr ("redisstore: loading client certificate: " ++ e)
    | inl loaded => inl [loaded]
    end
  else if negb (String.eqb cert "") || negb (String.eqb key "")
  then inr "redisstore: REDIS_TLS_CERT_FILE and REDIS_TLS_KEY_FILE must be set together"
  else inl [].

(** The roots to verify the server against, or none for the system's. *)
Definition root_cas (cfg : StoreConfig) : option string + error :=
  let ca := sc_TLSCAFile cfg in
  if negb (String.eqb ca "") then
    match ReadFile ca with
    | inr e => inr ("redisstore: reading REDIS_TLS_CA_FILE: " ++ e)
    | inl pem =>
        if negb (AppendCertsFromPEM pem)
        then inr ("redisstore: " ++ ca ++ " contains no PEM certificate")
        else inl (Some pem)
    end
  else inl None.

Definition buildTLS (cfg : StoreConfig) : option tls_config + error :=
  if negb (sc_TLSEnabled cfg) then inl None
  else
    match root_cas cfg with
    | inr e => inr e
    | inl roots =>
        match client_certificate cfg with
        | inr e => inr e
        | inl certs => inl (Some (mkTLS C VersionTLS12 (sc_TLSSkipVerify cfg) roots certs))
        end
    end.

Context {R : Type} {G : GoRedis R}.

(** [redisstore.Store]: the client and the prefix. *)
Record redis_handle : Type := mkHandle { rs_client : Redis R; rs_prefix : string }.

(** What is common to both kinds of client. *)
Definition options_for (cfg : StoreConfig) (addrs : list string) (tls : option tls_config) : client_options :=
  mkOptions C addrs tls (sc_PoolSize cfg) (sc_MaxRetries cfg) (sc_DialTimeout cfg) (sc_ReadTimeout cfg)
    (sc_WriteTimeout cfg).

Definition New (cfg : StoreConfig) : redis_handle + error :=
  match sc_Addrs cfg with
  | [] => inr "redisstore: no addresses configured"
  | addr :: _ =>
      match buildTLS cfg with
      | inr e => inr e
      | inl tls =>
          if String.eqb (sc_Mode cfg) ModeCluster
          then inl (mkHandle (NewClusterClient (options_for cfg (sc_Addrs cfg) tls)) (sc_KeyPrefix cfg))
          else if String.eqb (sc_Mode cfg) ModeSingle
          then inl (mkHandle (NewClient (options_for cfg [addr] tls)) (sc_KeyPrefix cfg))
          else inr ("redisstore: unknown mode " ++ quoted (sc_Mode cfg))
      end
  end.

End dial.

(** ** The chain *)

(** What [main] logs. *)
Inductive main_log : Type :=
| StoreDisabled
| CannotBuildStore (e : error)
| StoreUnreachable (e : error)
| StoreConnected (mode : string) (tls : bool)
| Starting (listen path : string) (limiters dry_run : list string) (store_enabled block_cache : bool) (body : Z)
| ConfigWarning (detail : string)
| ShutdownReceived (timeout : Duration)
| Stopped
| ClosingStore (e : error).

Section chain.
Context {C : Certificates} {FS : FileSystem} {R : Type} {G : GoRedis R} `{Clock R}.
Context (fmt_Rule : Rule -> string) (fmt_Bucket : Bucket -> string).

(** The state of the whole chain: the cache's, the breaker's and Redis's.  A decorator
    that is not configured leaves its part alone. *)
Definition chain : Type := BlockCache.State * (Breaker.State * R).

(** [buildStore]'s results: the store, and the options of the decorators it holds. *)
Record assembled : Type := mkAssembled {
  as_store : Store chain;
  as_cache : option BlockCache.Options;
  as_breaker : option Breaker.Options;
}.

Definition disabled_store : assembled := mkAssembled Noop.Noop None None.

Definition store_config (r : RedisConfig) : StoreConfig :=
  mkStoreConfig (rc_Addrs r) (rc_Mode r) (rc_TLSEnabled r) (rc_TLSSkipVerify r) (rc_TLSCAFile r)
    (rc_TLSCertFile r) (rc_TLSKeyFile r) (rc_PoolSize r) (rc_MaxRetries r) (rc_DialTimeout r)
    (rc_ReadTimeout r) (rc_WriteTimeout r) (rc_KeyPrefix r).

Definition redis_of (rs : redis_handle) : Store R :=
  @NewWithClient R (rs_client rs) fmt_Rule fmt_Bucket (rs_prefix rs).

Definition breaker_options (cfg : Config) : option Breaker.Options :=
  if 0 <? br_Threshold (Config_Breaker cfg)
  then Some (Breaker.mkOptions (br_Threshold (Config_Breaker cfg)) (br_Cooldown (Config_Breaker cfg)))
  else None.

Definition cache_options (cfg : Config) : option BlockCache.Options :=
  if bc_Enabled (Config_BlockCache cfg)
  then Some (BlockCache.mkOptions (bc_MaxEntries (Config_BlockCache cfg)) (bc_MaxTTL (Config_BlockCache cfg)) 0)
  else None.

Definition with_breaker (br : option Breaker.Options) (st : Store R) : Store (Breaker.State * R) :=
  match br with Some opts => Breaker.decorate opts st | None => pass_through st end.

Definition with_cache (bc : option BlockCache.Options) (st : Store (Breaker.State * R)) : Store chain :=
  match bc with Some opts => BlockCache.decorate opts st | None => pass_through st end.

(** The decorators around a store, outermost the cache. *)
Definition assemble (cfg : Config) (rs : redis_handle) : assembled :=
  mkAssembled (with_cache (cache_options cfg) (with_breaker (breaker_options cfg) (redis_of rs)))
    (cache_options cfg) (breaker_options cfg).

Definition main_logs (line : main_log) : GoM (list main_log * R) unit := on_own (fun l => (tt, (l ++ [line])%list)).

Definition buildStore (cfg : Config) : GoM (list main_log * R) assembled :=
  let redis := Config_Redis cfg in
  if negb (rc_Enabled redis) then let! _ := main_logs StoreDisabled in gret disabled_store
  else
    match New (store_config redis) with
    | inr e => let! _ := main_logs (CannotBuildStore e) in gret disabled_store
    | inl rs =>
        let! perr := on_inner (@Redis_Ping R (rs_client rs)) in
        let! _ := main_logs (match perr with
                             | Some e => StoreUnreachable e
                             | None => StoreConnected (rc_Mode redis) (rc_TLSEnabled redis)
                             end) in
        gret (assemble cfg rs)
    end.

(** The chain as it starts, over Redis as it is. *)
Definition chain_start (r : R) : chain := (BlockCache.New, (Breaker.New, r)).

(** [publishStoreMetrics]' closure: the decorators' states, as gauges. *)
Definition publish (a : assembled) (m : Metrics) : GoM chain Metrics :=
  let! m := match as_cache a with
            | Some _ => let! n := BlockCache.Hits in gret (SetBlockCacheHits n m)
            | None => gret m
            end in
  match as_breaker a with
  | Some _ => let! b := on_inner Breaker.Open in gret (SetBreakerOpen b m)
  | None => gret m
  end.

End chain.

(** ** What is built for a configuration *)
Section building.
Context {C : Certificates} {FS : FileSystem} {R : Type} {G : GoRedis R} `{Clock R}.
Context (fmt_Rule : Rule -> string) (fmt_Bucket : Bucket -> string).

(** The TLS material that is configured cannot be used: a bundle that cannot be read or
    holds no certificate, or a pair that does not load. *)
Definition tls_unusable (r : RedisConfig) : Prop :=
  rc_TLSEnabled r = true /\
  ((rc_TLSCAFile r <> "" /\
    match ReadFile (rc_TLSCAFile r) with inl pem => AppendCertsFromPEM pem = false | inr _ => True end) \/
   (rc_TLSCertFile r <> "" /\ rc_TLSKeyFile r <> "" /\
    exists e, LoadX509KeyPair (rc_TLSCertFile r) (rc_TLSKeyFile r) = inr e)).

(** The client [New] makes. *)
Definition dials (r : RedisConfig) (rs : redis_handle (R := R)) : Prop :=
  exists tls, buildTLS (store_config r) = inl tls /\
    (rc_TLSEnabled r = false <-> tls = None) /\
    rs_prefix rs = rc_KeyPrefix r /\
    rs_client rs = if String.eqb (rc_Mode r) ModeCluster
                   then NewClusterClient (options_for (store_config r) (rc_Addrs r) tls)
                   else NewClient (options_for (store_config r) (firstn 1 (rc_Addrs r)) tls).

Lemma root_cas_fails r :
  (exists e, root_cas (store_config r) = inr e) <->
  rc_TLSCAFile r <> "" /\
  match ReadFile (rc_TLSCAFile r) with inl pem => AppendCertsFromPEM pem = false | inr _ => True end.
Proof.
  unfold root_cas, store_config. cbn [sc_TLSCAFile]. destruct (String.eqb_spec (rc_TLSCAFile r) ""); cbn [negb].
  - split; [by intros [??]|by intros [? _]].
  - destruct (ReadFile _) as [pem|e']; [destruct (AppendCertsFromPEM pem); cbn [negb]|].
    + split; [by intros [??]|by intros [_ ?]].
    + split; [done|by eexists].
    + split; [done|by eexists].
Qed.

Lemma client_certificate_fails r :
  (rc_TLSCertFile r = "" <-> rc_TLSKeyFile r = "") ->
  (exists e, client_certificate (store_config r) = inr e) <->
  rc_TLSCertFile r <> "" /\ rc_TLSKeyFile r <> "" /\
  exists e, LoadX509KeyPair (rc_TLSCertFile r) (rc_TLSKeyFile r) = inr e.
Proof.
  intros Hpair. unfold client_certificate, store_config. cbn [sc_TLSCertFile sc_TLSKeyFile].
  destruct (String.eqb_spec (rc_TLSCertFile r) ""), (String.eqb_spec (rc_TLSKeyFile r) ""); cbn [negb andb orb];
    try naive_solver.
  destruct (LoadX509KeyPair _ _) as [c|e]; naive_solver.
Qed.

Lemma buildTLS_fails r :
  (rc_TLSCertFile r = "" <-> rc_TLSKeyFile r = "") ->
  (exists e, buildTLS (store_config r) = inr e) <-> tls_unusable r.
Proof.
  intros Hpair. unfold tls_unusable. rewrite <-(root_cas_fails r), <-(client_certificate_fails r Hpair).
  unfold buildTLS. change (sc_TLSEnabled (store_config r)) with (rc_TLSEnabled r).
  destruct (rc_TLSEnabled r); cbn [negb]; [|naive_solver].
  destruct (root_cas _) as [roots|e]; [|naive_solver].
  destruct (client_certificate _) as [certs|e]; naive_solver.
Qed.

Lemma New_outcome {U : Unicode} stat r :
  ConfigEnv.redis_ok stat r ->
  (tls_unusable r /\ exists e, New (R := R) (store_config r) = inr e) \/
  (~ tls_unusable r /\ exists rs, New (store_config r) = inl rs /\ dials r rs).
Proof.
  intros Hr. pose proof (buildTLS_fails r (ok_pair _ _ Hr)) as Ht.
  assert (forall tls, buildTLS (store_config r) = inl tls -> (rc_TLSEnabled r = false <-> tls = None)) as Hnone.
  { intros tls. unfold buildTLS. change (sc_TLSEnabled (store_config r)) with (rc_TLSEnabled r).
    destruct (rc_TLSEnabled r); cbn [negb]; [|by intros [= <-]].
    destruct (root_cas _); [|done]. destruct (client_certificate _); [|done]. by intros [= <-]. }
  unfold New, dials. change (sc_Addrs (store_config r)) with (rc_Addrs r).
  change (sc_Mode (store_config r)) with (rc_Mode r). change (sc_KeyPrefix (store_config r)) with (rc_KeyPrefix r).
  destruct (rc_Addrs r) as [|addr addrs] eqn:Ea; [by destruct (ok_addrs _ _ Hr)|].
  destruct (buildTLS (store_config r)) as [tls|e] eqn:Eb.
  - right. split; [intros Hu; apply Ht in Hu as [e ?]; done|].
    destruct (ok_mode _ _ Hr) as [->| ->].
    + change (String.eqb ModeSingle ModeCluster) with false. cbn iota.
      change (String.eqb ModeSingle ModeSingle) with true. cbn iota.
      eexists. split; [done|]. exists tls. split_and!; auto.
    + change (String.eqb ModeCluster ModeCluster) with true. cbn iota.
      eexists. split; [done|]. exists tls. split_and!; auto.
  - left. split; [apply Ht; by exists e|by exists e].
Qed.

Lemma buildStore_cases {U : Unicode} stat cfg l (r : R) :
  config_ok stat cfg ->
  (forall rs s, dials (Config_Redis cfg) rs -> exists e s', @Redis_Ping R (rs_client rs) s = (Returns e, s')) ->
  exists a line r', buildStore fmt_Rule fmt_Bucket cfg (l, r) = (Returns a, ((l ++ [line])%list, r')) /\
    ((rc_Enabled (Config_Redis cfg) = false /\ line = StoreDisabled /\ a = disabled_store) \/
     (rc_Enabled (Config_Redis cfg) = true /\ tls_unusable (Config_Redis cfg) /\
      (exists e, line = CannotBuildStore e) /\ a = disabled_store) \/
     (rc_Enabled (Config_Redis cfg) = true /\ ~ tls_unusable (Config_Redis cfg) /\
      exists rs perr, dials (Config_Redis cfg) rs /\ @Redis_Ping R (rs_client rs) r = (Returns perr, r') /\
        a = assemble fmt_Rule fmt_Bucket cfg rs /\
        line = match perr with
               | Some e => StoreUnreachable e
               | None => StoreConnected (rc_Mode (Config_Redis cfg)) (rc_TLSEnabled (Config_Redis cfg))
               end)).
Proof.
  intros [_ Hr] Hping. unfold buildStore. destruct (rc_Enabled (Config_Redis cfg)) eqn:Een; cbn [negb].
  - destruct (Hr eq_refl) as [Hredis _].
    destruct (New_outcome stat _ Hredis) as [[Hu [e ->]]|[Hu (rs & -> & Hd)]].
    + eexists _, _, r. split; [done|]. right. left. split_and!; [done|done|by exists e|done].
    + destruct (Hping rs r Hd) as (perr & r' & Ep).
      eexists _, _, r'. split; [|right; right; split; [done|]; split; [done|]; exists rs, perr; by split_and!].
      rewrite (gbind_returns _ _ _ _ _ (on_inner_run _ l r _ _ Ep)). done.
  - eexists _, _, r. split; [done|]. by left.
Qed.

(** C21: start-up always gets a store.  For a configuration that loads, whatever Redis's
    state, [buildStore] returns and logs one line saying which store it built: nothing
    is limited when the store is disabled or - said as an error - when the TLS material
    cannot be used; otherwise it is the cache over the breaker over a client dialled as
    configured, every key under the configured prefix.  That Redis cannot be reached
    changes the line only. *)
Theorem buildStore_outcomes {U : Unicode} stat cfg l (r : R) :
  config_ok stat cfg ->
  (forall rs s, dials (Config_Redis cfg) rs -> exists e s', @Redis_Ping R (rs_client rs) s = (Returns e, s')) ->
  exists a line r', buildStore fmt_Rule fmt_Bucket cfg (l, r) = (Returns a, ((l ++ [line])%list, r')) /\
    ((rc_Enabled (Config_Redis cfg) = false /\ line = StoreDisabled /\ a = disabled_store) \/
     (rc_Enabled (Config_Redis cfg) = true /\ tls_unusable (Config_Redis cfg) /\
      (exists e, line = CannotBuildStore e) /\ a = disabled_store) \/
     (rc_Enabled (Config_Redis cfg) = true /\ ~ tls_unusable (Config_Redis cfg) /\
      exists rs perr, dials (Config_Redis cfg) rs /\ @Redis_Ping R (rs_client rs) r = (Returns perr, r') /\
        a = assemble fmt_Rule fmt_Bucket cfg rs /\
        line = match perr with
               | Some e => StoreUnreachable e
               | None => StoreConnected (rc_Mode (Config_Redis cfg)) (rc_TLSEnabled (Config_Redis cfg))
               end)).
Proof. apply buildStore_cases. Qed.

End building.

(** ** What the assembled chain promises *)
Section assembled_chain.
Context {C : Certificates} {FS : FileSystem} {R : Type} {G : GoRedis R}.
Context (rs : redis_handle (R := R)).

#[local] Instance client_redis : Redis R := rs_client rs.

Context `{!LawfulRedis R} `{!RedisCommands R} `{!Clock R}.
Context (fmt_Rule : Rule -> string) (fmt_Bucket : Bucket -> string) (cfg : Config).

Abbreviation prefix := (rs_prefix rs).
Abbreviation redis_store := (redis_of fmt_Rule fmt_Bucket rs).
Abbreviation behind_cache := (with_breaker (breaker_options cfg) redis_store).
Abbreviation whole := (as_store (assemble fmt_Rule fmt_Bucket cfg rs)).

Section blocks.
Context (lag : Z) (skew : Duration) `{!SyncedClock R lag skew}.

(** What a block is overestimated by: Redis's rounding, the way back, and the clocks. *)
Definition overshoot : Duration := Second + lag * Millisecond + skew.

#[global] Instance behind_cache_reporter :
  BlockReporter Rule_in_range Bucket_in_range (inner_ok (store_ok prefix)) overshoot behind_cache.
Proof using SyncedClock0 RedisCommands0.
  unfold with_breaker, overshoot. destruct (breaker_options cfg) as [opts|].
  - exact (breaker_reporter opts _ _ _ _ _).
  - exact (pass_through_reporter _ _ _ _ _).
Defined.

Lemma reporter_is_redis k v (bs : Breaker.State * R) :
  blocked_until (BlockReporter := behind_cache_reporter) k v bs <-> redis_blocked prefix k v bs.2.
Proof. unfold behind_cache_reporter. by destruct (breaker_options cfg). Qed.

(** What goes on at a chain with a cache: calls on the configured limiters' keys, sweeps,
    and behind it other replicas and time. *)
Definition chain_step (opts : BlockCache.Options) : chain -> chain -> Prop :=
  cache_step opts Rule_in_range Bucket_in_range (inner_ok (store_ok prefix)) overshoot behind_cache.


End blocks.

(** *** An outage, seen through the chain *)
Section outage.
Context `{!LawfulClock R}.

(** A Redis that cannot be reached: every round trip fails, some time later. *)
Class Unreachable : Prop :=
  unreachable r : clock_ok r -> exists e r', transport r = (NotSent e, r') /\ clock_ok r' /\ instant r <= instant r'.

Context {Down : Unreachable}.

Inductive store_call : Type :=
| CallConsume (k : Key) (rule : Rule)
| CallTake (k : Key) (b : Bucket).

Definition valid_call (c : store_call) : Prop :=
  match c with CallConsume _ rule => Rule_Valid rule = true | CallTake _ b => Bucket_Valid b = true end.

(** A call, of which only the error is kept. *)
Definition err_only {S A} (m : GoM S (A * option error)) : GoM S (unit * option error) :=
  let! (_, err) := m in gret (tt, err).

Definition call_on {S} (st : Store S) (c : store_call) : GoM S (unit * option error) :=
  match c with
  | CallConsume k rule => err_only (Consume st k rule)
  | CallTake k b => err_only (Take st k b)
  end.

Fixpoint call_all {S} (st : Store S) (calls : list store_call) : GoM S (list (unit * option error)) :=
  match calls with
  | [] => gret []
  | c :: calls => let! e := call_on st c in let! es := call_all st calls in gret (e :: es)
  end.

Lemma redis_down c : valid_call c -> Breaker.down (call_on redis_store c).
Proof using Down.
  intros Hv r Hr. destruct (unreachable r Hr) as (e & r' & Et & Hok & Hle).
  destruct c as [k rule|k b]; simpl in Hv; unfold call_on, err_only, redis_of; cbn [Consume Take NewWithClient].
  - unfold Redis_Consume. rewrite Hv. cbn [negb]. unfold gbind, run. fold client_redis. rewrite Et.
    unfold gret. eexists tt, _, r'. by split_and!.
  - unfold Redis_Take. rewrite Hv. cbn [negb]. unfold gbind, run. fold client_redis. rewrite Et.
    unfold gret. eexists tt, _, r'. by split_and!.
Qed.

(** Keeping only the error commutes with the breaker. *)
Lemma through_err_only {A} opts (zero : A) (call : GoM R (A * option error)) bs :
  err_only (Breaker.through opts zero call) bs = Breaker.through opts tt (err_only call) bs.
Proof.
  unfold err_only, Breaker.through, gbind. destruct (Breaker.allow opts bs) as [[[|]|v] [b s]]; try done.
  cbn [negb]. unfold on_inner. destruct (call s) as [[[a e]|v] s']; [|done]. unfold gret.
  by destruct (Breaker.record opts _ (b, s')) as [[u|v] bs'].
Qed.

Lemma breaker_call opts c bs :
  call_on (Breaker.decorate opts redis_store) c bs = Breaker.through opts tt (call_on redis_store c) bs.
Proof. destruct c; apply through_err_only. Qed.

(** Errors pass the cache, which stays empty. *)
Lemma cache_call c (st : Store (Breaker.State * R)) s e s' :
  call_on st c s = (Returns (tt, Some e), s') ->
  call_on (with_cache (cache_options cfg) st) c (BlockCache.New, s) = (Returns (tt, Some e), (BlockCache.New, s')).
Proof.
  intros E. unfold with_cache. destruct (cache_options cfg) as [opts|].
  - destruct c as [k rule|k b]; simpl in E |- *; unfold err_only, gbind in *.
    + unfold BlockCache.Consume. rewrite (gbind_returns _ _ _ _ _ (BlockCache.lookup_absent BlockCache.New s _ eq_refl)).
      unfold gbind, on_inner. destruct (Consume st k rule s) as [[[res err]|v] s1]; [|done].
      unfold gret in *. by simplify_eq.
    + unfold BlockCache.Take, on_inner. destruct (Take st k b s) as [[[res err]|v] s1]; [|done].
      unfold gret in *. by simplify_eq.
  - destruct c as [k rule|k b]; simpl in E |- *; unfold err_only, gbind, on_inner in *.
    + destruct (Consume st k rule s) as [[[res err]|v] s1]; [|done]. unfold gret in *. by simplify_eq.
    + destruct (Take st k b s) as [[[res err]|v] s1]; [|done]. unfold gret in *. by simplify_eq.
Qed.

Lemma chain_run opts calls : 0 < Breaker.Threshold opts -> 0 < Breaker.Cooldown opts ->
  forall b r, Forall valid_call calls -> Breaker.quiescent opts b ->
  Breaker.failures b + Z.of_nat (List.length calls) < max_int64 -> clock_ok r ->
  exists es b' r', Breaker.through_all opts tt (map (call_on redis_store) calls) (b, r) = (Returns es, (b', r')) /\
    call_all (with_cache (cache_options cfg) (Breaker.decorate opts redis_store)) calls (BlockCache.New, (b, r))
      = (Returns es, (BlockCache.New, (b', r'))) /\
    Forall (fun e => e.2 <> None) es.
Proof using Down.
  intros Hth Hcd. induction calls as [|c calls IH]; intros b r Hv Hq Hf Hr; [by exists [], b, r|].
  apply Forall_cons in Hv as [Hc Hv]. cbn [List.length] in Hf.
  destruct (Breaker.down_step opts Hth Hcd tt (call_on redis_store c) b r (redis_down c Hc) Hq ltac:(lia) Hr)
    as ([[] [e|]] & b1 & r1 & E1 & Hq1 & Hf1 & Hr1 & _).
  - destruct (IH b1 r1 Hv Hq1 ltac:(lia) Hr1) as (es & b' & r' & E2 & E3 & He).
    exists ((tt, Some e) :: es), b', r'. cbn [map Breaker.through_all call_all]. split_and!.
    + rewrite (gbind_returns _ _ _ _ _ E1). by rewrite (gbind_returns _ _ _ _ _ E2).
    + rewrite <-breaker_call in E1. apply cache_call in E1.
      rewrite (gbind_returns _ _ _ _ _ E1). by rewrite (gbind_returns _ _ _ _ _ E3).
    + by constructor.
  - exfalso. destruct (through_answers opts clock_ok tt (call_on redis_store c) b r tt (b1, r1))
      as (s1 & b'' & Hs1 & Ec & _); [|done|done|].
    + intros s Hs. destruct (clock_now s) as [t s'] eqn:En. by destruct (clock_reading s t s' Hs En).
    + destruct (redis_down c Hc s1 Hs1) as (res & e' & s' & Ec' & _). congruence.
Qed.


End outage.
End assembled_chain.

(** ** Instances of the theorems *)
Section examples.

#[local] Existing Instances ascii_only one_file.

#[local] Instance no_certificates : Certificates :=
  {| certificate := unit; AppendCertsFromPEM := HasPrefix "-----BEGIN CERTIFICATE"; LoadX509KeyPair _ _ := inl tt |}.

(** The host's clock is Redis's here. *)
#[local] Instance sim_redis_clock : Clock sim_redis := fun r => (sim_ms r * Millisecond, r).

#[local] Program Instance sim_redis_lawful_clock : LawfulClock sim_redis :=
  {| instant r := sim_ms r * Millisecond; clock_ok r := 0 < sim_ms r |}.
Next Obligation. intros r t r' Hr [= <- <-]. split; [lia|done]. Qed.
Next Obligation. intros r Hr. unfold Millisecond. simpl in *. lia. Qed.

(** A server that answers, and one behind a dead network. *)
#[local] Instance dial_sim : GoRedis sim_redis :=
  {| NewClient _ := sim_redis_commands; NewClusterClient _ := sim_redis_commands |}.

Definition timing_out : Redis sim_redis := {|
  TTL := TTL; INCR := INCR; EXPIRE := EXPIRE; SET_EX := SET_EX; DEL := DEL; TIME := TIME;
  HMGET := HMGET; HSET := HSET; PEXPIRE := PEXPIRE;
  transport r := (NotSent "dial tcp 10.0.0.7:6379: i/o timeout", SimRedis (sim_keys r) (sim_ms r + 200));
  client_Ping := gret (Some "dial tcp 10.0.0.7:6379: i/o timeout"); client_Close := client_Close |}.

Definition up : redis_handle := mkHandle sim_redis_commands "forwardlimit:".
Definition down_handle : redis_handle := mkHandle timing_out "forwardlimit:".

#[local] Instance sim_synced : SyncedClock sim_redis 0 0.
Proof.
  split; [|intros r _; simpl; lia|intros r _; simpl; lia]. intros r Hr. split_and!; [done|simpl; lia|].
  symmetry. unfold expire. apply map_filter_id. intros k e Hk. by apply (keys_live r k).
Qed.

Lemma sim_pings (l : list main_log) rs (s : sim_redis) :
  dials (Config_Redis defaults) rs -> exists e s', @Redis_Ping sim_redis (rs_client rs) s = (Returns e, s').
Proof. intros (tls & _ & _ & _ & ->). by eexists _, _. Qed.

(** The defaults: connected, a cache over a breaker. *)
Lemma buildStore_outcomes_witness :
  exists a line r', buildStore no_fmt_Rule no_fmt_Bucket defaults ([], empty_redis)
      = (Returns a, (([] ++ [line])%list, r')) /\
    line = StoreConnected "single" false /\ as_cache a = Some (BlockCache.mkOptions 200000 (60 * Second) 0) /\
    as_breaker a = Some (Breaker.mkOptions 3 (5 * Second)) /\
    ((rc_Enabled (Config_Redis defaults) = false /\ line = StoreDisabled /\ a = disabled_store) \/
     (rc_Enabled (Config_Redis defaults) = true /\ tls_unusable (Config_Redis defaults) /\
      (exists e, line = CannotBuildStore e) /\ a = disabled_store) \/
     (rc_Enabled (Config_Redis defaults) = true /\ ~ tls_unusable (Config_Redis defaults) /\
      exists rs perr, dials (Config_Redis defaults) rs /\
        @Redis_Ping sim_redis (rs_client rs) empty_redis = (Returns perr, r') /\
        a = assemble no_fmt_Rule no_fmt_Bucket defaults rs /\
        line = match perr with
               | Some e => StoreUnreachable e
               | None => StoreConnected (rc_Mode (Config_Redis defaults)) (rc_TLSEnabled (Config_Redis defaults))
               end)).
Proof.
  destruct (buildStore_outcomes no_fmt_Rule no_fmt_Bucket (fun _ => None) defaults [] empty_redis defaults_ok
              (sim_pings [])) as (a & line & r' & E & Hcases).
  exists a, line, r'. split; [exact E|].
  assert (as_cache a = Some (BlockCache.mkOptions 200000 (60 * Second) 0) /\
    as_breaker a = Some (Breaker.mkOptions 3 (5 * Second)) /\ line = StoreConnected "single" false) as (Hc & Hb & Hl).
  { injection E as <- <- _. split_and!; vm_compute; reflexivity. }
  split; [exact Hl|]. split; [exact Hc|]. split; [exact Hb|exact Hcases].
Defined.

Abbreviation default_chain := (as_store (assemble no_fmt_Rule no_fmt_Bucket defaults up)).
Abbreviation default_cache := (BlockCache.mkOptions 200000 (60 * Second) 0).

Definition chain_hit (c : chain) : chain := (Consume default_chain visitor two_per_minute c).2.


#[local] Instance timing_out_unreachable : Unreachable (R := sim_redis) down_handle.
Proof.
  intros r Hr. eexists _, _. split; [reflexivity|]. simpl in *. unfold Millisecond. lia.
Qed.

(** Six calls of both kinds while every dial takes 200 ms: three wait, three do not. *)
Definition outage_calls : list store_call :=
  List.concat (List.repeat [CallConsume visitor two_per_minute; CallTake visitor two_per_second] 3).


End examples.
