(* ===== verification/Fake.v ===== *)
(** * The in-memory store of the tests ([internal/store/storetest])

    [Fake] is the store the engine's tests run on, "reproducing the real semantics".
    Its operations, and in what sense that is true: on whole seconds it is the fixed
    window that the Redis store is. *)
From stdpp Require Import base list gmap strings.
From Stdlib Require Import ZArith Lia QArith Qround Ascii String.
From S2P Require Import Prelude.
From S2P Require Import GoStrings.
From S2P Require Import Float.
From S2P Require Import Store.
From S2P Require Import Redis.
From S2P Require Import RedisStore.
From S2P Require Import TokenBucket.
From S2P Require Import Quota.
From S2P Require Import Blocks.

#[local] Open Scope Z_scope.

(** ** The store *)
Record bucketState : Type := mkBucketState { bs_tokens : Q; bs_ts : Time }.

Section fake.
Context {S : Type}.

(** [Fake]: the time source is a field, over a state [S] of its own. *)
Record Fake : Type := mkFake {
  counts : gmap string Z;
  expires : gmap string Time;
  blocked : gmap string Time;
  buckets : gmap string bucketState;
  source : S -> Time * S;
  Err : option error;
  Calls : Z;
  Closed : bool;
}.

(** [New], with the time source [time.Now] stands for. *)
Definition New (time_Now : S -> Time * S) : Fake := mkFake ∅ ∅ ∅ ∅ time_Now None 0 false.

Definition SetClock (now : S -> Time * S) : GoM (Fake * S) unit :=
  on_own (fun f => (tt, mkFake (counts f) (expires f) (blocked f) (buckets f) now (Err f) (Calls f) (Closed f))).

Definition call : GoM (Fake * S) unit :=
  on_own (fun f => (tt, mkFake (counts f) (expires f) (blocked f) (buckets f) (source f) (Err f)
                          (wrap64 (Calls f + 1)) (Closed f))).

Definition fake_now : GoM (Fake * S) Time :=
  fun '(f, s) => let '(t, s') := source f s in (Returns t, (f, s')).

(** The three maps of the counting window, updated together. *)
Definition set_maps (c : gmap string Z) (e b : gmap string Time) : GoM (Fake * S) unit :=
  on_own (fun f => (tt, mkFake c e b (buckets f) (source f) (Err f) (Calls f) (Closed f))).

Definition set_bucket (k : string) (b : bucketState) : GoM (Fake * S) unit :=
  on_own (fun f => (tt, mkFake (counts f) (expires f) (blocked f) (<[k := b]> (buckets f)) (source f) (Err f)
                          (Calls f) (Closed f))).

(** Counting one more, once no block stands: the window rolls over as the counter's
    TTL makes it in Redis. *)
Definition count_call (k : string) (now : Time) (rule : Rule) : GoM (Fake * S) (Result * option error) :=
  let! f := get_own in
  let fresh := match expires f !! k with None => true | Some exp => negb (Time.Before now exp) end in
  let c := if fresh then <[k := 0]> (counts f) else counts f in
  let e := if fresh then <[k := Time.Add now (Rule_Window rule)]> (expires f) else expires f in
  let count := wrap64 (match c !! k with Some n => n | None => 0 end + 1) in
  if Rule_Limit rule <? count then
    let! _ := set_maps (delete k (<[k := count]> c)) (delete k e) (<[k := Time.Add now (Rule_Block rule)]> (blocked f)) in
    gret (mkResult true count (Rule_Block rule), None)
  else
    let! _ := set_maps (<[k := count]> c) e (blocked f) in
    gret (mkResult false count 0, None).

Definition Fake_Consume (key : Key) (rule : Rule) : GoM (Fake * S) (Result * option error) :=
  let! _ := call in
  let! f := get_own in
  match Err f with
  | Some e => gret (Result_zero, Some e)
  | None =>
      let k := Key_String key in
      let! now := fake_now in
      match blocked f !! k with
      | Some until =>
          if Time.Before now until
          then gret (mkResult true (-1) (Time.Sub until now), None)
          else
            let! _ := set_maps (counts f) (expires f) (delete k (blocked f)) in
            count_call k now rule
      | None => count_call k now rule
      end
  end.

(** Conversions of a double to an integer truncate. *)
Definition to_int (x : Q) : Z := to_reply x.

Definition Fake_Take (key : Key) (bucket : Bucket) : GoM (Fake * S) (TakeResult * option error) :=
  let! _ := call in
  let! f := get_own in
  match Err f with
  | Some e => gret (TakeResult_zero, Some e)
  | None =>
      let k := Key_String key in
      let! now := fake_now in
      let b := match buckets f !! k with
               | Some b => b
               | None => mkBucketState (of_int (Bucket_Burst bucket)) now
               end in
      let elapsed := Time.Sub now (bs_ts b) in
      let tokens :=
        if 0 <? elapsed then
          let t := fadd (bs_tokens b) (fmul (Duration_Seconds elapsed) (of_int (Bucket_Rate bucket))) in
          if Qlt_bool (of_int (Bucket_Burst bucket)) t then of_int (Bucket_Burst bucket) else t
        else bs_tokens b in
      if Qle_bool 1 tokens then
        let tokens := fsub tokens 1 in
        let! _ := set_bucket k (mkBucketState tokens now) in
        gret (mkTakeResult true (to_int tokens) 0, None)
      else
        let! _ := set_bucket k (mkBucketState tokens now) in
        gret (mkTakeResult false 0
                (to_int (fmul (fdiv (fsub 1 tokens) (of_int (Bucket_Rate bucket))) (of_int Second))), None)
  end.

Definition Fake_Close : GoM (Fake * S) (option error) :=
  let! _ := on_own (fun f => (tt, mkFake (counts f) (expires f) (blocked f) (buckets f) (source f) (Err f)
                                   (Calls f) true)) in
  gret None.

Definition CallCount : GoM (Fake * S) Z := let! f := get_own in gret (Calls f).

(** [Fake] as a [store.Store]. *)
Definition fake_store : Store (Fake * S) := mkStore Fake_Consume Fake_Take Fake_Close.

End fake.
Arguments Fake : clear implicits.

(** ** Fake's window *)
Section window.
Context {S : Type} (epoch : Z).
Implicit Types f : Fake S.

(** Redis's milliseconds, counted from [epoch] seconds after Go's zero time. *)
Definition instant_of (n : Z) : Time := n * Millisecond + epoch * Second.
Definition ms_of (t : Time) : Z := (t - epoch * Second) / Millisecond.

Lemma ms_of_instant n : ms_of (instant_of n) = n.
Proof.
  unfold ms_of, instant_of. replace (n * Millisecond + epoch * Second - epoch * Second) with (n * Millisecond) by ring.
  by apply Z.div_mul.
Qed.

(** A whole second. *)
Definition whole (n : Z) : Prop := exists s, n = 1000 * s.
Definition whole_time (t : Time) : Prop := exists n, whole n /\ t = instant_of n.

(** What the maps hold: whole seconds, counts that were counted. *)
Record faithful f : Prop := {
  expires_whole k t : expires f !! k = Some t -> whole_time t;
  blocked_whole k t : blocked f !! k = Some t -> whole_time t;
  counted k t : expires f !! k = Some t -> exists n, counts f !! k = Some n /\ 1 <= n < 2 ^ 53;
}.

(** The window of one key, as of [now] milliseconds. *)
Definition fake_window (now : Z) f (k : Key) : window :=
  mkWindow
    (match expires f !! Key_String k with
     | Some t => if now <? ms_of t
                 then match counts f !! Key_String k with Some n => Some (n, ms_of t) | None => None end
                 else None
     | None => None
     end)
    (match blocked f !! Key_String k with
     | Some t => if now <? ms_of t then Some (ms_of t) else None
     | None => None
     end).

Lemma fake_window_later n n' f k : n <= n' -> fake_window n' f k = lapse n' (fake_window n f k).
Proof.
  intros Hn. unfold fake_window, lapse. cbn [counting held]. f_equal.
  - destruct (expires f !! _) as [t|]; [|done].
    destruct (Z.ltb_spec n (ms_of t)); [|by destruct (Z.ltb_spec n' (ms_of t)); [lia|]].
    destruct (counts f !! _) as [c|]; destruct (Z.ltb_spec n' (ms_of t)); done || lia.
  - destruct (blocked f !! _) as [t|]; [|done].
    destruct (Z.ltb_spec n (ms_of t)); [|by destruct (Z.ltb_spec n' (ms_of t)); [lia|]].
    destruct (Z.ltb_spec n' (ms_of t)); done || lia.
Qed.

Lemma before_ms n t : whole_time t -> Time.Before (instant_of n) t = (n <? ms_of t).
Proof.
  intros (m & _ & ->). rewrite ms_of_instant. unfold Time.Before, instant_of, Millisecond.
  destruct (Z.ltb_spec n m), (Z.ltb_spec (n * 1000000 + epoch * Second) (m * 1000000 + epoch * Second)); done || lia.
Qed.

(** A rule in whole seconds, as files write them. *)
Definition whole_rule (rule : Rule) : Prop :=
  Rule_Window rule = seconds (Rule_Window rule) * Second /\ Rule_Block rule = seconds (Rule_Block rule) * Second.

Lemma add_seconds n s : Time.Add (instant_of n) (s * Second) = instant_of (n + 1000 * s).
Proof. unfold Time.Add, instant_of, Second, Millisecond. ring. Qed.

Lemma whole_add n s : whole n -> whole (n + 1000 * s).
Proof. intros [m ->]. exists (m + s). ring. Qed.

End window.

(** ** One call is one step of the window *)
Section step.
Context {S : Type} (epoch : Z) {R : Type} `{LawfulRedis R}.
Implicit Types f : Fake S.

Abbreviation fw := (fake_window epoch).
Abbreviation faithful := (faithful epoch).

(** [f'] is [f] with the window of [k] moved to [w]. *)
Definition moved (n : Z) f (k : Key) (w : window) f' : Prop :=
  faithful f' /\ fw n f' k = w /\
  (forall k', Key_String k' <> Key_String k -> fw n f' k' = fw n f k') /\
  source f' = source f /\ Err f' = Err f /\ Closed f' = Closed f.

Context (rule : Rule) (Hv : Rule_Valid rule = true) (Hr : Rule_in_range rule) (Hwhole : whole_rule rule).

Lemma rule_seconds : 0 < Rule_Limit rule < 2 ^ 53 /\ 0 < seconds (Rule_Window rule) /\ 0 < seconds (Rule_Block rule).
Proof using Hv Hr.
  apply Rule_Valid_spec in Hv as (? & ? & ?). destruct Hr as (? & Hw & Hb).
  pose proof (seconds_bounds (Rule_Window rule)). pose proof (seconds_bounds (Rule_Block rule)). lia.
Qed.

Lemma window_end n : Time.Add (instant_of epoch n) (Rule_Window rule) = instant_of epoch (n + 1000 * seconds (Rule_Window rule)).
Proof using Hwhole. rewrite <-add_seconds. f_equal. apply Hwhole. Qed.

Lemma block_end n : Time.Add (instant_of epoch n) (Rule_Block rule) = instant_of epoch (n + 1000 * seconds (Rule_Block rule)).
Proof using Hwhole. rewrite <-add_seconds. f_equal. apply Hwhole. Qed.

(** The maps after a refusal, and after a count. *)
Lemma moved_refused n f k (c : gmap string Z) (e : gmap string Time) calls :
  faithful f -> whole n ->
  (forall q, q <> Key_String k -> c !! q = counts f !! q /\ e !! q = expires f !! q) ->
  moved n f k (mkWindow None (Some (n + 1000 * seconds (Rule_Block rule))))
    (mkFake (delete (Key_String k) c) (delete (Key_String k) e)
       (<[Key_String k := Time.Add (instant_of epoch n) (Rule_Block rule)]> (blocked f))
       (buckets f) (source f) (Err f) calls (Closed f)).
Proof using Hv Hr Hwhole.
  intros Hf Hn Ho. destruct rule_seconds as (_ & _ & Hb).
  rewrite block_end. split_and!; [|..|done|done|done].
  - split; cbn [counts expires blocked].
    + intros q t [Hq Et]%lookup_delete_Some. destruct (Ho q (not_eq_sym Hq)) as [_ Ee]. rewrite Ee in Et.
      by eapply expires_whole.
    + intros q t [[_ <-]|[_ Et]]%lookup_insert_Some; [|by eapply blocked_whole].
      exists (n + 1000 * seconds (Rule_Block rule)). split; [by apply whole_add|done].
    + intros q t [Hq Et]%lookup_delete_Some. destruct (Ho q (not_eq_sym Hq)) as [Ec Ee]. rewrite Ee in Et.
      rewrite lookup_delete_ne, Ec by done. by eapply counted.
  - unfold fake_window. cbn [counts expires blocked]. rewrite lookup_delete_eq, lookup_insert_eq, ms_of_instant.
    by destruct (Z.ltb_spec n (n + 1000 * seconds (Rule_Block rule))); [|lia].
  - intros k' Hk'. destruct (Ho _ Hk') as [Ec Ee]. unfold fake_window. cbn [counts expires blocked].
    rewrite !lookup_delete_ne, lookup_insert_ne by done. by rewrite Ec, Ee.
Qed.

Lemma moved_counted n f k count x (c : gmap string Z) (e : gmap string Time) calls :
  faithful f -> whole x -> n < x -> 1 <= count < 2 ^ 53 -> blocked f !! Key_String k = None ->
  e !! Key_String k = Some (instant_of epoch x) ->
  (forall q, q <> Key_String k -> c !! q = counts f !! q /\ e !! q = expires f !! q) ->
  moved n f k (mkWindow (Some (count, x)) None)
    (mkFake (<[Key_String k := count]> c) e (blocked f) (buckets f) (source f) (Err f) calls (Closed f)).
Proof.
  intros Hf Hx Hlt Hc Hb Ek Ho. split_and!; [|..|done|done|done].
  - split; cbn [counts expires blocked]; [| |].
    + intros q t Et. destruct (stdpp.base.decide (q = Key_String k)) as [->|Hq].
      * rewrite Ek in Et. simplify_eq. by exists x.
      * destruct (Ho q Hq) as [_ Ee]. rewrite Ee in Et. by eapply expires_whole.
    + intros q t Et. by eapply blocked_whole.
    + intros q t Et. destruct (stdpp.base.decide (q = Key_String k)) as [->|Hq].
      * exists count. by rewrite lookup_insert_eq.
      * destruct (Ho q Hq) as [Ec Ee]. rewrite Ee in Et. rewrite lookup_insert_ne, Ec by done.
        by eapply counted.
  - unfold fake_window. cbn [counts expires blocked]. rewrite Ek, Hb, lookup_insert_eq, ms_of_instant.
    by destruct (Z.ltb_spec n x); [|lia].
  - intros k' Hk'. destruct (Ho _ Hk') as [Ec Ee]. unfold fake_window. cbn [counts expires blocked].
    rewrite lookup_insert_ne by done. by rewrite Ec, Ee.
Qed.

Lemma count_call_step n f k (s : S) :
  faithful f -> whole n -> blocked f !! Key_String k = None ->
  let (h, w) := count_step n (Rule_Limit rule) (seconds (Rule_Window rule)) (seconds (Rule_Block rule)) (fw n f k) in
  exists f', count_call (Key_String k) (instant_of epoch n) rule (f, s)
      = (Returns (result_of h, None), (f', s)) /\ moved n f k w f'.
Proof using Hv Hr Hwhole.
  intros Hf Hn Hb. destruct rule_seconds as (Hl & Hw & Hbl). destruct Hwhole as [_ Eb].
  unfold count_step, count_call, fake_window. cbn [counting held]. rewrite Hb.
  go_unfold.
  assert (forall exp, expires f !! Key_String k = Some exp ->
    Time.Before (instant_of epoch n) exp = (n <? ms_of epoch exp)) as Hbefore
    by (intros exp E; by eapply before_ms, expires_whole).
  destruct (expires f !! Key_String k) as [exp|] eqn:Ee; [rewrite (Hbefore exp eq_refl);
    destruct (Z.ltb_spec n (ms_of epoch exp)) as [Hlt|Hge]|]; cbn [negb].
  - destruct (counted _ _ Hf _ _ Ee) as (c & Ec & Hc). rewrite Ec.
    assert (wrap64 (c + 1) = c + 1) as -> by (apply wrap64_id; unfold in_int64, min_int64, max_int64; lia).
    destruct (expires_whole _ _ Hf _ _ Ee) as (x & Hx & ->). rewrite ms_of_instant in *.
    destruct (Rule_Limit rule <? c + 1) eqn:El.
    + eexists. split; [unfold set_maps; go_unfold; unfold result_of; cbn [refused number wait]; by rewrite <-Eb|].
      apply moved_refused; [done|done|]. intros q Hq. by rewrite lookup_insert_ne by done.
    + eexists. split; [unfold set_maps; go_unfold; reflexivity|].
      apply Z.ltb_ge in El. apply moved_counted; [done|done|done|lia|done|done|done].
  - rewrite lookup_insert_eq. change (wrap64 (0 + 1)) with 1. destruct (Z.ltb_spec (Rule_Limit rule) 1); [lia|].
    eexists. split; [unfold set_maps; go_unfold; reflexivity|].
    rewrite window_end. apply moved_counted; [done|by apply whole_add|lia|lia|done|by rewrite lookup_insert_eq|].
    intros q Hq. by rewrite !lookup_insert_ne by done.
  - rewrite lookup_insert_eq. change (wrap64 (0 + 1)) with 1. destruct (Z.ltb_spec (Rule_Limit rule) 1); [lia|].
    eexists. split; [unfold set_maps; go_unfold; reflexivity|].
    rewrite window_end. apply moved_counted; [done|by apply whole_add|lia|lia|done|by rewrite lookup_insert_eq|].
    intros q Hq. by rewrite !lookup_insert_ne by done.
Qed.

(** Forgetting a block that is over changes nothing. *)
Lemma faithful_unblock f k calls :
  faithful f ->
  faithful (mkFake (counts f) (expires f) (delete k (blocked f)) (buckets f) (source f) (Err f) calls (Closed f)).
Proof.
  intros Hf. split; cbn [counts expires blocked]; [apply Hf| |apply Hf].
  intros q t [_ Et]%lookup_delete_Some. by eapply blocked_whole.
Qed.

Lemma moved_same_maps n f g k w f' :
  (forall k', fw n g k' = fw n f k') -> source g = source f -> Err g = Err f -> Closed g = Closed f ->
  moved n g k w f' -> moved n f k w f'.
Proof.
  intros Hw Es Ee Ec (Hf & Hk & Ho & ? & ? & ?). split_and!; [done|done| |congruence..].
  intros k' Hk'. by rewrite Ho, Hw.
Qed.

(** The time left of a block is told alike on whole seconds. *)
Lemma block_left n x :
  whole n -> whole x -> n < x <= n + 1000 * 2 ^ 33 ->
  0 < ttl_round (x - n) /\
  Time.Sub (instant_of epoch x) (instant_of epoch n) = ttl_round (x - n) * Second.
Proof.
  intros [a ->] [b ->] Hx. destruct (ttl_round_near (1000 * b - 1000 * a)) as [_ Ht]; [lia|].
  assert (ttl_round (1000 * b - 1000 * a) = b - a) as -> by lia. split; [lia|].
  unfold Time.Sub, instant_of, Second, Millisecond, min_int64, max_int64. lia.
Qed.

Lemma consume_step n f k (s s' : S) :
  faithful f -> Err f = None -> whole n -> source f s = (instant_of epoch n, s') ->
  (forall u, held (fw n f k) = Some u -> u <= n + 1000 * 2 ^ 33) ->
  let (h, w) := rule_step rule n (fw n f k) in
  exists f', Fake_Consume k rule (f, s) = (Returns (result_of h, None), (f', s')) /\ moved n f k w f'.
Proof using Hv Hr Hwhole.
  intros Hf He Hn Es Hu. unfold rule_step, window_step.
  set (g := mkFake (counts f) (expires f) (blocked f) (buckets f) (source f) (Err f) (wrap64 (Calls f + 1)) (Closed f)).
  assert (faithful g) as Hg by (split; apply Hf).
  assert (Fake_Consume k rule (f, s) =
    match blocked f !! Key_String k with
    | Some until =>
        if Time.Before (instant_of epoch n) until
        then (Returns (mkResult true (-1) (Time.Sub until (instant_of epoch n)), None), (g, s'))
        else (let! _ := set_maps (counts g) (expires g) (delete (Key_String k) (blocked g)) in
              count_call (Key_String k) (instant_of epoch n) rule) (g, s')
    | None => count_call (Key_String k) (instant_of epoch n) rule (g, s')
    end) as ->.
  { unfold Fake_Consume. rewrite (gbind_returns call _ (f, s) tt (g, s) eq_refl).
    rewrite (gbind_returns get_own _ (g, s) g (g, s) eq_refl). change (Err g) with (Err f). rewrite He.
    assert (fake_now (g, s) = (Returns (instant_of epoch n), (g, s'))) as En
      by (unfold fake_now; change (source g s) with (source f s); by rewrite Es).
    rewrite (gbind_returns _ _ _ _ _ En). change (blocked g) with (blocked f).
    destruct (blocked f !! Key_String k) as [until|]; [|done]. by destruct (Time.Before _ _). }
  assert (held (fw n f k) = match blocked f !! Key_String k with
    | Some t => if n <? ms_of epoch t then Some (ms_of epoch t) else None | None => None end) as Eh by done.
  rewrite Eh in Hu |- *.
  destruct (blocked f !! Key_String k) as [until|] eqn:Eb.
  - rewrite (before_ms epoch n until) by by eapply blocked_whole.
    destruct (blocked_whole _ _ Hf _ _ Eb) as (x & Hx & ->). rewrite ms_of_instant in *.
    destruct (Z.ltb_spec n x) as [Hlt|Hge].
    + destruct (block_left n x Hn Hx) as [Hpos Hsub]; [split; [done|by apply Hu]|].
      rewrite (proj2 (Z.ltb_lt _ _) Hpos). exists g. split; [by rewrite Hsub|].
      apply (moved_same_maps n f g); [done..|]. by split_and!.
    + set (g' := mkFake (counts g) (expires g) (delete (Key_String k) (blocked g)) (buckets g) (source g) (Err g)
                   (Calls g) (Closed g)).
      assert (forall k', fw n g' k' = fw n f k') as Hsame.
      { intros k'. unfold fake_window. cbn [counts expires blocked g' g]. f_equal.
        destruct (stdpp.base.decide (Key_String k' = Key_String k)) as [->|Hne].
        - rewrite lookup_delete_eq, Eb, ms_of_instant. by destruct (Z.ltb_spec n x); [lia|].
        - by rewrite lookup_delete_ne by done. }
      pose proof (count_call_step n g' k s' (faithful_unblock g _ _ Hg) Hn (lookup_delete_eq _ _)) as Hc.
      rewrite Hsame in Hc.
      destruct (count_step _ _ _ _ _) as [h w]. destruct Hc as (f' & E & Hm). exists f'. split; [exact E|].
      by apply (moved_same_maps n f g').
  - pose proof (count_call_step n g k s' Hg Hn Eb) as Hc. change (fw n g k) with (fw n f k) in Hc.
    destruct (count_step _ _ _ _ _) as [h w]. destruct Hc as (f' & E & Hm). exists f'. split; [exact E|].
    by apply (moved_same_maps n f g).
Qed.

End step.

(** ** Side by side with Redis *)
Section mirror.
Context {S : Type} (epoch : Z) {R : Type} `{RedisCommands R}.
Context (fmt_Rule : Rule -> string) (prefix : string).
Implicit Types f : Fake S.

(** Keys on which neither store's encoding merges buckets. *)
Definition simple_key (k : Key) : Prop := plain_name k /\ contains_brace (Key_Bucket k) = false.

Lemma simple_key_tells k k' : simple_key k -> simple_key k' -> k' <> k ->
  Key_String k' <> Key_String k /\ ~ same_bucket k k'.
Proof.
  intros [Hp Hb] [Hp' Hb'] Hne. split.
  - intros E. by apply Key_String_inj_aux in E.
  - intros [El Eb]. rewrite !SanitizeBucket_id in Eb by done. destruct k, k'. simpl in *. congruence.
Qed.

(** Both stores hold the same windows, on a whole second. *)
Record mirrors f (r : R) : Prop := {
  mirror_ok : store_ok prefix r;
  mirror_whole : whole (ms r);
  mirror_faithful : faithful epoch f;
  mirror_err : Err f = None;
  mirror_windows k : simple_key k -> window_of prefix r k = fake_window epoch (ms r) f k;
}.

Lemma mirrors_idle f r r' : mirrors f r -> idle r r' -> whole (ms r') -> mirrors f r'.
Proof.
  intros Hm Hi Hw. split; [by eapply store_ok_idle, Hi; apply Hm|done|apply Hm|apply Hm|].
  intros k Hk. rewrite (window_of_idle prefix r r' k (mirror_ok _ _ Hm) Hi), (mirror_windows _ _ Hm k Hk).
  symmetry. apply fake_window_later, Hi.
Qed.

(** Two fresh stores. *)
Lemma mirrors_fresh (time_Now : S -> Time * S) r :
  store_ok prefix r -> whole (ms r) -> keys r = ∅ -> mirrors (New time_Now) r.
Proof.
  intros Hok Hw HK. split; [done|done|split; cbn [counts expires blocked New]; intros k t; by rewrite lookup_empty|done|].
  intros k _. unfold window_of, fake_window. rewrite HK, !lookup_empty. cbn [counts expires blocked New].
  by rewrite !lookup_empty.
Qed.

Lemma mirror_step f r k rule (s s1 : S) :
  mirrors f r -> simple_key k -> Rule_Valid rule = true -> Rule_in_range rule -> whole_rule rule ->
  source f s = (instant_of epoch (ms r), s1) -> (transport r).1 = Delivered ->
  exists res f1 r1, Fake_Consume k rule (f, s) = (Returns (res, None), (f1, s1)) /\
    Redis_Consume fmt_Rule prefix k rule r = (Returns (res, None), r1) /\ mirrors f1 r1.
Proof.
  intros Hm Hk Hv Hr Hwhole Es Hd. pose proof (mirror_ok _ _ Hm) as Hok.
  pose proof (mirror_windows _ _ Hm k Hk) as Ew.
  destruct (Consume_refines fmt_Rule prefix r k rule Hok Hv Hr) as (res & err & r1 & Er & Hst).
  rewrite Hd in Hst. destruct Hst as (-> & -> & Hok1 & Ems & Ew1 & Eo & _).
  pose proof (consume_step epoch rule Hv Hr Hwhole (ms r) f k s s1 (mirror_faithful _ _ Hm)
    (mirror_err _ _ Hm) (mirror_whole _ _ Hm) Es) as Hc.
  rewrite <-Ew in Hc. destruct (rule_step rule (ms r) (window_of prefix r k)) as [h w].
  destruct Hc as (f1 & Ef & Hf1 & Hw1 & Ho1 & _ & He1 & _).
  { intros u Hu. destruct Hok as (_ & Hh & _). destruct (Hh k) as (_ & _ & _ & Hb). by apply Hb. }
  exists (result_of h), f1, r1. split; [exact Ef|]. split; [exact Er|].
  split; [done|by rewrite Ems; apply Hm|done|by rewrite He1; apply Hm|].
  intros k' Hk'. rewrite Ems. destruct (stdpp.base.decide (k' = k)) as [->|Hne].
  - by rewrite Ew1, Hw1.
  - destruct (simple_key_tells k k' Hk Hk' Hne) as [Hs Hb]. by rewrite Eo, Ho1, (mirror_windows _ _ Hm).
Qed.

(** The same calls made of both, whole seconds apart, and what each answers. *)
Inductive side_by_side : Fake S -> R -> list (outcome (Result * option error) * outcome (Result * option error)) -> Prop :=
| side_nil f r : side_by_side f r []
| side_wait f r r' l : idle r r' -> whole (ms r') -> side_by_side f r' l -> side_by_side f r l
| side_call f r k rule s oa f1 s1 ob r1 l :
    simple_key k -> Rule_Valid rule = true -> Rule_in_range rule -> whole_rule rule ->
    (source f s).1 = instant_of epoch (ms r) -> (transport r).1 = Delivered ->
    Fake_Consume k rule (f, s) = (oa, (f1, s1)) -> Redis_Consume fmt_Rule prefix k rule r = (ob, r1) ->
    side_by_side f1 r1 l -> side_by_side f r ((oa, ob) :: l).

(** C29: the tests' store behaves as production does.  From stores that hold the same, on
    whole seconds and under rules in whole seconds, the fake and the Redis store answer
    every sequence of [Consume] calls alike, result for result: the engine's tests
    exercise the window, the block and the fresh start that production has. *)
Theorem fake_mirrors_redis f r l :
  mirrors f r -> side_by_side f r l ->
  Forall (fun '(a, b) => a = b /\ exists res, a = Returns (res, None)) l.
Proof.
  intros Hm Hl. induction Hl as [f r|f r r' l Hi Hw _ IH|f r k rule s oa f1 s1 ob r1 l Hk Hv Hr Hwh Es Hd Ea Eb _ IH].
  - done.
  - apply IH. by eapply mirrors_idle.
  - destruct (source f s) as [t s0] eqn:Esrc. simpl in Es. subst t.
    destruct (mirror_step f r k rule s s0 Hm Hk Hv Hr Hwh Esrc Hd) as (res & f2 & r2 & Ef & Er & Hm2).
    rewrite Ea in Ef. rewrite Eb in Er. simplify_eq. constructor; [|by apply IH].
    split; [done|by exists res].
Qed.

End mirror.

(** ** Instances of the theorems *)
Section examples.

(** The seconds from Go's zero time to Unix's, and a clock that reads them off [Z]. *)
Definition unix_epoch : Z := 62135596800.
Definition manual_clock (n : Z) : Time * Z := (instant_of unix_epoch n, n).

Definition fresh_fake : Fake Z := New manual_clock.

Definition fake_run (x : Fake Z * Z) : outcome (Result * option error) * (Fake Z * Z) :=
  Fake_Consume visitor two_per_minute x.

Lemma two_per_minute_whole : whole_rule two_per_minute.
Proof. split; vm_compute; reflexivity. Qed.

Lemma whole_start n : whole (start_ms + 1000 * n).
Proof. exists (1700000000 + n). unfold start_ms. ring. Qed.

(** One call of both, as they compute. *)
Lemma side_hit f r l :
  source f (ms r) = manual_clock (ms r) ->
  side_by_side unix_epoch no_fmt_Rule "fl:" (fake_run (f, ms r)).2.1 (after r) l ->
  side_by_side unix_epoch no_fmt_Rule "fl:" f r
    (((fake_run (f, ms r)).1, (Redis_Consume no_fmt_Rule "fl:" visitor two_per_minute r).1) :: l).
Proof.
  intros Es Hl. destruct two_per_minute_ok as [Hv Hr].
  apply (side_call unix_epoch no_fmt_Rule "fl:" f r visitor two_per_minute (ms r) _
           (fake_run (f, ms r)).2.1 (fake_run (f, ms r)).2.2 _ (after r));
    [by split|done|done|exact two_per_minute_whole|by rewrite Es|done| | |exact Hl].
  - unfold fake_run. by destruct (Fake_Consume visitor two_per_minute (f, ms r)) as [o [f1 s1]].
  - unfold after. by destruct (Redis_Consume no_fmt_Rule "fl:" visitor two_per_minute r).
Qed.

Definition fake_after (f : Fake Z) (n : Z) : Fake Z := (fake_run (f, n)).2.1.

(** Two calls are counted and, a second later, the third is refused. *)
Lemma fake_mirrors_redis_witness :
  exists l, side_by_side unix_epoch no_fmt_Rule "fl:" fresh_fake empty_redis l /\
    map fst l = [Returns (ok1, None); Returns (ok2, None); Returns (no3, None)] /\
    Forall (fun '(a, b) => a = b /\ exists res, a = Returns (res, None)) l.
Proof.
  assert (mirrors unix_epoch "fl:" fresh_fake empty_redis) as Hm.
  { apply mirrors_fresh; [apply empty_ok|by apply (whole_start 0)|done]. }
  pose (r2 := after (after empty_redis)).
  assert (store_ok "fl:" r2) as Hok by apply after_ok, after_ok, empty_ok.
  assert (exists l, side_by_side unix_epoch no_fmt_Rule "fl:" fresh_fake empty_redis l /\
    map fst l = [Returns (ok1, None); Returns (ok2, None); Returns (no3, None)]) as (l & Hs & El).
  { eexists. split.
    - apply (side_hit fresh_fake empty_redis); [reflexivity|].
      apply (side_hit (fake_after fresh_fake start_ms) (after empty_redis)); [reflexivity|].
      apply (side_wait _ _ _ _ _ (sim_wait 1000 r2)).
      { apply sim_idle; [done|apply Hok|by vm_compute]. }
      { change (whole (start_ms + 1000 * 1)). apply whole_start. }
      apply (side_hit (fake_after (fake_after fresh_fake start_ms) start_ms) (sim_wait 1000 r2)); [reflexivity|].
      apply side_nil.
    - vm_compute. reflexivity. }
  exists l. split; [exact Hs|]. split; [exact El|].
  exact (fake_mirrors_redis unix_epoch no_fmt_Rule "fl:" fresh_fake empty_redis l Hm Hs).
Defined.

End examples.
