(* ===== verification/Program.v ===== *)
(** * The program ([cmd/forwardlimit/main.go])

    The command line, the health probe, [-validate], and [run]: from the environment
    and the file to a service that answers until it is told to stop.  What the world
    does to a running service - requests, the publisher's turns, a signal, a listener
    that fails - is a list of events. *)
From stdpp Require Import base list gmap strings relations.
From Stdlib Require Import ZArith Lia Ascii String.
From S2P Require Import Prelude.
From S2P Require Import GoStrings.
From S2P Require Import GoParse.
From S2P Require Import Store.
From S2P Require Import Request.
From S2P Require Import Limiter.
From S2P Require Import Engine.
From S2P Require Import Redis.
From S2P Require Import RedisStore.
From S2P Require Import TokenBucket.
From S2P Require Import Keyer.
From S2P Require Import HttpApi.
From S2P Require Import Mux.
From S2P Require Import Observability.
From S2P Require Import ConfigEnv.
From S2P Require Import ConfigFile.
From S2P Require Import ConfigBuild.
From S2P Require Import Service.
From S2P Require Breaker BlockCache.
From S2P Require Import Blocks.
From S2P Require Import Chain.

#[local] Open Scope string_scope.
#[local] Open Scope Z_scope.

(** ** The command line *)
Record flags : Type := mkFlags {
  configPath : string;
  showVersion : bool;
  healthcheck : bool;
  validate_only : bool;
}.

(** The errors of package flag. *)
Inductive flag_error : Type :=
| BadSyntax (arg : string)
| NotDefined (name : string)
| HelpRequested
| BadBoolean (value name : string)
| NeedsArgument (name : string).

(** An argument as package flag reads it. *)
Inductive arg_kind : Type :=
| NotAFlag
| Terminator
| Malformed
| FlagArg (name : string) (value : option string).

Definition arg_name (name : string) : arg_kind :=
  match name with
  | EmptyString => Malformed
  | String c rest =>
      if Ascii.eqb c "-" || Ascii.eqb c "=" then Malformed
      else
        let '(tail, value, found) := Cut rest "=" in
        FlagArg (String c tail) (if (found : bool) then Some value else None)
  end.

Definition classify (s : string) : arg_kind :=
  match s with
  | String "-" (String "-" EmptyString) => Terminator
  | String "-" (String "-" name) => arg_name name
  | String "-" EmptyString => NotAFlag
  | String "-" name => arg_name name
  | _ => NotAFlag
  end.

(** A boolean flag's value: [true] when none is given. *)
Definition flag_bool (value : option string) : option bool :=
  match value with None => Some true | Some v => ParseBool v end.

Definition set_bool (name : string) (value : option string) (set : bool -> flags) : flags + flag_error :=
  match flag_bool value with
  | Some b => inl (set b)
  | None => inr (BadBoolean (match value with Some v => v | None => "true" end) name)
  end.

(** [FlagSet.Parse] on the four flags: what follows the first argument that is not a
    flag is left alone. *)
Fixpoint parse_args (argv : list string) (f : flags) : flags + flag_error :=
  match argv with
  | [] => inl f
  | s :: rest =>
      match classify s with
      | NotAFlag | Terminator => inl f
      | Malformed => inr (BadSyntax s)
      | FlagArg name value =>
          if String.eqb name "config" then
            match value, rest with
            | Some v, _ => parse_args rest (mkFlags v (showVersion f) (healthcheck f) (validate_only f))
            | None, v :: rest => parse_args rest (mkFlags v (showVersion f) (healthcheck f) (validate_only f))
            | None, [] => inr (NeedsArgument name)
            end
          else
            let set :=
              if String.eqb name "version" then
                Some (fun b => mkFlags (configPath f) b (healthcheck f) (validate_only f))
              else if String.eqb name "healthcheck" then
                Some (fun b => mkFlags (configPath f) (showVersion f) b (validate_only f))
              else if String.eqb name "validate" then
                Some (fun b => mkFlags (configPath f) (showVersion f) (healthcheck f) b)
              else None in
            match set with
            | Some set =>
                match set_bool name value set with
                | inl f => parse_args rest f
                | inr e => inr e
                end
            | None =>
                if String.eqb name "help" || String.eqb name "h" then inr HelpRequested
                else inr (NotDefined name)
            end
      end
  end.

(** [parseFlags]: the default of [-config] is what the environment says. *)
Definition parseFlags (argv : list string) (defaultConfig : string) : flags + flag_error :=
  parse_args argv (mkFlags defaultConfig false false false).

(** ** The health probe *)
Inductive addr_error : Type := MissingPort | TooManyColons | MissingBracket | UnexpectedOpen | UnexpectedClose.

(** The last [:] of a string: what precedes and what follows it. *)
Fixpoint cut_last (s : string) : option (string * string) :=
  match s with
  | EmptyString => None
  | String c s' =>
      match cut_last s' with
      | Some (before, after) => Some (String c before, after)
      | None => if Ascii.eqb c ":" then Some (EmptyString, s') else None
      end
  end.

(** What may follow the closing bracket, and what is left of it for the port. *)
Definition after_bracket (after : string) : string + addr_error :=
  match after with
  | EmptyString => inr MissingPort
  | String c port =>
      if Ascii.eqb c ":" then (if ContainsByte port ":" then inr TooManyColons else inl port)
      else inr MissingPort
  end.

(** What follows an opening bracket. *)
Definition unbracket (s : string) : option string :=
  match s with
  | EmptyString => None
  | String c rest => if Ascii.eqb c "[" then Some rest else None
  end.

(** [net.SplitHostPort] *)
Definition SplitHostPort (hostport : string) : (string * string) + addr_error :=
  match cut_last hostport with
  | None => inr MissingPort
  | Some (before, port) =>
      match unbracket hostport with
      | Some rest =>
          let '(host, after, closed) := Cut rest "]" in
          if negb closed then inr MissingBracket
          else
            match after_bracket after with
            | inr e => inr e
            | inl port =>
                if ContainsByte rest "[" then inr UnexpectedOpen
                else if ContainsByte after "]" then inr UnexpectedClose
                else inl (host, port)
            end
      | None =>
          if ContainsByte before ":" then inr TooManyColons
          else if ContainsByte hostport "[" then inr UnexpectedOpen
          else if ContainsByte hostport "]" then inr UnexpectedClose
          else inl (before, port)
      end
  end.

(** [net.JoinHostPort] *)
Definition JoinHostPort (host port : string) : string :=
  if ContainsByte host ":" then "[" ++ host ++ "]:" ++ port else host ++ ":" ++ port.

Inductive probe_error : Type :=
| BadListenAddr (addr : string) (e : addr_error)
| ProbeFailed (e : error)
| Unhealthy (url : string) (status : Z).

(** A wildcard address is not one to dial. *)
Definition probe_host (host : string) : string :=
  if String.eqb host "" || String.eqb host "0.0.0.0" || String.eqb host "::" then "127.0.0.1" else host.

Definition probe_url (host port : string) : string :=
  "http://" ++ JoinHostPort (probe_host host) port ++ "/healthz".

(** [probeHealth], over what a GET of an address gives. *)
Definition probeHealth (get : string -> Z + error) (addr : string) : option probe_error :=
  match SplitHostPort addr with
  | inr e => Some (BadListenAddr addr e)
  | inl (host, port) =>
      let url := probe_url host port in
      match get url with
      | inr e => Some (ProbeFailed e)
      | inl status => if negb (status =? 200) then Some (Unhealthy url status) else None
      end
  end.

(** ** [run] *)

(** What [-validate] prints, on the two streams. *)
Record printed : Type := mkPrinted { out_lines : list string; err_lines : list string }.

(** [report] *)
Definition report (path : string) (cfg : Config) (b : Built) : printed :=
  mkPrinted
    (("config:  " ++ path) :: "valid:   yes" ::
     (match Built_Limiters b with
      | [] => "active:  none"
      | _ => "active:  " ++ Join (Names b) ", "
      end) ::
     (match DryRunNames b with [] => [] | names => ["dry run: " ++ Join names ", "] end))
    (map (fun w => "warning: " ++ w) (Warnings cfg ++ Built_Warnings b)).

(** What happens to a service that is up. *)
Inductive event : Type :=
| Receives (i : incoming)
| Publishes
| ListenFails (e : error)
| Signalled (shutdown : option error).

(** How [serve] ends. *)
Inductive serve_error : Type := HTTPServer (e : error) | GracefulShutdown (e : error).

(** How [run] ends, or that it is still serving. *)
Inductive run_result : Type :=
| EnvRefused (problems : list env_problem)
| FlagsRefused (e : flag_error)
| VersionPrinted (v : string)
| Probed (e : option probe_error)
| FileRefused (e : load_error)
| BuildRefused (path : string) (e : build_error)
| Reported (p : printed)
| LoggerRefused (e : logger_error)
| Served (answers : list exchange) (m : Metrics) (e : option serve_error)
| Serving (answers : list exchange) (m : Metrics).

Section run.
Context {U : Unicode} {J : JSONDecoder} {M : MapRange} {HM : HMAC256} {FS : FileSystem} {Y : YAMLDecoder}.
Context {C : Certificates} {R : Type} {G : GoRedis R} `{Clock R}.
Context (fmt_Rule : Rule -> string) (fmt_Bucket : Bucket -> string).
(** The environment, the version linked in, and a GET from beside the server. *)
Context (getenv : string -> string) (version : string) (get : string -> Z + error).
(** The page of metrics as the collectors stand, and redirections. *)
Context (pages : Metrics -> Pages).

Abbreviation MainM := (GoM (list main_log * chain (R := R))).

Definition logs (line : main_log) : MainM unit := on_own (fun l => (tt, (l ++ [line])%list)).

(** A turn of the publisher, and its loop over what it is woken by: a tick, or the end of
    the context, on which it returns. *)
Inductive publisher_wake : Type := PublisherTick | PublisherDone.

Fixpoint publisher_loop (a : assembled (R := R)) (wakes : list publisher_wake) (m : Metrics) : GoM (chain (R := R)) (bool * Metrics) :=
  match wakes with
  | [] => gret (false, m)
  | PublisherDone :: _ => gret (true, m)
  | PublisherTick :: wakes => let! m := publish a m in publisher_loop a wakes m
  end.

Definition publishStoreMetrics (a : assembled (R := R)) (wakes : list publisher_wake) (m : Metrics) :
    GoM (chain (R := R)) (bool * Metrics) :=
  let! m := publish a m in publisher_loop a wakes m.

(** A request, through the handler: the response and what was counted. *)
Definition answer (a : assembled (R := R)) (h : Handler) (m : Metrics) (i : incoming) : MainM exchange :=
  fun '(l, c) =>
    let '(o, (x, c)) := ServeHTTP (P := pages m) (as_store a) h i (fresh_exchange, c) in
    (match o with Returns _ => Returns x | Panics v => Panics v end, (l, c)).

(** [serve], while it is up: the requests it answers, until the listener fails or a
    signal arrives; then the requests in flight are let finish. *)
Fixpoint serve (cfg : Config) (a : assembled (R := R)) (h : Handler) (es : list event)
    (answers : list exchange) (m : Metrics) : MainM run_result :=
  match es with
  | [] => gret (Serving answers m)
  | Receives i :: es =>
      let! x := answer a h m i in
      serve cfg a h es (answers ++ [x])%list (record_metrics (ex_metrics x) m)
  | Publishes :: es => let! m := on_inner (publish a m) in serve cfg a h es answers m
  | ListenFails e :: _ => gret (Served answers m (Some (HTTPServer e)))
  | Signalled shutdown :: _ =>
      let! _ := logs (ShutdownReceived (ShutdownTimeout cfg)) in
      match shutdown with
      | Some e => gret (Served answers m (Some (GracefulShutdown e)))
      | None => let! _ := logs Stopped in gret (Served answers m None)
      end
  end.

(** The deferred closing of the store. *)
Definition close_store (a : assembled (R := R)) : MainM unit :=
  let! cerr := on_inner (Close (as_store a)) in
  match cerr with Some e => logs (ClosingStore e) | None => gret tt end.

(** One line for each warning of the configuration and of the build. *)
Fixpoint log_warnings (ws : list string) : MainM unit :=
  match ws with
  | [] => gret tt
  | w :: ws => let! _ := logs (ConfigWarning w) in log_warnings ws
  end.

(** From the assembled store on. *)
Definition serve_built (cfg : Config) (b : Built) (a : assembled (R := R)) (es : list event) : MainM run_result :=
  let! _ := logs (Starting (ListenAddr cfg) (ConfigPath cfg) (Names b) (DryRunNames b)
                    (rc_Enabled (Config_Redis cfg)) (bc_Enabled (Config_BlockCache cfg)) (MaxBodyBytes cfg)) in
  let! _ := log_warnings (Warnings cfg ++ Built_Warnings b) in
  serve cfg a (service b (MaxBodyBytes cfg)) es [] (NewMetrics (MetricsNamespace cfg)).

(** A service that is still up has not run what [run] deferred. *)
Definition deferring (m : MainM run_result) (closing : MainM unit) : MainM run_result :=
  fun s =>
    match (m s).1 with
    | Returns (Serving _ _) => m s
    | _ => gdefer m closing s
    end.

(** [run] once a file is built and not only to be validated. *)
Definition start_up (cfg : Config) (b : Built) (es : list event) (r : R) :
    outcome run_result * (list main_log * R) :=
  match NewLogger (LogLevel cfg) (LogFormat cfg) with
  | inr e => (Returns (LoggerRefused e), ([], r))
  | inl _ =>
      match buildStore fmt_Rule fmt_Bucket cfg ([], r) with
      | (Panics v, lr) => (Panics v, lr)
      | (Returns a, (l, r)) =>
          let '(o, (l, c)) := deferring (serve_built cfg b a es) (close_store a) (l, chain_start r) in
          (o, (l, c.2.2))
      end
  end.

Definition with_path (cfg : Config) (path : string) : Config :=
  mkConfig path (ListenAddr cfg) (LogLevel cfg) (LogFormat cfg) (MaxBodyBytes cfg) (ShutdownTimeout cfg)
    (MetricsNamespace cfg) (HashSecret cfg) (Config_Redis cfg) (Config_BlockCache cfg) (Config_Breaker cfg).

(** The flags once parsed. *)
Definition dispatch (cfg : Config) (f : flags) (es : list event) (r : R) :
    outcome run_result * (list main_log * R) :=
  if showVersion f then (Returns (VersionPrinted version), ([], r))
  else if healthcheck f then (Returns (Probed (probeHealth get (ListenAddr cfg))), ([], r))
  else
    let cfg := with_path cfg (configPath f) in
    match LoadFile (ConfigPath cfg) with
    | inr e => (Returns (FileRefused e), ([], r))
    | inl file =>
        match Build file (HashSecret cfg) with
        | Panics v => (Panics v, ([], r))
        | Returns (inr e) => (Returns (BuildRefused (ConfigPath cfg) e), ([], r))
        | Returns (inl b) =>
            if validate_only f then (Returns (Reported (report (ConfigPath cfg) cfg b)), ([], r))
            else start_up cfg b es r
        end
    end.

Definition run (argv : list string) (es : list event) (r : R) : outcome run_result * (list main_log * R) :=
  match Load getenv Stat with
  | inr problems => (Returns (EnvRefused problems), ([], r))
  | inl cfg =>
      match parseFlags argv (ConfigPath cfg) with
      | inr e => (Returns (FlagsRefused e), ([], r))
      | inl f => dispatch cfg f es r
      end
  end.

(** [main]: the exit code, and the line on standard error, of a run that ended. *)
Definition exit_code (o : run_result) : option Z :=
  match o with
  | EnvRefused _ | FlagsRefused _ | FileRefused _ | BuildRefused _ _ | LoggerRefused _ => Some 1
  | VersionPrinted _ | Reported _ => Some 0
  | Probed e => Some (match e with Some _ => 1 | None => 0 end)
  | Served _ _ e => Some (match e with Some _ => 1 | None => 0 end)
  | Serving _ _ => None
  end.

End run.

(** ** An address, taken apart and put together *)

(** What [SplitHostPort] gives: no bracket anywhere, no colon in the port. *)
Definition plain_port (port : string) : Prop :=
  ContainsByte port ":" = false /\ ContainsByte port "[" = false /\ ContainsByte port "]" = false.

Definition plain_host (host : string) : Prop :=
  ContainsByte host "[" = false /\ ContainsByte host "]" = false.

Lemma cut_last_spec s before after :
  cut_last s = Some (before, after) -> s = before ++ String ":" after /\ ContainsByte after ":" = false.
Proof.
  revert before. induction s as [|c s IH]; intros before; simpl; [done|].
  assert (cut_last s = None -> ContainsByte s ":" = false) as Hnone.
  { clear. induction s as [|c s IH]; simpl; [done|]. destruct (cut_last s) as [[??]|]; [done|].
    by destruct (Ascii.eqb_spec c ":"); [|rewrite IH]. }
  destruct (cut_last s) as [[b a]|].
  - intros [= <- <-]. destruct (IH _ eq_refl) as [-> Ha]. done.
  - destruct (Ascii.eqb_spec c ":") as [->|]; [|done]. intros [= <- <-]. auto.
Qed.

Lemma cut_last_app a b : ContainsByte b ":" = false -> cut_last (a ++ String ":" b) = Some (a, b).
Proof.
  intros Hb. induction a as [|c a IH]; simpl; [|by rewrite IH].
  assert (cut_last b = None) as ->; [|done]. destruct (cut_last b) as [[x y]|] eqn:E; [|done].
  apply cut_last_spec in E as [-> _]. rewrite ContainsByte_app in Hb. simpl in Hb.
  by rewrite orb_true_r in Hb.
Qed.

Lemma unbracket_Some s rest : unbracket s = Some rest -> s = String "[" rest.
Proof. destruct s as [|c s]; simpl; [done|]. by destruct (Ascii.eqb_spec c "[") as [->|]; [intros [= ->]|]. Qed.

Lemma unbracket_plain s : ContainsByte s "[" = false -> unbracket s = None.
Proof. destruct s as [|c s]; simpl; [done|]. by destruct (Ascii.eqb c "["). Qed.

Lemma SplitHostPort_plain addr host port :
  SplitHostPort addr = inl (host, port) -> plain_host host /\ plain_port port.
Proof.
  unfold SplitHostPort. destruct (cut_last addr) as [[before after]|] eqn:Ec; [|done].
  apply cut_last_spec in Ec as [-> Hafter]. destruct (unbracket _) as [rest|] eqn:Eu.
  - destruct (Cut rest "]") as [[h tail] closed] eqn:Ecut. apply Cut_spec in Ecut as [Hh Hs].
    destruct closed; [|done]. simpl. subst rest. unfold after_bracket.
    destruct tail as [|c port']; [done|]. destruct (Ascii.eqb_spec c ":") as [->|]; [|done].
    destruct (ContainsByte port' ":") eqn:Hp; [done|].
    destruct (ContainsByte (h ++ _) "[") eqn:Ho; [done|]. destruct (ContainsByte (String ":" port') "]") eqn:Hcl; [done|].
    intros [= <- <-]. rewrite ContainsByte_app, orb_false_iff in Ho. destruct Ho as [Ho1 Ho2]. by repeat split.
  - destruct (ContainsByte before ":"); [done|]. rewrite !ContainsByte_app.
    destruct (ContainsByte before "[") eqn:Ho; [done|]. destruct (ContainsByte (String ":" after) "[") eqn:Ho'; [done|].
    destruct (ContainsByte before "]") eqn:Hc; [done|]. destruct (ContainsByte (String ":" after) "]") eqn:Hc'; [done|].
    simpl. intros [= <- <-]. by repeat split.
Qed.

(** Joining and splitting again. *)
Lemma SplitHostPort_JoinHostPort host port :
  plain_host host -> plain_port port -> SplitHostPort (JoinHostPort host port) = inl (host, port).
Proof.
  intros [Ho Hc] (Pc & Po & Pcl). unfold SplitHostPort, JoinHostPort.
  destruct (ContainsByte host ":") eqn:Hcolon.
  - assert ("[" ++ host ++ "]:" ++ port = ("[" ++ host ++ "]") ++ String ":" port) as ->.
    { cbn. by rewrite app_assoc_s. }
    rewrite (cut_last_app _ _ Pc). cbn [append unbracket]. rewrite Ascii.eqb_refl, app_assoc_s. cbn [append].
    rewrite (Cut_app _ _ _ Hc). cbn [negb after_bracket]. rewrite Ascii.eqb_refl, Pc.
    rewrite ContainsByte_app, Ho. simpl. by rewrite Po, Pcl.
  - change (host ++ ":" ++ port) with (host ++ String ":" port). rewrite (cut_last_app _ _ Pc).
    assert (forall c, ContainsByte (String ":" port) c = Ascii.eqb ":" c || ContainsByte port c) as Hs by done.
    rewrite unbracket_plain by (rewrite ContainsByte_app, Ho, Hs, Po; done).
    by rewrite Hcolon, !ContainsByte_app, Ho, Hc, !Hs, Po, Pcl.
Qed.

Lemma probe_host_plain host : plain_host host -> plain_host (probe_host host).
Proof. intros Hh. unfold probe_host. by destruct (_ || _). Qed.

(** The probe's GET, as it arrives. *)
Definition probe_request : incoming :=
  mkIncoming "/healthz" true "/healthz" (mkHttpRequest "GET" "/healthz" "" ∅ None).

(** C36: the probe asks the instance that is listening.  When [LISTEN_ADDR] splits into a
    host and a port there is one address the probe dials, and it splits back into that
    very port and that very host - or the loopback address, when the host stands for
    every interface; the probe succeeds exactly when a GET of [/healthz] there is
    answered 200, which is what an instance that serves there answers, whatever its
    limiters and its store.  An address that does not split is refused. *)
Theorem probe_asks_listener {U : Unicode} {S : Type} `{Clock S} {P : Pages} (st : Store S) h s addr :
  match SplitHostPort addr with
  | inl (host, port) =>
      exists target,
        SplitHostPort target
          = inl (if bool_decide (host ∈ [""; "0.0.0.0"; "::"]) then "127.0.0.1" else host, port) /\
        let url := "http://" ++ target ++ "/healthz" in
        (forall get, probeHealth get addr = None <-> get url = inl 200) /\
        exists x, ServeHTTP st h probe_request (fresh_exchange, s) = (Returns tt, (x, s)) /\
          forall get, get url = inl (status_of (ex_writer x)) -> probeHealth get addr = None
  | inr e => forall get, probeHealth get addr = Some (BadListenAddr addr e)
  end.
Proof.
  unfold probeHealth. destruct (SplitHostPort addr) as [[host port]|e] eqn:E; [|done].
  destruct (SplitHostPort_plain _ _ _ E) as [Hh%probe_host_plain Hp].
  exists (JoinHostPort (probe_host host) port). split; [|split].
  - rewrite SplitHostPort_JoinHostPort by done. do 2 f_equal. unfold probe_host. case_bool_decide as Hin.
    + repeat (apply elem_of_cons in Hin as [->|Hin]; [done|]). by apply elem_of_nil in Hin.
    + rewrite !not_elem_of_cons in Hin. destruct Hin as (H1 & H2 & H3 & _).
      by rewrite (proj2 (String.eqb_neq _ _) H1), (proj2 (String.eqb_neq _ _) H2), (proj2 (String.eqb_neq _ _) H3).
  - intros get. unfold probe_url. destruct (get _) as [status|e]; [|done].
    destruct (Z.eqb_spec status 200) as [->|]; naive_solver.
  - eexists. split; [by vm_compute|]. intros get. cbn [ex_writer status_of sent]. unfold probe_url. by intros ->.
Qed.

(** ** Runs *)
Section runs.
Context {U : Unicode} {J : JSONDecoder} {M : MapRange} {HM : HMAC256} {FS : FileSystem} {Y : YAMLDecoder}.
Context {C : Certificates} {R : Type} {G : GoRedis R} `{Clock R}.

(** A client's [Ping] and [Close] report failures; they do not panic. *)
Class ClientReports : Prop := {
  ping_reports opts : Total (@client_Ping R (NewClient opts));
  ping_reports_cluster opts : Total (@client_Ping R (NewClusterClient opts));
  close_reports opts : Total (@client_Close R (NewClient opts));
  close_reports_cluster opts : Total (@client_Close R (NewClusterClient opts));
}.
Context {CR : ClientReports}.

Lemma dialled_reports r (rs : redis_handle (R := R)) :
  dials r rs -> Total (@Redis_Ping R (rs_client rs)) /\ Total (@Redis_Close R (rs_client rs)).
Proof.
  intros (tls & _ & _ & _ & ->). unfold Redis_Ping, Redis_Close.
  destruct (String.eqb _ _); split; apply CR.
Qed.

Context (fmt_Rule : Rule -> string) (fmt_Bucket : Bucket -> string).

(** The store [run] builds closes, whatever it is. *)
Lemma assemble_closes cfg rs :
  Total (@Redis_Close R (rs_client rs)) -> Total (Close (as_store (assemble fmt_Rule fmt_Bucket cfg rs))).
Proof.
  intros Hc. unfold assemble, with_cache, with_breaker. cbn [as_store].
  assert (Total (Close (match breaker_options cfg with
                        | Some opts => Breaker.decorate opts (redis_of fmt_Rule fmt_Bucket rs)
                        | None => pass_through (redis_of fmt_Rule fmt_Bucket rs)
                        end))) as Hb by (destruct (breaker_options cfg); apply (total_on_inner _ Hc)).
  destruct (cache_options cfg); [|apply (total_on_inner _ Hb)].
  apply total_bind; [apply _|]. intros _. apply (total_on_inner _ Hb).
Qed.

Lemma buildStore_closes stat cfg l (r : R) :
  config_ok stat cfg ->
  exists a line r', buildStore fmt_Rule fmt_Bucket cfg (l, r) = (Returns a, ((l ++ [line])%list, r')) /\
    Total (Close (as_store a)).
Proof.
  intros Hok. destruct (buildStore_cases fmt_Rule fmt_Bucket stat cfg l r Hok) as (a & line & r' & E & Hcases).
  { intros rs s Hd. apply (dialled_reports _ _ Hd). }
  exists a, line, r'. split; [done|].
  destruct Hcases as [(_ & _ & ->)|[(_ & _ & _ & ->)|(_ & _ & rs & perr & Hd & _ & -> & _)]].
  - intros s. by eexists _, _.
  - intros s. by eexists _, _.
  - apply assemble_closes, (dialled_reports _ _ Hd).
Qed.

(** A loaded configuration is one the logger accepts. *)
Lemma value_trimmed getenv key def :
  TrimSpace def = def -> TrimSpace (value_of getenv (@Some string) key def) = value_of getenv (@Some string) key def.
Proof.
  intros Hd. unfold value_of, set_value. cbv zeta. destruct (String.eqb _ ""); [done|]. apply TrimSpace_idemp.
Qed.

Lemma loaded_logger getenv stat cfg :
  Load getenv stat = inl cfg -> exists logger, NewLogger (LogLevel cfg) (LogFormat cfg) = inl logger.
Proof.
  intros (-> & _ & Hok & _)%Load_loaded. apply NewLogger_accepts; try apply Hok; by apply value_trimmed.
Qed.

Lemma publish_total a m : Total (publish (R := R) a m).
Proof.
  unfold publish. apply total_bind.
  - destruct (as_cache a); [apply total_bind; [|intros]; apply _|apply _].
  - intros m1. destruct (as_breaker a); [|apply _]. apply total_bind; [apply _|intros; apply _].
Qed.

(** The publisher goes on until the context is done, and then returns. *)
Lemma publisher_loop_ends a n later : forall m c, exists m' c',
  publisher_loop (R := R) a (List.repeat PublisherTick n ++ PublisherDone :: later) m c = (Returns (true, m'), c').
Proof.
  induction n as [|n IH]; intros m c; simpl; [by eexists _, _|].
  destruct (publish_total a m c) as (m1 & c1 & E). rewrite (gbind_returns _ _ _ _ _ E). apply IH.
Qed.

Lemma publisher_ends a n later m c : exists m' c',
  publishStoreMetrics (R := R) a (List.repeat PublisherTick n ++ PublisherDone :: later) m c = (Returns (true, m'), c').
Proof.
  unfold publishStoreMetrics. destruct (publish_total a m c) as (m1 & c1 & E).
  rewrite (gbind_returns _ _ _ _ _ E). apply publisher_loop_ends.
Qed.

(** *** What a service that is up does *)
Context (getenv : string -> string) (version : string) (get : string -> Z + error) (pages : Metrics -> Pages).

(** The requests among the events before the service is told to stop. *)
Fixpoint requests (es : list event) : list incoming :=
  match es with
  | [] => []
  | Receives i :: es => i :: requests es
  | _ :: es => requests es
  end.

Definition ends_service (e : event) : bool :=
  match e with Receives _ | Publishes => false | ListenFails _ | Signalled _ => true end.

(** What [serve] makes of the event that ends it. *)
Definition ending (e : event) : option serve_error :=
  match e with
  | ListenFails e => Some (HTTPServer e)
  | Signalled (Some e) => Some (GracefulShutdown e)
  | _ => None
  end.

Definition ending_logs (cfg : Config) (e : event) : list main_log :=
  match e with
  | Signalled (Some _) => [ShutdownReceived (ShutdownTimeout cfg)]
  | Signalled None => [ShutdownReceived (ShutdownTimeout cfg); Stopped]
  | _ => []
  end.

(** The reply to a check is the one the engine's decision on it stands for; to any other
    request it is its route's. *)
Definition answered (a : assembled (R := R)) (h : Handler) (i : incoming) (x : exchange) : Prop :=
  exists m,
    match fixed_answer (P := pages m) h i with
    | Some w => ex_writer x = w
    | None =>
        let r := in_request i in
        exists s d f s2,
          Evaluate (as_store a) (h_limiters h) (mkFrame (check_request r (body_seen h r).1) [], s)
            = (Returns d, (f, s2)) /\
          ex_writer x = reply_to h d
    end.

Lemma answer_run a h m i l c :
  responses_ok h -> exists x c', answer pages a h m i (l, c) = (Returns x, (l, c')) /\ answered a h i x.
Proof.
  intros Hok. unfold answer, answered. destruct (fixed_answer (P := pages m) h i) as [w|] eqn:Ef.
  - destruct (fixed_answer_run (P := pages m) (as_store a) h i w c Ef) as [wrote ->].
    eexists _, c. split; [done|]. exists m. by rewrite Ef.
  - destruct (check_replies (as_store a) h (in_request i) c Hok) as (d & f & s2 & x & c' & E & Es & W).
    apply check_answer in Ef as Er. unfold ServeHTTP. rewrite Er, Es. exists x, c'. split; [done|].
    exists m. rewrite Ef. by exists (clock_now c).2, d, f, s2.
Qed.

Lemma serve_answers cfg a h es rest :
  responses_ok h -> Forall (fun e => ends_service e = false) es ->
  forall answers m l c, exists xs m' c',
    serve pages cfg a h (es ++ rest) answers m (l, c) = serve pages cfg a h rest (answers ++ xs)%list m' (l, c') /\
    Forall2 (answered a h) (requests es) xs.
Proof.
  intros Hok Hes. induction Hes as [|e es He Hes IH]; intros answers m l c.
  { exists [], m, c. by rewrite app_nil_r. }
  destruct e as [i| |e|o]; try done; cbn [app serve requests].
  - destruct (answer_run a h m i l c Hok) as (x & c1 & Ea & Hx). rewrite (gbind_returns _ _ _ _ _ Ea).
    destruct (IH (answers ++ [x])%list (record_metrics (ex_metrics x) m) l c1) as (xs & m' & c' & -> & Hxs).
    exists (x :: xs), m', c'. rewrite <-(assoc_L (++)). split; [done|]. by constructor.
  - destruct (publish_total a m c) as (m1 & c1 & Ep).
    rewrite (gbind_returns _ _ _ _ _ (on_inner_run _ l c _ _ Ep)). apply IH.
Qed.

Lemma serve_ends cfg a h e es answers m l c :
  ends_service e = true ->
  serve pages cfg a h (e :: es) answers m (l, c) =
    (Returns (Served answers m (ending e)), ((l ++ ending_logs cfg e)%list, c)).
Proof.
  destruct e as [r| |e|[e|]]; try done; intros _; simpl.
  - by rewrite app_nil_r.
  - unfold logs. go_unfold. by rewrite <-(assoc_L (++)).
Qed.

Lemma log_warnings_run (ws : list string) : forall l (c : chain (R := R)),
  log_warnings ws (l, c) = (Returns tt, ((l ++ map ConfigWarning ws)%list, c)).
Proof.
  induction ws as [|w ws IH]; intros l c; simpl; [by rewrite app_nil_r|].
  unfold gbind, logs, on_own. rewrite IH. by rewrite <-(assoc_L (++)).
Qed.

(** The lines logged before the first request. *)
Definition starting_logs (cfg : Config) (b : Built) : list main_log :=
  Starting (ListenAddr cfg) (ConfigPath cfg) (Names b) (DryRunNames b)
    (rc_Enabled (Config_Redis cfg)) (bc_Enabled (Config_BlockCache cfg)) (MaxBodyBytes cfg)
  :: map ConfigWarning (Warnings cfg ++ Built_Warnings b).

Lemma serve_built_run cfg b a es l c :
  serve_built pages cfg b a es (l, c) =
    serve pages cfg a (service b (MaxBodyBytes cfg)) es [] (NewMetrics (MetricsNamespace cfg))
      ((l ++ starting_logs cfg b)%list, c).
Proof.
  unfold serve_built. unfold gbind at 1, logs at 1, on_own. rewrite (gbind_returns _ _ _ _ _ (log_warnings_run _ _ _)).
  by rewrite <-(assoc_L (++)).
Qed.

(** Up to the service: a configuration that loads and a file that builds. *)
Lemma start_up_runs stat cfg path b (r : R) :
  Load getenv stat = inl cfg ->
  exists a line r0, Total (Close (as_store a)) /\ forall es,
    start_up fmt_Rule fmt_Bucket pages (with_path cfg path) b es r =
      (let '(o, (l, c)) := deferring (serve_built pages (with_path cfg path) b a es) (close_store a) ([line], chain_start r0) in
       (o, (l, c.2.2))).
Proof.
  intros Hload. destruct (loaded_logger _ _ _ Hload) as (logger & El).
  apply Load_loaded in Hload as (_ & _ & Hok).
  destruct (buildStore_closes stat cfg [] r Hok) as (a & line & r0 & Eb & Hc).
  exists a, line, r0. split; [done|]. intros es. unfold start_up.
  change (LogLevel (with_path cfg path)) with (LogLevel cfg). change (LogFormat (with_path cfg path)) with (LogFormat cfg).
  rewrite El. change (buildStore fmt_Rule fmt_Bucket (with_path cfg path)) with (buildStore fmt_Rule fmt_Bucket cfg).
  by rewrite Eb.
Qed.

Lemma close_store_run a l (c : chain (R := R)) :
  Total (Close (as_store a)) ->
  exists cerr c', close_store a (l, c) =
    (Returns tt, ((l ++ match cerr with Some e => [ClosingStore e] | None => [] end)%list, c')).
Proof.
  intros Hc. destruct (Hc c) as (cerr & c' & E). exists cerr, c'. unfold close_store.
  rewrite (gbind_returns _ _ _ _ _ (on_inner_run _ l c _ _ E)). destruct cerr; [done|]. by rewrite app_nil_r.
Qed.


(** C20: [-validate] predicts the start.  Two command lines that name the same file, one
    asking for validation only: the second touches neither Redis nor the log.  If it
    reports, the first comes to serving with exactly the limiters reported and logs exactly
    the warnings reported; if not, the first ends, whatever happens to it, in the same
    error - and exits with 1 - before it has opened or logged anything. *)
Theorem validate_predicts_start argv argv' cfg path (r : R) :
  Load getenv Stat = inl cfg ->
  parseFlags argv (ConfigPath cfg) = inl (mkFlags path false false false) ->
  parseFlags argv' (ConfigPath cfg) = inl (mkFlags path false false true) ->
  let main argv es := run fmt_Rule fmt_Bucket getenv version get pages argv es r in
  forall es, (main argv' es).2 = ([], r) /\
    match (main argv' es).1 with
    | Returns (Reported p) =>
        exists b line r0,
          main argv [] = (Returns (Serving [] (NewMetrics (MetricsNamespace cfg))),
                          (line :: starting_logs (with_path cfg path) b, r0)) /\
          p = report path cfg b
    | Returns o => main argv es = (Returns o, ([], r)) /\ exit_code o = Some 1
    | Panics v => main argv es = (Panics v, ([], r))
    end.
Proof.
  intros Hload Hf Hf' main es. subst main. unfold run, dispatch. rewrite Hload, Hf, Hf'.
  cbn [showVersion healthcheck validate_only configPath]. change (ConfigPath (with_path cfg path)) with path.
  destruct (LoadFile path) as [f|e]; [|done].
  change (HashSecret (with_path cfg path)) with (HashSecret cfg).
  destruct (Build f (HashSecret cfg)) as [[b|e]|v]; [|done..]. split; [done|]. cbn [fst].
  destruct (start_up_runs Stat cfg path b r Hload) as (a & line & r0 & _ & Estart).
  eexists b, line, _. split; [|done]. rewrite Estart. unfold deferring. rewrite serve_built_run. reflexivity.
Qed.

End runs.

(** ** Instances of the theorems *)
Section examples.

#[local] Existing Instances ascii_only one_body range_forward zero_hmac one_file sample_decoder
  no_certificates dial_sim Chain.sim_redis_clock.

#[local] Instance sim_client_reports : ClientReports (R := sim_redis).
Proof. split; intros opts s; by eexists _, _. Qed.

Definition secret_env : string -> string := env [("HASH_SECRET", "k"); ("LISTEN_ADDR", "[::]:9090")].

(** A GET that is answered at one address only. *)
Definition listening_at (url : string) (asked : string) : Z + error :=
  if String.eqb asked url then inl 200 else inr "connection refused".

Definition main_with (argv : list string) (es : list event) :=
  run no_fmt_Rule no_fmt_Bucket secret_env "1.2.3" (listening_at "http://127.0.0.1:9090/healthz")
    (fun _ => plain_pages) argv es empty_redis.

Example probes_loopback : (main_with ["-healthcheck"] []).1 = Returns (Probed None).
Proof. vm_compute. reflexivity. Qed.

Example flags_of :
  parseFlags ["--config=/a"; "-validate=false"; "-version"; "rest"; "-validate"] "/b"
    = inl (mkFlags "/a" true false false) /\
  parseFlags ["-config"] "/b" = inr (NeedsArgument "config") /\
  parseFlags ["-validate=perhaps"] "/b" = inr (BadBoolean "perhaps" "validate") /\
  parseFlags ["--verbose"] "/b" = inr (NotDefined "verbose").
Proof. by vm_compute. Qed.

Example addresses :
  SplitHostPort ":8080" = inl ("", "8080") /\ SplitHostPort "[::1]:80" = inl ("::1", "80") /\
  SplitHostPort "::1:80" = inr TooManyColons /\ SplitHostPort "8080" = inr MissingPort /\
  SplitHostPort "[::1]" = inr MissingPort /\ SplitHostPort "[::1:80" = inr MissingBracket.
Proof. by vm_compute. Qed.

Definition loaded_config : Config := config_of secret_env.

Lemma secret_loaded : Load secret_env Stat = inl loaded_config.
Proof. vm_compute. reflexivity. Qed.

(** A login attempt to check, a health check, a tick between them, then a signal; the
    second attempt is never answered. *)
Definition to_check : incoming := mkIncoming "/check" true "/check" attempt.
Definition day : list event := [Receives to_check; Publishes; Receives (get_of "GET" "/healthz")].


Lemma validate_predicts_start_witness :
  (main_with ["-validate"] []).2 = ([], empty_redis) /\
  exists b line r0,
    main_with [] [] = (Returns (Serving [] (NewMetrics "forwardlimit")),
                       (line :: starting_logs (with_path loaded_config sample_path) b, r0)) /\
    (main_with ["-validate"] []).1 = Returns (Reported (report sample_path loaded_config b)).
Proof.
  destruct (validate_predicts_start no_fmt_Rule no_fmt_Bucket secret_env "1.2.3"
              (listening_at "http://127.0.0.1:9090/healthz") (fun _ => plain_pages) [] ["-validate"] loaded_config sample_path empty_redis
              secret_loaded eq_refl eq_refl []) as [Hq Hp].
  split; [exact Hq|].
  assert (exists p, (main_with ["-validate"] []).1 = Returns (Reported p)) as [p Ep] by (eexists; vm_compute; reflexivity).
  fold (main_with ["-validate"] []) in Hp. rewrite Ep in Hp.
  destruct Hp as (b & line & r0 & E & Er). exists b, line, r0. split; [exact E|]. rewrite Ep, Er. reflexivity.
Defined.

End examples.
