(* ===== verification/Process.v ===== *)
(** * Processes: a computation one critical section at a time

    [GoM] runs a call from its start to its end.  A [process] is the same call cut at
    the points where others may run: each [Atomic] is one critical section, one reading
    of the clock, one round trip.  Run alone it is the sequential computation ([alone]);
    in a [pool] the sections of many processes interleave.  Processes are reasoned about
    one at a time, by what their sections add to a ledger of the shared state ([pays]),
    and the pool's ledger is the sum ([pool_ledger]). *)
From stdpp Require Import base list gmap relations.
From Stdlib Require Import ZArith Lia String.
From S2P Require Import Prelude.

#[local] Open Scope Z_scope.

Inductive process (S A : Type) : Type :=
| Done (o : outcome A)
| Atomic {T : Type} (m : GoM S T) (k : outcome T -> process S A).
Arguments Done {S A} o.
Arguments Atomic {S A T} m k.

(** ** Building processes *)
Section building.
Context {S A B : Type}.

Definition pret (a : A) : process S A := Done (Returns a).

(** One section. *)
Definition atomically (m : GoM S A) : process S A := Atomic m Done.

Fixpoint pbind (p : process S A) (k : A -> process S B) : process S B :=
  match p with
  | Done (Returns a) => k a
  | Done (Panics v) => Done (Panics v)
  | Atomic m c => Atomic m (fun o => pbind (c o) k)
  end.

Fixpoint precover (p : process S A) (h : string -> process S A) : process S A :=
  match p with
  | Done (Returns a) => Done (Returns a)
  | Done (Panics v) => h v
  | Atomic m c => Atomic m (fun o => precover (c o) h)
  end.

End building.

Notation "'let*' p ':=' m 'in' k" := (pbind m (fun p => k))
  (at level 10, p pattern, m at level 100, k at level 200) : go_scope.

(** The deferred function [d], however [p] ends. *)
Fixpoint pdefer {S A} (p : process S A) (d : process S unit) : process S A :=
  match p with
  | Done o =>
      (fix after (q : process S unit) : process S A :=
         match q with
         | Done (Returns _) => Done o
         | Done (Panics v) => Done (Panics v)
         | Atomic m c => Atomic m (fun o => after (c o))
         end) d
  | Atomic m c => Atomic m (fun o => pdefer (c o) d)
  end.

(** A process on a part of a larger state. *)
Fixpoint pmap {S F A} (f : forall T, GoM S T -> GoM F T) (p : process S A) : process F A :=
  match p with
  | Done o => Done o
  | Atomic m c => Atomic (f _ m) (fun o => pmap f (c o))
  end.

Definition pinner {B S A} (p : process S A) : process (B * S) A := pmap (fun T => @on_inner B S T) p.

(** A process with a state [X] of its own, which no other can touch, and what it leaves
    of it. *)
Fixpoint private {X S A} (x : X) (p : process (X * S) A) : process S (outcome A * X) :=
  match p with
  | Done o => Done (Returns (o, x))
  | Atomic m c =>
      Atomic (fun s => let '(o, (x', s')) := m (x, s) in (Returns (o, x'), s'))
        (fun ox => match ox with
                   | Returns (o, x') => private x' (c o)
                   | Panics v => Done (Panics v)
                   end)
  end.

(** ** Running one alone *)
Fixpoint alone {S A} (p : process S A) : GoM S A :=
  match p with
  | Done o => fun s => (o, s)
  | Atomic m c => fun s => let '(o, s') := m s in alone (c o) s'
  end.

Section alone_rules.
Context {S A B : Type}.

Lemma alone_atomically (m : GoM S A) s : alone (atomically m) s = m s.
Proof. simpl. by destruct (m s). Qed.

Lemma alone_bind (p : process S A) (k : A -> process S B) s :
  alone (pbind p k) s = gbind (alone p) (fun a => alone (k a)) s.
Proof.
  revert s. induction p as [[a|v]|T m c IH]; intros s; [done..|].
  unfold gbind in *. simpl. destruct (m s) as [o s']. apply IH.
Qed.

Lemma alone_recover (p : process S A) h s :
  alone (precover p h) s = grecover (alone p) (fun v => alone (h v)) s.
Proof.
  revert s. induction p as [[a|v]|T m c IH]; intros s; [done..|].
  unfold grecover in *. simpl. destruct (m s) as [o s']. apply IH.
Qed.

Lemma alone_inner (p : process S A) (b : B) s : alone (pinner p) (b, s) = on_inner (alone p) (b, s).
Proof.
  revert s. induction p as [o|T m c IH]; intros s; [done|]. simpl in *.
  destruct (m s) as [o s']. apply IH.
Qed.

Lemma alone_private {X} (x : X) (p : process (X * S) A) s :
  alone (private x p) s = let '(o, (x', s')) := alone p (x, s) in (Returns (o, x'), s').
Proof.
  revert x s. induction p as [o|T m c IH]; intros x s; [done|]. simpl.
  destruct (m (x, s)) as [o [x' s']]. apply IH.
Qed.

(** Equal section by section is equal alone. *)
Lemma gbind_ext (m m' : GoM S A) (k k' : A -> GoM S B) s :
  m s = m' s -> (forall a s, k a s = k' a s) -> gbind m k s = gbind m' k' s.
Proof. intros Em Ek. unfold gbind. rewrite Em. destruct (m' s) as [[a|v] s']; auto. Qed.

Lemma grecover_ext (m m' : GoM S A) h h' s :
  m s = m' s -> (forall v s, h v s = h' v s) -> grecover m h s = grecover m' h' s.
Proof. intros Em Eh. unfold grecover. rewrite Em. destruct (m' s) as [[a|v] s']; auto. Qed.

End alone_rules.

(** [p], run alone, is the computation [m]. *)
Definition runs_as {S A} (p : process S A) (m : GoM S A) : Prop := forall s, alone p s = m s.

Section runs_as.
Context {S A B : Type}.

Lemma runs_ret (a : A) : runs_as (S := S) (pret a) (gret a).
Proof. done. Qed.

Lemma runs_atomically (m : GoM S A) : runs_as (atomically m) m.
Proof. intros s. apply alone_atomically. Qed.

Lemma runs_bind (p : process S A) m (k : A -> process S B) j :
  runs_as p m -> (forall a, runs_as (k a) (j a)) -> runs_as (pbind p k) (gbind m j).
Proof. intros Hp Hk s. rewrite alone_bind. apply gbind_ext; [apply Hp|]. intros a. apply Hk. Qed.

Lemma runs_recover (p : process S A) m h j :
  runs_as p m -> (forall v, runs_as (h v) (j v)) -> runs_as (precover p h) (grecover m j).
Proof. intros Hp Hh s. rewrite alone_recover. apply grecover_ext; [apply Hp|]. intros v. apply Hh. Qed.

Lemma runs_inner (p : process S A) m : runs_as p m -> runs_as (pinner (B := B) p) (on_inner m).
Proof. intros Hp [b s]. rewrite alone_inner. unfold on_inner. by rewrite Hp. Qed.

End runs_as.

Create HintDb runs.
#[export] Hint Resolve runs_ret runs_atomically runs_bind runs_recover runs_inner : runs.

(** ** How long a process can take *)

(** At most [n] sections, whatever they answer. *)
Fixpoint within {S A} (n : nat) (p : process S A) {struct p} : Prop :=
  match p, n with
  | Done _, _ => True
  | Atomic _ _, O => False
  | Atomic _ c, Datatypes.S n => forall o, within n (c o)
  end.

Lemma within_more {S A} (p : process S A) n n' : within n p -> (n <= n')%nat -> within n' p.
Proof.
  revert n n'. induction p as [o|T m c IH]; intros [|n] [|n'] Hw Hn; try done; [lia|].
  intros o. apply (IH o n); [apply Hw|lia].
Qed.

Section within_rules.
Context {S A B : Type}.

Lemma within_atomically n (m : GoM S A) : within (Datatypes.S n) (atomically m).
Proof. intros o. by destruct n. Qed.

Lemma within_bind (p : process S A) (k : A -> process S B) n n' :
  within n p -> (forall a, within n' (k a)) -> within (n + n') (pbind p k).
Proof.
  revert n. induction p as [[a|v]|T m c IH]; intros n Hp Hk.
  - eapply within_more; [apply Hk|lia].
  - by destruct n, n'.
  - destruct n as [|n]; [done|]. intros o. apply IH; [apply Hp|done].
Qed.

Lemma within_recover (p : process S A) h n n' :
  within n p -> (forall v, within n' (h v)) -> within (n + n') (precover p h).
Proof.
  revert n. induction p as [[a|v]|T m c IH]; intros n Hp Hh.
  - by destruct n, n'.
  - eapply within_more; [apply Hh|lia].
  - destruct n as [|n]; [done|]. intros o. apply IH; [apply Hp|done].
Qed.

Lemma within_defer (p : process S A) (d : process S unit) n n' :
  within n p -> within n' d -> within (n + n') (pdefer p d).
Proof.
  revert n. induction p as [o|T m c IH]; intros n Hp Hd.
  - apply (within_more _ n'); [|lia]. clear n Hp. revert n' Hd. simpl.
    induction d as [[a|v]|T m c IH]; intros n' Hd; [by destruct n'..|].
    destruct n' as [|n']; [done|]. intros x. apply IH, Hd.
  - destruct n as [|n]; [done|]. intros o. apply IH; [apply Hp|done].
Qed.

Lemma within_map {F} (f : forall T, GoM S T -> GoM F T) (p : process S A) n :
  within n p -> within n (pmap f p).
Proof.
  revert n. induction p as [o|T m c IH]; intros [|n] Hp; try done. intros o. apply IH, Hp.
Qed.

Lemma within_private {X} (p : process (X * S) A) x n : within n p -> within n (private x p).
Proof.
  revert x n. induction p as [o|T m c IH]; intros x [|n] Hp; try done.
  intros [[o x']|v]; [apply IH, Hp|by destruct n].
Qed.

End within_rules.

(** One turn: the next section. *)
Definition resume {S A} (p : process S A) (s : S) : process S A * S :=
  match p with
  | Done o => (Done o, s)
  | Atomic m c => let '(o, s') := m s in (c o, s')
  end.

Lemma within_resume {S A} (p : process S A) s n : within (Datatypes.S n) p -> within n (resume p s).1.
Proof. destruct p as [o|T m c]; simpl; [by destruct n|]. intros Hp. destruct (m s) as [o s']. apply Hp. Qed.

(** ** Many of them *)
Section pool.
Context {L S A : Type}.
Context (prog : L -> process S A) (may : L -> Prop) (world : S -> S -> Prop).

(** Who was started and how far each has come, and what they share. *)
Definition pool : Type := list (L * process S A) * S.

(** One is started, one of them takes a turn, or something else happens. *)
Inductive pool_step : pool -> pool -> Prop :=
| pool_start l ts s : may l -> pool_step (ts, s) (ts ++ [(l, prog l)], s)
| pool_turn i l p ts s : ts !! i = Some (l, p) ->
    pool_step (ts, s) (<[i := (l, (resume p s).1)]> ts, (resume p s).2)
| pool_world ts s s' : world s s' -> pool_step (ts, s) (ts, s').

(** The same as a function of a schedule; [Passes] gives the state the world leaves. *)
Inductive move : Type := Start (l : L) | Turn (i : nat) | Passes (s : S).

Definition play (mv : move) (c : pool) : pool :=
  let '(ts, s) := c in
  match mv with
  | Start l => (ts ++ [(l, prog l)], s)
  | Turn i =>
      match ts !! i with
      | Some (l, p) => (<[i := (l, (resume p s).1)]> ts, (resume p s).2)
      | None => (ts, s)
      end
  | Passes s' => (ts, s')
  end.

Fixpoint plays (mvs : list move) (c : pool) : pool :=
  match mvs with [] => c | mv :: mvs => plays mvs (play mv c) end.

(** The moves a pool can make. *)
Fixpoint legal (mvs : list move) (c : pool) : Prop :=
  match mvs with
  | [] => True
  | mv :: mvs =>
      match mv with Start l => may l | Turn _ => True | Passes s' => world c.2 s' end /\ legal mvs (play mv c)
  end.

Lemma plays_reachable mvs : forall c, legal mvs c -> rtc pool_step c (plays mvs c).
Proof.
  induction mvs as [|mv mvs IH]; intros [ts s] Hl; [apply rtc_refl|]. destruct Hl as [Hm Hl].
  destruct mv as [l|i|s']; cbn [play plays] in *.
  - eapply rtc_l; [by apply pool_start|]. by apply IH.
  - destruct (ts !! i) as [[l p]|] eqn:Ei; [|by apply IH]. eapply rtc_l; [by eapply pool_turn|]. by apply IH.
  - eapply rtc_l; [by apply pool_world|]. by apply IH.
Qed.

(** Starting and taking turns is always legal. *)
Lemma legal_turns mvs : (forall l, may l) -> forall c,
  List.forallb (fun mv => match mv with Passes _ => false | _ => true end) mvs = true -> legal mvs c.
Proof.
  intros Hmay. induction mvs as [|mv mvs IH]; intros c; [done|]. cbn [List.forallb legal].
  intros [Hmv Hq]%andb_true_iff. split; [by destruct mv|by apply IH].
Qed.

(** A process is done once it has had as many turns as it can take, whatever the others
    do in between. *)
Definition turns (i : nat) (mvs : list move) : nat :=
  List.length (List.filter (fun mv => match mv with Turn j => Nat.eqb i j | _ => false end) mvs).

Lemma turns_suffice i mvs : forall ts s l p n,
  ts !! i = Some (l, p) -> within n p -> (n <= turns i mvs)%nat ->
  exists o, (plays mvs (ts, s)).1 !! i = Some (l, Done o).
Proof.
  induction mvs as [|mv mvs IH]; intros ts s l p n Hi Hw Hn.
  - unfold turns in Hn. simpl in Hn. assert (n = O) as -> by lia. destruct p as [o|]; [by exists o|done].
  - assert (i < List.length ts)%nat as Hlt by (by apply lookup_lt_Some in Hi).
    destruct mv as [l'|j|s']; cbn [plays play].
    + apply (IH _ s l p n); [by rewrite lookup_app_l|done|exact Hn].
    + unfold turns in Hn. cbn [List.filter] in Hn. destruct (Nat.eqb_spec i j) as [<-|Hne].
      * rewrite Hi. cbn [List.length] in Hn. fold (turns i mvs) in Hn.
        apply (IH _ _ l (resume p s).1 (Nat.pred n)); [by rewrite list_lookup_insert_eq| |lia].
        destruct n as [|n]; [|by apply within_resume].
        destruct p as [o|]; [by simpl|done].
      * fold (turns i mvs) in Hn. destruct (ts !! j) as [[l' p']|] eqn:Ej; [|by apply (IH _ s l p n)].
        apply (IH _ _ l p n); [by rewrite list_lookup_insert_ne|done|done].
    + by apply (IH _ s' l p n).
Qed.

End pool.

(** ** A ledger

    The shared state's own state [R] and what a stretch of it has granted; stretches
    follow one another. *)
Class Ledger (R : Type) : Type := {
  sane : R -> Prop;
  pays : R -> Z -> R -> Prop;
  pays_sane r d r' : pays r d r' -> sane r';
  pays_pos r d r' : pays r d r' -> 0 <= d;
  pays_refl r : sane r -> pays r 0 r;
  pays_trans r1 d1 r2 d2 r3 : pays r1 d1 r2 -> pays r2 d2 r3 -> pays r1 (d1 + d2) r3;
}.

(** The part of a process's state the ledger is about. *)
Class Over (S R : Type) : Type := over : S -> R.
#[global] Instance over_self {R} : Over R R := fun r => r.
#[global] Instance over_layer {B S R} `{Over S R} : Over (B * S) R := fun bs => over bs.2.

(** Whatever the others do between its sections, [p], having been granted [n] so far, ends
    as [Q] says: by what it was granted in all. *)
Fixpoint earns {R S A} `{Ledger R, Over S R} (p : process S A) (n : Z) (Q : Z -> outcome A -> Prop) : Prop :=
  match p with
  | Done o => Q n o
  | Atomic m c => forall s, sane (over s) ->
      exists d, pays (over s) d (over (m s).2) /\ earns (c (m s).1) (n + d) Q
  end.

(** The same of a process with a state of its own, now [x]. *)
Fixpoint keeps {R X S A} `{Ledger R, Over S R} (p : process (X * S) A) (x : X) (n : Z)
    (Q : Z -> X -> outcome A -> Prop) : Prop :=
  match p with
  | Done o => Q n x o
  | Atomic m c => forall s, sane (over s) ->
      exists d, pays (over s) d (over (m (x, s)).2.2) /\ keeps (c (m (x, s)).1) (m (x, s)).2.1 (n + d) Q
  end.

Section ledger.
Context {R S : Type} {LR : Ledger R} {OS : Over S R}.

Lemma earns_mono {A} (p : process S A) n (Q Q' : Z -> outcome A -> Prop) :
  earns p n Q -> (forall n' o, n <= n' -> Q n' o -> Q' n' o) -> earns p n Q'.
Proof.
  revert n. induction p as [o|T m c IH]; intros n Hp HQ; [apply HQ; [lia|done]|].
  intros s Hs. destruct (Hp s Hs) as (d & Hd & Hc). exists d. split; [done|].
  apply (IH _ (n + d)); [done|]. pose proof (pays_pos _ _ _ Hd). intros n' o Hn. apply HQ. lia.
Qed.

Lemma earns_atomically {A} (m : GoM S A) n (Q : Z -> outcome A -> Prop) :
  (forall s, sane (over s) -> exists d, pays (over s) d (over (m s).2) /\ Q (n + d) (m s).1) ->
  earns (atomically m) n Q.
Proof. done. Qed.

(** A section that leaves the ledger alone. *)
Lemma earns_nothing {A} (m : GoM S A) n (Q : Z -> outcome A -> Prop) :
  (forall s, sane (over s) -> pays (over s) 0 (over (m s).2)) -> (forall o, Q n o) -> earns (atomically m) n Q.
Proof. intros Hm HQ s Hs. exists 0. split; [by apply Hm|]. simpl. rewrite Z.add_0_r. apply HQ. Qed.

Lemma earns_bind {A B} (p : process S A) (k : A -> process S B) n Q :
  earns p n (fun n' o => match o with Returns a => earns (k a) n' Q | Panics v => Q n' (Panics v) end) ->
  earns (pbind p k) n Q.
Proof.
  revert n. induction p as [[a|v]|T m c IH]; intros n Hp; [done..|].
  intros s Hs. destruct (Hp s Hs) as (d & Hd & Hc). exists d. split; [done|]. by apply IH.
Qed.

Lemma earns_recover {A} (p : process S A) h n Q :
  earns p n (fun n' o => match o with Returns a => Q n' (Returns a) | Panics v => earns (h v) n' Q end) ->
  earns (precover p h) n Q.
Proof.
  revert n. induction p as [[a|v]|T m c IH]; intros n Hp; [done..|].
  intros s Hs. destruct (Hp s Hs) as (d & Hd & Hc). exists d. split; [done|]. by apply IH.
Qed.

(** A process on a part of a state under a ledger of its own, when sections on the part pay
    there what they pay on it. *)
Lemma earns_map {F R' A} {LR' : Ledger R'} {OF : Over F R'} (f : forall T, GoM S T -> GoM F T)
    (p : process S A) n Q :
  (forall T (m : GoM S T) x, sane (over x) -> exists s, sane (over s) /\ (f T m x).1 = (m s).1 /\
     forall d, pays (over s) d (over (m s).2) -> pays (over x) d (over (f T m x).2)) ->
  earns p n Q -> earns (pmap f p) n Q.
Proof.
  intros Hf. revert n. induction p as [o|T m c IH]; intros n Hp; [done|].
  intros x Hx. destruct (Hf T m x Hx) as (s & Hs & E & Hpays).
  destruct (Hp s Hs) as (d & Hd & Hc). exists d. rewrite E. split; [by apply Hpays|]. by apply IH.
Qed.

Lemma earns_inner {B A} (p : process S A) n Q : earns p n Q -> earns (pinner (B := B) p) n Q.
Proof.
  apply earns_map. intros T m [b s] Hs. exists s. unfold on_inner. simpl. by destruct (m s).
Qed.

Lemma earns_resume {A} (p : process S A) s n Q :
  earns p n Q -> sane (over s) ->
  exists d, pays (over s) d (over (resume p s).2) /\ earns (resume p s).1 (n + d) Q.
Proof.
  destruct p as [o|T m c]; simpl.
  - intros HQ Hs. exists 0. rewrite Z.add_0_r. split; [by apply pays_refl|done].
  - intros Hp Hs. destruct (Hp s Hs) as (d & Hd & Hc). exists d. by destruct (m s).
Qed.

Section own_state.
Context {X : Type}.

Lemma keeps_mono {A} (p : process (X * S) A) x n (Q Q' : Z -> X -> outcome A -> Prop) :
  keeps p x n Q -> (forall n' x' o, n <= n' -> Q n' x' o -> Q' n' x' o) -> keeps p x n Q'.
Proof.
  revert x n. induction p as [o|T m c IH]; intros x n Hp HQ; [apply HQ; [lia|done]|].
  intros s Hs. destruct (Hp s Hs) as (d & Hd & Hc). exists d. split; [done|].
  eapply IH; [exact Hc|]. pose proof (pays_pos _ _ _ Hd). intros n' x' o Hn. apply HQ. lia.
Qed.

Lemma keeps_bind {A B} (p : process (X * S) A) (k : A -> process (X * S) B) x n Q :
  keeps p x n (fun n' x' o => match o with Returns a => keeps (k a) x' n' Q | Panics v => Q n' x' (Panics v) end) ->
  keeps (pbind p k) x n Q.
Proof.
  revert x n. induction p as [[a|v]|T m c IH]; intros x n Hp; [done..|].
  intros s Hs. destruct (Hp s Hs) as (d & Hd & Hc). exists d. split; [done|]. by apply IH.
Qed.

Lemma keeps_recover {A} (p : process (X * S) A) h x n Q :
  keeps p x n (fun n' x' o => match o with Returns a => Q n' x' (Returns a) | Panics v => keeps (h v) x' n' Q end) ->
  keeps (precover p h) x n Q.
Proof.
  revert x n. induction p as [[a|v]|T m c IH]; intros x n Hp; [done..|].
  intros s Hs. destruct (Hp s Hs) as (d & Hd & Hc). exists d. split; [done|]. by apply IH.
Qed.

Lemma keeps_defer {A} (p : process (X * S) A) (d : process (X * S) unit) x n Q :
  keeps p x n (fun n' x' o => keeps d x' n' (fun n'' x'' o' =>
    Q n'' x'' (match o' with Returns _ => o | Panics v => Panics v end))) ->
  keeps (pdefer p d) x n Q.
Proof.
  revert x n. induction p as [o|T m c IH]; intros x n Hp.
  - simpl in *. revert x n Hp. induction d as [[u|v]|T m c IH]; intros x n Hp; [done..|].
    intros s Hs. destruct (Hp s Hs) as (d & Hd & Hc). exists d. split; [done|]. by apply IH.
  - intros s Hs. destruct (Hp s Hs) as (e & Hd & Hc). exists e. split; [done|]. by apply IH.
Qed.

(** A section on what is the process's own: the shared state is left as it was. *)
Lemma keeps_own {A} (m : GoM (X * S) A) x n (Q : Z -> X -> outcome A -> Prop) :
  (forall s, sane (over s) -> exists o x', m (x, s) = (o, (x', s)) /\ Q n x' o) -> keeps (atomically m) x n Q.
Proof.
  intros Hm s Hs. destruct (Hm s Hs) as (o & x' & E & HQ). exists 0. rewrite E, Z.add_0_r.
  split; [by apply pays_refl|done].
Qed.

(** A process on the shared state only. *)
Lemma keeps_inner {A} (p : process S A) x n (Q : Z -> X -> outcome A -> Prop) :
  earns p n (fun n' o => Q n' x o) -> keeps (pinner p) x n Q.
Proof.
  revert n. induction p as [o|T m c IH]; intros n Hp; [done|].
  intros s Hs. destruct (Hp s Hs) as (d & Hd & Hc). exists d. unfold on_inner.
  destruct (m s) as [o s']. split; [done|]. by apply IH.
Qed.

Lemma earns_private {A} (p : process (X * S) A) x n (Q : Z -> outcome (outcome A * X) -> Prop) :
  keeps p x n (fun n' x' o => Q n' (Returns (o, x'))) -> earns (private x p) n Q.
Proof.
  revert x n. induction p as [o|T m c IH]; intros x n Hp; [done|].
  intros s Hs. destruct (Hp s Hs) as (d & Hd & Hc). exists d.
  destruct (m (x, s)) as [o [x' s']]. split; [done|]. by apply IH.
Qed.

End own_state.

(** *** The pool's ledger is the sum of its processes' *)
Section pool_ledger.
Context {L A : Type} (prog : L -> process S A) (may : L -> Prop) (world : S -> S -> Prop).
Context (Q : L -> Z -> outcome A -> Prop).
Context (Hprog : forall l, may l -> earns (prog l) 0 (Q l)).
Context (Hworld : forall s s', sane (over s) -> world s s' -> pays (over s) 0 (over s')).

Definition total (ns : list Z) : Z := foldr Z.add 0 ns.

Lemma total_app ns ns' : total (ns ++ ns') = total ns + total ns'.
Proof. induction ns as [|n ns IH]; simpl; [done|]. rewrite IH. lia. Qed.

Lemma total_insert ns i n d : ns !! i = Some n -> total (<[i := n + d]> ns) = total ns + d.
Proof.
  revert i. induction ns as [|n' ns IH]; intros [|i] E; try done; simpl in *.
  - injection E as ->. lia.
  - rewrite (IH i E). lia.
Qed.

Lemma pool_ledger s0 ts s :
  sane (over s0) -> rtc (pool_step prog may world) ([], s0) (ts, s) ->
  exists ns, pays (over s0) (total ns) (over s) /\ Forall (fun n => 0 <= n) ns /\
    Forall2 (fun lp n => earns lp.2 n (Q lp.1)) ts ns.
Proof.
  intros Hs0 Hr. remember (ts, s) as c eqn:E. revert ts s E. revert c Hr.
  refine (rtc_ind_r _ ([], s0) _ _); [|intros c1 c Hr Hstep IH]; intros ts s E.
  { injection E as <- <-. exists []. split; [by apply pays_refl|]. by repeat constructor. }
  subst c. inversion Hstep as [l ts1 s1 Hl|i l p ts1 s1 Hi|ts1 s1 s2 Hw]; subst; clear Hstep;
    destruct (IH _ _ eq_refl) as (ns & Hp & Hpos & Hns).
  - exists (ns ++ [0])%list. rewrite total_app. simpl. rewrite Z.add_0_r. split; [done|].
    split; [apply Forall_app; split; [done|by constructor]|].
    apply Forall2_app; [done|]. constructor; [by apply Hprog|constructor].
  - destruct (Forall2_lookup_l _ _ _ _ _ Hns Hi) as (n & En & Hn). simpl in Hn.
    destruct (earns_resume p s1 n (Q l) Hn (pays_sane _ _ _ Hp)) as (d & Hd & Hc).
    pose proof (pays_pos _ _ _ Hd). exists (<[i := n + d]> ns). rewrite (total_insert _ _ _ _ En).
    split; [by eapply pays_trans|]. split.
    + apply Forall_insert; [done|]. pose proof (proj1 (Forall_lookup _ _) Hpos _ _ En). simpl in *. lia.
    + by apply Forall2_insert.
  - exists ns. split; [|done]. replace (total ns) with (total ns + 0) by lia.
    eapply pays_trans; [done|]. by apply Hworld; [eapply pays_sane|].
Qed.

(** A property that is worth one each cannot be had more often than was granted. *)
Lemma pool_count (p : L * process S A -> bool) s0 ts s :
  sane (over s0) -> rtc (pool_step prog may world) ([], s0) (ts, s) ->
  (forall l o n, Q l n o -> p (l, Done o) = true -> 1 <= n) ->
  (forall l q, p (l, q) = true -> exists o, q = Done o) ->
  exists d, pays (over s0) d (over s) /\ Z.of_nat (List.length (List.filter p ts)) <= d.
Proof.
  intros Hs0 Hr HQ Hdone. destruct (pool_ledger s0 ts s Hs0 Hr) as (ns & Hp & Hpos & Hns).
  exists (total ns). split; [done|]. clear Hp Hr. induction Hns as [|[l q] n ts ns Hq Hns IH]; [done|].
  apply Forall_cons in Hpos as [Hn Hpos]. specialize (IH Hpos). simpl in *.
  destruct (p (l, q)) eqn:Ep; [|lia]. destruct (Hdone _ _ Ep) as [o ->]. simpl in Hq.
  pose proof (HQ _ _ _ Hq Ep). cbn [List.length]. lia.
Qed.

End pool_ledger.
End ledger.

(** ** Invariants

    A ledger that grants nothing is an invariant of the shared state: over it [earns] says
    how a process ends, whatever happens around it as long as the invariant is kept. *)
#[local] Obligation Tactic := idtac.
Program Definition invariant_ledger {R} (I : R -> Prop) : Ledger R :=
  {| sane := I; pays _ d r' := d = 0 /\ I r' |}.
Next Obligation. by intros R I r d r' [_ ?]. Qed.
Next Obligation. by intros R I r d r' [-> _]. Qed.
Next Obligation. done. Qed.
Next Obligation. by intros R I r1 d1 r2 d2 r3 [-> _] [-> ?]. Qed.

#[local] Instance no_ledger {R} : Ledger R := invariant_ledger (fun _ => True).

Section ends.
Context {R L S A : Type} {OS : Over S R} (prog : L -> process S A).

Lemma plays_ends i mvs (Q : outcome A -> Prop) : forall ts s l p,
  ts !! i = Some (l, p) -> earns p 0 (fun _ => Q) ->
  exists p', (plays prog mvs (ts, s)).1 !! i = Some (l, p') /\ earns p' 0 (fun _ => Q).
Proof.
  induction mvs as [|mv mvs IH]; intros ts s l p Hi Hp; [by exists p|].
  assert (i < List.length ts)%nat as Hlt by (by apply lookup_lt_Some in Hi).
  destruct mv as [l'|j|s']; cbn [plays play].
  - apply (IH _ s l p); [by rewrite lookup_app_l|done].
  - destruct (ts !! j) as [[l' p']|] eqn:Ej; [|by apply (IH _ s l p)].
    destruct (decide (i = j)) as [<-|Hne].
    + rewrite Hi in Ej. injection Ej as <- <-.
      destruct (earns_resume p s 0 _ Hp I) as (d & [-> _] & Hr).
      eapply IH; [by apply list_lookup_insert_eq|exact Hr].
    + eapply IH; [|exact Hp]. by rewrite list_lookup_insert_ne.
  - by apply (IH _ s' l p).
Qed.

(** A process that can take [n] sections at most has ended, as it must, after [n] turns. *)
Lemma turns_end i mvs (Q : outcome A -> Prop) ts s l p n :
  ts !! i = Some (l, p) -> earns p 0 (fun _ => Q) -> within n p -> (n <= turns i mvs)%nat ->
  exists o, (plays prog mvs (ts, s)).1 !! i = Some (l, Done o) /\ Q o.
Proof.
  intros Hi Hp Hw Hn. destruct (plays_ends i mvs Q ts s l p Hi Hp) as (p' & E & Hp').
  destruct (turns_suffice prog i mvs ts s l p n Hi Hw Hn) as (o & Eo). rewrite E in Eo. injection Eo as ->.
  by exists o.
Qed.

End ends.
