(* ===== verification/Concurrent.v ===== *)
(** * Checks, cut at their critical sections

    The goroutine that serves one [/check]: [httpapi.handleCheck], the engine and the
    store chain as a [process], one [Atomic] for every region a mutex protects, every
    atomic counter, every reading of the clock and every round trip to Redis.  What a
    goroutine alone can see - the request, the response, its log lines - may be cut
    anywhere, so those parts are taken whole from the sequential definitions.

    Run alone, each process is the sequential definition ([runs_as]). *)
From stdpp Require Import base list gmap strings relations.
From Stdlib Require Import ZArith Lia Ascii String.
From S2P Require Import Prelude.
From S2P Require Import GoStrings.
From S2P Require Import Store.
From S2P Require Import Request.
From S2P Require Import Limiter.
From S2P Require Import Engine.
From S2P Require Import Redis.
From S2P Require Import RedisStore.
From S2P Require Import TokenBucket.
From S2P Require Import HttpApi.
From S2P Require Import ConfigEnv.
From S2P Require Import ConfigBuild.
From S2P Require Breaker BlockCache.
From S2P Require Import Blocks.
From S2P Require Import Chain.
From S2P Require Import Process.

#[local] Open Scope string_scope.
#[local] Open Scope Z_scope.

(** ** The store chain *)

(** [store.Store]'s two calls as processes. *)
Record CStore (S : Type) : Type := mkCStore {
  c_Consume : Key -> Rule -> process S (Result * option error);
  c_Take : Key -> Bucket -> process S (TakeResult * option error);
}.
Arguments mkCStore {S}.
Arguments c_Consume {S}.
Arguments c_Take {S}.

(** A call is one section: Redis runs a script without interruption. *)
Definition one_section {S} (st : Store S) : CStore S :=
  mkCStore (fun k r => atomically (Consume st k r)) (fun k b => atomically (Take st k b)).

(** [breaker.Store]: two locked regions around the inner call. *)
Section breaker.
Context (opts : Breaker.Options) {S : Type} `{Clock S}.

Definition c_through {A} (zero : A) (call : process S (A * option error)) :
    process (Breaker.State * S) (A * option error) :=
  let* ok := atomically (Breaker.allow opts) in
  if negb ok then pret (zero, Some Breaker.ErrOpen)
  else
    let* (res, err) := pinner call in
    let* _ := atomically (Breaker.record opts (match err with None => true | Some _ => false end)) in
    pret (res, err).

Definition c_breaker (inner : CStore S) : CStore (Breaker.State * S) :=
  mkCStore (fun k r => c_through Result_zero (c_Consume inner k r))
    (fun k b => c_through TakeResult_zero (c_Take inner k b)).

End breaker.

(** [blockcache.Store]: the map is read under the lock and the clock after it. *)
Section blockcache.
Context (opts : BlockCache.Options) {S : Type} `{Clock S}.

Definition c_lookup (k : string) : process (BlockCache.State * S) (Time * bool) :=
  let* b := atomically get_own in
  match BlockCache.entries b !! k with
  | None => pret (Time.zero, false)
  | Some until =>
      let* t := atomically now in
      if negb (Time.Before t until) then pret (Time.zero, false) else pret (until, true)
  end.

Definition c_cached (inner : CStore S) (key : Key) (rule : Rule) :
    process (BlockCache.State * S) (Result * option error) :=
  let k := Key_String key in
  let* (until, ok) := c_lookup k in
  if (ok : bool)
  then
    let* _ := atomically BlockCache.count_hit in
    let* t := atomically now in
    pret (mkResult true (-1) (Time.Sub until t), None)
  else
    let* (res, err) := pinner (c_Consume inner key rule) in
    match err with
    | Some _ => pret (res, err)
    | None =>
        let* _ := if Result_Blocked res && (Result_RetryAfter res >? 0)
                  then atomically (BlockCache.remember opts k (Result_RetryAfter res)) else pret tt in
        pret (res, None)
    end.

Definition c_cache (inner : CStore S) : CStore (BlockCache.State * S) :=
  mkCStore (c_cached inner) (fun k b => pinner (c_Take inner k b)).

End blockcache.

(** A decorator that is not in use. *)
Definition c_pass {B S} (inner : CStore S) : CStore (B * S) :=
  mkCStore (fun k r => pinner (c_Consume inner k r)) (fun k b => pinner (c_Take inner k b)).

Section chain.
Context {C : Certificates} {FS : FileSystem} {R : Type} {G : GoRedis R} `{Clock R}.
Context (fmt_Rule : Rule -> string) (fmt_Bucket : Bucket -> string).

Definition c_with_breaker (br : option Breaker.Options) (st : CStore R) : CStore (Breaker.State * R) :=
  match br with Some opts => c_breaker opts st | None => c_pass st end.

Definition c_with_cache (bc : option BlockCache.Options) (st : CStore (Breaker.State * R)) : CStore (chain (R := R)) :=
  match bc with Some opts => c_cache opts st | None => c_pass st end.

(** The chain [buildStore] assembles. *)
Definition c_assemble (cfg : Config) (rs : redis_handle (R := R)) : CStore (chain (R := R)) :=
  c_with_cache (cache_options cfg)
    (c_with_breaker (breaker_options cfg) (one_section (redis_of fmt_Rule fmt_Bucket rs))).

End chain.

(** ** The engine *)
Section engine.
Context {U : Unicode} {S : Type}.
Context (st : CStore S).

Definition c_apply (l : Limiter) (bucket : string) : process (frame * S) (Outcome * option error) :=
  precover
    (let key := mkKey (Limiter_Name l) bucket in
     if Bucket_Valid (Limiter_Bucket l)
     then
       let* (res, terr) := pinner (c_Take st key (Limiter_Bucket l)) in
       match terr with
       | Some _ => pret (Outcome_zero, terr)
       | None =>
           pret (mkOutcome (negb (TakeResult_Allowed res)) (TakeResult_Remaining res)
                   (TakeResult_RetryAfter res), None)
       end
     else
       let* (res, cerr) := pinner (c_Consume st key (Limiter_Rule l)) in
       match cerr with
       | Some _ => pret (Outcome_zero, cerr)
       | None => pret (mkOutcome (Result_Blocked res) (Result_Count res) (Result_RetryAfter res), None)
       end)
    (fun v => pret (Outcome_zero, Some ("store panicked: " ++ v)%string)).

Fixpoint c_evaluate_from (limiters : list Limiter) (d : Decision) : process (frame * S) Decision :=
  match limiters with
  | [] => pret d
  | l :: ls =>
      let* req := atomically get_req in
      if negb (Applies l (Path req) (Method req)) || negb (Active l)
      then c_evaluate_from ls d
      else
        let* (bkt, ok) := atomically (bucket l) in
        if negb ok then c_evaluate_from ls d
        else
          let* (res, err) := c_apply l bkt in
          match err with
          | Some e =>
              let* _ := atomically (emit (LogStoreError (Limiter_Name l) (truncate bkt) e)) in
              c_evaluate_from ls (evaluated d (Limiter_Name l) VerdictFailedOpen)
          | None =>
              if Outcome_blocked res && Limiter_DryRun l
              then c_evaluate_from ls (would_block d l res)
              else if Outcome_blocked res
              then pret (block d l res)
              else c_evaluate_from ls (evaluated d (Limiter_Name l) VerdictAllowed)
          end
  end.

Definition c_Evaluate (limiters : list Limiter) : process (frame * S) Decision :=
  c_evaluate_from limiters Decision_zero.

End engine.

(** ** The handler *)
Section handler.
Context {U : Unicode} {S : Type} `{Clock S}.
Context (st : CStore S) (h : Handler).

(** What an evaluation leaves: its outcome, and its lines in the log. *)
Definition evaluation_done (o : outcome Decision) (f : frame) : GoM (exchange * S) Decision :=
  fun '(x, s) =>
    (o, (mkExchange (ex_writer x) (ex_wrote x) (ex_log x ++ map LogEngine (frame_log f)) (ex_metrics x), s)).

Definition c_evaluate (req : Request) : process (exchange * S) Decision :=
  let* (o, f) := pinner (private (mkFrame req []) (c_Evaluate st (h_limiters h))) in
  atomically (evaluation_done o f).

Definition c_check_body (r : http_request) : process (exchange * S) unit :=
  let* (body, truncated) := atomically (readBody h r) in
  let* _ := atomically (if (truncated : bool) then
      let! _ := log (LogBodyTruncated (h_maxBody h) (originalPath r)) in
      measure h (RecordDecision "body" (Verdict_string VerdictFailedOpen))
    else gret tt) in
  let req := check_request r body in
  let* d := c_evaluate req in
  let* _ := atomically (record h d) in
  let* _ := atomically (if Decision_Blocked d
    then log (LogBlocked (Decision_DryRun d) (Decision_Limiter d) (Path req) (Decision_Count d)
                (Decision_RetryAfter d))
    else gret tt) in
  atomically (if Rejected d then writeBlocked h d else WriteHeader 200).

Definition c_handleCheck (r : http_request) : process (exchange * S) unit :=
  let* start := atomically now in
  pdefer (c_check_body r)
    (let* stop := atomically now in atomically (measure h (ObserveCheck (Time.Sub stop start)))).

Definition c_serve_check (r : http_request) : process (exchange * S) unit :=
  precover (c_handleCheck r) (fun v => atomically (recoverAndAllow h (gpanic v))).

(** The goroutine of one check: it ends with its response. *)
Definition check (r : http_request) : process S (outcome unit * exchange) :=
  private fresh_exchange (c_serve_check r).

End handler.

(** ** Alone, they are the sequential definitions *)

(** The two calls of [c], run alone, are those of [st]. *)
Definition store_runs_as {S} (c : CStore S) (st : Store S) : Prop :=
  (forall k r, runs_as (c_Consume c k r) (Consume st k r)) /\ forall k b, runs_as (c_Take c k b) (Take st k b).

Section sequential.
Context {S : Type} `{Clock S}.

Lemma one_section_runs (st : Store S) : store_runs_as (one_section st) st.
Proof. split; intros; apply runs_atomically. Qed.

Lemma pass_runs {B} (c : CStore S) st : store_runs_as c st -> store_runs_as (c_pass (B := B) c) (pass_through st).
Proof. intros [Hc Ht]. split; intros; apply runs_inner; auto. Qed.

Lemma through_runs opts {A} (zero : A) p call :
  runs_as p call -> runs_as (c_through opts zero p) (Breaker.through opts zero call).
Proof.
  intros Hp. apply runs_bind; [apply runs_atomically|]. intros [|]; cbn [negb]; [|apply runs_ret].
  apply runs_bind; [by apply runs_inner|]. intros [res err]. eauto with runs.
Qed.

Lemma breaker_runs opts (c : CStore S) st :
  store_runs_as c st -> store_runs_as (c_breaker opts c) (Breaker.decorate opts st).
Proof. intros [Hc Ht]. split; intros; by apply through_runs. Qed.

Lemma lookup_runs k : runs_as (c_lookup (S := S) k) (BlockCache.lookup k).
Proof.
  apply runs_bind; [apply runs_atomically|]. intros b. destruct (BlockCache.entries b !! k) as [until|]; [|apply runs_ret].
  apply runs_bind; [apply runs_atomically|]. intros t. destruct (negb _); apply runs_ret.
Qed.

Lemma cache_runs opts (c : CStore S) st :
  store_runs_as c st -> store_runs_as (c_cache opts c) (BlockCache.decorate opts st).
Proof.
  intros [Hc Ht]. split; intros; [|by apply runs_inner].
  apply runs_bind; [apply lookup_runs|]. intros [until [|]].
  - apply runs_bind; [apply runs_atomically|]. eauto with runs.
  - apply runs_bind; [by apply runs_inner|]. intros [res [e|]]; [apply runs_ret|].
    apply runs_bind; [destruct (_ && _); auto with runs|]. eauto with runs.
Qed.

(** The engine and the handler over a store that runs as [st]. *)
Section over_store.
Context {U : Unicode} (c : CStore S) (st : Store S) (Hst : store_runs_as c st).

Lemma apply_runs l b : runs_as (c_apply c l b) (apply st l b).
Proof using Hst.
  destruct Hst as [Hc Ht]. apply runs_recover; [|eauto with runs].
  cbv zeta. destruct (Bucket_Valid _); (apply runs_bind; [apply runs_inner; auto|]); intros [res [e|]]; apply runs_ret.
Qed.

Lemma evaluate_from_runs ls : forall d, runs_as (c_evaluate_from c ls d) (evaluate_from st ls d).
Proof using Hst.
  induction ls as [|l ls IH]; intros d; [apply runs_ret|].
  apply runs_bind; [apply runs_atomically|]. intros req. destruct (_ || _); [apply IH|].
  apply runs_bind; [apply runs_atomically|]. intros [bkt [|]]; cbn [negb]; [|apply IH].
  apply runs_bind; [apply apply_runs|]. intros [res [e|]].
  - apply runs_bind; [apply runs_atomically|]. intros _. apply IH.
  - destruct (_ && _); [apply IH|]. destruct (Outcome_blocked res); [apply runs_ret|apply IH].
Qed.

Lemma evaluate_runs h req : runs_as (c_evaluate c h req) (evaluate st h req).
Proof using Hst.
  intros [x s]. unfold c_evaluate. rewrite alone_bind. unfold gbind. rewrite alone_inner.
  unfold on_inner, evaluate. rewrite alone_private. unfold c_Evaluate, Evaluate.
  rewrite (evaluate_from_runs _ _ (mkFrame req [], s)).
  destruct (evaluate_from st (h_limiters h) Decision_zero (mkFrame req [], s)) as [o [f s']].
  by rewrite alone_atomically.
Qed.

Lemma check_body_runs h r : runs_as (c_check_body c h r) (check_body st h r).
Proof using Hst.
  apply runs_bind; [apply runs_atomically|]. intros [b truncated].
  apply runs_bind; [apply runs_atomically|]. intros _. cbv zeta.
  apply runs_bind; [apply evaluate_runs|]. intros d. eauto 6 with runs.
Qed.

Lemma alone_defer {A} (p : process (exchange * S) A) d s : alone (pdefer p d) s = gdefer (alone p) (alone d) s.
Proof.
  revert s. induction p as [o|T m k IH]; intros s.
  - unfold gdefer. simpl. revert s. induction d as [[u|v]|T m k IH]; intros s; [done..|].
    simpl. destruct (m s) as [o' s']. apply IH.
  - unfold gdefer in *. simpl. destruct (m s) as [o' s']. apply IH.
Qed.

Lemma serve_check_runs h r : runs_as (c_serve_check c h r) (serve_check st h r).
Proof using Hst.
  apply runs_recover.
  - apply runs_bind; [apply runs_atomically|]. intros start s. rewrite alone_defer. unfold gdefer.
    rewrite (check_body_runs h r s). destruct (check_body st h r s) as [o s1].
    assert (runs_as (let* stop := atomically now in atomically (measure h (ObserveCheck (Time.Sub stop start))))
              (let! stop := @now (exchange * S) _ in measure h (ObserveCheck (Time.Sub stop start)))) as Hd
      by (apply runs_bind; eauto with runs).
    by rewrite (Hd s1).
  - intros v. apply runs_atomically.
Qed.

End over_store.
End sequential.

Section assembled_chain.
Context {C : Certificates} {FS : FileSystem} {R : Type} {G : GoRedis R} `{Clock R}.
Context (fmt_Rule : Rule -> string) (fmt_Bucket : Bucket -> string).

Lemma assemble_runs cfg (rs : redis_handle (R := R)) :
  store_runs_as (c_assemble fmt_Rule fmt_Bucket cfg rs) (as_store (assemble fmt_Rule fmt_Bucket cfg rs)).
Proof.
  unfold c_assemble, assemble, c_with_cache, with_cache, c_with_breaker, with_breaker. cbn [as_store].
  destruct (cache_options cfg), (breaker_options cfg);
    repeat first [apply cache_runs | apply breaker_runs | apply pass_runs | apply one_section_runs].
Qed.


End assembled_chain.

(** ** A check is never held up *)

(** The sections a store call takes at most. *)
Definition brief {S} (n : nat) (c : CStore S) : Prop :=
  (forall k r, within n (c_Consume c k r)) /\ forall k b, within n (c_Take c k b).

Section brief.
Context {S : Type} `{Clock S}.

Lemma one_section_brief (st : Store S) : brief 1 (one_section st).
Proof. split; intros; apply within_atomically. Qed.

Lemma pass_brief {B} n (c : CStore S) : brief n c -> brief n (c_pass (B := B) c).
Proof. intros [Hc Ht]. split; intros; by apply within_map. Qed.

Lemma through_within opts {A} (zero : A) n p : within n p -> within (n + 2) (c_through opts zero p).
Proof.
  intros Hp. eapply within_more; [eapply (within_bind _ _ 1); [apply within_atomically|]|].
  - intros ok. instantiate (1 := (n + 1)%nat). destruct ok; cbn [negb]; [|by destruct n].
    apply within_bind; [by apply within_map|]. intros [res err].
    eapply (within_bind _ _ 1 0); [apply within_atomically|]. by intros _.
  - lia.
Qed.

Lemma breaker_brief opts n (c : CStore S) : brief n c -> brief (n + 2) (c_breaker opts c).
Proof. intros [Hc Ht]. split; intros; by apply through_within. Qed.

Lemma cache_brief opts n (c : CStore S) : (1 <= n)%nat -> brief n c -> brief (n + 3) (c_cache opts c).
Proof.
  intros Hn [Hc Ht]. split; intros; [|eapply within_more; [by apply within_map|lia]].
  eapply within_more; [eapply (within_bind _ _ 2)|].
  - eapply (within_bind _ _ 1 1); [apply within_atomically|]. intros b.
    destruct (BlockCache.entries b !! _); [|done].
    eapply (within_bind _ _ 1 0); [apply within_atomically|]. intros t. by destruct (negb _).
  - intros [until ok]. instantiate (1 := (n + 1)%nat). destruct ok.
    + eapply within_more; [eapply (within_bind _ _ 1 1); [apply within_atomically|]|lia]. intros _.
      eapply (within_bind _ _ 1 0); [apply within_atomically|]. by intros t.
    + apply within_bind; [by apply within_map|]. intros [res [e|]]; [done|].
      eapply (within_bind _ _ 1 0); [|by intros _]. destruct (_ && _); [apply within_atomically|done].
  - lia.
Qed.

Section over_store.
Context {U : Unicode} (c : CStore S) (n : nat) (Hb : brief n c).

Lemma apply_within l b : within n (c_apply c l b).
Proof using Hb.
  destruct Hb as [Hc Ht]. eapply within_more; [eapply (within_recover _ _ n 0)|lia]; [|by intros v].
  cbv zeta. eapply within_more.
  - destruct (Bucket_Valid _); (eapply (within_bind _ _ n 0); [apply within_map; auto|]); by intros [res [e|]].
  - lia.
Qed.

Lemma evaluate_from_within ls : forall d, within (List.length ls * (n + 3)) (c_evaluate_from c ls d).
Proof using Hb.
  induction ls as [|l ls IH]; intros d; [done|]. cbn [List.length Nat.mul c_evaluate_from].
  set (rest := (List.length ls * (n + 3))%nat) in *.
  eapply within_more; [eapply (within_bind _ _ 1 (n + 2 + rest)); [apply within_atomically|]|lia]. intros req.
  destruct (_ || _); [eapply within_more; [apply IH|lia]|].
  eapply within_more; [eapply (within_bind _ _ 1 (n + 1 + rest)); [apply within_atomically|]|lia]. intros [bkt ok].
  destruct ok; cbn [negb]; [|eapply within_more; [apply IH|lia]].
  eapply within_more; [eapply (within_bind _ _ n (1 + rest)); [apply apply_within|]|lia]. intros [res [e|]].
  - eapply (within_bind _ _ 1 rest); [apply within_atomically|]. intros _. apply IH.
  - destruct (_ && _); [eapply within_more; [apply IH|lia]|].
    destruct (Outcome_blocked res); [done|]. eapply within_more; [apply IH|lia].
Qed.

Lemma check_within h r : within (List.length (h_limiters h) * (n + 3) + 10) (check c h r).
Proof using Hb.
  set (m := (List.length (h_limiters h) * (n + 3))%nat).
  apply within_private. eapply within_more; [eapply (within_recover _ _ (m + 9) 1)|lia];
    [|intros v; apply within_atomically].
  eapply within_more; [eapply (within_bind _ _ 1 (m + 6 + 2)); [apply within_atomically|]|lia]. intros start.
  apply within_defer.
  - eapply within_more; [eapply (within_bind _ _ 1 (m + 5)); [apply within_atomically|]|lia]. intros [b truncated].
    eapply within_more; [eapply (within_bind _ _ 1 (m + 4)); [apply within_atomically|]|lia]. intros _. cbv zeta.
    eapply within_more; [eapply (within_bind _ _ (m + 1) 3)|lia].
    + eapply (within_bind _ _ m 1); [|intros [o f]; apply within_atomically].
      apply within_map, within_private, evaluate_from_within.
    + intros d. eapply (within_bind _ _ 1 2); [apply within_atomically|]. intros _.
      eapply (within_bind _ _ 1 1); [apply within_atomically|]. intros _. apply within_atomically.
  - eapply (within_bind _ _ 1 1); [apply within_atomically|]. intros stop. apply within_atomically.
Qed.

End over_store.
End brief.

Lemma assemble_brief {C : Certificates} {FS : FileSystem} {R : Type} {G : GoRedis R} `{Clock R}
    fmt_Rule fmt_Bucket cfg (rs : redis_handle (R := R)) : brief 6 (c_assemble fmt_Rule fmt_Bucket cfg rs).
Proof.
  assert (forall X (c : CStore X) n n', brief n c -> (n <= n')%nat -> brief n' c) as Hmore.
  { intros X c n n' [Hc Ht] Hn. split; intros; eapply within_more; eauto. }
  unfold c_assemble, c_with_cache, c_with_breaker.
  destruct (breaker_options cfg) as [bo|]; destruct (cache_options cfg) as [co|]; eapply Hmore.
  all: try (apply cache_brief; [|first [apply breaker_brief, one_section_brief | apply pass_brief, one_section_brief]]).
  all: try (apply pass_brief; first [apply breaker_brief, one_section_brief | apply pass_brief, one_section_brief]).
  all: lia.
Qed.
