(* ===== verification/Accounts.v ===== *)
(** * What a check is granted

    Over any ledger of the backend's state, the processes of [Concurrent] account for
    what the backend granted them: a store call answered "allowed" was granted one, and a
    check that counts a limiter's verdict as allowed made such a call - however its
    sections interleave with others'.  The handler's part is proved once for whatever is
    known of the engine ([check_earns]): a check ends with its decision's response, and
    counts it. *)
From stdpp Require Import base list gmap strings relations.
From Stdlib Require Import ZArith Lia Ascii String.
From S2P Require Import Prelude.
From S2P Require Import GoStrings.
From S2P Require Import Store.
From S2P Require Import Request.
From S2P Require Import Limiter.
From S2P Require Import Engine.
From S2P Require Import HttpApi.
From S2P Require Import Observability.
From S2P Require Breaker BlockCache.
From S2P Require Import Process.
From S2P Require Import Concurrent.

#[local] Open Scope Z_scope.

Section accounts.
Context {R : Type} {LR : Ledger R}.

(** ** Sections the ledger does not feel *)
Definition free {S A} `{Over S R} (m : GoM S A) : Prop :=
  forall s, sane (over s) -> pays (over s) 0 (over (m s).2).

(** Reading the clock is free: time passes, and nothing else. *)
Class FreeClock (S : Type) `{Clock S, Over S R} : Prop := clock_free : free (@now S _).

#[global] Instance free_clock_layer {B S} `{FreeClock S} : FreeClock (B * S).
Proof.
  intros [b s] Hs. pose proof (clock_free s Hs) as Hc. unfold now in *.
  unfold clock_now at 1, clock_layer. by destruct (clock_now s).
Qed.

(** A computation is free when it keeps what was free so far. *)
Lemma free_preserves {S A} `{Over S R} (m : GoM S A) :
  (forall r, Preserves (fun s => pays r 0 (over s)) m) -> free m.
Proof. intros Hm s Hs. apply Hm. by apply pays_refl. Qed.

Section layer.
Context {B S : Type} `{Clock S, Over S R} {F : FreeClock S}.

#[local] Instance now_keeps_free r : Preserves (fun bs : B * S => pays r 0 (over bs)) now.
Proof using F.
  intros [b s] Hs. pose proof (clock_free s (pays_sane _ _ _ Hs)) as Hc. unfold now in *.
  unfold clock_now at 1, clock_layer. destruct (clock_now s) as [t s'].
  by eapply (pays_trans _ 0 _ 0).
Qed.

#[local] Instance get_own_free r : Preserves (fun bs : B * S => pays r 0 (over bs)) get_own.
Proof. by intros [b s]. Qed.

#[local] Instance put_own_free r (b : B) : Preserves (fun bs : B * S => pays r 0 (over bs)) (put_own b).
Proof. by intros [b' s]. Qed.

Lemma get_own_is_free : free (S := B * S) get_own.
Proof. apply free_preserves. intros r. apply _. Qed.

End layer.

#[local] Existing Instances now_keeps_free get_own_free put_own_free.

Section sections.
Context {S : Type} `{Clock S, Over S R} {F : FreeClock S}.

Lemma allow_free opts : free (S := Breaker.State * S) (Breaker.allow opts).
Proof using F. apply free_preserves. intros r. unfold Breaker.allow. solve_preserves. Qed.

Lemma record_free opts ok : free (S := Breaker.State * S) (Breaker.record opts ok).
Proof using F. apply free_preserves. intros r. unfold Breaker.record. solve_preserves. Qed.

Lemma count_hit_free : free (S := BlockCache.State * S) BlockCache.count_hit.
Proof. apply free_preserves. intros r. unfold BlockCache.count_hit. solve_preserves. Qed.

Lemma remember_free opts k ttl : free (S := BlockCache.State * S) (BlockCache.remember opts k ttl).
Proof using F. apply free_preserves. intros r. unfold BlockCache.remember. solve_preserves. Qed.

End sections.

(** ** Store calls *)
Context (wanted : Key -> Prop) (RuleOk : Key -> Rule -> Prop) (BucketOk : Key -> Bucket -> Prop).

(** What the engine calls for a limiter. *)
Definition may_call (key : Key) (l : Limiter) : Prop :=
  if Bucket_Valid (Limiter_Bucket l) then BucketOk key (Limiter_Bucket l) else RuleOk key (Limiter_Rule l).

(** Every call that lets its caller through on a wanted key was granted one. *)
Definition accounts {S} `{Over S R} (c : CStore S) : Prop :=
  (forall key rule n, RuleOk key rule ->
     earns (c_Consume c key rule) n (fun n' o => forall res,
       o = Returns (res, None) -> Result_Blocked res = false -> wanted key -> n + 1 <= n')) /\
  (forall key b n, BucketOk key b ->
     earns (c_Take c key b) n (fun n' o => forall res,
       o = Returns (res, None) -> TakeResult_Allowed res = true -> wanted key -> n + 1 <= n')).

Section decorators.
Context {S : Type} `{Clock S, Over S R} {F : FreeClock S}.

Lemma pass_accounts {B} (c : CStore S) : accounts c -> accounts (c_pass (B := B) c).
Proof. intros [Hc Ht]. split; intros; apply earns_inner; auto. Qed.

(** The breaker answers without an error only what it was answered. *)
Lemma through_accounts opts {A} (zero : A) p n (P : Z -> A -> Prop) :
  earns p n (fun n' o => forall res, o = Returns (res, None) -> P n' res) ->
  earns (c_through opts zero p) n (fun n' o => forall res, o = Returns (res, None) -> P n' res).
Proof using F.
  intros Hp. apply earns_bind, earns_nothing; [apply allow_free|]. intros [[|]|v]; cbn [negb]; [|done..].
  apply earns_bind. eapply earns_mono; [apply earns_inner, Hp|]. intros n' [[res err]|v] _ Hres; [|done].
  apply earns_bind, earns_nothing; [apply record_free|]. intros [u|v]; [|done].
  intros res' [= -> ->]. by apply Hres.
Qed.

Lemma breaker_accounts opts (c : CStore S) : accounts c -> accounts (c_breaker opts c).
Proof using F.
  intros [Hc Ht]. split.
  - intros key rule n Hr.
    apply (through_accounts opts Result_zero _ n (fun n' res => Result_Blocked res = false -> wanted key -> n + 1 <= n')).
    by apply Hc.
  - intros key b n Hb.
    apply (through_accounts opts TakeResult_zero _ n
      (fun n' res => TakeResult_Allowed res = true -> wanted key -> n + 1 <= n')).
    by apply Ht.
Qed.

Lemma lookup_earns k n : earns (S := BlockCache.State * S) (c_lookup k) n (fun n' o => n' = n).
Proof using F.
  apply earns_bind, earns_nothing; [apply get_own_is_free|]. intros [b|v]; [|done].
  destruct (BlockCache.entries b !! k); [|done].
  apply earns_bind, earns_nothing; [apply clock_free|]. intros [t|v]; [|done]. by destruct (negb _).
Qed.

(** The cache answers of its own only blocks. *)
Lemma cache_accounts opts (c : CStore S) : accounts c -> accounts (c_cache opts c).
Proof using F.
  intros [Hc Ht]. split; intros key x n Hx; [|by apply earns_inner, Ht].
  apply earns_bind. eapply earns_mono; [apply lookup_earns|]. intros n' [[until [|]]|v] _ ->; [| |done].
  - apply earns_bind, earns_nothing; [apply count_hit_free|]. intros [u|v]; [|done].
    apply earns_bind, earns_nothing; [apply clock_free|]. intros [t|v]; [|done]. by intros res [= <-].
  - apply earns_bind. eapply earns_mono; [by apply earns_inner, Hc|].
    intros n' [[res [e|]]|v] _ Hres; [done| |done]. apply earns_bind.
    destruct (Result_Blocked res) eqn:Eb; cbn [andb].
    + destruct (_ >? _); [apply earns_nothing; [apply remember_free|]; intros [u|v]; [|done]|];
        by intros res' [= <-] Hf; rewrite Eb in Hf.
    + intros res' [= <-] _. by apply (Hres res).
Qed.

End decorators.
(** ** The engine *)
Section engine.
Context {U : Unicode} {J : JSONDecoder} {S : Type} `{Over S R}.
Context (c : CStore S) (Hc : accounts c).

(** The limiter that is watched, the limiters that run, and the request. *)
Context (name : string) (ls : list Limiter) (req0 : Request) (Hreq0 : coherent req0).
Context (Hkeyers : forall l, l ∈ ls -> settled (Limiter_Keyer l)).
Context (Hcalls : forall l v, l ∈ ls -> may_call (mkKey (Limiter_Name l) v) l).
Context (Hwatched : forall l v, l ∈ ls -> Limiter_Name l = name ->
  (Limiter_Keyer l req0).1 = Returns (v, true) -> wanted (mkKey (Limiter_Name l) v)).

(** The engine's frame still stands for the request. *)
Definition framed (f : frame) : Prop := coherent (frame_req f) /\ same_input req0 (frame_req f).

Lemma same_input_back r r' : same_input r r' -> same_input r' r.
Proof. unfold same_input. intuition congruence. Qed.

Lemma same_input_then r1 r2 r3 : same_input r1 r2 -> same_input r2 r3 -> same_input r1 r3.
Proof. unfold same_input. intuition congruence. Qed.

(** A limiter's bucket is its keyer's of the request. *)
Lemma bucket_own l f (s : S) :
  l ∈ ls -> framed f ->
  exists bkt ok f', bucket l (f, s) = (Returns (bkt, ok), (f', s)) /\ framed f' /\
    (ok = true -> (Limiter_Keyer l req0).1 = Returns (bkt, true)).
Proof using Hkeyers Hreq0.
  intros Hl [Hcoh Hsame]. destruct (Hkeyers l Hl (frame_req f) Hcoh) as (Hc1 & Hs1 & Hfun).
  specialize (Hfun req0 Hreq0 (same_input_back _ _ Hsame)).
  unfold bucket, grecover, on_req. destruct (Limiter_Keyer l (frame_req f)) as [o r1]. cbn [fst snd] in *.
  assert (coherent r1 /\ same_input req0 r1) as Hf by (split; [done|by eapply same_input_then]).
  destruct o as [[bkt ok]|v].
  - eexists bkt, ok, _. split; [done|]. split; [exact Hf|]. by intros ->.
  - eexists "", false, _. split; [reflexivity|]. split; [exact Hf|done].
Qed.

Lemma apply_keeps l bkt f n :
  l ∈ ls ->
  keeps (c_apply c l bkt) f n (fun n' f' o => f' = f /\ exists res err, o = Returns (res, err) /\
    (err = None -> Outcome_blocked res = false -> wanted (mkKey (Limiter_Name l) bkt) -> n + 1 <= n')).
Proof using Hc Hcalls.
  intros Hl. destruct Hc as [Hcons Htake]. specialize (Hcalls l bkt Hl). unfold may_call in Hcalls.
  apply keeps_recover. cbv zeta.
  destruct (Bucket_Valid (Limiter_Bucket l)); apply keeps_bind, keeps_inner.
  - eapply earns_mono; [by apply Htake|].
    intros n' [[res [e|]]|v] _ Hres; (split; [done|]); eexists _, _; (split; [done|]); [done| |done].
    intros _ Hb Hw. apply (Hres res); [done| |done]. by apply negb_false_iff.
  - eapply earns_mono; [by apply Hcons|].
    intros n' [[res [e|]]|v] _ Hres; (split; [done|]); eexists _, _; (split; [done|]); [done| |done].
    intros _ Hb Hw. by apply (Hres res).
Qed.

(** What is counted as allowed was granted. *)
Definition counted_paid (n : Z) (d : Decision) : Prop :=
  mkEvaluation name VerdictAllowed ∈ Decision_Evaluations d -> 1 <= n.

Lemma counted_more n n' d : n <= n' -> counted_paid n d -> counted_paid n' d.
Proof. unfold counted_paid. intros Hn Hd Hin. specialize (Hd Hin). lia. Qed.

Lemma counted_other n d d' l v :
  Decision_Evaluations d' = (Decision_Evaluations d ++ [mkEvaluation (Limiter_Name l) v])%list ->
  (v = VerdictAllowed -> Limiter_Name l = name -> 1 <= n) -> counted_paid n d -> counted_paid n d'.
Proof.
  unfold counted_paid. intros -> Hv Hd [Hin|Hin]%elem_of_app; [by apply Hd|].
  apply list_elem_of_singleton in Hin. injection Hin as En Ev. by apply Hv.
Qed.

Lemma would_block_evaluations d l res :
  Decision_Evaluations (would_block d l res)
    = (Decision_Evaluations d ++ [mkEvaluation (Limiter_Name l) VerdictWouldBlock])%list.
Proof. unfold would_block, evaluated. by destruct (negb _). Qed.

(** A request is turned away by a limiter that enforces. *)
Definition enforced_by (d : Decision) : Prop :=
  Rejected d = true -> exists l, l ∈ ls /\ Limiter_DryRun l = false /\ Decision_Limiter d = Limiter_Name l.

Lemma would_block_rejects d l res : Rejected d = false -> Rejected (would_block d l res) = false.
Proof. unfold Rejected, would_block. cbn [Decision_Blocked evaluated]. by destruct (Decision_Blocked d) eqn:E; cbn; rewrite ?E. Qed.

Lemma evaluate_from_keeps ls' : (forall l, l ∈ ls' -> l ∈ ls) -> forall d f n,
  0 <= n -> framed f -> counted_paid n d -> Rejected d = false ->
  keeps (c_evaluate_from c ls' d) f n (fun n' f' o =>
    exists d', o = Returns d' /\ counted_paid n' d' /\ enforced_by d').
Proof using All.
  induction ls' as [|l ls' IH]; intros Hsub d f n Hn Hf Hd Hr.
  { exists d. unfold enforced_by. by rewrite Hr. }
  assert (l ∈ ls) as Hl by (apply Hsub; by left).
  specialize (IH (fun l' Hl' => Hsub l' (list_elem_of_further _ _ _ Hl'))).
  cbn [c_evaluate_from]. apply keeps_bind, keeps_own. intros s _. eexists _, f. split; [reflexivity|].
  cbv beta iota. destruct (_ || _); [by apply IH|].
  apply keeps_bind, keeps_own. intros s' _.
  destruct (bucket_own l f s' Hl Hf) as (bkt & ok & f' & -> & Hf' & Hok). eexists _, f'. split; [reflexivity|].
  cbv beta iota. destruct ok; cbn [negb]; [|by apply IH]. specialize (Hok eq_refl).
  apply keeps_bind. eapply keeps_mono; [by apply apply_keeps|].
  intros n' f'' o Hn' (-> & res & err & -> & Hpaid). cbv beta iota.
  pose proof (counted_more _ n' _ Hn' Hd) as Hd'. destruct err as [e|].
  - apply keeps_bind, keeps_own. intros s'' _. eexists _, _. split; [reflexivity|]. cbv beta iota.
    apply IH; [lia|exact Hf'| |exact Hr]. by eapply (counted_other n' d _ l VerdictFailedOpen).
  - destruct (Outcome_blocked res) eqn:Eb; cbn [andb].
    + destruct (Limiter_DryRun l) eqn:El.
      * apply IH; [lia|done| |by apply would_block_rejects].
        eapply (counted_other n' d); [apply would_block_evaluations|done|done].
      * eexists. split; [done|]. split; [by eapply (counted_other n' d _ l VerdictBlocked)|]. intros _. by exists l.
    + apply IH; [lia|done| |exact Hr]. eapply (counted_other n' d _ l VerdictAllowed); [done| |done].
      intros _ En. specialize (Hpaid eq_refl eq_refl (Hwatched l bkt Hl En Hok)). lia.
Qed.

End engine.

(** ** The handler *)

(** A check answered and counted as its decision says. *)
Definition reports (h : Handler) (r : http_request) (x : exchange) (d : Decision) : Prop :=
  ex_writer x = reply_to h d /\
  exists t, ex_metrics x
    = (body_metrics (body_seen h r).2 ++ decision_metrics d ++ [HttpApi.ObserveCheck t])%list.

Section handler.
Context {U : Unicode} {S : Type} `{Clock S, Over S R} {F : FreeClock S}.
Context (c : CStore S) (h : Handler) (Hmetrics : h_metrics h = true) (Hresp : responses_ok h) (r : http_request).

Abbreviation req0 := (check_request r (body_seen h r).1).

(** What is known of the engine's decision and what was granted by then. *)
Context (D : Z -> Decision -> Prop).
Context (Hengine : keeps (c_Evaluate c (h_limiters h)) (mkFrame req0 []) 0
                     (fun n _ o => exists d, o = Returns d /\ D n d)).

(** The handler's own sections: what each counts and writes. *)
Lemma keeps_records {A} (m : GoM (exchange * S) A) x n a ms w (Q : Z -> exchange -> outcome A -> Prop) :
  (forall s, exists x', records m x s a s ms x') ->
  (forall s, exists x', m (x, s) = (Returns a, (x', s)) /\ ex_writer x' = w) ->
  (forall x', ex_metrics x' = (ex_metrics x ++ ms)%list -> ex_writer x' = w -> Q n x' (Returns a)) ->
  keeps (atomically m) x n Q.
Proof.
  intros Hm Hw HQ. apply keeps_own. intros s _. destruct (Hm s) as (x' & E & Ex). exists (Returns a), x'.
  destruct (Hw s) as (x2 & E2 & Ew). rewrite E in E2. injection E2 as Ex2. subst x2. auto.
Qed.

Lemma keeps_now x n (Q : Z -> exchange -> outcome Time -> Prop) :
  (forall t, Q n x (Returns t)) -> keeps (atomically now) x n Q.
Proof using F.
  intros HQ s Hs. pose proof (clock_free s Hs) as Hclk. exists 0. unfold now in Hclk |- *.
  unfold clock_now at 1 2 3, clock_layer.
  destruct (clock_now s) as [t s']. rewrite Z.add_0_r. split; [exact Hclk|apply HQ].
Qed.

Lemma c_evaluate_keeps x :
  keeps (c_evaluate c h req0) x 0 (fun n x' o => exists d, o = Returns d /\ D n d /\
    ex_writer x' = ex_writer x /\ ex_metrics x' = ex_metrics x).
Proof using Hengine.
  apply keeps_bind, keeps_inner, earns_private. eapply keeps_mono; [exact Hengine|].
  intros n f o _ (d & -> & Hd). cbv beta iota. apply keeps_own. intros s _.
  eexists _, _. split; [reflexivity|]. by exists d.
Qed.

Lemma check_body_keeps :
  keeps (c_check_body c h r) fresh_exchange 0 (fun n x o => exists d, o = Returns tt /\ D n d /\
    ex_writer x = reply_to h d /\ ex_metrics x = (body_metrics (body_seen h r).2 ++ decision_metrics d)%list).
Proof using F Hengine Hmetrics Hresp.
  unfold c_check_body. apply keeps_bind.
  eapply (keeps_records _ _ _ _ _ no_response);
    [intros s; apply readBody_records|intros s; destruct (readBody_run h r fresh_exchange s) as [lines E];
     eexists; split; [exact E|reflexivity]|].
  cbn [ex_writer ex_metrics fresh_exchange app]. intros x1 E1 W1. cbv beta iota.
  pose proof c_evaluate_keeps as Hev. clear Hengine. destruct (body_seen h r) as [b truncated]. cbn [fst snd] in *.
  apply keeps_bind.
  eapply keeps_records; [intros s; by apply truncation_records|intros s; apply truncation_writes_nothing|].
  intros x2 E2 W2. cbv beta iota zeta. apply keeps_bind. eapply keeps_mono; [apply Hev|].
  intros n x3 o _ (d & -> & Hd & W3 & E3). cbv beta iota. apply keeps_bind.
  eapply keeps_records; [intros s; by apply record_records| |].
  { intros s. destruct (record_run h d x3 s) as (x4 & E4 & W4 & _). by exists x4. }
  intros x4 E4 W4. cbv beta iota. apply keeps_bind.
  eapply keeps_records; [intros s; apply blocked_log_records|intros s; by destruct (Decision_Blocked d); eexists|].
  intros x5 E5 W5. cbv beta iota.
  assert (ex_writer x5 = no_response) as Hw5 by congruence.
  eapply (keeps_records _ _ _ _ _ (reply_to h d)); [intros s; by apply answer_records| |].
  { intros s. unfold reply_to. destruct (Rejected d).
    - apply writeBlocked_run; [by apply response_for_ok|done].
    - destruct x5 as [w wr lg me]. simpl in Hw5. subst w. by eexists. }
  intros x6 E6 W6. exists d. split_and!; [done..|]. by rewrite E6, E5, E4, E3, E2, E1, !app_nil_r.
Qed.

(** The goroutine of a check ends with its response, whatever goes on around it. *)
Lemma check_earns :
  earns (check c h r) 0 (fun n o => exists x d, o = Returns (Returns tt, x) /\ D n d /\ reports h r x d).
Proof using F Hengine Hmetrics Hresp.
  apply earns_private.
  eapply keeps_mono with (Q := fun n x o => exists d, o = Returns tt /\ D n d /\ reports h r x d).
  2: { intros n x o _ (d & -> & Hd). by exists x, d. }
  apply keeps_recover. unfold c_handleCheck. apply keeps_bind, keeps_now. intros start. cbv beta iota.
  apply keeps_defer. eapply keeps_mono; [apply check_body_keeps|].
  intros n x o _ (d & -> & Hd & W & E). apply keeps_bind, keeps_now. intros stop. cbv beta iota.
  eapply (keeps_records _ _ _ tt [HttpApi.ObserveCheck (Time.Sub stop start)] (ex_writer x)).
  - intros s. unfold measure. rewrite Hmetrics. apply metric_event_records.
  - intros s. unfold measure. rewrite Hmetrics. by eexists.
  - intros x' E' W'. exists d. split; [done|]. split; [done|]. split; [by rewrite W'|].
    exists (Time.Sub stop start). by rewrite E', E, <-app_assoc.
Qed.

End handler.

(** ** The watched limiter *)
Section watched.
Context {U : Unicode} {J : JSONDecoder} {S : Type} `{Clock S, Over S R} {F : FreeClock S}.
Context (c : CStore S) (Hc : accounts c) (h : Handler) (Hmetrics : h_metrics h = true) (Hresp : responses_ok h).
Context (name : string) (Hname : name <> "") (r : http_request).

Abbreviation ls := (h_limiters h).

Context (Hkeyers : forall l, l ∈ ls -> settled (Limiter_Keyer l)).
Context (Hcalls : forall l v, l ∈ ls -> may_call (mkKey (Limiter_Name l) v) l).
Context (Hwatched : forall l v, l ∈ ls -> Limiter_Name l = name ->
  (Limiter_Keyer l (check_request r (body_seen h r).1)).1 = Returns (v, true) -> wanted (mkKey (Limiter_Name l) v)).

(** The metric of a verdict that lets the request past the watched limiter. *)
Definition allowed_metric : metric := HttpApi.RecordDecision name (Verdict_string VerdictAllowed).

Lemma decision_metrics_allowed d :
  allowed_metric ∈ decision_metrics d -> mkEvaluation name VerdictAllowed ∈ Decision_Evaluations d.
Proof using Hname.
  unfold decision_metrics, allowed_metric. destruct (Decision_Evaluations d) as [|e evs].
  - intros Hin%list_elem_of_singleton. injection Hin as En. done.
  - generalize (e :: evs). clear e evs d. intros evs. induction evs as [|[l v] evs IH]; [by intros ?%elem_of_nil|].
    cbn [map List.concat]. intros [Hin|Hin]%elem_of_app; [|by right; apply IH].
    unfold evaluation_metrics in Hin. cbn [Evaluation_Limiter Evaluation_Verdict] in Hin.
    apply elem_of_cons in Hin as [Hin|Hin].
    + injection Hin as <- Ev. assert (v = VerdictAllowed) as -> by (by destruct v). left.
    + case_bool_decide; [by apply list_elem_of_singleton in Hin|by apply elem_of_nil in Hin].
Qed.

Lemma reports_allowed x d :
  reports h r x d -> allowed_metric ∈ ex_metrics x -> mkEvaluation name VerdictAllowed ∈ Decision_Evaluations d.
Proof using Hname.
  intros [_ [t ->]] [Hin|[Hin|Hin]%elem_of_app]%elem_of_app; [|by apply decision_metrics_allowed|].
  - unfold body_metrics, allowed_metric in Hin.
    destruct (body_seen h r).2; [by apply list_elem_of_singleton in Hin|by apply elem_of_nil in Hin].
  - by apply list_elem_of_singleton in Hin.
Qed.

(** A check was granted what it counts as allowed. *)
Definition paid (n : Z) (x : exchange) : Prop := allowed_metric ∈ ex_metrics x -> 1 <= n.

Lemma check_pays :
  earns (check c h r) 0 (fun n o => exists x d,
    o = Returns (Returns tt, x) /\ reports h r x d /\ enforced_by ls d /\ paid n x).
Proof using All.
  assert (coherent (check_request r (body_seen h r).1)) as Hreq0 by (by split; left).
  eapply earns_mono.
  { apply (check_earns c h Hmetrics Hresp r (fun n d => counted_paid name n d /\ enforced_by ls d)).
    eapply keeps_mono.
    - apply (evaluate_from_keeps c Hc name ls _ Hreq0 Hkeyers Hcalls Hwatched ls (fun l Hl => Hl)
               Decision_zero (mkFrame (check_request r (body_seen h r).1) []) 0);
        [done|by repeat split; left|by intros ?%elem_of_nil|done].
    - intros n f o _ (d & -> & Hd). by exists d. }
  intros n o _ (x & d & -> & [Hd He] & Hx). exists x, d. split_and!; [done..|].
  intros Hin. by apply Hd, (reports_allowed x).
Qed.

End watched.
End accounts.
