(* ===== verification/Ledgers.v ===== *)
(** * The ledgers of a bucket

    What Redis grants on one bucket, as a ledger of its state: for a window limiter the
    calls its window can still allow ([Quota]), for a token bucket what its level is worth
    ([TokenQuota]).  The calls of the Redis store account for what they grant, lost
    replies and calls on other buckets included. *)
From stdpp Require Import base list gmap strings relations.
From Stdlib Require Import ZArith Lia QArith Qround Ascii String Lqa.
From S2P Require Import Prelude.
From S2P Require Import GoStrings.
From S2P Require Import Float.
From S2P Require Import Store.
From S2P Require Import Redis.
From S2P Require Import RedisStore.
From S2P Require Import TokenBucket.
From S2P Require Import Quota.
From S2P Require Import TokenQuota.
From S2P Require Import Wiring.
From S2P Require Import Process.
From S2P Require Import Concurrent.
From S2P Require Import Accounts.

#[local] Open Scope Z_scope.

#[local] Obligation Tactic := idtac.

(** ** Calls about one bucket

    Calls within the stores' ranges, of which those on the bucket [k] are as [W] and [B]
    say. *)
Definition rule_on (k : Key) (W : Rule -> Prop) (key : Key) (r : Rule) : Prop :=
  Rule_in_range r /\ (same_bucket k key -> W r).
Definition bucket_on (k : Key) (B : Bucket -> Prop) (key : Key) (b : Bucket) : Prop :=
  Bucket_in_range b /\ (same_bucket k key -> B b).

Lemma same_bucket_back k k' : same_bucket k k' -> same_bucket k' k.
Proof. intros [E1 E2]. by split. Qed.

(** ** What a window grants

    The ledger of one bucket up to the instant [e]: what is granted comes out of what the
    window can still allow. *)
Section window_ledger.
Context {R : Type} `{RedisCommands R}.
Context (fmt_Rule : Rule -> string) (fmt_Bucket : Bucket -> string) (prefix : string).
Context (k : Key) (rule : Rule) (Hv : Rule_Valid rule = true) (Hrange : Rule_in_range rule) (e : Z).

Abbreviation store_ok := (store_ok prefix).
Abbreviation window_of := (window_of prefix).
Abbreviation redis_store := (NewWithClient fmt_Rule fmt_Bucket prefix).

(** What the bucket can still allow up to [e]. *)
Definition quota_left (r : R) : Z :=
  allowance (Rule_Limit rule) (seconds (Rule_Window rule)) (seconds (Rule_Block rule)) e (ms r) (window_of r k).

Definition grants (r : R) (d : Z) (r' : R) : Prop :=
  0 <= d /\ store_ok r' /\ ms r <= ms r' /\ (ms r' <= e -> d + quota_left r' <= quota_left r).

#[local] Program Instance window_ledger : Ledger R := {| sane := store_ok; pays := grants |}.
Next Obligation. by intros r d r' (_ & ? & _). Qed.
Next Obligation. by intros r d r' (? & _). Qed.
Next Obligation. intros r Hr. split_and!; [lia|done|lia|lia]. Qed.
Next Obligation.
  intros r1 d1 r2 d2 r3 (Hp1 & _ & Ht1 & Hq1) (Hp2 & Hok & Ht2 & Hq2). split_and!; [lia|done|lia|].
  intros He. specialize (Hq1 ltac:(lia)). specialize (Hq2 He). lia.
Qed.

Lemma quota_left_nonneg r : 0 <= quota_left r.
Proof using Hv Hrange. destruct (rule_ranges rule Hv Hrange) as (? & _). by apply allowance_nonneg. Qed.

Lemma quota_left_start r : store_ok r -> ms r <= e ->
  quota_left r <= Rule_Limit rule * ((e - ms r) / period (seconds (Rule_Window rule)) (seconds (Rule_Block rule)) + 2).
Proof using Hv Hrange.
  intros (_ & Hk & _) He. destruct (rule_ranges rule Hv Hrange) as (? & ? & ?). apply allowance_start; [done..|].
  intros n x En. destruct (Hk k) as (_ & _ & Hn & _). by destruct (Hn n x En).
Qed.

(** Time passing grants nothing, nor does what leaves the bucket's window as it was. *)
Lemma grants_idle r r' : store_ok r -> idle r r' -> grants r 0 r'.
Proof using Hv Hrange.
  intros Hr Hi. pose proof Hi as (_ & Ht & _). destruct (rule_ranges rule Hv Hrange) as (Hl & Hw & Hb).
  split_and!; [lia|by eapply store_ok_idle|done|]. intros _. unfold quota_left.
  rewrite (window_of_idle prefix _ _ k Hr Hi). by apply allowance_lapse.
Qed.

Lemma grants_same r r' : store_ok r' -> ms r' = ms r -> window_of r' k = window_of r k -> grants r 0 r'.
Proof. intros Hr Ht Hw. split_and!; [lia|done|lia|]. intros _. unfold quota_left. rewrite Ht, Hw. lia. Qed.

(** A counted call on the bucket takes one off it when it is allowed. *)
Lemma grants_step key r r' :
  same_bucket k key -> stepped prefix r key rule r' ->
  grants r (Z.b2z (negb (refused (rule_step rule (ms r) (window_of r key)).1))) r'.
Proof using Hv Hrange.
  intros Hs (Hok & Ht & Hw & _). destruct (rule_ranges rule Hv Hrange) as (Hl & Hwin & Hb).
  split_and!; [by destruct (refused _)|done|lia|]. intros He. unfold quota_left.
  rewrite Ht in He. rewrite !(window_of_same prefix _ _ _ Hs) in *. rewrite Ht, Hw.
  assert (forall x, 1000 <= x -> 0 < ttl_round x) as Httl
    by (intros x Hx; destruct (ttl_round_near x); lia).
  pose proof (allowance_step (Rule_Limit rule) _ _ Hl Hwin Hb ttl_round e (ms r) (window_of r k)
                He Httl) as Ha.
  fold (rule_step rule (ms r) (window_of r k)) in Ha. by destruct (rule_step rule (ms r) (window_of r k)).
Qed.

(** Calls on the bucket are counted, under its rule. *)
Abbreviation ruled := (rule_on k (fun r => r = rule)).
Abbreviation spared := (bucket_on k (fun _ => False)).

Lemma grants_call key r' r s :
  store_ok s -> ruled key r -> stepped prefix s key r r' ->
  exists d, grants s d r' /\
    (refused (rule_step r (ms s) (window_of s key)).1 = false -> same_bucket k key -> 1 <= d).
Proof using Hv Hrange.
  intros Hs [Hr Hsame] Hst. destruct (stdpp.base.decide (same_bucket k key)) as [Hk|Hk].
  - specialize (Hsame Hk) as ->. eexists. split; [by apply grants_step|]. intros -> _. done.
  - exists 0. split; [|done]. destruct Hst as (Hok & Ht & _ & Ho & _). apply grants_same; [done..|].
    apply Ho. intros Hk'. by apply Hk, same_bucket_back.
Qed.

Lemma redis_accounts : accounts (same_bucket k) ruled spared (one_section redis_store).
Proof using H1 Hv Hrange.
  split.
  - intros key r n Hr. apply earns_atomically. intros s Hs. cbn [Store.Consume NewWithClient].
    destruct (Rule_Valid r) eqn:Hval.
    + destruct (Consume_refines fmt_Rule prefix s key r Hs Hval (proj1 Hr)) as (res & err & s' & -> & Hm).
      cbn [fst snd over over_self].
      destruct ((transport s).1); destruct Hm as (-> & He & Hst).
      * destruct (grants_call key s' r s Hs Hr Hst) as (d & Hd & Hp). exists d. split; [done|].
        intros res [= <- _] Hb Hk. specialize (Hp Hb Hk). lia.
      * destruct Hst as (Hok & Ht & Hk). exists 0. split; [|by intros res [= _ E]].
        apply grants_same; [done..|]. unfold RedisStore.window_of. by rewrite Hk.
      * destruct (grants_call key s' r s Hs Hr Hst) as (d & Hd & _). exists d. split; [done|]. by intros res [= _ E].
    + exists 0. unfold Redis_Consume. rewrite Hval. cbn [negb]. split; [|by intros res [= _ E]].
      by apply grants_same.
  - intros key b n [Hb Hk]. apply earns_atomically. intros s Hs. cbn [Store.Take NewWithClient].
    assert (exists res err s', Redis_Take fmt_Bucket prefix key b s = (Returns (res, err), s') /\ grants s 0 s')
      as (res & err & s' & -> & Hg).
    { destruct (Bucket_Valid b) eqn:Hval.
      - destruct (Take_refines fmt_Bucket prefix s key b Hs Hval Hb) as (res & err & s' & E & _ & Hm).
        exists res, err, s'. split; [done|].
        assert (took prefix s key b s' -> grants s 0 s') as Htook.
        { intros (Hok & Ht & _ & _ & Hw). by apply grants_same. }
        destruct ((transport s).1); destruct Hm as (_ & _ & Hst); [by apply Htook| |by apply Htook].
        destruct Hst as (Hok & Ht & HK). apply grants_same; [done..|]. unfold RedisStore.window_of. by rewrite HK.
      - unfold Redis_Take. rewrite Hval. eexists _, _, s. split; [reflexivity|]. by apply grants_same. }
    exists 0. split; [done|]. intros res' _ _ Hkey. destruct (Hk Hkey).
Qed.

End window_ledger.

(** ** What a token bucket grants

    The ledger of one bucket up to the instant [e]: a token granted comes out of the
    bucket's worth, but for the rounding of its subtraction. *)
Section token_ledger.
Context {R : Type} `{RedisCommands R}.
Context (fmt_Rule : Rule -> string) (fmt_Bucket : Bucket -> string) (prefix : string).
Context (k : Key) (b : Bucket) (Hv : Bucket_Valid b = true) (Hrange : Bucket_in_range b) (e : Z).

Abbreviation store_ok := (store_ok prefix).
Abbreviation level_of := (level_of prefix).
Abbreviation redis_store := (NewWithClient fmt_Rule fmt_Bucket prefix).
Abbreviation rate := (Bucket_Rate b).
Abbreviation burst := (Bucket_Burst b).

Definition worth_left (r : R) : Q := worth rate burst e (ms r) (level_of r k).

(** Redis holds the bucket, if at all, as a call with these parameters left it. *)
Definition token_ok (r : R) : Prop := store_ok r /\ kept prefix k b r /\ exact (level_of r k).

Definition token_price : Q := (1 - eps * inject_Z burst)%Q.

Definition sells (r : R) (d : Z) (r' : R) : Prop :=
  0 <= d /\ token_ok r' /\ ms r <= ms r' /\
  (ms r' <= e -> (inject_Z d * token_price + worth_left r' <= worth_left r)%Q).

#[local] Program Instance token_ledger : Ledger R := {| sane := token_ok; pays := sells |}.
Next Obligation. by intros r d r' (_ & ? & _). Qed.
Next Obligation. by intros r d r' (? & _). Qed.
Next Obligation. intros r Hr. split_and!; [lia|done|lia|]. intros _. change (inject_Z 0) with 0%Q. lra. Qed.
Next Obligation.
  intros r1 d1 r2 d2 r3 (Hp1 & _ & Ht1 & Hq1) (Hp2 & Hok & Ht2 & Hq2). split_and!; [lia|done|lia|].
  intros He. specialize (Hq1 ltac:(lia)). specialize (Hq2 He). rewrite inject_Z_plus. lra.
Qed.

Lemma sells_idle r r' : token_ok r -> idle r r' -> sells r 0 r'.
Proof using Hv Hrange.
  intros (Hr & Hk & Hex) Hi. pose proof Hi as (_ & Ht & _). destruct (Bucket_ranges b Hv Hrange) as [Hrate Hburst].
  destruct (kept_idle prefix k b r r' Hk Hi) as [Hk' El]. split_and!; [lia| |done|].
  - split_and!; [by eapply store_ok_idle|done|]. rewrite El. intros n t E. apply (Hex n t).
    unfold faded in E. destruct (level_of r k) as [[n' t']|]; [|done]. by destruct (_ <? _).
  - intros _. unfold worth_left. rewrite El. change (inject_Z 0) with 0%Q.
    pose proof (worth_lapse rate burst Hrate Hburst e (ms r) (ms r') (level_of r k) (level_of_ok prefix r k Hr) Ht). lra.
Qed.

(** The bucket's key as it was. *)
Lemma sells_same r r' :
  token_ok r -> store_ok r' -> ms r' = ms r ->
  keys r' !! key_of prefix KTokens k = keys r !! key_of prefix KTokens k -> sells r 0 r'.
Proof.
  intros (_ & Hk & Hex) Hr' Ht HK. pose proof (level_of_key prefix r r' k HK) as El.
  split_and!; [lia| |lia|].
  - split_and!; [done|by unfold kept; rewrite HK|by rewrite El].
  - intros _. unfold worth_left. rewrite El, Ht. change (inject_Z 0) with 0%Q. lra.
Qed.

Lemma sells_step key r r' :
  token_ok r -> same_bucket k key -> took prefix r key b r' ->
  sells r (Z.b2z (granted (bucket_step b (ms r) (level_of r key)).1)) r'.
Proof using Hv Hrange.
  intros (Hr & _ & Hex) Hs Htook. pose proof Htook as (Hok & Ht & Hleft & _).
  destruct (Bucket_ranges b Hv Hrange) as [Hrate Hburst].
  pose proof (level_of_took prefix r key b r' k Htook (same_bucket_back _ _ Hs)) as El.
  assert (level_of r key = level_of r k) as Ek by (unfold TokenBucket.level_of; by rewrite (key_of_same prefix _ _ _ Hs)).
  rewrite Ek in *.
  pose proof (take_step_spare rate burst Hrate Hburst (ms r) (level_of r k) (level_of_ok prefix r k Hr) Hex) as Hst.
  fold (bucket_step b (ms r) (level_of r k)) in Hst.
  destruct (bucket_step b (ms r) (level_of r k)) as [p x]. cbn [fst snd] in *. destruct Hst as [Hst Hx].
  split_and!; [by destruct (granted p)| |lia|].
  - split_and!; [done| |rewrite El; by intros n t [= <- _]].
    right. exists x, (ms r). by rewrite (key_of_same prefix _ _ _ Hs).
  - intros _. unfold worth_left, worth, token_price. rewrite El, Ht. lra.
Qed.

(** Calls on the bucket take tokens, at its rate and burst. *)
Abbreviation uncounted := (rule_on k (fun _ => False)).
Abbreviation taken := (bucket_on k (fun b' => b' = b)).

Lemma sells_call key b' r r' :
  token_ok r -> taken key b' -> took prefix r key b' r' ->
  exists d, sells r d r' /\
    (granted (bucket_step b' (ms r) (level_of r key)).1 = true -> same_bucket k key -> 1 <= d).
Proof using Hv Hrange.
  intros Hr [Hb Hsame] Htook. destruct (stdpp.base.decide (same_bucket k key)) as [Hk|Hk].
  - specialize (Hsame Hk) as ->. eexists. split; [by apply sells_step|]. by intros -> _.
  - exists 0. split; [|done]. destruct Htook as (Hok & Ht & _ & Ho & _). apply sells_same; [done..|].
    apply Ho. intros Hk'. by apply Hk, same_bucket_back.
Qed.

Lemma token_accounts : accounts (same_bucket k) uncounted taken (one_section redis_store).
Proof using H1 Hv Hrange.
  split.
  - intros key r n [Hr Hk]. apply earns_atomically. intros s Hs. cbn [Store.Consume NewWithClient].
    assert (exists res err s', Redis_Consume fmt_Rule prefix key r s = (Returns (res, err), s') /\ sells s 0 s')
      as (res & err & s' & -> & Hg).
    { destruct (Rule_Valid r) eqn:Hval.
      - destruct (Consume_refines fmt_Rule prefix s key r (proj1 Hs) Hval Hr) as (res & err & s' & E & Hm).
        exists res, err, s'. split; [done|].
        assert (stepped prefix s key r s' -> sells s 0 s') as Hstep.
        { intros (Hok & Ht & _ & _ & HK). by apply sells_same. }
        destruct ((transport s).1); destruct Hm as (_ & _ & Hst); [by apply Hstep| |by apply Hstep].
        destruct Hst as (Hok & Ht & HK). apply sells_same; [done..|]. by rewrite HK.
      - unfold Redis_Consume. rewrite Hval. eexists _, _, s. split; [reflexivity|].
        apply sells_same; [done|apply Hs|done|done]. }
    exists 0. split; [done|]. intros res' _ _ Hkey. destruct (Hk Hkey).
  - intros key b' n Hb. apply earns_atomically. intros s Hs. cbn [Store.Take NewWithClient].
    destruct (Bucket_Valid b') eqn:Hval.
    + destruct (Take_refines fmt_Bucket prefix s key b' (proj1 Hs) Hval (proj1 Hb)) as (res & err & s' & -> & _ & Hm).
      cbn [fst snd over over_self].
      destruct ((transport s).1); destruct Hm as (-> & He & Hst).
      * destruct (sells_call key b' s s' Hs Hb Hst) as (d & Hd & Hp). exists d. split; [done|].
        intros res [= <- _] Ha Hk. specialize (Hp Ha Hk). lia.
      * destruct Hst as (Hok & Ht & HK). exists 0. split; [|by intros res [= _ E]].
        apply sells_same; [done..|]. by rewrite HK.
      * destruct (sells_call key b' s s' Hs Hb Hst) as (d & Hd & _). exists d. split; [done|]. by intros res [= _ E].
    + exists 0. unfold Redis_Take. rewrite Hval. cbn [negb]. split; [|by intros res [= _ E]].
      apply sells_same; [done|apply Hs|done|done].
Qed.

Lemma worth_left_nonneg r : token_ok r -> ms r <= e -> (0 <= worth_left r)%Q.
Proof using Hv Hrange.
  intros (Hr & _) He. destruct (Bucket_ranges b Hv Hrange) as [Hrate Hburst]. unfold worth_left, worth.
  pose proof (spare_nonneg rate burst Hrate Hburst (ms r) _ (level_of_ok prefix r k Hr)).
  assert (0 <= e - ms r) as Hleft by lia.
  pose proof (Qmult_le_0_compat _ _ (inject_nonneg _ Hleft) (per_ms_nonneg rate burst Hrate Hburst)). lra.
Qed.

Lemma worth_left_start r : (worth_left r <= inject_Z burst + inject_Z (e - ms r) * per_ms rate burst)%Q.
Proof. apply worth_start. Qed.

End token_ledger.
