(* ===== verification/Fleet.v ===== *)
(** * Replicas ([cmd/forwardlimit], many instances over one Redis)

    Any number of goroutines, each serving one [/check] on one of any number of replicas:
    every replica has a cache and a breaker of its own, all share Redis.  Their sections
    ([Concurrent]) interleave in any order; replicas start, stop and forget at any
    moment, goroutines stop half-way, and other clients use the same Redis.  What a limiter
    lets through is bounded all the same, and no check waits for another. *)
From stdpp Require Import base list gmap strings relations.
From Stdlib Require Import ZArith Lia QArith Ascii String Lqa.
From S2P Require Import Prelude.
From S2P Require Import GoStrings.
From S2P Require Import Store.
From S2P Require Import Float.
From S2P Require Import Request.
From S2P Require Import Limiter.
From S2P Require Import Engine.
From S2P Require Import Redis.
From S2P Require Import RedisStore.
From S2P Require Import TokenBucket.
From S2P Require Import Quota.
From S2P Require Import Keyer.
From S2P Require Import HttpApi.
From S2P Require Import ConfigEnv.
From S2P Require Import ConfigFile.
From S2P Require Import ConfigBuild.
From S2P Require Import Wiring.
From S2P Require Import Service.
From S2P Require Breaker BlockCache.
From S2P Require Import Chain.
From S2P Require Import Process.
From S2P Require Import Concurrent.
From S2P Require Import Accounts.
From S2P Require Import TokenQuota.
From S2P Require Import Ledgers.

#[local] Open Scope string_scope.
#[local] Open Scope Z_scope.

#[local] Instance metric_eq_dec : EqDecision metric.
Proof. solve_decision. Defined.

(** ** The fleet *)

(** What a replica holds in memory: the cache's map and the breaker's fields. *)
Definition memory : Type := BlockCache.State * Breaker.State.
Definition fresh_memory : memory := (BlockCache.New, Breaker.New).

Section replicas.
Context {R : Type}.

(** The replicas' memories, and Redis. *)
Definition fleet : Type := gmap nat memory * R.

(** A section of replica [i]; one that was not there before starts empty. *)
Definition on_replica (i : nat) {T} (m : GoM (chain (R := R)) T) : GoM fleet T :=
  fun s =>
    let '(bc, br) := default fresh_memory (s.1 !! i) in
    let '(o, (bc, (br, r))) := m (bc, (br, s.2)) in
    (o, (<[i := (bc, br)]> s.1, r)).

#[global] Instance over_fleet : Over fleet R := fun s => s.2.

End replicas.

(** A request and the replica the proxy put it to. *)
Record arrival : Type := mkArrival { at_replica : nat; asked : http_request }.

Section serving.
Context {U : Unicode} {C : Certificates} {FS : FileSystem} {R : Type} {G : GoRedis R}.
Context (clock_of : nat -> Clock R).
Context (fmt_Rule : Rule -> string) (fmt_Bucket : Bucket -> string) (cfg : Config).
Context (rs : redis_handle (R := R)) (h : Handler).

(** The goroutine of a check on its replica, which reads its own clock. *)
Definition check_on (a : arrival) : process fleet (outcome unit * exchange) :=
  let _ := clock_of (at_replica a) in
  pmap (fun T => on_replica (at_replica a)) (check (c_assemble fmt_Rule fmt_Bucket cfg rs) h (asked a)).

(** A request of the bucket [v] of the limiter [l]. *)
Definition keyed_on (l : Limiter) (v : string) (r : http_request) : bool :=
  match (Limiter_Keyer l (check_request r (body_seen h r).1)).1 with
  | Returns (b, true) => bool_decide (SanitizeBucket b = SanitizeBucket v)
  | _ => false
  end.

(** A check that is done, of that bucket, and counted as allowed by the limiter. *)
Definition let_past (l : Limiter) (v : string) (t : arrival * process (fleet (R := R)) (outcome unit * exchange)) :
    bool :=
  match t.2 with
  | Done (Returns (_, x)) => keyed_on l v (asked t.1) && bool_decide (allowed_metric (Limiter_Name l) ∈ ex_metrics x)
  | _ => false
  end.

End serving.

(** ** The bound on a fleet *)
Section fleet.
Context {U : Unicode} {J : JSONDecoder} {M : MapRange} {HM : HMAC256} {Y : YAMLDecoder}.
Context {C : Certificates} {FS : FileSystem} {R : Type} {G : GoRedis R}.
Context (rs : redis_handle (R := R)).

#[local] Instance client_redis : Redis R := rs_client rs.

Context `{!LawfulRedis R} `{!RedisCommands R}.
Context (fmt_Rule : Rule -> string) (fmt_Bucket : Bucket -> string) (cfg : Config).
Context (clock_of : nat -> Clock R).

Abbreviation prefix := (rs_prefix rs).
Abbreviation program := (check_on clock_of fmt_Rule fmt_Bucket cfg rs).

(** A section on a replica does to Redis what it does on the chain. *)
Lemma check_on_earns {LR : Ledger R} (h : Handler) a n Q :
  (let _ := clock_of (at_replica a) in
   earns (check (c_assemble fmt_Rule fmt_Bucket cfg rs) h (asked a)) n Q) ->
  earns (program h a) n Q.
Proof.
  intros He. eapply earns_map; [|exact He]. intros T m [reps r] Hr. unfold on_replica. cbn [fst snd].
  destruct (default fresh_memory (reps !! at_replica a)) as [bc br]. exists (bc, (br, r)). split; [exact Hr|].
  by destruct (m (bc, (br, r))) as [o [bc' [br' r']]].
Qed.

(** What the chain of a replica accounts for is what its Redis does. *)
Lemma assemble_accounts {LR : Ledger R} wanted RuleOk BucketOk i :
  FreeClock (H := clock_of i) R ->
  accounts wanted RuleOk BucketOk (one_section (redis_of fmt_Rule fmt_Bucket rs)) ->
  accounts wanted RuleOk BucketOk (let _ := clock_of i in c_assemble fmt_Rule fmt_Bucket cfg rs).
Proof.
  intros F Hr. cbv zeta. unfold c_assemble, c_with_cache, c_with_breaker.
  assert (accounts wanted RuleOk BucketOk
    (match breaker_options cfg with
     | Some opts => c_breaker (H := clock_of i) opts (one_section (redis_of fmt_Rule fmt_Bucket rs))
     | None => c_pass (one_section (redis_of fmt_Rule fmt_Bucket rs))
     end)) as Hb by (destruct (breaker_options cfg); [by apply breaker_accounts|by apply pass_accounts]).
  destruct (cache_options cfg); [|by apply pass_accounts].
  apply cache_accounts; [by apply free_clock_layer|done].
Qed.

(** *** A loaded file's limiters *)
Section loaded.
Context (path : string) (f : File) (secret : string) (b : Built) (MaxBodyBytes : Z).
Context (Hload : LoadFile path = inl f) (Hread : bodies_readable f) (Hbuild : Build f secret = Returns (inl b)).

Abbreviation h := (service b MaxBodyBytes).
Abbreviation ls := (Built_Limiters b).

Lemma loaded_limiters :
  Forall ready ls /\ NoDup (map Limiter_Name ls) /\ "" ∉ map Limiter_Name ls /\ responses_ok h.
Proof using Hload Hread Hbuild.
  destruct (loaded_ready path f secret Hload Hread) as (b' & Eb & Hready & Hnd & Hsub & Hd & Hm).
  rewrite Hbuild in Eb. injection Eb as <-. split_and!; [done..| |by apply service_responses_ok].
  intros Hin. apply LoadFile_inv in Hload as (_ & _ & Hnames & _ & _).
  pose proof (elem_of_sublist _ _ _ Hin Hsub) as Hin'. apply list_elem_of_fmap in Hin' as (spec & E & Hspec).
  rewrite Forall_forall in Hnames. specialize (Hnames _ Hspec). by rewrite <-E in Hnames.
Qed.

(** The goroutine of a check, over any ledger. *)
Lemma loaded_earns {LR : Ledger R} wanted RuleOk BucketOk name a :
  (forall i, FreeClock (H := clock_of i) R) ->
  accounts wanted RuleOk BucketOk (one_section (redis_of fmt_Rule fmt_Bucket rs)) ->
  name <> "" ->
  (forall l v, l ∈ ls -> may_call RuleOk BucketOk (mkKey (Limiter_Name l) v) l) ->
  (forall l v, l ∈ ls -> Limiter_Name l = name ->
     (Limiter_Keyer l (check_request (asked a) (body_seen h (asked a)).1)).1 = Returns (v, true) ->
       wanted (mkKey (Limiter_Name l) v)) ->
  earns (program h a) 0 (fun n o => exists x d,
    o = Returns (Returns tt, x) /\ reports h (asked a) x d /\ enforced_by ls d /\ paid name n x).
Proof using Hload Hread Hbuild.
  intros Hclk Hr Hname Hcalls Hw. destruct loaded_limiters as (Hready & _ & _ & Hresp).
  apply check_on_earns. cbv zeta.
  apply (check_pays wanted RuleOk BucketOk _ (assemble_accounts _ _ _ _ (Hclk _) Hr) h eq_refl Hresp name Hname);
    [|done..].
  intros l Hl. rewrite Forall_forall in Hready. by apply Hready.
Qed.

(** A name no limiter has. *)
Definition other : string := stdpp.base.fresh ("" :: map Limiter_Name ls).

Lemma other_fresh : other <> "" /\ forall l, l ∈ ls -> Limiter_Name l <> other.
Proof.
  assert (other ∉ "" :: map Limiter_Name ls) as Hother by apply infinite_is_fresh. split.
  - intros E. apply Hother. rewrite E. by left.
  - intros l Hl E. apply Hother. rewrite <-E. right. by apply list_elem_of_fmap_2.
Qed.

(** C7: no check waits for another.  Whatever the other goroutines and replicas do in
    between, and whatever Redis does - answer, fail, lose its keys -, a check is over
    after nine turns for each limiter and ten more.  It has answered its decision, an
    empty 200 or the response of a limiter of the file that enforces, and has counted it:
    what [check_answers_decision] and [check_counted] say of a check on its own holds in
    any company. *)
Theorem check_wait_free i a ts s mvs :
  ts !! i = Some (a, program h a) -> (9 * List.length ls + 10 <= turns i mvs)%nat ->
  exists x d, (plays (program h) mvs (ts, s)).1 !! i = Some (a, Done (Returns (Returns tt, x))) /\
    reports h (asked a) x d /\ enforced_by ls d.
Proof using C G Hload Hread Hbuild.
  intros Hi Hturns.
  assert (exists o, (plays (program h) mvs (ts, s)).1 !! i = Some (a, Done o) /\
    exists x d, o = Returns (Returns tt, x) /\ reports h (asked a) x d /\ enforced_by ls d)
    as (o & E & x & d & -> & Hx); [|by exists x, d].
  assert (within (List.length ls * (6 + 3) + 10) (program h a)) as Hw.
  { apply within_map. exact (check_within _ 6 (assemble_brief _ _ cfg rs) h (asked a)). }
  apply (turns_end (OS := over_fleet) _ i mvs _ ts s a _ _ Hi) with (2 := Hw); [|lia].
  destruct other_fresh as [Hne Hother].
  eapply earns_mono; [eapply (loaded_earns (fun _ => False) (fun _ _ => True) (fun _ _ => True) other a)|]; try done.
  - split; intros key r n _; apply earns_atomically; intros st _; exists 0; by repeat split.
  - intros l v _. unfold may_call. by destruct (Bucket_Valid _).
  - intros l v Hl E. by destruct (Hother l Hl).
  - intros n o _ (x & d & -> & Hx & He & _). by exists x, d.
Qed.

(** *** One limiter's bucket *)
Section bucket.
Context (l : Limiter) (v : string) (Hl : l ∈ ls).

Abbreviation name := (Limiter_Name l).
Abbreviation k := (mkKey name v).

Lemma keyed_on_bucket r b' :
  (Limiter_Keyer l (check_request r (body_seen h r).1)).1 = Returns (b', true) ->
  keyed_on h l v r = true <-> same_bucket k (mkKey name b').
Proof.
  intros E. unfold keyed_on. rewrite E, bool_decide_eq_true. unfold same_bucket. simpl.
  split; [intros ->; by split|by intros [_ ->]].
Qed.

(** Over a ledger of the bucket: [W] and [B] hold of the limiter's own rule and bucket. *)
Section ledger.
Context {LR : Ledger R} (W : Rule -> Prop) (B : Bucket -> Prop).
Context (Hclocks : forall i r, sane r -> pays r 0 (@clock_now R (clock_of i) r).2).
Context (Hacc : accounts (same_bucket k) (rule_on k W) (bucket_on k B) (one_section (redis_of fmt_Rule fmt_Bucket rs))).
Context (Hown : if Bucket_Valid (Limiter_Bucket l) then B (Limiter_Bucket l) else W (Limiter_Rule l)).

Lemma bucket_earns a :
  earns (program h a) 0 (fun n o => exists x, o = Returns (Returns tt, x) /\
    (keyed_on h l v (asked a) = true -> paid name n x)).
Proof using All.
  destruct loaded_limiters as (Hready & Hnd & Hne & _). rewrite Forall_forall in Hready.
  assert (forall l', l' ∈ ls -> Limiter_Name l' = name -> l' = l) as Honly.
  { intros l' Hl' E. by eapply NoDup_map_inj. }
  assert (forall i, FreeClock (H := clock_of i) R) as Hfree.
  { intros i r Hr. pose proof (Hclocks i r Hr) as Hg. unfold now. by destruct (clock_now r). }
  assert (forall l' v', l' ∈ ls -> may_call (rule_on k W) (bucket_on k B) (mkKey (Limiter_Name l') v') l') as Hcalls.
  { intros l' v' Hl'. destruct (Hready l' Hl') as (_ & _ & Hr & Hb). unfold may_call.
    destruct (Bucket_Valid (Limiter_Bucket l')) eqn:Eb; (split; [done|]); intros [E _]; symmetry in E;
      rewrite (Honly l' Hl' E) in *; by rewrite Eb in Hown. }
  destruct (keyed_on h l v (asked a)) eqn:Ek.
  - eapply earns_mono; [eapply (loaded_earns _ _ _ name a Hfree Hacc); [|exact Hcalls|]|].
    + intros E. apply Hne. rewrite <-E. by apply list_elem_of_fmap_2.
    + intros l' v' Hl' E. rewrite (Honly l' Hl' E). intros Ev. by apply (keyed_on_bucket (asked a)).
    + intros n o _ (x & d & -> & _ & _ & Hp). by exists x.
  - destruct other_fresh as [Hoe Hother].
    eapply earns_mono; [eapply (loaded_earns _ _ _ other a Hfree Hacc Hoe Hcalls)|].
    + intros l' v' Hl' E. by destruct (Hother l' Hl').
    + intros n o _ (x & d & -> & _). by exists x.
Qed.

(** Whatever a fleet lets past was paid for. *)
Lemma bucket_count (world : fleet -> fleet -> Prop) reps r0 ts reps' r :
  (forall s s', sane (over s) -> world s s' -> pays (over s) 0 (over s')) ->
  sane r0 -> rtc (pool_step (program h) (fun _ => True) world) ([], (reps, r0)) (ts, (reps', r)) ->
  exists d, pays r0 d r /\ Z.of_nat (List.length (List.filter (let_past h l v) ts)) <= d.
Proof using All.
  intros Hworld Hr0 Hrun.
  apply (pool_count (program h) (fun _ => True) world
    (fun a n o => exists x, o = Returns (Returns tt, x) /\ (keyed_on h l v (asked a) = true -> paid name n x))
    (fun a _ => bucket_earns a) Hworld (let_past (R := R) h l v) (reps, r0) ts (reps', r) Hr0 Hrun).
  - intros a o n (x & -> & Hp) Hlet. cbn [let_past snd] in Hlet. apply andb_true_iff in Hlet as [Hk Hin].
    apply bool_decide_eq_true in Hin. by apply Hp.
  - intros a [o|]; [by exists o|done].
Qed.

End ledger.

(** **** A window limiter's *)
Section window.
Context (Hwindow : Bucket_Valid (Limiter_Bucket l) = false).
Context (Hclocks : forall i r, store_ok prefix r -> idle r (@clock_now R (clock_of i) r).2).

Abbreviation rule := (Limiter_Rule l).

(** What else goes on: replicas start, stop and forget, time passes, and anything happens
    in Redis that keeps its keys' types and leaves the bucket's window as it is. *)
Definition around (s s' : fleet (R := R)) : Prop :=
  idle s.2 s'.2 \/
  (store_ok prefix s'.2 /\ ms s'.2 = ms s.2 /\ window_of prefix s'.2 k = window_of prefix s.2 k).

Lemma limiter_rule : Rule_Valid rule = true /\ Rule_in_range rule.
Proof using MaxBodyBytes Hload Hread Hbuild Hl Hwindow.
  destruct loaded_limiters as (Hready & _). rewrite Forall_forall in Hready.
  destruct (Hready l Hl) as (Ha & _ & Hr & _). split; [|done]. unfold Active in Ha.
  by rewrite Hwindow, orb_false_r in Ha.
Qed.

(** C1: what a fleet lets through.  Any number of replicas share one Redis, each with the
    chain [buildStore] assembles, a clock of its own and the same file; any number of
    goroutines serve checks on them, their critical sections and round trips in any
    order, replicas coming and going.  Over any [T] milliseconds the checks on one bucket
    of a window limiter that come out counted "allowed" are at most
    [limit * (T / period + 2)]: what one instance lets through, not one per replica. *)
Theorem fleet_admission_bound reps r0 ts reps' r T :
  store_ok prefix r0 -> ms r <= ms r0 + T ->
  rtc (pool_step (program h) (fun _ => True) around) ([], (reps, r0)) (ts, (reps', r)) ->
  Z.of_nat (List.length (List.filter (let_past h l v) ts))
    <= Rule_Limit rule * (T / period (seconds (Rule_Window rule)) (seconds (Rule_Block rule)) + 2).
Proof using All.
  intros Hr0 HT Hrun. destruct limiter_rule as [Hv Hrange].
  pose proof (redis_accounts fmt_Rule fmt_Bucket prefix k rule Hv Hrange (ms r0 + T)) as Hacc.
  destruct (bucket_count (LR := window_ledger prefix k rule (ms r0 + T)) _ _
    (fun i r Hr => grants_idle prefix k rule Hv Hrange _ r _ Hr (Hclocks i r Hr)) Hacc
    ltac:(by rewrite Hwindow) around reps r0 ts reps' r) as (d & Hd & Hcount); [|done..|].
  - intros s s' Hs [Hi|(Hok & Ht & Hw)]; [by apply grants_idle|by apply grants_same].
  - destruct Hd as (_ & _ & Ht & Hq). specialize (Hq HT).
    pose proof (quota_left_nonneg prefix k rule Hv Hrange (ms r0 + T) r).
    assert (ms r0 <= ms r0 + T) as He by lia.
    pose proof (quota_left_start prefix k rule Hv Hrange (ms r0 + T) r0 Hr0 He) as Hs.
    replace (ms r0 + T - ms r0) with T in Hs by ring. lia.
Qed.

End window.

(** **** A token bucket's *)
Section tokens.
Context (Htokens : Bucket_Valid (Limiter_Bucket l) = true).
Context (Hclocks : forall i r, store_ok prefix r -> idle r (@clock_now R (clock_of i) r).2).

Abbreviation bucket := (Limiter_Bucket l).

(** As [around], but what is left as it is is the bucket's level. *)
Definition around_tokens (s s' : fleet (R := R)) : Prop :=
  idle s.2 s'.2 \/
  (store_ok prefix s'.2 /\ ms s'.2 = ms s.2 /\
   keys s'.2 !! key_of prefix KTokens k = keys s.2 !! key_of prefix KTokens k).

(** C4: and of a token bucket.  In the same fleet, the checks on one bucket of a token
    bucket limiter that come out counted "allowed" within [T] milliseconds are at most
    [burst + rate * T / 1000], however many calls are made: but for rounding, which is
    charged to the tokens granted and to the milliseconds, 2^-53 of the burst each and
    twice that, and three parts in 2^53 of the refill. *)
Theorem fleet_token_bound reps r0 ts reps' r T :
  token_ok prefix k bucket r0 -> ms r <= ms r0 + T ->
  rtc (pool_step (program h) (fun _ => True) around_tokens) ([], (reps, r0)) (ts, (reps', r)) ->
  (inject_Z (Z.of_nat (List.length (List.filter (let_past h l v) ts))) * (1 - eps * inject_Z (Bucket_Burst bucket))
   <= inject_Z (Bucket_Burst bucket) +
      inject_Z T * (inject_Z (Bucket_Rate bucket) / 1000 * (1 + 3 * eps) + 2 * eps * inject_Z (Bucket_Burst bucket)))%Q.
Proof using All.
  intros Hr0 HT Hrun. destruct loaded_limiters as (Hready & _). rewrite Forall_forall in Hready.
  destruct (Hready l Hl) as (_ & _ & _ & Hrange).
  pose proof (token_accounts fmt_Rule fmt_Bucket prefix k bucket Htokens Hrange (ms r0 + T)) as Hacc.
  destruct (bucket_count (LR := token_ledger prefix k bucket (ms r0 + T)) _ _
    (fun i r Hr => sells_idle prefix k bucket Htokens Hrange _ r _ Hr (Hclocks i r (proj1 Hr))) Hacc
    ltac:(by rewrite Htokens) around_tokens reps r0 ts reps' r) as (d & Hd & Hcount); [|done..|].
  - intros s s' Hs [Hi|(Hok & Ht & HK)]; [by apply sells_idle|by apply sells_same].
  - destruct Hd as (_ & Hok & Ht & Hq). specialize (Hq HT).
    pose proof (worth_left_nonneg prefix k bucket Htokens Hrange (ms r0 + T) r Hok HT) as Hn.
    pose proof (worth_left_start prefix k bucket (ms r0 + T) r0) as Hs.
    replace (ms r0 + T - ms r0) with T in Hs by ring.
    pose proof (inject_le _ _ Hcount) as Hc. destruct (Bucket_ranges bucket Htokens Hrange) as [_ Hburst].
    pose proof (inject_le (Bucket_Burst bucket) (2 ^ 40) ltac:(lia)) as Hb. change (inject_Z (2 ^ 40)) with (1099511627776 # 1)%Q in Hb.
    unfold token_price, per_ms in *.
    assert (0 <= 1 - eps * inject_Z (Bucket_Burst bucket))%Q as Hp by (unfold eps; lra).
    pose proof (Qmult_le_compat_r _ _ _ Hc Hp). lra.
Qed.

End tokens.
End bucket.

End loaded.

End fleet.

(** ** Instances of the theorems *)
Section examples.

#[local] Existing Instances ascii_only one_body range_forward zero_hmac one_file sample_decoder
  no_certificates dial_sim.

(** The replicas' clocks are a second apart. *)
Definition skewed (i : nat) : Clock sim_redis := fun r => (sim_ms r * Millisecond + Z.of_nat i * Second, r).

Lemma sim_still r : store_ok "forwardlimit:" r -> idle r r.
Proof.
  intros [Hr _]. split_and!; [done|simpl; lia|]. symmetry. unfold expire. apply map_filter_id.
  intros k e Hk. by apply (keys_live r k).
Qed.

(** What the sample file builds without a secret: the login limiter, five a minute. *)
Definition sample_built : Built :=
  match Build sample_file "" with Returns (inl b) => b | _ => mkBuilt [] ∅ (mkResponse 0 "" "") [] end.

Definition sample_login : Limiter :=
  List.hd (mkLimiter "" (mkRule 0 0 0) Bucket_zero (gret ("", false)) [] [] false false) (Built_Limiters sample_built).

Abbreviation sample_service := (service sample_built 0).
Abbreviation sample_fleet rs := (check_on skewed no_fmt_Rule no_fmt_Bucket defaults rs sample_service).
Abbreviation sample_move := (move (L := arrival) (S := fleet (R := sim_redis))).

(** [n] turns for each of the goroutines [who]. *)
Fixpoint rounds (n : nat) (who : list nat) : list sample_move :=
  match n with O => [] | S n => (map Turn who ++ rounds n who)%list end.

(** A second after the start, seven login attempts from one network at two replicas, served
    at the same time. *)
Definition crowd : list sample_move :=
  (Passes (∅, sim_wait 1000 empty_redis) ::
   map (fun i => Start (mkArrival i attempt)) [0; 1; 1; 0; 0; 1; 1]%nat ++
   rounds 19 [0; 1; 2; 3; 4; 5; 6]%nat)%list.

Lemma fleet_admission_bound_witness :
  let c := plays (sample_fleet up) crowd ([], (∅, empty_redis)) in
  let past := List.filter (let_past sample_service sample_login "203.0.113.0/24") c.1 in
  List.length past = 5%nat /\
  Z.of_nat (List.length past) <=
    Rule_Limit (Limiter_Rule sample_login) *
      (1000 / period (seconds (Rule_Window (Limiter_Rule sample_login)))
                (seconds (Rule_Block (Limiter_Rule sample_login))) + 2).
Proof.
  intros c past. split; [vm_compute; reflexivity|].
  apply (fleet_admission_bound up no_fmt_Rule no_fmt_Bucket defaults skewed "/etc/forwardlimit/config.yaml"
    sample_file "" sample_built 0 sample_loaded sample_readable eq_refl sample_login "203.0.113.0/24")
    with (reps := ∅) (r0 := empty_redis) (reps' := c.2.1) (r := c.2.2).
  - by left.
  - by vm_compute.
  - intros i r Hr. by apply sim_still.
  - apply empty_ok.
  - by vm_compute.
  - rewrite <-!surjective_pairing. apply plays_reachable. split.
    + left. apply sim_idle; [done|apply (empty_ok "fl:")|by vm_compute].
    + by apply legal_turns.
Defined.

(** With a secret the file's second limiter runs too: ten a second, twenty at once, keyed by
    the hash of the Authorization header. *)
Definition hashing_built : Built :=
  match Build sample_file "k" with Returns (inl b) => b | _ => mkBuilt [] ∅ (mkResponse 0 "" "") [] end.

Definition sample_tokens : Limiter :=
  List.last (Built_Limiters hashing_built)
    (mkLimiter "" (mkRule 0 0 0) Bucket_zero (gret ("", false)) [] [] false false).

Definition api_call : http_request :=
  mkHttpRequest "GET" "/check" ""
    {["X-Forwarded-Uri" := ["/v2/items"]; "X-Forwarded-Method" := ["GET"]; "Authorization" := ["Bearer abc"]]} None.

(** Twenty-four calls with one token at two replicas. *)
Definition flood : list sample_move :=
  (map (fun i => Start (mkArrival (Nat.modulo i 2) api_call)) (seq 0 24) ++ rounds 28 (seq 0 24))%list.

Lemma fleet_token_bound_witness :
  let h := service hashing_built 0 in
  let c := plays (check_on skewed no_fmt_Rule no_fmt_Bucket defaults up h) flood ([], (∅, empty_redis)) in
  let past := List.filter (let_past h sample_tokens
    "0000000000000000000000000000000000000000000000000000000000000000") c.1 in
  List.length past = 20%nat /\
  (inject_Z (Z.of_nat (List.length past)) * (1 - eps * inject_Z (Bucket_Burst (Limiter_Bucket sample_tokens)))
   <= inject_Z (Bucket_Burst (Limiter_Bucket sample_tokens)) +
      inject_Z 0 * (inject_Z (Bucket_Rate (Limiter_Bucket sample_tokens)) / 1000 * (1 + 3 * eps)
                    + 2 * eps * inject_Z (Bucket_Burst (Limiter_Bucket sample_tokens))))%Q.
Proof.
  intros h c past. split; [vm_compute; reflexivity|].
  apply (fleet_token_bound up no_fmt_Rule no_fmt_Bucket defaults skewed "/etc/forwardlimit/config.yaml"
    sample_file "k" hashing_built 0 sample_loaded sample_readable eq_refl sample_tokens
    "0000000000000000000000000000000000000000000000000000000000000000")
    with (reps := ∅) (r0 := empty_redis) (reps' := c.2.1) (r := c.2.2).
  - right. by left.
  - by vm_compute.
  - intros i r Hr. by apply sim_still.
  - split; [apply empty_ok|]. split; [by left|by intros n t].
  - by vm_compute.
  - rewrite <-!surjective_pairing. apply plays_reachable. by apply legal_turns.
Defined.

(** An attempt at a replica whose Redis is behind a dead network, among the others. *)
Lemma check_wait_free_witness :
  let ts := map (fun i => let a := mkArrival i attempt in (a, sample_fleet down_handle a)) [0; 1; 1]%nat in
  (9 * 1 + 10 <= turns 1 (rounds 19 [0; 1; 2]%nat))%nat /\
  exists x d, (plays (sample_fleet down_handle) (rounds 19 [0; 1; 2]%nat) (ts, (∅, empty_redis))).1 !! 1%nat
      = Some (mkArrival 1 attempt, Done (Returns (Returns tt, x))) /\
    reports sample_service attempt x d /\ enforced_by (Built_Limiters sample_built) d.
Proof.
  intros ts. split; [vm_compute; lia|].
  apply (check_wait_free down_handle no_fmt_Rule no_fmt_Bucket defaults skewed "/etc/forwardlimit/config.yaml"
    sample_file "" sample_built 0 sample_loaded sample_readable eq_refl); [reflexivity|vm_compute; lia].
Defined.

End examples.
